(* ===== verification/_CoqProject ===== *)
-Q . S2P
Prelude.v
Arrays.v
Rows.v
Linear.v
Bytes.v
LlvmIr.v
LoopLimiter.v
LlvmModel.v
LoopLimiterBound.v
LoopTest.v
LoopLimiterPass.v
LoopLimiterSim.v
LoopPlugin.v
LoopValid.v
LoopNest.v
LoopShadow.v
LoopLimiterTerm.v
Runner.v
RunnerIo.v
Stdin.v
Shifts.v
Leakage.v
ToyAes.v
BitLength.v
Toys.v
Slicing.v
BranchTracker.v
ReplayTrace.v
ConstantTime.v
CbcPadding.v
CbcCopyMac.v
MdHash.v
Sha1.v
CbcDigest.v
BlockCipher.v
DesSpec.v
DesTables.v
Cast5Tables.v
Cast5.v
BlowfishTables.v
Blowfish.v
Ghostrider.v
Des.v
DesCipher.v
LibgDesTables.v
LibgDes.v
RadixSort.v
Dijkstra.v
ThreeWay.v
Loki91.v
StreamCiphers.v
CbcDriver.v
Drivers.v
Arc2.v
PyCastTables.v
PyCast.v
