(* ===== verification/Prelude.v ===== *)
(** * Verification of klee-deps: words, automation and shared lemmas.

    klee-deps finds secret-dependent branches and memory accesses in C programs.
    It runs KLEE variants, BINSEC and ABACUS on benchmarks, bounds their loops with
    an LLVM pass, and replays the witnesses under a Pin tracer.  This library
    models the C and C++ the repository itself contains, and part of the benchmark
    code it analyses.  The parts and their files, in the order they are compiled:

    ** Shared
    - [Prelude] (this file): machine words as [Z] ([wrap], [sgn], [word], [sword]),
      the operators of C in [word_scope], the hint databases [word], [bits] and
      [words].
    - [Arrays]: C arrays as lists with checked accesses ([rd], [wr], [slice],
      [blit]), where [None] is an access outside the object, and counted loops.
    - [Rows]: square arrays of rows and loops over their cells.
    - [Linear]: maps that are linear for the exclusive or; two that agree on a basis are
      equal, which evaluation decides.  Permutations, expansions, rotations, key
      schedules and diffusion layers are compared this way.
    - [Bytes]: big- and little-endian codecs.
    - [Leakage]: computations that emit what a constant-time checker observes
      (branch outcomes and array indices with their source lines).

    ** The loop limiter, [loop-limiter/LoopLimiter.cpp]
    - [LlvmIr]: control-flow graphs and their execution.  The program's own
      instructions, phis, conditions and terminators are parameters; the
      instructions the pass creates are constructors with a meaning.  A run emits
      the events of the loop counters: reset, increment, check.
    - [LoopLimiter]: the pass.  [run_pass] is [LoopLimiter::run]: [both_lists],
      [count_loops], [is_allowed], then the worklist [process], whose body is
      [instrument_loop] with [canonical_exit], [widen_exit] (break mode) and
      [split_header] (otherwise).  What is asked of LLVM (preheader, latches, new
      blocks, [splitBasicBlock]) is the class [LLVM] with its documented laws;
      [LlvmModel] is an instance, so that the laws can hold.
    - [LoopLimiterBound], [LoopLimiterPass]: the invariant of an instrumented loop
      ([counted], and [entered]: reset on entry only, incremented on every way back),
      kept by every later edit; [loop_limit_enforced]: in any run, from
      any state, the checks of one activation pass at most limit times, and a check
      that reports the limit reached leads to a silent exit or out of the loop;
      [run_pass_accounting]: totality, statistics, the two lists.
    - [LoopLimiterSim]: [loop_limiter_transparent], by a simulation for each of the
      two rewrites: up to the first check that reports the limit reached, the
      output runs as the input does.
    - [LoopNest], [LoopShadow], [LoopLimiterTerm]: [instrumented_terminates].  For a
      function whose loops are a nest of natural loops with one latch each
      ([nest], decidable), and of which no loop is skipped, every run of the output
      ends within [run_bound] blocks, whatever the program does.  [LoopNest] has the
      lexicographic measure, [LoopShadow] what each step leaves of the original
      graph, [LoopLimiterTerm] the descent along runs.
    - [LoopValid]: [run_pass_valid], the rules of LLVM's verifier the model can
      express (phis against predecessors, definitions before uses, slots) are kept.
    - [LoopPlugin]: the rest of the plugin, that is the messages, the statistics
      printed at exit, the registration, and the calls of [run] over a process
      ([run_module]): [run_module_accounting].
    - [LoopTest]: [loop-limiter/test.c] before and after the pass, for every limit.

    ** The runner and the tracer
    - [Runner]: [include/runner.h].  [main] of the four modes in a monad of the
      memory, the calls made so far and endings; a generated header is the class
      [Generated].  The theorem gives the order of the phases and every error exit.
    - [RunnerIo]: [include/original_stdin_runner.h] refines a plain byte stream.
    - [Stdin]: that stream as an interface, a class of [read] and [write] with their
      laws; programs that read numbers are proved against it, and [RunnerIo] meets it.
    - [ReplayTrace]: [pin-tracer/replay_trace.cpp].  The log reads back to the
      events of the run.

    ** Tests and examples
    - [BranchTracker]: [testing-symbolic/].
    - [ToyAes], [BitLength], [Toys]: [examples/], [memory/], [test-binsec/] and the
      constrained case of [testing-concrete/]; what each program computes and
      exactly what it leaks.
    - [Slicing]: [slicing-tests/], each program against its slice.

    ** Benchmarks
    - [ConstantTime], [CbcPadding], [CbcCopyMac], [MdHash], [Sha1], [CbcDigest],
      [CbcDriver]: [benchmarks/openssl_almeida/], the Lucky 13 code of OpenSSL against
      branching references and FIPS 180-4, and its driver.
    - [BlockCipher] (the interface of block ciphers and the chaining modes proved
      against it), [Cast5Tables], [Cast5]: [benchmarks/libg/cast5.c].
    - [DesSpec], the cipher of FIPS 46-3; [DesTables], [Des], [DesCipher]:
      [benchmarks/appliedCryp/des.c]; [LibgDesTables], [LibgDes]:
      [benchmarks/libg/des.c].  Both programs keep the block rotated by one bit, merge
      the S-boxes with the permutation and cook the subkeys, and are proved equal to
      the standard in both modes ([des_fips], [libg_des_fips]).
    - [BlowfishTables], [Blowfish], [StreamCiphers], [Arc2], [PyCastTables],
      [PyCast]: the ciphers of [benchmarks/pycrypto/src/]; [PyCast] is proved equal
      to [Cast5].
    - [Ghostrider], [RadixSort], [Dijkstra]: the six programs of
      [benchmarks/ghostrider/] over any [Stdin]; [ghostrider_programs].
    - [Shifts] (signed and unsigned words), [ThreeWay], [Loki91]: the other two
      ciphers of [benchmarks/appliedCryp/].  Their words are signed: [three_way] shows what would be
      true with unsigned words and that no decryption exists as it is.
    - [Drivers]: the wrappers of findmax, matmul, ARC4, 3-Way, LOKI91 and both DES, which
      run a program on [RunnerIo], and [Runner.main] around them; [wrapped_benchmarks], which
      includes [CbcDriver].

    ** Bounds and fuel
    The worklist and the count of the pass take the number of loops of the forest
    as fuel, and [run_pass_accounting] shows that it is enough.  [LlvmIr.run] takes
    a number of blocks; theorems hold for every number, and where a run is said to
    end a number is given.  [RunnerIo.read_loop] has one unit per segment,
    [BitLength.top_word] one per word, [BinSearch.binarySearch] one per entry and
    [RadixSort.digits_loop] one per decimal digit, which their theorems show to be
    enough.  Bounds in statements are those of the C types, or said where they are
    smaller.

    ** Not modelled
    LLVM, Pin, libc and mbedtls themselves (parameters); the markers [klee_make_symbolic] and the
    like, whose effect is that the theorems hold for every input; the Python and
    shell tools, which are not C; the test inputs under [testing-concrete/tests/];
    the third-party releases under [benchmarks/], and with them Camellia, SEED and
    Twofish of [benchmarks/libg/] and AES and DES of pycrypto: copies of libgcrypt and
    libtomcrypt that no benchmark of [configs/] runs. *)

From Stdlib Require Export ZArith Lia Btauto.
From stdpp Require Export prelude list.

Declare Scope word_scope.
Delimit Scope word_scope with word.
Local Open Scope Z_scope.

(** ** Automation databases

    [word] resolves range goals, [bits] rewrites [Z.testbit] of the bitwise
    operations, [words] rewrites nested truncations away. *)
Create HintDb word discriminated.

(** ** Words

    A [w]-bit unsigned integer is a [Z] in [[0, 2^w)]; [wrap w] is the
    conversion to it, [sgn w] the conversion to the two's complement integer of
    the same width. *)
Definition wrap (w z : Z) : Z := z mod 2 ^ w.
Definition sgn (w z : Z) : Z := (z + 2 ^ (w - 1)) mod 2 ^ w - 2 ^ (w - 1).
Definition word (w z : Z) : Prop := 0 <= z < 2 ^ w.
Definition sword (w z : Z) : Prop := - 2 ^ (w - 1) <= z < 2 ^ (w - 1).

Abbreviation u8 := (wrap 8).
Abbreviation u16 := (wrap 16).
Abbreviation u32 := (wrap 32).
Abbreviation u64 := (wrap 64).
Abbreviation s32 := (sgn 32).

(** C's bitwise operators on words: [^], [&], [|]; shifts are stdpp's [≪], [≫]. *)
Infix ".^" := Z.lxor (at level 48, left associativity) : word_scope.
Infix ".&" := Z.land (at level 46, left associativity) : word_scope.
Infix ".|" := Z.lor (at level 50, left associativity) : word_scope.

(** Complement of an unsigned [w]-bit word. *)
Definition wnot (w z : Z) : Z := wrap w (Z.lnot z).

(** Rotation of a [w]-bit word, [(x << n) | (x >> (w - n))]. *)
Definition rotl (w x n : Z) : Z :=
  Z.lor (wrap w (Z.shiftl x n)) (Z.shiftr x (w - n)).

Section words.
Implicit Types (w x y z i : Z).

Lemma wrap_range w z : 0 <= w -> word w (wrap w z).
Proof. intros. unfold word, wrap. apply Z.mod_pos_bound. lia. Qed.

Lemma wrap_small w z : word w z -> wrap w z = z.
Proof. intros. unfold word, wrap in *. by apply Z.mod_small. Qed.

Lemma sgn_small w z : 1 <= w -> sword w z -> sgn w z = z.
Proof.
  unfold sword, sgn. intros Hw Hz. assert (2 ^ w = 2 * 2 ^ (w - 1)) as E.
  { rewrite <-Z.pow_succ_r by lia. f_equal; lia. }
  rewrite Z.mod_small by lia. lia.
Qed.
Lemma sgn_range w z : 1 <= w -> sword w (sgn w z).
Proof.
  intros Hw. unfold sword, sgn. assert (2 ^ w = 2 * 2 ^ (w - 1)) as E.
  { rewrite <-Z.pow_succ_r by lia. f_equal; lia. }
  pose proof (Z.mod_pos_bound (z + 2 ^ (w - 1)) (2 ^ w) ltac:(apply Z.pow_pos_nonneg; lia)). lia.
Qed.
Lemma wrap_wrap w z : wrap w (wrap w z) = wrap w z.
Proof. unfold wrap. apply Z.mod_mod_divide. exists 1. lia. Qed.

Lemma wrap_add_l w x y : wrap w (wrap w x + y) = wrap w (x + y).
Proof. unfold wrap. apply Zplus_mod_idemp_l. Qed.
Lemma wrap_add_r w x y : wrap w (x + wrap w y) = wrap w (x + y).
Proof. unfold wrap. apply Zplus_mod_idemp_r. Qed.
Lemma wrap_sub_l w x y : wrap w (wrap w x - y) = wrap w (x - y).
Proof. unfold wrap. apply Zminus_mod_idemp_l. Qed.
Lemma wrap_sub_r w x y : wrap w (x - wrap w y) = wrap w (x - y).
Proof. unfold wrap. apply Zminus_mod_idemp_r. Qed.
Lemma wrap_mul_l w x y : wrap w (wrap w x * y) = wrap w (x * y).
Proof. unfold wrap. apply Zmult_mod_idemp_l. Qed.
Lemma wrap_mul_r w x y : wrap w (x * wrap w y) = wrap w (x * y).
Proof. unfold wrap. apply Zmult_mod_idemp_r. Qed.

(** Subtracting what was added, and conversely, cancels. *)
Lemma wrap_add_sub w x y : word w x -> wrap w (wrap w (x + y) - y) = x.
Proof.
  intros. rewrite wrap_sub_l. replace (x + y - y) with x by lia.
  by apply wrap_small.
Qed.

Lemma word_mono w w' z : word w z -> w <= w' -> word w' z.
Proof.
  unfold word. intros [? ?] ?. split; [lia|].
  destruct (decide (w < 0)) as [Hn|].
  - rewrite Z.pow_neg_r in * by lia. lia.
  - eapply Z.lt_le_trans; [eassumption|]. by apply Z.pow_le_mono_r.
Qed.

Lemma word_testbit w z i : word w z -> w <= i -> Z.testbit z i = false.
Proof.
  intros Hz Hi. rewrite <-(wrap_small w z) by done. unfold wrap.
  destruct (decide (0 <= w)).
  - apply Z.mod_pow2_bits_high. lia.
  - unfold word in Hz. rewrite Z.pow_neg_r in Hz by lia. lia.
Qed.

Lemma word_intro_bits w z :
  0 <= w -> (forall i, w <= i -> Z.testbit z i = false) -> word w z.
Proof.
  intros Hw Hz. replace z with (wrap w z); [by apply wrap_range|].
  apply Z.bits_inj'. intros i Hi. unfold wrap.
  destruct (decide (i < w)).
  - by apply Z.mod_pow2_bits_low.
  - rewrite Z.mod_pow2_bits_high by lia. symmetry. apply Hz. lia.
Qed.

Lemma testbit_wrap w z i :
  0 <= w -> Z.testbit (wrap w z) i = (i <? w) && Z.testbit z i.
Proof. intros. unfold wrap. by apply Z.testbit_mod_pow2. Qed.

Lemma word_land w x y : 0 <= w -> word w x -> word w (Z.land x y).
Proof.
  intros Hw Hx. apply word_intro_bits; [done|]. intros i Hi.
  rewrite Z.land_spec, (word_testbit w x) by done. done.
Qed.
Lemma word_land_r w x y : 0 <= w -> word w y -> word w (Z.land x y).
Proof. rewrite Z.land_comm. apply word_land. Qed.
Lemma word_lor w x y : 0 <= w -> word w x -> word w y -> word w (Z.lor x y).
Proof.
  intros Hw Hx Hy. apply word_intro_bits; [done|]. intros i Hi.
  by rewrite Z.lor_spec, (word_testbit w x), (word_testbit w y).
Qed.
Lemma word_lxor w x y : 0 <= w -> word w x -> word w y -> word w (Z.lxor x y).
Proof.
  intros Hw Hx Hy. apply word_intro_bits; [done|]. intros i Hi.
  by rewrite Z.lxor_spec, (word_testbit w x), (word_testbit w y).
Qed.
Lemma word_shiftr w x n : 0 <= n -> word w x -> word w (Z.shiftr x n).
Proof.
  unfold word. intros Hn [? ?]. rewrite Z.shiftr_div_pow2 by done.
  assert (0 < 2 ^ n) by (apply Z.pow_pos_nonneg; lia).
  split; [by apply Z.div_pos|].
  apply Z.le_lt_trans with x; [|done]. apply Z.div_le_upper_bound; nia.
Qed.
(** A right shift by [n] leaves [w - n] bits. *)
Lemma word_shiftr_sub w x n : 0 <= n <= w -> word w x -> word (w - n) (Z.shiftr x n).
Proof.
  unfold word. intros Hn [? ?]. rewrite Z.shiftr_div_pow2 by lia.
  assert (0 < 2 ^ n) by (apply Z.pow_pos_nonneg; lia).
  split; [by apply Z.div_pos|].
  apply Z.div_lt_upper_bound; [done|]. rewrite <-Z.pow_add_r by lia.
  by replace (n + (w - n)) with w by lia.
Qed.
Lemma word_wnot w x : 0 <= w -> word w (wnot w x).
Proof. apply wrap_range. Qed.
Lemma word_rotl w x n : 0 <= n <= w -> word w x -> word w (rotl w x n).
Proof.
  intros. apply word_lor; [lia|apply wrap_range; lia|].
  apply word_shiftr; [lia|done].
Qed.

(** The top bit of a word is the comparison with half the range. *)
Lemma testbit_top w x :
  0 < w -> word w x -> Z.testbit x (w - 1) = (2 ^ (w - 1) <=? x).
Proof.
  intros Hw [? Hx].
  assert (2 ^ w = 2 * 2 ^ (w - 1)) as E
    by (rewrite <-Z.pow_succ_r by lia; f_equal; lia).
  destruct (Z.leb_spec (2 ^ (w - 1)) x).
  - rewrite Z.testbit_true by lia.
    replace (x / 2 ^ (w - 1)) with 1; [done|].
    apply Z.div_unique with (x - 2 ^ (w - 1)); lia.
  - rewrite Z.testbit_false by lia. by rewrite Z.div_small by lia.
Qed.
Lemma shiftr_top w x :
  0 < w -> word w x ->
  Z.shiftr x (w - 1) = if 2 ^ (w - 1) <=? x then 1 else 0.
Proof.
  intros Hw [? Hx].
  assert (2 ^ w = 2 * 2 ^ (w - 1)) as E
    by (rewrite <-Z.pow_succ_r by lia; f_equal; lia).
  rewrite Z.shiftr_div_pow2 by lia.
  destruct (Z.leb_spec (2 ^ (w - 1)) x).
  - symmetry. apply Z.div_unique with (x - 2 ^ (w - 1)); lia.
  - apply Z.div_small. lia.
Qed.

Lemma lxor_cancel_r x y : Z.lxor (Z.lxor x y) y = x.
Proof. by rewrite Z.lxor_assoc, Z.lxor_nilpotent, Z.lxor_0_r. Qed.
Lemma lxor_cancel_l x y : Z.lxor x (Z.lxor x y) = y.
Proof. by rewrite <-Z.lxor_assoc, Z.lxor_nilpotent, Z.lxor_0_l. Qed.

(** Masking with all ones truncates. *)
Lemma land_mask w x : 0 <= w -> Z.land x (2 ^ w - 1) = wrap w x.
Proof. intros. unfold wrap. rewrite <-Z.land_ones, Z.ones_equiv by done. done. Qed.
Lemma land_ones_word w x : 0 <= w -> word w x -> Z.land (2 ^ w - 1) x = x.
Proof. intros. rewrite Z.land_comm, land_mask by done. by apply wrap_small. Qed.
Lemma wnot_ones w : 0 <= w -> wnot w (2 ^ w - 1) = 0.
Proof.
  intros. unfold wnot, wrap, Z.lnot, Z.pred. 
  replace (- (2 ^ w - 1) + -1) with ((-1) * 2 ^ w) by lia.
  apply Z.mod_mul. lia.
Qed.
Lemma wnot_zero w : 0 <= w -> wnot w 0 = 2 ^ w - 1.
Proof.
  intros. unfold wnot, wrap, Z.lnot, Z.pred.
  rewrite <-(Z.mod_add _ 1) by lia. rewrite Z.mod_small by lia. lia.
Qed.
End words.

#[export] Hint Resolve wrap_range word_land word_lor word_lxor word_shiftr
  word_wnot word_rotl : word.
#[export] Hint Extern 1 (_ <= _) => lia : word.
#[export] Hint Extern 1 (_ <= _ <= _) => lia : word.
#[export] Hint Extern 2 (word _ _) => (unfold word; simpl; lia) : word.

(** Solve a range goal [word w t] from the shape of [t]. *)
Ltac word_range := first [lia | assumption | solve [eauto 8 with word]].
