(* ===== verification/Arrays.v ===== *)
(** * Checked arrays and counted loops.

    A C array is a list; [rd]/[wr] are the accesses [a[i]] and [a[i] = v], with
    [None] for an index outside the object (undefined behaviour in C), so a
    theorem that a function returns [Some] is also a memory-safety theorem.
    [slice] and [blit] are the source and the destination of a [memcpy].
    [for_range] is [for (i = lo; i < hi; i++)] over a state; [loop] is the same
    loop when its body cannot fail. *)
From S2P Require Import Prelude.
Local Open Scope Z_scope.

Section access.
Context {A : Type}.
Implicit Types (l src : list A) (i n : Z).

Definition zlen l : Z := Z.of_nat (length l).

Definition rd l i : option A :=
  if i <? 0 then None else l !! Z.to_nat i.

Definition wr l i (v : A) : option (list A) :=
  if (0 <=? i) && (i <? zlen l) then Some (<[Z.to_nat i := v]> l) else None.

Definition slice l i n : option (list A) :=
  if (0 <=? i) && (0 <=? n) && (i + n <=? zlen l)
  then Some (take (Z.to_nat n) (drop (Z.to_nat i) l)) else None.

Definition blit l i src : option (list A) :=
  if (0 <=? i) && (i + zlen src <=? zlen l)
  then Some (take (Z.to_nat i) l ++ src ++ drop (Z.to_nat i + length src) l)
  else None.

Lemma rd_Some l i : 0 <= i < zlen l -> exists v, rd l i = Some v.
Proof.
  intros [Hi Hl]. unfold rd, zlen in *.
  destruct (Z.ltb_spec i 0); [lia|]. apply lookup_lt_is_Some. lia.
Qed.

Lemma rd_range l i v : rd l i = Some v -> 0 <= i < zlen l.
Proof.
  unfold rd, zlen. destruct (Z.ltb_spec i 0); [done|].
  intros ?%lookup_lt_Some. lia.
Qed.

Lemma rd_nat l (i : nat) : rd l (Z.of_nat i) = l !! i.
Proof. unfold rd. destruct (Z.ltb_spec (Z.of_nat i) 0); [lia|]. by rewrite Nat2Z.id. Qed.

Lemma wr_Some l i v : 0 <= i < zlen l -> wr l i v = Some (<[Z.to_nat i := v]> l).
Proof.
  intros ?. unfold wr. destruct (Z.leb_spec 0 i), (Z.ltb_spec i (zlen l)); by try lia.
Qed.

Lemma rd_insert_eq l i v : 0 <= i < zlen l -> rd (<[Z.to_nat i := v]> l) i = Some v.
Proof.
  unfold zlen. intros ?. unfold rd. destruct (Z.ltb_spec i 0); [lia|].
  apply list_lookup_insert_eq. lia.
Qed.

Lemma rd_insert_ne l i j v :
  0 <= i -> i <> j -> rd (<[Z.to_nat i := v]> l) j = rd l j.
Proof.
  intros ??. unfold rd. destruct (Z.ltb_spec j 0); [done|].
  apply list_lookup_insert_ne. lia.
Qed.

Lemma rd_app_l l l' i : i < zlen l -> rd (l ++ l') i = rd l i.
Proof.
  unfold rd, zlen. intros. destruct (Z.ltb_spec i 0); [done|].
  apply lookup_app_l. lia.
Qed.
Lemma rd_app_r l l' i : zlen l <= i -> rd (l ++ l') i = rd l' (i - zlen l).
Proof.
  unfold rd, zlen. intros. destruct (Z.ltb_spec i 0), (Z.ltb_spec (i - Z.of_nat (length l)) 0);
    try lia. rewrite lookup_app_r by lia. f_equal. lia.
Qed.

Lemma rd_slice l i n l' k :
  slice l i n = Some l' -> 0 <= k < n -> rd l' k = rd l (i + k).
Proof.
  unfold slice. intros E ?. destruct (_ && _) eqn:Hc in E; [|done].
  simplify_eq. rewrite !andb_true_iff, !Z.leb_le in Hc.
  unfold rd. destruct (Z.ltb_spec k 0), (Z.ltb_spec (i + k) 0); try lia.
  rewrite lookup_take_lt by lia. rewrite lookup_drop. f_equal. lia.
Qed.

Lemma slice_Some l i n : 0 <= i -> 0 <= n -> i + n <= zlen l ->
  slice l i n = Some (take (Z.to_nat n) (drop (Z.to_nat i) l)).
Proof.
  intros. unfold slice.
  by destruct (Z.leb_spec 0 i), (Z.leb_spec 0 n), (Z.leb_spec (i + n) (zlen l)); try lia.
Qed.

Lemma blit_Some l i src : 0 <= i -> i + zlen src <= zlen l ->
  blit l i src = Some (take (Z.to_nat i) l ++ src ++ drop (Z.to_nat i + length src) l).
Proof.
  intros. unfold blit.
  by destruct (Z.leb_spec 0 i), (Z.leb_spec (i + zlen src) (zlen l)); try lia.
Qed.

Lemma slice_0 l n : 0 <= n <= zlen l -> slice l 0 n = Some (take (Z.to_nat n) l).
Proof. intros. by rewrite slice_Some by lia. Qed.

(** Writing at the start. *)
Lemma blit_0 l src : zlen src <= zlen l -> blit l 0 src = Some (src ++ drop (length src) l).
Proof. intros. rewrite blit_Some by (unfold zlen in *; lia). done. Qed.

Lemma zlen_nonneg l : 0 <= zlen l.
Proof. unfold zlen. lia. Qed.
Lemma zlen_app l l' : zlen (l ++ l') = zlen l + zlen l'.
Proof. unfold zlen. rewrite length_app. lia. Qed.
Lemma zlen_insert l (i : nat) v : zlen (<[i := v]> l) = zlen l.
Proof. unfold zlen. by rewrite length_insert. Qed.
Lemma zlen_replicate (n : nat) (v : A) : zlen (replicate n v) = Z.of_nat n.
Proof. unfold zlen. by rewrite length_replicate. Qed.
Lemma zlen_take l (n : nat) : zlen (take n l) = Z.min (Z.of_nat n) (zlen l).
Proof. unfold zlen. rewrite length_take. lia. Qed.
Lemma zlen_drop l (n : nat) : zlen (drop n l) = Z.max 0 (zlen l - Z.of_nat n).
Proof. unfold zlen. rewrite length_drop. lia. Qed.

(** Writing behind a prefix. *)
Lemma blit_app l l' src i : i = zlen l -> zlen src <= zlen l' ->
  blit (l ++ l') i src = Some (l ++ src ++ drop (length src) l').
Proof.
  intros -> Hs. rewrite blit_Some by (unfold zlen in *; rewrite ?length_app; lia).
  unfold zlen. rewrite Nat2Z.id, take_app_length, drop_app_ge by lia. do 4 f_equal. lia.
Qed.

Lemma slice_app l l' l'' i n : i = zlen l -> n = zlen l' -> slice (l ++ l' ++ l'') i n = Some l'.
Proof.
  intros -> ->. rewrite slice_Some by (rewrite ?zlen_app; pose proof (zlen_nonneg l); pose proof (zlen_nonneg l'); pose proof (zlen_nonneg l''); lia).
  unfold zlen. by rewrite !Nat2Z.id, drop_app_length, take_app_length.
Qed.

Lemma wr_app l l' x v i : i = zlen l -> wr (l ++ x :: l') i v = Some (l ++ v :: l').
Proof.
  intros ->. rewrite wr_Some by (unfold zlen; rewrite length_app; simpl; lia).
  unfold zlen. rewrite Nat2Z.id, <-(Nat.add_0_r (length l)). by rewrite insert_app_r.
Qed.

Lemma rd_replicate (n : nat) (v : A) i : 0 <= i < Z.of_nat n -> rd (replicate n v) i = Some v.
Proof.
  intros. unfold rd. destruct (Z.ltb_spec i 0); [lia|].
  apply lookup_replicate_2. lia.
Qed.

(** Lists that agree at every index are equal. *)
Lemma rd_ext l l' :
  zlen l = zlen l' -> (forall i, 0 <= i < zlen l -> rd l i = rd l' i) -> l = l'.
Proof.
  unfold zlen. intros Hl H. apply list_eq. intros k.
  destruct (decide (k < length l)%nat).
  - rewrite <-!rd_nat. apply H. lia.
  - rewrite !lookup_ge_None_2; [done|lia|lia].
Qed.
End access.

Create Rewrite HintDb zlen.
#[global] Hint Rewrite @zlen_app @zlen_insert @zlen_replicate @zlen_take @zlen_drop
  : zlen.

(** Normalise lengths, then linear arithmetic. *)
Ltac zlen_lia := autorewrite with zlen in *; lia.

(** Rewriting with it keeps the rest of a program folded. *)
Lemma bind_Some {A B} (k : A -> option B) x : (Some x ≫= k) = k x.
Proof. done. Qed.

(** ** Loops *)
Section loops.
Context {S : Type}.
Implicit Types (s : S) (i lo hi : Z).

Fixpoint iter_from (n : nat) i (f : Z -> S -> option S) s : option S :=
  match n with
  | O => Some s
  | Datatypes.S n' => s' ← f i s; iter_from n' (i + 1) f s'
  end.

Definition for_range lo hi (f : Z -> S -> option S) s : option S :=
  iter_from (Z.to_nat (hi - lo)) lo f s.

Lemma iter_from_inv (I : Z -> S -> Prop) n lo f s :
  I lo s ->
  (forall i s, lo <= i < lo + Z.of_nat n -> I i s -> exists s', f i s = Some s' /\ I (i + 1) s') ->
  exists s', iter_from n lo f s = Some s' /\ I (lo + Z.of_nat n) s'.
Proof.
  revert lo s. induction n as [|n IH]; intros lo s HI Hstep.
  - exists s. split; [done|]. by rewrite Z.add_0_r.
  - destruct (Hstep lo s) as (s1 & E & H1); [lia|done|].
    destruct (IH (lo + 1) s1) as (s' & E' & H'); [done| |].
    { intros i s2 ?. apply Hstep. lia. }
    exists s'. simpl. rewrite E. simpl. split; [done|].
    by replace (lo + Z.of_nat (Datatypes.S n)) with (lo + 1 + Z.of_nat n) by lia.
Qed.

(** A loop whose first iteration fails fails. *)
Lemma for_range_first lo hi f s : lo < hi -> f lo s = None -> for_range lo hi f s = None.
Proof.
  intros Hlt Hf. unfold for_range. destruct (Z.to_nat (hi - lo)) as [|n] eqn:E; [lia|]. simpl. by rewrite Hf.
Qed.

(** Total correctness of a counted loop from an invariant: it terminates
    without failing, in a state that satisfies the invariant at [hi]. *)
Lemma for_range_inv (I : Z -> S -> Prop) lo hi f s :
  lo <= hi -> I lo s ->
  (forall i s, lo <= i < hi -> I i s -> exists s', f i s = Some s' /\ I (i + 1) s') ->
  exists s', for_range lo hi f s = Some s' /\ I hi s'.
Proof.
  intros Hle HI Hstep. unfold for_range.
  destruct (iter_from_inv I (Z.to_nat (hi - lo)) lo f s) as (s' & E & H'); [done| |].
  { intros i s1 ?. apply Hstep. lia. }
  exists s'. split; [done|]. by replace (lo + Z.of_nat (Z.to_nat (hi - lo))) with hi in H' by lia.
Qed.

Fixpoint loop_from (n : nat) i (f : Z -> S -> S) s : S :=
  match n with
  | O => s
  | Datatypes.S n' => loop_from n' (i + 1) f (f i s)
  end.

Definition loop lo hi (f : Z -> S -> S) s : S :=
  loop_from (Z.to_nat (hi - lo)) lo f s.

(** The first and the last iteration. *)
Lemma loop_first lo hi f s : lo < hi -> loop lo hi f s = loop (lo + 1) hi f (f lo s).
Proof. intros Hlt. unfold loop. by replace (Z.to_nat (hi - lo)) with (Datatypes.S (Z.to_nat (hi - (lo + 1)))) by lia. Qed.

Lemma loop_snoc lo hi f s : lo <= hi -> loop lo (hi + 1) f s = f hi (loop lo hi f s).
Proof.
  intros Hle. unfold loop. replace (Z.to_nat (hi + 1 - lo)) with (Datatypes.S (Z.to_nat (hi - lo))) by lia.
  replace hi with (lo + Z.of_nat (Z.to_nat (hi - lo))) at 2 by lia. generalize (Z.to_nat (hi - lo)). clear Hle.
  intros n. revert lo s. induction n as [|n IH]; intros lo s; [simpl; by rewrite Z.add_0_r|].
  change (loop_from (Datatypes.S n) (lo + 1) f (f lo s) = f (lo + Z.of_nat (Datatypes.S n)) (loop_from n (lo + 1) f (f lo s))).
  rewrite IH. f_equal. lia.
Qed.

Lemma loop_inv (I : Z -> S -> Prop) lo hi f s :
  lo <= hi -> I lo s ->
  (forall i s, lo <= i < hi -> I i s -> I (i + 1) (f i s)) ->
  I hi (loop lo hi f s).
Proof.
  intros Hle HI Hstep. unfold loop.
  cut (forall n i s, lo <= i -> i + Z.of_nat n = hi -> I i s -> I hi (loop_from n i f s)).
  { intros H. apply (H _ lo); [lia|lia|done]. }
  induction n as [|n IH]; intros i s' Hi Hn Hs; simpl.
  - by replace hi with i by lia.
  - apply IH; [lia|lia|]. apply Hstep; [lia|done].
Qed.
End loops.

(** The first loop of the goal, by an invariant. *)
Tactic Notation "for_loop" uconstr(I) "as" simple_intropattern(p) :=
  lazymatch goal with |- context [for_range ?lo ?hi ?f ?s] => destruct (for_range_inv I lo hi f s) as p end.

(** ** Arrays as functions

    [tab n f] is the array of [f 0 .. f (n - 1)]: loops over an array are then
    invariants on [f]. *)
Section tab.
Context {A : Type}.
Implicit Types (f g : Z -> A) (n i : Z) (l : list A).

Definition tab n f : list A := f <$> seqZ 0 n.

Lemma zlen_tab n f : 0 <= n -> zlen (tab n f) = n.
Proof. intros. unfold zlen, tab. rewrite length_fmap, length_seqZ. lia. Qed.

Lemma rd_tab n f i : 0 <= i < n -> rd (tab n f) i = Some (f i).
Proof.
  intros. unfold rd, tab. destruct (Z.ltb_spec i 0); [lia|].
  rewrite list_lookup_fmap, lookup_seqZ_lt by lia. simpl. do 2 f_equal. lia.
Qed.

Lemma tab_ext n f g : (forall i, 0 <= i < n -> f i = g i) -> tab n f = tab n g.
Proof.
  intros H. apply list_fmap_ext. intros k x [-> ?]%lookup_seqZ. apply H. lia.
Qed.

Lemma wr_tab n f i v : 0 <= i < n ->
  wr (tab n f) i v = Some (tab n (fun k => if k =? i then v else f k)).
Proof.
  intros. rewrite wr_Some by (rewrite zlen_tab; lia). f_equal. apply rd_ext.
  { rewrite zlen_insert, !zlen_tab; lia. }
  intros k Hk. rewrite zlen_insert, zlen_tab in Hk by lia. rewrite (rd_tab _ _ k) by lia.
  destruct (Z.eqb_spec k i) as [->|]; [apply rd_insert_eq; rewrite zlen_tab; lia|].
  by rewrite rd_insert_ne, rd_tab by lia.
Qed.

Lemma rd_tab_app n f l i : 0 <= i < n -> rd (tab n f ++ l) i = Some (f i).
Proof. intros. rewrite rd_app_l, rd_tab; [done|lia|]. rewrite zlen_tab; lia. Qed.

Lemma wr_tab_app n f l i v : 0 <= i < n ->
  wr (tab n f ++ l) i v = Some (tab n (fun k => if k =? i then v else f k) ++ l).
Proof.
  intros. pose proof (zlen_tab n f ltac:(lia)) as Hz. pose proof (zlen_nonneg l).
  rewrite wr_Some by (rewrite zlen_app; lia). rewrite insert_app_l by (unfold zlen in Hz; lia).
  pose proof (wr_tab n f i v ltac:(lia)) as E. rewrite wr_Some in E by lia. apply (inj Some) in E. by rewrite E.
Qed.

Lemma replicate_tab n (v : A) : replicate (Z.to_nat n) v = tab n (fun _ => v).
Proof.
  unfold tab. rewrite const_fmap with (f := fun _ : Z => v) (y := v) by done. by rewrite length_seqZ.
Qed.

(** A list is the table of its elements. *)
Lemma tab_of_list l d : l = tab (zlen l) (fun i => default d (rd l i)).
Proof.
  pose proof (zlen_nonneg l). apply rd_ext; [by rewrite zlen_tab|]. intros i Hi.
  rewrite rd_tab by done. by destruct (rd_Some l i) as [v ->].
Qed.

Lemma slice_tab l i n d : 0 <= i -> 0 <= n -> i + n <= zlen l ->
  slice l i n = Some (tab n (fun k => default d (rd l (i + k)))).
Proof.
  intros. pose proof (slice_Some l i n) as E. rewrite E by lia. f_equal. apply rd_ext.
  { rewrite zlen_tab by lia. rewrite zlen_take, zlen_drop. lia. }
  intros k Hk. rewrite zlen_take, zlen_drop in Hk.
  rewrite rd_tab by lia. rewrite (rd_slice _ _ _ _ _ (E ltac:(lia) ltac:(lia) ltac:(lia))) by lia.
  by destruct (rd_Some l (i + k)) as [v ->]; [lia|].
Qed.
End tab.

(** A property of the indices, by evaluation. *)
Lemma forallb_seqZ (P : Z -> bool) n i : forallb P (seqZ 0 n) = true -> 0 <= i < n -> P i = true.
Proof. rewrite forallb_forall. intros H Hi. apply H. rewrite <-list_elem_of_In, elem_of_seqZ. lia. Qed.

(** ** Total access

    For indices that are in range by construction (constants, masked values),
    [get] and [set] are the accesses without the check. *)
Definition get (l : list Z) (i : Z) : Z := nth (Z.to_nat i) l 0.
Definition set (l : list Z) (i v : Z) : list Z := <[Z.to_nat i := v]> l.

Section get_set.
Implicit Types (l : list Z) (i n v : Z) (f : Z -> Z).

Lemma get_rd l i v : 0 <= i -> rd l i = Some v -> get l i = v.
Proof.
  unfold rd, get. intros Hi. destruct (Z.ltb_spec i 0); [lia|]. apply nth_lookup_Some.
Qed.
Lemma get_tab n f i : 0 <= i < n -> get (tab n f) i = f i.
Proof. intros. apply get_rd; [lia|]. by apply rd_tab. Qed.
Lemma set_tab n f i v : 0 <= i < n ->
  set (tab n f) i v = tab n (fun k => if k =? i then v else f k).
Proof.
  intros. pose proof (wr_tab n f i v ltac:(lia)) as E.
  rewrite wr_Some in E by (rewrite zlen_tab; lia). by apply (inj Some) in E.
Qed.
Lemma tab_get n l : zlen l = n -> tab n (get l) = l.
Proof.
  intros <-. pose proof (zlen_nonneg l). apply rd_ext; rewrite zlen_tab by done; [done|].
  intros i Hi. rewrite rd_tab by done. destruct (rd_Some l i) as [v E]; [done|].
  rewrite E. f_equal. by apply get_rd; [lia|].
Qed.
Lemma get_set_eq l i v : 0 <= i < zlen l -> get (set l i v) i = v.
Proof.
  unfold zlen. intros. apply nth_lookup_Some, list_lookup_insert_eq. lia.
Qed.
Lemma get_set_ne l i j v : 0 <= i -> 0 <= j -> i <> j -> get (set l i v) j = get l j.
Proof.
  intros. unfold get, set. rewrite !nth_lookup, list_lookup_insert_ne by lia. done.
Qed.
Lemma zlen_set l i v : zlen (set l i v) = zlen l.
Proof. unfold zlen, set. by rewrite length_insert. Qed.
Lemma get_app_l l l' i : 0 <= i < zlen l -> get (l ++ l') i = get l i.
Proof. unfold zlen, get. intros. apply app_nth1. lia. Qed.
Lemma get_app_r l l' i : zlen l <= i -> get (l ++ l') i = get l' (i - zlen l).
Proof. unfold zlen, get. intros. rewrite app_nth2 by lia. f_equal. lia. Qed.
End get_set.

Lemma get_word w l i : 0 <= w -> Forall (word w) l -> word w (get l i).
Proof.
  intros Hw Hl. unfold get. destruct (nth_in_or_default (Z.to_nat i) l 0) as [Hin| ->].
  - rewrite List.Forall_forall in Hl. auto.
  - unfold word. split; [lia|]. by apply Z.pow_pos_nonneg.
Qed.

(** A loop that writes one entry of an array per iteration. *)
Lemma fill_loop (l : list Z) lo hi (f : Z -> Z) (g : Z -> list Z -> option (list Z)) :
  0 <= lo <= hi -> hi <= zlen l -> (forall i p, lo <= i < hi -> g i p = wr p i (f i)) ->
  for_range lo hi g l =
  Some (tab (zlen l) (fun t => if (lo <=? t) && (t <? hi) then f t else get l t)).
Proof.
  intros Hlo Hhi Hg.
  edestruct (for_range_inv (fun i p => p =
    tab (zlen l) (fun t => if (lo <=? t) && (t <? i) then f t else get l t)) lo hi g l)
    as (p & E & ->); [lia| | |exact E].
  - rewrite <-(tab_get (zlen l) l) at 1 by done. apply tab_ext. intros t _.
    by destruct (Z.leb_spec lo t), (Z.ltb_spec t lo); try lia.
  - intros i p Hi ->. rewrite Hg, wr_tab by lia. eexists. split; [reflexivity|].
    apply tab_ext. intros t _. destruct (Z.eqb_spec t i) as [->|].
    + by destruct (Z.leb_spec lo i), (Z.ltb_spec i (i + 1)); try lia.
    + by destruct (Z.leb_spec lo t), (Z.ltb_spec t i), (Z.ltb_spec t (i + 1)); try lia.
Qed.

(** The same for a loop without errors. *)
Lemma fill_set (l : list Z) lo hi (f : Z -> Z) (g : Z -> list Z -> list Z) :
  0 <= lo <= hi -> hi <= zlen l -> (forall i p, lo <= i < hi -> g i p = set p i (f i)) ->
  loop lo hi g l = tab (zlen l) (fun t => if (lo <=? t) && (t <? hi) then f t else get l t).
Proof.
  intros Hlo Hhi Hg.
  apply (loop_inv (fun i p => p = tab (zlen l) (fun t => if (lo <=? t) && (t <? i) then f t else get l t))); [lia|..].
  - rewrite <-(tab_get (zlen l) l) at 1 by done. apply tab_ext. intros t _.
    by destruct (Z.leb_spec lo t), (Z.ltb_spec t lo); try lia.
  - intros i p Hi ->. rewrite Hg, set_tab by lia. apply tab_ext. intros t _. destruct (Z.eqb_spec t i) as [->|].
    + by destruct (Z.leb_spec lo i), (Z.ltb_spec i (i + 1)); try lia.
    + by destruct (Z.leb_spec lo t), (Z.ltb_spec t i), (Z.ltb_spec t (i + 1)); try lia.
Qed.

(** The whole of an array. *)
Lemma fill_all n (l : list Z) (f : Z -> Z) (g : Z -> list Z -> list Z) :
  zlen l = n -> (forall i p, 0 <= i < n -> g i p = set p i (f i)) -> loop 0 n g l = tab n f.
Proof.
  intros Hl Hg. pose proof (zlen_nonneg l). rewrite (fill_set l 0 n f) by (done || lia). rewrite Hl. apply tab_ext. intros t Ht.
  by destruct (Z.leb_spec 0 t), (Z.ltb_spec t n); try lia.
Qed.

(** Undoing a map on every element. *)
Lemma fmap_inverse {A B} {P : A -> Prop} (g : A -> B) (h : B -> A) l : Forall P l -> (forall a, P a -> h (g a) = a) -> h <$> (g <$> l) = l.
Proof. intros Hl Hg. induction Hl as [|a l Ha _ IH]; [done|]. cbn [fmap list_fmap]. by rewrite Hg, IH. Qed.

(** Two loops over the same range stay related. *)
Lemma loop_rel {S T} (R : Z -> S -> T -> Prop) lo hi f g s t :
  lo <= hi -> R lo s t ->
  (forall i s t, lo <= i < hi -> R i s t -> R (i + 1) (f i s) (g i t)) ->
  R hi (loop lo hi f s) (loop lo hi g t).
Proof.
  intros Hle HI Hstep. unfold loop.
  cut (forall n i s t, lo <= i -> i + Z.of_nat n = hi -> R i s t ->
    R hi (loop_from n i f s) (loop_from n i g t)).
  { intros H. apply (H _ lo); [lia|lia|done]. }
  induction n as [|n IH]; intros i s' t' Hi Hn Hs; simpl.
  - by replace hi with i by lia.
  - apply IH; [lia|lia|]. apply Hstep; [lia|done].
Qed.
