(* ===== verification/Rows.v ===== *)
(** * Arrays of rows.

    [e[i][j]] of a square C array with [W] rows of [W] entries, which is one object, and
    loops over its cells. *)
From S2P Require Import Prelude Arrays.
Local Open Scope Z_scope.

Section rows.
Context (W : Z).

Definition cell (i j : Z) : option Z :=
  if (0 <=? i) && (i <? W) && (0 <=? j) && (j <? W) then Some (W * i + j) else None.
Definition rd2 (e : list Z) (i j : Z) : option Z := k ← cell i j; rd e k.
Definition wr2 (e : list Z) (i j v : Z) : option (list Z) := k ← cell i j; wr e k v.

(** A matrix as the table of its entries. *)
Definition matrix (f : Z -> Z -> Z) : list Z :=
  tab (W * W) (fun t => f (t / W) (t mod W)).
Definition inside (i : Z) : Prop := 0 <= i < W.

Hypothesis HW : 0 < W.

Lemma cell_Some i j : inside i -> inside j -> cell i j = Some (W * i + j).
Proof.
  unfold inside, cell. intros Hi Hj.
  by destruct (Z.leb_spec 0 i), (Z.ltb_spec i W), (Z.leb_spec 0 j), (Z.ltb_spec j W); try lia.
Qed.

Lemma cell_split i j : inside j -> (W * i + j) / W = i /\ (W * i + j) mod W = j.
Proof.
  unfold inside. intros Hj. rewrite Z.mul_comm, Z.div_add_l, Z.div_small, Z.add_0_r by lia.
  by rewrite Z.add_comm, Z.mod_add, Z.mod_small by lia.
Qed.

Lemma cell_range i j : inside i -> inside j -> 0 <= W * i + j < W * W.
Proof. unfold inside. nia. Qed.

Lemma rd2_matrix f i j : inside i -> inside j -> rd2 (matrix f) i j = Some (f i j).
Proof.
  intros Hi Hj. unfold rd2, matrix. rewrite cell_Some by done. simpl. rewrite rd_tab by (by apply cell_range).
  by destruct (cell_split i j Hj) as [-> ->].
Qed.

Lemma wr2_matrix f i j v : inside i -> inside j ->
  wr2 (matrix f) i j v = Some (matrix (fun i' j' => if (i' =? i) && (j' =? j) then v else f i' j')).
Proof.
  intros Hi Hj. unfold wr2, matrix. rewrite cell_Some by done. simpl. rewrite wr_tab by (by apply cell_range).
  apply (f_equal Some), tab_ext. intros t Ht. pose proof (Z.div_mod t W ltac:(lia)) as Hd.
  pose proof (Z.mod_pos_bound t W HW) as Hm. destruct (cell_split i j Hj) as [E1 E2].
  destruct (Z.eqb_spec t (W * i + j)) as [->|Hne]; [by rewrite E1, E2, !Z.eqb_refl|].
  destruct (Z.eqb_spec (t / W) i) as [Ei|], (Z.eqb_spec (t mod W) j) as [Ej|]; try done.
  destruct Hne. by rewrite Hd, Ei, Ej.
Qed.

Lemma matrix_ext f g : (forall i j, inside i -> inside j -> f i j = g i j) -> matrix f = matrix g.
Proof.
  intros H. unfold matrix. apply tab_ext. intros t Ht. apply H.
  - split; [apply Z.div_pos; lia|apply Z.div_lt_upper_bound; lia].
  - by apply Z.mod_pos_bound.
Qed.

(** Two nested loops over the cells, in order. *)
Lemma for_cells {S} (I : Z -> S -> Prop) (body : Z -> Z -> S -> option S) s : I 0 s ->
  (forall i j s, inside i -> inside j -> I (W * i + j) s ->
    exists s', body i j s = Some s' /\ I (W * i + j + 1) s') ->
  exists s', for_range 0 W (fun i s => for_range 0 W (fun j s => body i j s) s) s = Some s' /\
    I (W * W) s'.
Proof.
  intros H0 Hb. apply (for_range_inv (fun i s => I (W * i) s)); [lia|by rewrite Z.mul_0_r|].
  intros i s1 Hi H1. destruct (for_range_inv (fun j s => I (W * i + j) s) 0 W (fun j s => body i j s) s1)
    as (s2 & E & H2); [lia|by rewrite Z.add_0_r| |].
  - intros j s2 Hj H2. destruct (Hb i j s2 Hi Hj H2) as (s3 & E & H3). exists s3. split; [done|]. by rewrite Z.add_assoc.
  - exists s2. split; [done|]. by rewrite Z.mul_add_distr_l, Z.mul_1_r.
Qed.

(** The cells before cell [t] from one table, the others from another. *)
Definition upto (f c0 : Z -> Z -> Z) (t i j : Z) : Z := if W * i + j <? t then f i j else c0 i j.

Lemma upto_0 f c0 : matrix (upto f c0 0) = matrix c0.
Proof.
  apply matrix_ext. intros i j Hi Hj. unfold upto.
  pose proof (cell_range i j Hi Hj). by destruct (Z.ltb_spec (W * i + j) 0); [lia|].
Qed.

Lemma upto_all f c0 : matrix (upto f c0 (W * W)) = matrix f.
Proof.
  apply matrix_ext. intros i j Hi Hj. unfold upto.
  pose proof (cell_range i j Hi Hj). by destruct (Z.ltb_spec (W * i + j) (W * W)); [|lia].
Qed.

Lemma upto_here f c0 i j : upto f c0 (W * i + j) i j = c0 i j.
Proof. unfold upto. by rewrite Z.ltb_irrefl. Qed.

Lemma upto_next f c0 i j : inside i -> inside j ->
  wr2 (matrix (upto f c0 (W * i + j))) i j (f i j) = Some (matrix (upto f c0 (W * i + j + 1))).
Proof.
  intros Hi Hj. rewrite wr2_matrix by done. apply (f_equal Some), matrix_ext. intros i' j' Hi' Hj'. unfold upto.
  assert (W * i' + j' = W * i + j -> i' = i /\ j' = j) as Hcell.
  { intros E. destruct (cell_split i j Hj), (cell_split i' j' Hj'). rewrite E in *. split; congruence. }
  destruct (Z.eqb_spec i' i), (Z.eqb_spec j' j), (Z.ltb_spec (W * i' + j') (W * i + j)),
    (Z.ltb_spec (W * i' + j') (W * i + j + 1)); simpl; subst; done || lia.
Qed.

End rows.
