(* ===== verification/Linear.v ===== *)
(** * Linear maps on bits.

    Spaces of words under exclusive or, with a basis; linear maps; two linear maps that
    agree on a basis agree, which evaluation decides.  The permutations, expansions and
    diffusion layers of the ciphers are linear. *)
From S2P Require Import Prelude Arrays.
Local Open Scope Z_scope.
Local Open Scope word_scope.

(** ** Spaces *)
Record space (A : Type) := mk_space {
  valid : A -> Prop;
  zero : A;
  add : A -> A -> A;
  basis : list A;
  valid_zero : valid zero;
  valid_add a b : valid a -> valid b -> valid (add a b);
  add_comm a b : add a b = add b a;
  add_assoc a b c : add a (add b c) = add (add a b) c;
  add_zero_r a : add a zero = a;
  add_self a : add a a = zero;
  bit_ind (Q : A -> Prop) : Q zero ->
    (forall e x, e ∈ basis -> valid e -> valid x -> Q x -> Q (add e x)) -> forall x, valid x -> Q x }.
Arguments valid {A}. Arguments zero {A}. Arguments add {A}. Arguments basis {A}.
Arguments valid_zero {A}. Arguments valid_add {A}. Arguments add_comm {A}. Arguments add_assoc {A}.
Arguments add_zero_r {A}. Arguments add_self {A}. Arguments bit_ind {A}.

Section space.
Context {A : Type} (S : space A).

Lemma add_cancel_r a b : add S (add S a b) b = a.
Proof. by rewrite <-add_assoc, add_self, add_zero_r. Qed.

Lemma add_cancel_l a b : add S a (add S a b) = b.
Proof. by rewrite add_assoc, add_self, add_comm, add_zero_r. Qed.
End space.

(** Words are equal bit by bit. *)
Lemma word_bits_eq n x y : word n x -> word n y -> (forall i, 0 <= i < n -> Z.testbit x i = Z.testbit y i) -> x = y.
Proof.
  intros Hx Hy H. apply Z.bits_inj'. intros i Hi. destruct (Z.ltb_spec i n); [by apply H|]. by rewrite !(word_testbit n).
Qed.

(** Any bit of a shifted word. *)
Lemma testbit_shiftl x n i : 0 <= n -> Z.testbit (x ≪ n) i = Z.testbit x (i - n).
Proof.
  intros Hn. destruct (Z.ltb_spec i 0); [by rewrite !Z.testbit_neg_r by lia|]. by apply Z.shiftl_spec.
Qed.

(** A word's bit [n] and the bits below it. *)
Lemma split_bit n x : 0 <= n -> word (n + 1) x -> x = (Z.b2z (Z.testbit x n) ≪ n) .^ wrap n x.
Proof.
  intros Hn Hx. apply Z.bits_inj'. intros i Hi. rewrite Z.lxor_spec, testbit_wrap, Z.shiftl_spec by done.
  destruct (Z.ltb_spec i n) as [Hlt|Hge]; [by rewrite (Z.testbit_neg_r _ (i - n)) by lia|]. simpl. rewrite xorb_false_r.
  destruct (decide (i = n)) as [->|]; [by rewrite Z.sub_diag, Z.b2z_bit0|].
  rewrite (word_testbit (n + 1) x i) by (done || lia). destruct (Z.testbit x n); simpl; [|by rewrite Z.bits_0].
  symmetry. apply (word_testbit 1); [done|lia].
Qed.

Lemma word_ind n (Q : Z -> Prop) : 0 <= n -> Q 0 ->
  (forall e x, e ∈ Z.shiftl 1 <$> seqZ 0 n -> word n e -> word n x -> Q x -> Q (e .^ x)) -> forall x, word n x -> Q x.
Proof.
  intros Hn HQ0 HQ. assert (forall k, 0 <= k -> k <= n -> forall x, word k x -> Q x) as H; [|by intros x; apply (H n)].
  apply (natlike_ind (fun k => k <= n -> forall x, word k x -> Q x)).
  - unfold word. intros _ x Hx. simpl in Hx. by replace x with 0 by lia.
  - unfold Z.succ. intros k Hk IH Hle x Hx. rewrite (split_bit k x Hk Hx).
    assert (word k (wrap k x)) as Hw by by apply wrap_range. specialize (IH ltac:(lia) _ Hw).
    destruct (Z.testbit x k); cbn [Z.b2z]; [|by rewrite Z.shiftl_0_l].
    apply HQ; [|..|done].
    + apply list_elem_of_fmap. exists k. split; [done|]. apply elem_of_seqZ. lia.
    + unfold word. rewrite Z.shiftl_1_l. split; [lia|]. apply Z.pow_lt_mono_r; lia.
    + apply (word_mono k); [done|lia].
Qed.

(** Words of [n] bits. *)
Program Definition word_space (n : nat) : space Z := {|
  valid := word (Z.of_nat n); zero := 0; add := Z.lxor; basis := Z.shiftl 1 <$> seqZ 0 (Z.of_nat n) |}.
Next Obligation. intros n. unfold word. pose proof (Z.pow_pos_nonneg 2 (Z.of_nat n)). lia. Qed.
Next Obligation. intros n a b. apply word_lxor. lia. Qed.
Next Obligation. intros n. apply Z.lxor_comm. Qed.
Next Obligation. intros n a b c. by rewrite Z.lxor_assoc. Qed.
Next Obligation. intros n. apply Z.lxor_0_r. Qed.
Next Obligation. intros n. apply Z.lxor_nilpotent. Qed.
Next Obligation. intros n Q. apply word_ind. lia. Qed.

Program Definition pair_space {A B} (S : space A) (T : space B) : space (A * B) := {|
  valid a := valid S a.1 /\ valid T a.2; zero := (zero S, zero T);
  add a b := (add S a.1 b.1, add T a.2 b.2);
  basis := ((., zero T) <$> basis S) ++ ((zero S,.) <$> basis T) |}.
Next Obligation. intros. split; apply valid_zero. Qed.
Next Obligation. intros A B S T a b [? ?] [? ?]. by split; apply valid_add. Qed.
Next Obligation. intros A B S T a b. simpl. f_equal; apply add_comm. Qed.
Next Obligation. intros A B S T a b c. simpl. f_equal; apply add_assoc. Qed.
Next Obligation. intros A B S T [a b]. simpl. f_equal; apply add_zero_r. Qed.
Next Obligation. intros A B S T a. simpl. f_equal; apply add_self. Qed.
Next Obligation.
  intros A B S T Q HQ0 HQ [x y] [Hx Hy]. simpl in *.
  assert (Q (x, zero T)) as HQx.
  { revert x Hx. apply (bit_ind S); [done|]. intros e x He Hve Hx HQx.
    rewrite <-(add_zero_r T (zero T)). apply (HQ (e, zero T) (x, zero T)); [|split; [done|apply valid_zero]..|done].
    apply elem_of_app. left. by apply (list_elem_of_fmap_2 (., zero T)). }
  revert y Hy. apply (bit_ind T); [done|]. intros e y He Hve Hy HQy.
  rewrite <-(add_zero_r S x), add_comm. apply (HQ (zero S, e) (x, y)); [|by split; [apply valid_zero|]|done|done].
  apply elem_of_app. right. by apply (list_elem_of_fmap_2 (zero S,.)).
Qed.

(** ** Linear maps *)
Record linear {A B} (S : space A) (T : space B) (f : A -> B) : Prop := {
  linear_valid a : valid S a -> valid T (f a);
  linear_add a b : valid S a -> valid S b -> f (add S a b) = add T (f a) (f b) }.
Arguments linear_valid {A B S T f}. Arguments linear_add {A B S T f}.

(** Agreement on the basis, by evaluation. *)
Definition agree {A B} `{!EqDecision B} (S : space A) (f g : A -> B) : bool :=
  forallb (fun e => bool_decide (f e = g e)) (basis S).

Lemma linear_zero {A B} {S : space A} {T : space B} f : linear S T f -> f (zero S) = zero T.
Proof.
  intros Hf. rewrite <-(add_self S (zero S)), (linear_add Hf) by apply valid_zero. apply add_self.
Qed.

Lemma linear_ext {A B} `{!EqDecision B} {S : space A} {T : space B} f g x :
  linear S T f -> linear S T g -> agree S f g = true -> valid S x -> f x = g x.
Proof.
  intros Hf Hg He. unfold agree in He. rewrite forallb_forall in He.
  apply (bit_ind S (fun x => f x = g x)); [by rewrite (linear_zero f Hf), (linear_zero g Hg)|].
  intros e y Hin Hve Hy E. rewrite (linear_add Hf), (linear_add Hg), E by done. f_equal.
  eapply bool_decide_eq_true_1, He, list_elem_of_In, Hin.
Qed.

Section maps.
Context {A B C : Type} {S : space A} {T : space B} {U : space C}.

Lemma linear_id : linear S S (fun a => a).
Proof. by split. Qed.

Lemma linear_eq f g : linear S T f -> (forall a, valid S a -> f a = g a) -> linear S T g.
Proof.
  intros Hf E. split; [intros a Ha; rewrite <-E by done; by apply (linear_valid Hf)|]. intros a b Ha Hb.
  rewrite <-!E by (done || by apply valid_add). by apply (linear_add Hf).
Qed.

Lemma linear_compose f g : linear T U f -> linear S T g -> linear S U (fun a => f (g a)).
Proof. intros [Hf1 Hf2] [Hg1 Hg2]. split; [auto|]. intros a b Ha Hb. rewrite Hg2, Hf2; auto. Qed.

Lemma linear_sum f g : linear S T f -> linear S T g -> linear S T (fun a => add T (f a) (g a)).
Proof.
  intros Hf Hg. split; [intros a Ha; apply valid_add; [by apply (linear_valid Hf)|by apply (linear_valid Hg)]|]. intros a b Ha Hb.
  rewrite (linear_add Hf), (linear_add Hg) by done. rewrite <-!add_assoc. f_equal.
  rewrite !add_assoc. f_equal. apply add_comm.
Qed.

Lemma linear_pair f g : linear S T f -> linear S U g -> linear S (pair_space T U) (fun a => (f a, g a)).
Proof.
  intros Hf Hg. split; [intros a Ha; split; [by apply (linear_valid Hf)|by apply (linear_valid Hg)]|]. intros a b Ha Hb.
  by rewrite (linear_add Hf), (linear_add Hg).
Qed.

Lemma linear_fst f : linear S (pair_space T U) f -> linear S T (fun a => (f a).1).
Proof. intros Hf. split; [intros a Ha; by apply (linear_valid Hf)|]. intros a b Ha Hb. by rewrite (linear_add Hf). Qed.
Lemma linear_snd f : linear S (pair_space T U) f -> linear S U (fun a => (f a).2).
Proof. intros Hf. split; [intros a Ha; by apply (linear_valid Hf)|]. intros a b Ha Hb. by rewrite (linear_add Hf). Qed.
End maps.

(** ** Operations on words *)
Lemma wrap_lxor w x y : 0 <= w -> wrap w (x .^ y) = wrap w x .^ wrap w y.
Proof. intros Hw. apply Z.bits_inj. intros i. rewrite Z.lxor_spec, !testbit_wrap, Z.lxor_spec by done. btauto. Qed.

Lemma land_lxor x y c : (x .^ y) .& c = (x .& c) .^ (y .& c).
Proof. apply Z.bits_inj. intros i. rewrite !Z.lxor_spec, !Z.land_spec, Z.lxor_spec. btauto. Qed.

Section words.
Context {A : Type} {S : space A} (n : nat).
Implicit Types (f g : A -> Z) (k c : Z).

Lemma linear_xor f g : linear S (word_space n) f -> linear S (word_space n) g -> linear S (word_space n) (fun a => f a .^ g a).
Proof. exact (linear_sum f g). Qed.

Lemma linear_land f c : linear S (word_space n) f -> linear S (word_space n) (fun a => f a .& c).
Proof.
  intros Hf. split; [intros a Ha; apply word_land; [lia|by apply (linear_valid Hf)]|]. intros a b Ha Hb.
  rewrite (linear_add Hf) by done. apply land_lxor.
Qed.

Lemma linear_shiftr f k : 0 <= k -> linear S (word_space n) f -> linear S (word_space n) (fun a => f a ≫ k).
Proof.
  intros Hk Hf. split; [intros a Ha; apply word_shiftr; [done|by apply (linear_valid Hf)]|]. intros a b Ha Hb.
  rewrite (linear_add Hf) by done. apply Z.shiftr_lxor.
Qed.

Lemma linear_shiftl f k : linear S (word_space n) f -> linear S (word_space n) (fun a => wrap (Z.of_nat n) (f a ≪ k)).
Proof.
  intros Hf. split; [intros a Ha; apply wrap_range; lia|]. intros a b Ha Hb.
  rewrite (linear_add Hf) by done. simpl. rewrite Z.shiftl_lxor. apply wrap_lxor. lia.
Qed.

(** Fewer bits. *)
Lemma linear_resize (m : nat) f : (forall a, valid S a -> word (Z.of_nat m) (f a)) ->
  linear S (word_space n) f -> linear S (word_space m) f.
Proof. intros Hm Hf. split; [done|]. intros a b Ha Hb. by rewrite (linear_add Hf). Qed.
End words.

(** A rotation is an exclusive or. *)
Lemma rotl_lxor w x k : 0 <= k <= w -> word w x -> rotl w x k = wrap w (x ≪ k) .^ (x ≫ (w - k)).
Proof.
  intros Hk Hx. unfold rotl. apply Z.bits_inj'. intros i Hi.
  rewrite Z.lor_spec, Z.lxor_spec, testbit_wrap, Z.shiftl_spec, Z.shiftr_spec by lia.
  destruct (Z.ltb_spec i k); [by rewrite (Z.testbit_neg_r _ (i - k)), andb_false_r by lia|].
  rewrite (word_testbit w x (i + (w - k))) by (done || lia). by rewrite orb_false_r, xorb_false_r.
Qed.

Lemma linear_rotl {A} {S : space A} (n : nat) f k : 0 <= k <= Z.of_nat n ->
  linear S (word_space n) f -> linear S (word_space n) (fun a => rotl (Z.of_nat n) (f a) k).
Proof.
  intros Hk Hf. split; [intros a Ha; apply word_rotl; [done|by apply (linear_valid Hf)]|]. intros a b Ha Hb.
  pose proof (linear_valid Hf a Ha) as Hva. pose proof (linear_valid Hf b Hb) as Hvb.
  rewrite (linear_add Hf) by done. simpl in *. rewrite !rotl_lxor by (done || apply word_lxor; done || lia).
  rewrite Z.shiftl_lxor, Z.shiftr_lxor, wrap_lxor by lia. apply Z.bits_inj. intros i. rewrite !Z.lxor_spec. btauto.
Qed.

(** ** Words within a mask *)

(** The alternative of words without common bits is their sum. *)
Definition within (m x : Z) : Prop := x .& m = x.

Lemma within_lor m1 m2 x y : within m1 x -> within m2 y -> m1 .& m2 = 0 -> x .| y = x .^ y /\ within (m1 .| m2) (x .| y).
Proof.
  unfold within. intros Hx Hy H0. split.
  - apply Z.bits_inj. intros i. rewrite Z.lor_spec, Z.lxor_spec, <-Hx, <-Hy, !Z.land_spec.
    pose proof (f_equal (fun z => Z.testbit z i) H0) as E. simpl in E. rewrite Z.land_spec, Z.bits_0 in E.
    destruct (Z.testbit x i), (Z.testbit y i), (Z.testbit m1 i), (Z.testbit m2 i); done.
  - apply Z.bits_inj. intros i. rewrite !Z.land_spec, !Z.lor_spec, <-Hx, <-Hy, !Z.land_spec. btauto.
Qed.

Lemma within_land x m : within m (x .& m).
Proof. unfold within. by rewrite <-Z.land_assoc, Z.land_diag. Qed.

(** Linear with values within [m]. *)
Definition fits {A} (S : space A) (n : nat) (m : Z) (f : A -> Z) : Prop :=
  linear S (word_space n) f /\ forall a, valid S a -> within m (f a).

Section fits.
Context {A : Type} {S : space A} (n : nat).
Implicit Types (f g : A -> Z) (m k : Z).

Lemma fits_land f m : linear S (word_space n) f -> fits S n m (fun a => f a .& m).
Proof. intros Hf. split; [by apply linear_land|]. intros a _. apply within_land. Qed.

Lemma fits_lor f g m1 m2 : fits S n m1 f -> fits S n m2 g -> m1 .& m2 = 0 -> fits S n (m1 .| m2) (fun a => f a .| g a).
Proof.
  intros [Hf Hf'] [Hg Hg'] H0. assert (forall a, valid S a -> f a .^ g a = f a .| g a) as E.
  { intros a Ha. symmetry. apply (within_lor m1 m2); auto. }
  split; [by apply (linear_eq (fun a => f a .^ g a)), E; apply linear_xor|]. intros a Ha. apply within_lor; auto.
Qed.

Lemma fits_shiftl f m k : 0 <= k -> fits S n m f -> fits S n (wrap (Z.of_nat n) (m ≪ k)) (fun a => wrap (Z.of_nat n) (f a ≪ k)).
Proof.
  intros Hk [Hf Hm]. split; [by apply linear_shiftl|]. intros a Ha. pose proof (Hm a Ha) as E. unfold within in *.
  apply Z.bits_inj. intros i. pose proof (f_equal (fun z => Z.testbit z (i - k)) E) as Ei. simpl in Ei. rewrite Z.land_spec in Ei.
  rewrite !Z.land_spec, !testbit_wrap, !testbit_shiftl by lia. destruct (i <? Z.of_nat n); [exact Ei|done].
Qed.

(** Without truncation. *)
Lemma fits_scale f m k : 0 <= k -> fits S n m f -> word (Z.of_nat n) (m ≪ k) -> fits S n (m ≪ k) (fun a => f a ≪ k).
Proof.
  intros Hk [Hf Hm] Hw. assert (forall a, valid S a -> within (m ≪ k) (f a ≪ k)) as Hin.
  { intros a Ha. unfold within. by rewrite <-Z.shiftl_land, (Hm a Ha). }
  split; [|exact Hin]. split; [intros a Ha; simpl; rewrite <-(Hin a Ha); apply word_land_r; [lia|done]|].
  intros a b Ha Hb. rewrite (linear_add Hf) by done. apply Z.shiftl_lxor.
Qed.

Lemma fits_shiftr f m k : 0 <= k -> fits S n m f -> fits S n (m ≫ k) (fun a => f a ≫ k).
Proof.
  intros Hk [Hf Hm]. split; [by apply linear_shiftr|]. intros a Ha. unfold within. by rewrite <-Z.shiftr_land, (Hm a Ha).
Qed.

(** A table whose entries add up. *)
Definition additive (t : list Z) (m : Z) : bool :=
  forallb (fun x => forallb (fun y => get t (x .^ y) =? get t x .^ get t y) (seqZ 0 16)) (seqZ 0 16) &&
  forallb (fun x => get t x .& m =? get t x) (seqZ 0 16).

Lemma fits_lookup t f m : additive t m = true -> word (Z.of_nat n) m -> linear S (word_space n) f -> fits S n m (fun a => get t (f a .& 0xf)).
Proof.
  intros [Ha Hm]%andb_true_iff Hw Hf.
  assert (forall x, 0 <= x .& 0xf < 16) as Hx by (intros x; rewrite (land_mask 4) by done; by apply wrap_range).
  assert (forall x, within m (get t (x .& 0xf))) as Hin.
  { intros x. apply Z.eqb_eq. exact (forallb_seqZ (fun x => get t x .& m =? get t x) 16 _ Hm (Hx x)). }
  split; [|intros a _; apply Hin]. split.
  - intros a _. simpl. rewrite <-(Hin (f a)). apply word_land_r; [lia|done].
  - intros a b Hva Hvb. rewrite (linear_add Hf) by done. simpl. rewrite land_lxor. apply Z.eqb_eq.
    pose proof (forallb_seqZ (fun x => forallb (fun y => get t (x .^ y) =? get t x .^ get t y) (seqZ 0 16)) 16 _ Ha (Hx (f a))) as H.
    exact (forallb_seqZ (fun y => get t (_ .^ y) =? get t _ .^ get t y) 16 _ H (Hx (f b))).
Qed.
End fits.
