(* ===== verification/Bytes.v ===== *)
(** * Byte codecs.

    Big- and little-endian words read from and written to byte arrays, as the
    ciphers do it, and their round trips. *)
From S2P Require Import Prelude Arrays.
Local Open Scope Z_scope.
Local Open Scope word_scope.

Definition be32 (b0 b1 b2 b3 : Z) : Z := (b0 ≪ 24) .| (b1 ≪ 16) .| (b2 ≪ 8) .| b3.
Definition be32_bytes (w : Z) : list Z :=
  [(w ≫ 24) .& 0xff; (w ≫ 16) .& 0xff; (w ≫ 8) .& 0xff; w .& 0xff].

(** A block of [n] bytes. *)
Definition bytes (n : nat) (l : list Z) : Prop := length l = n /\ Forall (word 8) l.

(** [Forall] over an explicit list, one goal per element. *)
Tactic Notation "Forall_list" tactic(tac) :=
  repeat (apply Forall_cons; split; [tac|]); apply Forall_nil; exact I.

Section codecs.
Implicit Types (w x hi lo b : Z).

(** Disjoint bits add. *)
Lemma lor_shiftl hi lo k : 0 <= k -> word k lo -> (hi ≪ k) .| lo = hi * 2 ^ k + lo.
Proof.
  intros Hk Hlo. rewrite <-Z.shiftl_mul_pow2 by done. symmetry. apply Z.add_nocarry_lor.
  apply Z.bits_inj'. intros i Hi. rewrite Z.land_spec, Z.bits_0.
  destruct (Z.ltb_spec i k); [by rewrite Z.shiftl_spec_low|].
  by rewrite (word_testbit k lo), andb_false_r.
Qed.

Lemma land_ff w : w .& 0xff = w mod 256.
Proof. change 0xff with (2 ^ 8 - 1). by rewrite land_mask. Qed.

Lemma be32_eq b0 b1 b2 b3 : word 8 b1 -> word 8 b2 -> word 8 b3 ->
  be32 b0 b1 b2 b3 = b0 * 2 ^ 24 + b1 * 2 ^ 16 + b2 * 2 ^ 8 + b3.
Proof.
  intros H1 H2 H3. unfold be32.
  rewrite <-Z.lor_assoc, (lor_shiftl b2) by (lia || done).
  rewrite <-Z.lor_assoc, (lor_shiftl b1) by (unfold word in *; lia).
  rewrite lor_shiftl by (unfold word in *; lia). lia.
Qed.

Lemma be32_word b0 b1 b2 b3 : word 8 b0 -> word 8 b1 -> word 8 b2 -> word 8 b3 ->
  word 32 (be32 b0 b1 b2 b3).
Proof. intros. rewrite be32_eq by done. unfold word in *. lia. Qed.

Lemma be32_bytes_be32 b0 b1 b2 b3 : word 8 b0 -> word 8 b1 -> word 8 b2 -> word 8 b3 ->
  be32_bytes (be32 b0 b1 b2 b3) = [b0; b1; b2; b3].
Proof.
  intros. unfold be32_bytes. rewrite be32_eq, !land_ff, !Z.shiftr_div_pow2 by (done || lia).
  unfold word in *. repeat f_equal; Z.to_euclidean_division_equations; lia.
Qed.

Lemma be32_be32_bytes w : word 32 w ->
  be32 ((w ≫ 24) .& 0xff) ((w ≫ 16) .& 0xff) ((w ≫ 8) .& 0xff) (w .& 0xff) = w.
Proof.
  intros. rewrite be32_eq, !land_ff, !Z.shiftr_div_pow2
    by (first [lia | apply word_land_r; unfold word; lia]).
  unfold word in *. Z.to_euclidean_division_equations; lia.
Qed.

Lemma be32_bytes_ok w : bytes 4 (be32_bytes w).
Proof.
  split; [done|]. unfold be32_bytes.
  Forall_list (apply word_land_r; unfold word; lia).
Qed.
End codecs.

(** A block of eight bytes, as two big-endian words. *)
Lemma bytes_8 l : bytes 8 l -> exists b0 b1 b2 b3 b4 b5 b6 b7,
  l = [b0; b1; b2; b3; b4; b5; b6; b7] /\ word 8 b0 /\ word 8 b1 /\ word 8 b2 /\ word 8 b3 /\
  word 8 b4 /\ word 8 b5 /\ word 8 b6 /\ word 8 b7.
Proof.
  intros [Hl Hw]. destruct l as [|b0 [|b1 [|b2 [|b3 [|b4 [|b5 [|b6 [|b7 [|]]]]]]]]]; try done.
  rewrite !Forall_cons in Hw. exists b0, b1, b2, b3, b4, b5, b6, b7. tauto.
Qed.

Definition be32_at (l : list Z) (i : Z) : Z := be32 (get l i) (get l (i + 1)) (get l (i + 2)) (get l (i + 3)).

Lemma be32_at_word l i : Forall (word 8) l -> word 32 (be32_at l i).
Proof.
  intros Hl. unfold be32_at. apply be32_word; by apply get_word.
Qed.

Lemma be32_at_list b0 b1 b2 b3 b4 b5 b6 b7 :
  be32_at [b0; b1; b2; b3; b4; b5; b6; b7] 0 = be32 b0 b1 b2 b3 /\
  be32_at [b0; b1; b2; b3; b4; b5; b6; b7] 4 = be32 b4 b5 b6 b7.
Proof. split; reflexivity. Qed.

Lemma be32_at_bytes l r : word 32 l -> word 32 r ->
  be32_at (be32_bytes l ++ be32_bytes r) 0 = l /\ be32_at (be32_bytes l ++ be32_bytes r) 4 = r.
Proof.
  intros. unfold be32_bytes. cbn [app]. rewrite !(proj1 (be32_at_list _ _ _ _ _ _ _ _)),
    !(proj2 (be32_at_list _ _ _ _ _ _ _ _)), !be32_be32_bytes by done. done.
Qed.

Lemma be32_bytes_at b : bytes 8 b -> be32_bytes (be32_at b 0) ++ be32_bytes (be32_at b 4) = b.
Proof.
  intros (b0 & b1 & b2 & b3 & b4 & b5 & b6 & b7 & -> & ? & ? & ? & ? & ? & ? & ? & ?)%bytes_8.
  rewrite (proj1 (be32_at_list _ _ _ _ _ _ _ _)), (proj2 (be32_at_list _ _ _ _ _ _ _ _)).
  by rewrite !be32_bytes_be32 by done.
Qed.

Lemma be32_pair_bytes l r : bytes 8 (be32_bytes l ++ be32_bytes r).
Proof.
  destruct (be32_bytes_ok l) as [? ?], (be32_bytes_ok r) as [? ?].
  split; [done|by apply Forall_app].
Qed.

(** Constant tables: every entry is a [w]-bit word, and so is every lookup. *)
Definition words_b (w : Z) (l : list Z) : bool := forallb (fun x => (0 <=? x) && (x <? 2 ^ w)) l.

Lemma words_b_get w l i : 0 <= w -> words_b w l = true -> word w (get l i).
Proof.
  intros Hw Hl. unfold words_b in Hl. rewrite forallb_forall in Hl. unfold get.
  destruct (nth_in_or_default (Z.to_nat i) l 0) as [Hin| ->].
  - specialize (Hl _ Hin). rewrite andb_true_iff, Z.leb_le, Z.ltb_lt in Hl. unfold word. lia.
  - unfold word. lia.
Qed.

(** A byte of a word. *)
Lemma byte_word w n : word 8 ((w ≫ n) .& 0xff).
Proof. apply word_land_r; unfold word; lia. Qed.

(** Lists of [n] 32-bit words, updated in place. *)
Definition word_list (n : nat) (l : list Z) : Prop := length l = n /\ Forall (word 32) l.

Lemma word_list_get n l i : word_list n l -> word 32 (get l i).
Proof.
  intros [_ Hl]. by apply get_word.
Qed.
Lemma word_list_set n l i v : word_list n l -> word 32 v -> word_list n (set l i v).
Proof.
  intros [Hn Hl] Hv. split; [unfold set; by rewrite length_insert|by apply Forall_insert].
Qed.
Lemma word_list_replicate n : word_list n (replicate n 0).
Proof. split; [apply length_replicate|apply Forall_replicate; unfold word; lia]. Qed.

Lemma words_b_Forall w l : words_b w l = true -> Forall (word w) l.
Proof.
  unfold words_b. rewrite forallb_forall, List.Forall_forall. intros H x Hx. specialize (H x Hx).
  rewrite andb_true_iff, Z.leb_le, Z.ltb_lt in H. exact H.
Qed.
