(* ===== verification/LlvmIr.v ===== *)
(** * Control-flow graphs.

    What the loop limiter sees of an LLVM function: basic blocks of phis,
    instructions and a terminator.  The instructions of the program itself are
    opaque: what they do to the program state is a parameter.  The instructions
    the pass inserts are constructors of their own, with 32-bit counters. *)
From stdpp Require Import gmap.
From S2P Require Import Prelude.
Local Open Scope Z_scope.

Definition label : Type := nat.

Section syntax.
Context {var operand op tm cond : Type}.

(** [StoreCounter], [Increment] (load, add 1, store), [LoadCompare] (load and
    [icmp sge] with the limit, which defines the value [BoundCheck c]) and the
    call of [klee_silent_exit] are what the pass creates. *)
Inductive instr :=
  | Op (o : op)
  | StoreCounter (c : nat) (v : Z)
  | Increment (c : nat)
  | LoadCompare (c : nat) (limit : Z)
  | CallSilentExit (code : Z).

Inductive value :=
  | Orig (q : cond)
  | BoundCheck (c : nat)
  | Or (v w : value)
  | And (v w : value)
  | Not (v : value).

Inductive terminator :=
  | Br (l : label)
  | CondBr (v : value) (l0 l1 : label)
  | Unreachable
  | OtherTerm (t : tm) (targets : list label).

Record block := mk_block {
  phis : list (var * list (label * operand)); body : list instr; term : terminator }.

Record func := mk_func { entry : label; blocks : gmap label block; allocas : list nat }.

Definition successors (t : terminator) : list label :=
  match t with
  | Br l => [l]
  | CondBr _ l0 l1 => [l0; l1]
  | Unreachable => []
  | OtherTerm _ ls => ls
  end.

(** Labels a block mentions. *)
Definition block_labels (b : block) : list label :=
  successors (term b) ++ (phis b ≫= fun p => p.2.*1).

(** Every label mentioned is a block. *)
Definition wf_func (f : func) : Prop :=
  is_Some (blocks f !! entry f) /\
  forall l b l', blocks f !! l = Some b -> l' ∈ block_labels b -> is_Some (blocks f !! l').

(** A label that is not a block yet. *)
Definition fresh_label (f : func) : label :=
  S (foldr Nat.max 0%nat (map_to_list (blocks f)).*1).

Definition upd_block (l : label) (g : block -> block) (f : func) : func :=
  mk_func (entry f) (alter g l (blocks f)) (allocas f).
End syntax.

Arguments instr : clear implicits.
Arguments value : clear implicits.
Arguments terminator : clear implicits.
Arguments block : clear implicits.
Arguments func : clear implicits.

(** ** Execution *)
Section execution.
Context {var operand op tm cond st : Type}.
(** What the program's own phis (together), instructions, conditions and other
    terminators do. *)
Variables (assign : list (var * operand) -> st -> st) (exec : op -> st -> st)
  (eval : cond -> st -> bool) (select : tm -> st -> option nat).

Abbreviation instr := (instr op).
Abbreviation value := (value cond).
Abbreviation terminator := (terminator tm cond).
Abbreviation block := (block var operand op tm cond).
Abbreviation func := (func var operand op tm cond).

Record machine := mk_machine { prog : st; counters : nat -> Z; checks : nat -> bool }.

Inductive event := EZero (c : nat) | EInc (c : nat) | ECheck (c : nat) (reached : bool).

(** Where control goes: on to a block, returned, or silently exited; a block
    that does not exist, or an unreachable point, is undefined behaviour. *)
Inductive status := Goto (l : label) | Returned | SilentlyExited | Undefined.

Definition upd {A} (f : nat -> A) (c : nat) (v : A) : nat -> A :=
  fun k => if (k =? c)%nat then v else f k.

Definition eval_value (m : machine) : value -> bool :=
  fix go v := match v with
  | Orig q => eval q (prog m)
  | BoundCheck c => checks m c
  | Or v w => go v || go w
  | And v w => go v && go w
  | Not v => negb (go v)
  end.

(** One instruction; [None] ends the path. *)
Definition exec_instr (i : instr) (m : machine) : list event * option machine :=
  match i with
  | Op o => ([], Some (mk_machine (exec o (prog m)) (counters m) (checks m)))
  | StoreCounter c v => ([EZero c], Some (mk_machine (prog m) (upd (counters m) c v) (checks m)))
  | Increment c =>
      ([EInc c], Some (mk_machine (prog m) (upd (counters m) c (s32 (counters m c + 1))) (checks m)))
  | LoadCompare c limit =>
      let r := limit <=? counters m c in
      ([ECheck c r], Some (mk_machine (prog m) (counters m) (upd (checks m) c r)))
  | CallSilentExit _ => ([], None)
  end.

Fixpoint exec_body (il : list instr) (m : machine) : list event * option machine :=
  match il with
  | [] => ([], Some m)
  | i :: il =>
      let '(t, r) := exec_instr i m in
      match r with
      | None => (t, None)
      | Some m => let '(t', r) := exec_body il m in (t ++ t', r)
      end
  end.

(** The phis of a block entered from [pred]. *)
Definition incoming (pred : label) (p : var * list (label * operand)) : option (var * operand) :=
  o ← list_find (fun e => e.1 = pred) p.2; Some (p.1, o.2.2).

Definition exec_phis (pred : option label) (ps : list (var * list (label * operand))) (m : machine)
    : machine :=
  match pred with
  | None => m
  | Some l => mk_machine (assign (omap (incoming l) ps) (prog m)) (counters m) (checks m)
  end.

Definition exec_term (t : terminator) (m : machine) : status :=
  match t with
  | Br l => Goto l
  | CondBr v l0 l1 => Goto (if eval_value m v then l0 else l1)
  | Unreachable => Undefined
  | OtherTerm t ls =>
      match select t (prog m) with
      | None => Returned
      | Some k => match ls !! k with Some l => Goto l | None => Undefined end
      end
  end.

(** A block from its first phi to its terminator. *)
Definition exec_block (pred : option label) (b : block) (m : machine)
    : list event * machine * status :=
  let m := exec_phis pred (phis b) m in
  let '(t, r) := exec_body (body b) m in
  match r with
  | None => (t, m, SilentlyExited)
  | Some m => (t, m, exec_term (term b) m)
  end.

(** [n] blocks of a run. *)
Fixpoint run (f : func) (n : nat) (pred : option label) (l : label) (m : machine)
    : list event * machine * status :=
  match n with
  | O => ([], m, Goto l)
  | S n =>
      match blocks f !! l with
      | None => ([], m, Undefined)
      | Some b =>
          let '(t, m, s) := exec_block pred b m in
          match s with
          | Goto l' => let '(t', m, s) := run f n (Some l) l' m in (t ++ t', m, s)
          | _ => (t, m, s)
          end
      end
  end.
End execution.
Arguments machine : clear implicits.
