(* ===== verification/LoopLimiter.v ===== *)
(** * The loop limiter: [loop-limiter/LoopLimiter.cpp].

    The pass as a function from a control-flow graph to a control-flow graph.
    What it asks of LLVM (the loop queries, block creation and splitting) is the
    class [LLVM]; the loop forest LLVM computes is data. *)
From stdpp Require Import gmap strings.
From S2P Require Import Prelude LlvmIr.
Local Open Scope Z_scope.

(** A loop of [LoopInfo]: header, all its blocks, the loops nested in it. *)
#[warnings="-register-all"]
Inductive Loop := mk_loop (getHeader : label) (blocks_of_loop : list label) (getSubLoops : list Loop).

Definition getHeader (L : Loop) : label := let '(mk_loop h _ _) := L in h.
Definition loop_blocks (L : Loop) : list label := let '(mk_loop _ bs _) := L in bs.
Definition getSubLoops (L : Loop) : list Loop := let '(mk_loop _ _ subs) := L in subs.
Definition contains (L : Loop) (l : label) : bool := bool_decide (l ∈ loop_blocks L).

(** A loop and every loop nested in it. *)
Fixpoint loop_tree (L : Loop) : list Loop :=
  let '(mk_loop _ _ subs) := L in L :: concat (map loop_tree subs).
Definition loop_forest (ls : list Loop) : list Loop := concat (map loop_tree ls).

(** The command line. *)
Record options := mk_options {
  MaxIterations : Z; Whitelist : list string; Blacklist : list string; BreakMode : bool }.

(** The three process-wide counters. *)
Record stats := mk_stats { StatTotalLoops : Z; StatChangedLoops : Z; StatExcludedLoops : Z }.

Inductive warning := NoPreheader | NoLatch | NotConditional | NotOneExit.

Section pass.
Context {var operand op tm cond : Type}.
Abbreviation instr := (instr op).
Abbreviation block := (block var operand op tm cond).
Abbreviation func := (func var operand op tm cond).

(** Phis of the successors of a split block name the new block. *)
Definition redirect_phis (h c : label) (b : block) : block :=
  mk_block (prod_map id (map (prod_map (fun l => if decide (l = h) then c else l) id)) <$> phis b)
    (body b) (term b).

(** The graph after the block [h] is split before its first non-phi, [c] being
    the new block. *)
Definition split_at (h c : label) (f : func) : func :=
  match blocks f !! h with
  | None => f
  | Some hb =>
      let redirect l b := if decide (l ∈ successors (term hb)) then redirect_phis h c b else b in
      let hb' := redirect h hb in
      mk_func (entry f)
        (<[c := mk_block [] (body hb) (term hb)]>
          (<[h := mk_block (phis hb') [] (Br c)]> (map_imap (fun l b => Some (redirect l b)) (blocks f))))
        (allocas f)
  end.

(** A label no block of the graph has. *)
Definition is_new (f : func) (l : label) : Prop := blocks f !! l = None.

(** How often a label occurs in a list. *)
Definition occurrences (l : label) (ls : list label) : nat :=
  length (List.filter (fun l' => bool_decide (l' = l)) ls).

(** ** What the pass uses of LLVM *)
Class LLVM := {
  getLoopPreheader : func -> Loop -> option label;
  getLoopLatches : func -> Loop -> list label;
  createBlock : func -> label;
  splitBasicBlock : func -> label -> func * label;
  (** The preheader is a block outside the loop, so not the header. *)
  preheader_block f L p : wf_func f -> getLoopPreheader f L = Some p ->
    is_Some (blocks f !! p) /\ p <> getHeader L;
  (** It is outside the loop, and its only edge leads to the header. *)
  preheader_edge f L p : wf_func f -> getLoopPreheader f L = Some p ->
    contains L p = false /\ successors ∘ term <$> blocks f !! p = Some [getHeader L];
  (** The header of a loop of the function is a block of it. *)
  header_block f L p : wf_func f -> getLoopPreheader f L = Some p -> is_Some (blocks f !! getHeader L);
  (** A block that branches to the header of a loop with a preheader is the
      preheader or a latch, and latches are blocks. *)
  header_predecessors f L p l b : wf_func f -> getLoopPreheader f L = Some p ->
    blocks f !! l = Some b -> getHeader L ∈ successors (term b) -> l = p \/ l ∈ getLoopLatches f L;
  latch_blocks f L l : wf_func f -> l ∈ getLoopLatches f L -> is_Some (blocks f !! l);
  (** The latches are the blocks of the loop with an edge to its header, one for
      every edge. *)
  latch_edges f L l b : wf_func f -> blocks f !! l = Some b ->
    occurrences l (getLoopLatches f L) =
      if contains L l then occurrences (getHeader L) (successors (term b)) else 0%nat;
  createBlock_new f : is_new f (createBlock f);
  splitBasicBlock_spec f h : is_Some (blocks f !! h) ->
    is_new f (splitBasicBlock f h).2 /\
    (splitBasicBlock f h).1 = split_at h (splitBasicBlock f h).2 f }.

Context `{LLVM}.

(** [Builder.SetInsertPoint(B->getTerminator())], then an instruction. *)
Definition insert_before_term (l : label) (i : instr) (f : func) : func :=
  upd_block l (fun b => mk_block (phis b) (body b ++ [i]) (term b)) f.

(** The state of [run] while it empties the worklist. *)
Record state := mk_state {
  fn : func; LoopIdx : nat; Changed : bool; changed_loops : Z; warnings : list warning }.

Definition warn (w : warning) (s : state) : state :=
  mk_state (fn s) (LoopIdx s) (Changed s) (changed_loops s) (warnings s ++ [w]).

(** The exit edge break mode can reuse: the header's conditional branch, if
    exactly one successor is in the loop. *)
Definition canonical_exit (f : func) (L : Loop) : warning + (value cond * label * label * label) :=
  match term <$> blocks f !! getHeader L with
  | Some (CondBr v Succ0 Succ1) =>
      let Succ0InLoop := contains L Succ0 in
      let Succ1InLoop := contains L Succ1 in
      if eqb Succ0InLoop Succ1InLoop then inl NotOneExit
      else inr (v, Succ0, Succ1, if Succ0InLoop then Succ1 else Succ0)
  | _ => inl NotConditional
  end.

Definition limit_of (o : options) : Z := s32 (MaxIterations o).

(** Break mode: the exit condition is widened with the bound check. *)
Definition widen_exit (o : options) (c : nat) (h : label) (e : value cond * label * label * label) (f : func)
    : func :=
  let '(OriginalCondition, TrueSuccessor, FalseSuccessor, ExitSuccessor) := e in
  let NewCondition := if decide (TrueSuccessor = ExitSuccessor)
    then Or OriginalCondition (BoundCheck c)
    else And OriginalCondition (Not (BoundCheck c)) in
  upd_block h (fun b => mk_block (phis b) (body b ++ [LoadCompare c (limit_of o)])
    (CondBr NewCondition TrueSuccessor FalseSuccessor)) f.

(** Otherwise: a block that exits silently, and a check between the phis of the
    header and the rest of it. *)
Definition split_header (o : options) (c : nat) (h : label) (f : func) : func :=
  let ExitBB := createBlock f in
  let f := mk_func (entry f) (<[ExitBB := mk_block [] [] Unreachable]> (blocks f)) (allocas f) in
  let '(f, ContinueBB) := splitBasicBlock f h in
  let f := upd_block ExitBB (fun b => mk_block (phis b) [CallSilentExit 1] Unreachable) f in
  upd_block h (fun b => mk_block (phis b) (body b ++ [LoadCompare c (limit_of o)])
    (CondBr (BoundCheck c) ExitBB ContinueBB)) f.

(** One iteration of the worklist loop, up to the push of the nested loops. *)
Definition instrument_loop (o : options) (L : Loop) (s : state) : state :=
  let f := fn s in
  let Header := getHeader L in
  match getLoopPreheader f L with
  | None => warn NoPreheader s
  | Some Preheader =>
      let Latches := getLoopLatches f L in
      if decide (Latches = []) then warn NoLatch s else
      let exit := if BreakMode o then canonical_exit f L else inl NotConditional in
      let s := match exit with
        | inl w => if BreakMode o then warn w s else s
        | inr _ => s end in
      let c := LoopIdx s in
      let f := mk_func (entry f) (blocks f) (allocas f ++ [c]) in
      let f := insert_before_term Preheader (StoreCounter c 0) f in
      let f := match exit with
        | inr e => widen_exit o c Header e f
        | inl _ => split_header o c Header f
        end in
      let f := foldl (fun f Latch => insert_before_term Latch (Increment c) f) f Latches in
      mk_state f (S c) true (u64 (changed_loops s + 1)) (warnings s)
  end.

(** The worklist, its back first. *)
Fixpoint process (fuel : nat) (o : options) (Worklist : list Loop) (s : state) : option state :=
  match Worklist with
  | [] => Some s
  | L :: Worklist =>
      match fuel with
      | O => None
      | S fuel => process fuel o (rev (getSubLoops L) ++ Worklist) (instrument_loop o L s)
      end
  end.

(** The breadth-first count, its queue from [idx] on. *)
Fixpoint count_loops (fuel : nat) (CountWork : list Loop) (n : Z) : option Z :=
  match CountWork with
  | [] => Some n
  | L :: CountWork =>
      match fuel with
      | O => None
      | S fuel => count_loops fuel (CountWork ++ getSubLoops L) (u32 (n + 1))
      end
  end.

Definition is_allowed (o : options) (name : string) : bool :=
  match Whitelist o with
  | _ :: _ => existsb (String.eqb name) (Whitelist o)
  | [] =>
      match Blacklist o with
      | _ :: _ => negb (existsb (String.eqb name) (Blacklist o))
      | [] => true
      end
  end.

(** [report_fatal_error], or the function, whether analyses are invalidated, the
    statistics and the warnings. *)
Inductive result :=
  | FatalError
  | Ran (f : func) (invalidated : bool) (s : stats) (ws : list warning).

Definition both_lists (o : options) : bool :=
  match Whitelist o, Blacklist o with _ :: _, _ :: _ => true | _, _ => false end.

Definition run_pass (o : options) (name : string) (f : func) (LI : list Loop) (s : stats)
    : option result :=
  if both_lists o then Some FatalError else
  let fuel := length (loop_forest LI) in
  FuncLoopCount ← count_loops fuel LI 0;
  let s := mk_stats (u64 (StatTotalLoops s + FuncLoopCount)) (StatChangedLoops s) (StatExcludedLoops s) in
  if negb (is_allowed o name) then
    Some (Ran f false (mk_stats (StatTotalLoops s) (StatChangedLoops s)
      (u64 (StatExcludedLoops s + FuncLoopCount))) [])
  else if decide (LI = []) then Some (Ran f false s []) else
  r ← process fuel o (rev LI) (mk_state f 0 false (StatChangedLoops s) []);
  Some (Ran (fn r) (Changed r)
    (mk_stats (StatTotalLoops s) (changed_loops r) (StatExcludedLoops s)) (warnings r)).
End pass.

Arguments LLVM : clear implicits.
Arguments state : clear implicits.
Arguments result : clear implicits.

Lemma occurrences_pos l ls : l ∈ ls <-> (0 < occurrences l ls)%nat.
Proof.
  unfold occurrences. split.
  - intros Hin. apply list_elem_of_In, (in_split l) in Hin as (l1 & l2 & ->).
    rewrite List.filter_app, length_app. simpl. rewrite bool_decide_true by done. simpl. lia.
  - destruct (List.filter _ ls) as [|x xs] eqn:E; [simpl; lia|]. intros _.
    assert (In x (List.filter (fun l' => bool_decide (l' = l)) ls)) as Hx by (rewrite E; by left).
    apply filter_In in Hx as [Hx Hd%bool_decide_eq_true]. subst x. by apply list_elem_of_In.
Qed.

Lemma occurrences_none l ls : l ∉ ls -> occurrences l ls = 0%nat.
Proof. intros Hl. destruct (occurrences l ls) eqn:E; [done|]. destruct Hl. apply occurrences_pos. lia. Qed.
