(* ===== verification/LlvmModel.v ===== *)
(** * A concrete model of the LLVM queries.

    The loop queries and block surgery computed from the graph, as LLVM
    documents them.  It shows that the interface [LLVM] can be met; no theorem on
    the pass depends on it but the ones that run it on a concrete function. *)
From stdpp Require Import gmap.
From S2P Require Import Prelude LlvmIr LoopLimiter.

Section model.
Context {var operand op tm cond : Type}.
Abbreviation func := (func var operand op tm cond).
Implicit Types (f : func) (h l p : label) (L : Loop).

(** One for every edge. *)
Definition predecessors f h : list label :=
  map_to_list (blocks f) ≫= fun lb => replicate (occurrences h (successors (term lb.2))) lb.1.

(** The only block outside the loop that branches to the header, if it branches
    nowhere else. *)
Definition find_preheader f L : option label :=
  match List.filter (fun l => negb (contains L l)) (predecessors f (getHeader L)) with
  | [p] =>
      if contains L (getHeader L) then
        match successors ∘ term <$> blocks f !! p with Some [_] => Some p | _ => None end
      else None
  | _ => None
  end.

Definition find_latches f L : list label := List.filter (contains L) (predecessors f (getHeader L)).

Lemma elem_of_predecessors f h l :
  l ∈ predecessors f h <-> exists b, blocks f !! l = Some b /\ h ∈ successors (term b).
Proof.
  unfold predecessors. rewrite list_elem_of_bind. split.
  - intros ([l' b] & [-> Hn]%elem_of_replicate & Hin%elem_of_map_to_list). exists b. split; [done|].
    apply occurrences_pos. simpl in Hn. lia.
  - intros (b & Eb & Hh%occurrences_pos). exists (l, b). rewrite elem_of_map_to_list. split; [|done].
    apply elem_of_replicate. split; [done|]. simpl. lia.
Qed.

Lemma occurrences_app l ls ls' : occurrences l (ls ++ ls') = (occurrences l ls + occurrences l ls')%nat.
Proof. unfold occurrences. by rewrite List.filter_app, length_app. Qed.

Lemma occurrences_replicate l l' n : occurrences l (replicate n l') = if decide (l' = l) then n else 0%nat.
Proof.
  unfold occurrences. induction n as [|n IH]; simpl; [by destruct (decide _)|].
  destruct (decide (l' = l)); [rewrite bool_decide_true by done|rewrite bool_decide_false by done]; simpl; by rewrite IH.
Qed.

Lemma occurrences_predecessors f h l b : blocks f !! l = Some b ->
  occurrences l (predecessors f h) = occurrences h (successors (term b)).
Proof.
  intros Eb. unfold predecessors. apply elem_of_map_to_list in Eb. pose proof (NoDup_fst_map_to_list (blocks f)) as Hn.
  induction (map_to_list (blocks f)) as [|[l' b'] ls IH]; [by apply not_elem_of_nil in Eb|].
  rewrite fmap_cons in Hn. apply NoDup_cons in Hn as [Hl Hn]. rewrite bind_cons, occurrences_app, occurrences_replicate. simpl in *.
  apply elem_of_cons in Eb as [[= <- <-]|Hin].
  - rewrite decide_True by done. destruct (occurrences l _) as [|k] eqn:E; [lia|].
    assert (l ∈ (ls ≫= fun lb => replicate (occurrences h (successors (term lb.2))) lb.1)) as Hin
      by (apply occurrences_pos; lia).
    apply list_elem_of_bind in Hin as (lb & [-> _]%elem_of_replicate & Hin). destruct Hl. by apply list_elem_of_fmap_2.
  - rewrite decide_False, IH; [done..|]. intros ->. destruct Hl. by apply (list_elem_of_fmap_2 fst) in Hin.
Qed.

Lemma occurrences_filter l (q : label -> bool) ls :
  occurrences l (List.filter q ls) = if q l then occurrences l ls else 0%nat.
Proof.
  unfold occurrences. induction ls as [|x ls IH]; simpl; [by destruct (q l)|].
  destruct (q x) eqn:Ex; simpl; destruct (bool_decide (x = l)) eqn:Ed; simpl; rewrite IH;
    try (apply bool_decide_eq_true in Ed; subst x; rewrite Ex); done.
Qed.

Lemma elem_of_filter_bool {A} (q : A -> bool) (x : A) (xs : list A) :
  x ∈ List.filter q xs <-> x ∈ xs /\ q x = true.
Proof. rewrite !list_elem_of_In. apply filter_In. Qed.

Lemma find_preheader_spec f L p : find_preheader f L = Some p ->
  contains L (getHeader L) = true /\
  forall l, l = p <-> l ∈ predecessors f (getHeader L) /\ contains L l = false.
Proof.
  unfold find_preheader. destruct (List.filter _ _) as [|p' [|]] eqn:Ef; try done.
  destruct (contains L (getHeader L)); [|done].
  destruct (successors ∘ term <$> blocks f !! p') as [[|? [|]]|]; try done. intros [= ->].
  split; [done|]. intros q. rewrite <-list_elem_of_singleton, <-Ef, elem_of_filter_bool.
  by rewrite negb_true_iff.
Qed.

Lemma fresh_label_new f : is_new f (fresh_label f).
Proof.
  unfold is_new, fresh_label. destruct (blocks f !! _) as [b|] eqn:E; [|done].
  apply elem_of_map_to_list in E. apply (list_elem_of_fmap_2 fst) in E. simpl in E.
  assert (forall x (xs : list nat), x ∈ xs -> (x <= foldr Nat.max 0 xs)%nat) as Hmax.
  { intros x xs. induction 1; simpl; [apply Nat.le_max_l|]. etrans; [eassumption|apply Nat.le_max_r]. }
  apply Hmax in E. by apply Nat.nle_succ_diag_l in E.
Qed.

#[export] Program Instance llvm_model : LLVM var operand op tm cond := {
  getLoopPreheader := find_preheader;
  getLoopLatches := find_latches;
  createBlock := fresh_label;
  splitBasicBlock f h := (split_at h (fresh_label f) f, fresh_label f) }.
Next Obligation.
  intros f L p Hf [Hh Hp]%find_preheader_spec. destruct (proj1 (Hp p) eq_refl) as [Hpre Hc].
  apply elem_of_predecessors in Hpre as (b & Eb & _). split; [by eexists|]. congruence.
Qed.
Next Obligation.
  intros f L p Hf Hp. pose proof Hp as [Hh Hq]%find_preheader_spec. destruct (proj1 (Hq p) eq_refl) as [Hin Hc].
  split; [done|]. unfold find_preheader in Hp. destruct (List.filter _ _) as [|p' [|]]; try done.
  rewrite Hh in Hp. destruct (successors ∘ term <$> blocks f !! p') as [[|s [|]]|] eqn:Es; simplify_eq.
  rewrite Es. apply elem_of_predecessors in Hin as (b & Eb & Hin). rewrite Eb in Es. simpl in Es. simplify_eq.
  rewrite Es in Hin. by apply list_elem_of_singleton in Hin as ->.
Qed.
Next Obligation.
  intros f L p Hf [Hh Hp]%find_preheader_spec. destruct (proj1 (Hp p) eq_refl) as [Hpre Hc].
  apply elem_of_predecessors in Hpre as (b & Eb & Hin). destruct Hf as [_ Hf].
  apply (Hf _ _ _ Eb). unfold block_labels. apply elem_of_app. by left.
Qed.
Next Obligation.
  intros f L p l b Hf [Hh Hp]%find_preheader_spec Eb Hin.
  assert (l ∈ predecessors f (getHeader L)) as Hl by (apply elem_of_predecessors; eauto).
  destruct (contains L l) eqn:E; [|left; by apply Hp]. right. by apply elem_of_filter_bool.
Qed.
Next Obligation.
  intros f L l Hf [Hl _]%elem_of_filter_bool. apply elem_of_predecessors in Hl as (b & Eb & _). by eexists.
Qed.
Next Obligation.
  intros f L l b Hf Eb. unfold find_latches. by rewrite occurrences_filter, (occurrences_predecessors f _ l b Eb).
Qed.
Next Obligation. apply fresh_label_new. Qed.
Next Obligation. intros f h _. simpl. split; [apply fresh_label_new|done]. Qed.
End model.
