(* ===== verification/LoopLimiterBound.v ===== *)
(** * The bound the loop limiter enforces.

    Traces of counter events, the structural invariant that makes a loop
    counted, and its preservation by every later edit of the pass. *)
From stdpp Require Import gmap.
From S2P Require Import Prelude LlvmIr LoopLimiter.
Local Open Scope Z_scope.

(** ** Traces *)

Section traces.
Implicit Types (c : nat) (lim v : Z) (t : list event).

(** The events of counter [c] record its value: [v] before the trace. *)
Fixpoint consistent c lim v t : Prop :=
  match t with
  | [] => True
  | EZero c' :: t => consistent c lim (if decide (c' = c) then 0 else v) t
  | EInc c' :: t => consistent c lim (if decide (c' = c) then s32 (v + 1) else v) t
  | ECheck c' r :: t => (c' = c -> r = (lim <=? v)) /\ consistent c lim v t
  end.

(** Between two checks the counter is written; [armed] says that a check came
    after the last write. *)
Fixpoint monitor c (armed : bool) t : option bool :=
  match t with
  | [] => Some armed
  | EZero c' :: t | EInc c' :: t => monitor c (if decide (c' = c) then false else armed) t
  | ECheck c' _ :: t =>
      if decide (c' = c) then if armed then None else monitor c true t else monitor c armed t
  end.

Definition is_zero_of c (e : event) : bool := match e with EZero c' => bool_decide (c' = c) | _ => false end.
Definition is_inc_of c (e : event) : bool := match e with EInc c' => bool_decide (c' = c) | _ => false end.
(** A check that lets the loop go on. *)
Definition is_pass_of c (e : event) : bool :=
  match e with ECheck c' r => bool_decide (c' = c) && negb r | _ => false end.

Definition count (p : event -> bool) t : Z := Z.of_nat (length (List.filter p t)).

Lemma count_cons p e t : count p (e :: t) = (if p e then 1 else 0) + count p t.
Proof. unfold count. simpl. destruct (p e); simpl; lia. Qed.
Lemma count_nonneg p t : 0 <= count p t.
Proof. unfold count. lia. Qed.

Lemma monitor_app c a t t' : monitor c a (t ++ t') = (a' ← monitor c a t; monitor c a' t').
Proof.
  revert a. induction t as [|[c'|c'|c' r] t IH]; intros a; simpl; [done|apply IH..|].
  destruct (decide _); [destruct a; [done|]|]; apply IH.
Qed.

Lemma consistent_app c lim v t t' : consistent c lim v (t ++ t') -> consistent c lim v t.
Proof.
  revert v. induction t as [|[c'|c'|c' r] t IH]; intros v; simpl; [done|apply IH..|].
  intros [? ?]. split; [done|]. by eapply IH.
Qed.

(** As long as the counter does not wrap it counts the increments, so it bounds
    the number of passes. *)
Lemma passes_le c lim v a t : consistent c lim v t -> is_Some (monitor c a t) ->
  count (is_zero_of c) t = 0 -> 0 <= v -> v + count (is_inc_of c) t < 2 ^ 31 ->
  count (is_pass_of c) t <= Z.max 0 (lim - v - (if a then 1 else 0)).
Proof.
  revert v a. induction t as [|[c'|c'|c' r] t IH]; intros v a Hc Hm Hz Hv Hi;
    [unfold count; destruct a; simpl; lia|..]; rewrite !count_cons in Hz, Hi |- *;
    simpl in *; pose proof (count_nonneg (is_zero_of c) t); pose proof (count_nonneg (is_inc_of c) t).
  - case_bool_decide; [lia|]. rewrite decide_False in Hc by done; rewrite decide_False in Hm by done.
    apply (IH v a); try done; lia.
  - case_bool_decide as E.
    + rewrite decide_True in Hc by done; rewrite decide_True in Hm by done.
      assert (s32 (v + 1) = v + 1) as Es.
      { apply sgn_small; [lia|]. unfold sword. lia. }
      rewrite Es in Hc. specialize (IH (v + 1) false Hc Hm). simpl in IH. destruct a; lia.
    + rewrite decide_False in Hc by done; rewrite decide_False in Hm by done. specialize (IH v a Hc Hm). lia.
  - destruct Hc as [Hr Hc]. case_bool_decide as E; simpl.
    + rewrite decide_True in Hm by done. destruct a; [by destruct Hm|].
      specialize (IH v true Hc Hm ltac:(lia) Hv ltac:(lia)). simpl in IH.
      rewrite (Hr E). destruct (Z.leb_spec lim v); simpl; lia.
    + rewrite decide_False in Hm by done. specialize (IH v a Hc Hm). lia.
Qed.
End traces.

(** ** Structure *)
Section structure.
Context {var operand op tm cond : Type}.
Abbreviation instr := (instr op).
Abbreviation block := (block var operand op tm cond).
Abbreviation func := (func var operand op tm cond).
Implicit Types (f g : func) (b : block) (i : instr) (c : nat) (h l : label) (lim : Z).

Definition writes c i : Prop :=
  match i with StoreCounter c' _ | Increment c' => c' = c | _ => False end.
Definition is_check c i : Prop := match i with LoadCompare c' _ => c' = c | _ => False end.
(** What an edit for counter [c] may add: nothing about another counter. *)
Definition foreign c i : Prop :=
  match i with
  | Op _ => False
  | StoreCounter c' v => c' = c /\ v = 0
  | Increment c' | LoadCompare c' _ => c' = c
  | CallSilentExit _ => True
  end.

(** The loop with header [h] is counted by [c]: the header checks the counter
    once, and control cannot come back to the check without a write. *)
Record counted lim g c h : Prop := {
  counted_header : exists hb pre post, blocks g !! h = Some hb /\
    body hb = pre ++ LoadCompare c lim :: post /\
    Forall (fun i => ~ is_check c i) pre /\ Forall (fun i => ~ is_check c i) post /\
    (Exists (writes c) post \/
     forall l b, blocks g !! l = Some b -> h ∈ successors (term b) ->
       l <> h /\ Exists (writes c) (body b));
  counted_unique l b : l <> h -> blocks g !! l = Some b -> Forall (fun i => ~ is_check c i) (body b);
  counted_zero l b v : blocks g !! l = Some b -> StoreCounter c v ∈ body b -> v = 0 }.

(** [g'] is an edit of [g] for counter [c] at header [h]: a block of [g'] is a
    block of [g] with instructions added (that of [h] possibly moved to a new
    block), or holds only added instructions and leads to new blocks only. *)
Record edit c h g g' : Prop := {
  edit_blocks l b' : blocks g' !! l = Some b' ->
    (exists l0 b extra, blocks g !! l0 = Some b /\
      (l0 = l \/ l0 = h /\ blocks g !! l = None) /\
      body b' = body b ++ extra /\ Forall (foreign c) extra /\
      successors (term b') = successors (term b)) \/
    (Forall (foreign c) (body b') /\ (forall s, s ∈ successors (term b') -> blocks g !! s = None) /\
      (l = h \/ blocks g !! l = None));
  edit_kept l b : l <> h -> blocks g !! l = Some b ->
    exists b' extra, blocks g' !! l = Some b' /\ body b' = body b ++ extra /\ Forall (foreign c) extra /\
      term b' = term b;
  edit_dom l : is_Some (blocks g !! l) -> is_Some (blocks g' !! l) }.

Lemma edit_new c h g g' l : edit c h g g' -> blocks g' !! l = None -> blocks g !! l = None.
Proof.
  intros He Hn. destruct (blocks g !! l) eqn:E; [|done].
  destruct (edit_dom _ _ _ _ He l ltac:(by eexists)) as [? ?]. congruence.
Qed.

#[export] Instance edit_preorder c h : PreOrder (edit c h).
Proof.
  split.
  - intros g. split; [|intros l b _ E; exists b, []; by rewrite app_nil_r|done].
    intros l b E. left. exists l, b, []. rewrite app_nil_r. by auto.
  - intros g1 g2 g3 H12 H23. split.
    + intros l b3 E3.
      destruct (edit_blocks _ _ _ _ H23 _ _ E3) as [(l1 & b2 & x & E2 & Hl & Hb & Hx & Hs)|(Hb & Hs & Hl)].
      * destruct (edit_blocks _ _ _ _ H12 _ _ E2) as [(l0 & b1 & y & E1 & Hl' & Hb' & Hy & Hs')|(Hb' & Hs' & Hl')].
        -- left. exists l0, b1, (y ++ x). rewrite app_assoc, <-Hb', <-Hs'. split_and!; try done.
           ++ destruct Hl as [->|[-> Hl]]; [done|]. right.
              split; [by destruct Hl' as [?|[? ?]]|by apply (edit_new _ _ _ _ _ H12)].
           ++ by apply Forall_app.
        -- right. rewrite Hb, Hs. split_and!; [by apply Forall_app|done|].
           destruct Hl as [->|[_ Hl]]; [done|]. right. by apply (edit_new _ _ _ _ _ H12).
      * right. split_and!; [done| |].
        -- intros s Hin. by eapply (edit_new _ _ _ _ _ H12), Hs.
        -- destruct Hl as [?|Hl]; [by left|]. right. by apply (edit_new _ _ _ _ _ H12).
    + intros l b1 Hne E1.
      destruct (edit_kept _ _ _ _ H12 _ _ Hne E1) as (b2 & x & E2 & Hb2 & Hx & Ht2).
      destruct (edit_kept _ _ _ _ H23 _ _ Hne E2) as (b3 & y & E3 & Hb3 & Hy & Ht3).
      exists b3, (x ++ y). rewrite app_assoc, <-Hb2, <-Ht2. split_and!; [done..|by apply Forall_app|done].
    + intros l Hl. by apply (edit_dom _ _ _ _ H23), (edit_dom _ _ _ _ H12).
Qed.

Lemma foreign_not_check c c' i : c <> c' -> foreign c' i -> ~ is_check c i.
Proof. destruct i; simpl; try done; congruence. Qed.

(** An edit for another loop keeps a counted loop counted. *)
Lemma counted_edit lim g g' c h c' h' : counted lim g c h -> edit c' h' g g' -> c <> c' -> h <> h' ->
  counted lim g' c h.
Proof.
  intros [(hb & pre & post & Eh & Hb & Hpre & Hpost & Hw) Hu Hz] He Hc Hh.
  assert (forall il, Forall (foreign c') il -> Forall (fun i => ~ is_check c i) il) as Hnc.
  { intros ? Hl. eapply Forall_impl; [exact Hl|]. intros i. by apply foreign_not_check. }
  split.
  - destruct (edit_kept _ _ _ _ He h hb Hh Eh) as (hb' & x & Eh' & Hb' & Hx & _).
    exists hb', pre, (post ++ x). split_and!; [done| |done|by apply Forall_app; auto|].
    { by rewrite Hb', Hb, <-app_assoc. }
    destruct Hw as [Hw|Hw]; [left; apply Exists_app; by left|right].
    intros l b' E' Hin.
    destruct (edit_blocks _ _ _ _ He _ _ E') as [(l0 & b & y & E & Hl & Hby & Hy & Hs)|(_ & Hs & _)].
    + rewrite Hs in Hin. destruct (Hw _ _ E Hin) as [Hne Hex]. split.
      * destruct Hl as [->|[_ Hl]]; [done|congruence].
      * rewrite Hby. apply Exists_app. by left.
    + rewrite (Hs _ Hin) in Eh. done.
  - intros l b' Hne E'.
    destruct (edit_blocks _ _ _ _ He _ _ E') as [(l0 & b & y & E & Hl & Hby & Hy & Hs)|(Hf & _)]; [|auto].
    rewrite Hby. apply Forall_app. split; [|auto]. apply (Hu l0); [|done].
    destruct Hl as [->|[-> _]]; congruence.
  - intros l b' v E' Hin.
    destruct (edit_blocks _ _ _ _ He _ _ E') as [(l0 & b & y & E & Hl & Hby & Hy & Hs)|(Hf & _)].
    + rewrite Hby, elem_of_app in Hin. destruct Hin as [Hin|Hin]; [by apply (Hz _ _ _ E)|].
      rewrite Forall_forall in Hy. destruct (Hy _ Hin). congruence.
    + rewrite Forall_forall in Hf. destruct (Hf _ Hin). congruence.
Qed.

(** *** Where a reached limit leads *)

(** The terminator goes to [X] whenever the check of [c] reports the limit reached. *)
Definition leads c (X : label) (t : terminator tm cond) : Prop :=
  match t with
  | CondBr (BoundCheck c') l0 _ => c' = c /\ l0 = X
  | CondBr (Or _ (BoundCheck c')) l0 _ => c' = c /\ l0 = X
  | CondBr (And _ (Not (BoundCheck c'))) _ l1 => c' = c /\ l1 = X
  | _ => False
  end.

(** The header [h] checks the limit once and leaves to [X] when it is reached. *)
Definition stops lim c h X g : Prop :=
  exists hb pre post, blocks g !! h = Some hb /\ body hb = pre ++ LoadCompare c lim :: post /\
    Forall (fun i => ~ is_check c i) pre /\ Forall (fun i => ~ is_check c i) post /\ leads c X (term hb).

(** [X] is a block that exits silently. *)
Definition exits X g : Prop :=
  exists eb rest, blocks g !! X = Some eb /\ body eb = CallSilentExit 1 :: rest.

Lemma stops_edit lim g g' c h X c' h' : stops lim c h X g -> edit c' h' g g' -> c <> c' -> h <> h' ->
  stops lim c h X g'.
Proof.
  intros (hb & pre & post & Eh & Hb & Hpre & Hpost & Hl) He Hc Hh.
  destruct (edit_kept _ _ _ _ He h hb Hh Eh) as (hb' & x & Eh' & Hb' & Hx & Ht).
  exists hb', pre, (post ++ x). rewrite Ht, Hb', Hb, <-app_assoc. split_and!; try done.
  apply Forall_app. split; [done|]. eapply Forall_impl; [exact Hx|]. intros i. by apply foreign_not_check.
Qed.

Lemma exits_edit g g' X c' h' : exits X g -> edit c' h' g g' -> X <> h' -> exits X g'.
Proof.
  intros (eb & rest & EX & Hb) He Hh.
  destruct (edit_kept _ _ _ _ He X eb Hh EX) as (eb' & x & EX' & Hb' & _).
  exists eb', (rest ++ x). by rewrite Hb', Hb.
Qed.

(** *** Freshness of counters and well-formedness *)
Definition mentions c i : Prop := writes c i \/ is_check c i.

(** The counters in use are below [k]. *)
Definition counters_below (k : nat) g : Prop :=
  forall l b i c, blocks g !! l = Some b -> i ∈ body b -> mentions c i -> (c < k)%nat.

Lemma foreign_mentions c c' i : foreign c' i -> mentions c i -> c = c'.
Proof. destruct i; unfold mentions; simpl; intuition congruence. Qed.

Lemma counters_below_edit k g g' h : counters_below k g -> edit k h g g' -> counters_below (S k) g'.
Proof.
  intros Hk He l b' i c E' Hin Hm.
  assert (forall il, Forall (foreign k) il -> i ∈ il -> (c < S k)%nat) as Hf.
  { intros il Hil Hi. rewrite Forall_forall in Hil. by rewrite (foreign_mentions c k i) by auto; lia. }
  destruct (edit_blocks _ _ _ _ He _ _ E') as [(l0 & b & y & E & _ & Hb & Hy & _)|(Hb & _)]; [|eauto].
  rewrite Hb, elem_of_app in Hin. destruct Hin as [Hin|Hin]; [|eauto].
  specialize (Hk _ _ _ _ E Hin Hm). lia.
Qed.

Lemma counters_below_no_check k g l b : counters_below k g -> blocks g !! l = Some b ->
  Forall (fun i => ~ is_check k i) (body b).
Proof.
  intros Hk E. apply Forall_forall. intros i Hi Hc.
  specialize (Hk _ _ _ k E Hi (or_intror Hc)). lia.
Qed.
End structure.

(** ** Runs of a graph with a counted loop *)
Section runs.
Context {var operand op tm cond st : Type}.
Context (assign : list (var * operand) -> st -> st) (exec : op -> st -> st)
  (eval : cond -> st -> bool) (select : tm -> st -> option nat).
Abbreviation instr := (instr op).
Abbreviation block := (block var operand op tm cond).
Abbreviation func := (func var operand op tm cond).
Abbreviation machine := (machine st).
Implicit Types (g : func) (b : block) (i : instr) (c : nat) (h l : label) (lim : Z) (m : machine).

Definition respects c lim i : Prop :=
  match i with
  | StoreCounter c' v => c' = c -> v = 0
  | LoadCompare c' x => c' = c -> x = lim
  | _ => True
  end.

Lemma counted_respects lim g c h l b : counted lim g c h -> blocks g !! l = Some b ->
  Forall (respects c lim) (body b).
Proof.
  intros [(hb & pre & post & Eh & Hb & Hpre & Hpost & _) Hu Hz] E. apply Forall_forall.
  intros [o|c' v|c'|c' x|code] Hin; simpl; try done; intros ->; [by eapply Hz|].
  destruct (decide (l = h)) as [->|Hne].
  - assert (b = hb) as -> by congruence. rewrite Hb in Hin.
    rewrite elem_of_app, elem_of_cons in Hin. rewrite Forall_forall in Hpre, Hpost.
    destruct Hin as [Hin|[Hin|Hin]]; [by destruct (Hpre _ Hin)|congruence|by destruct (Hpost _ Hin)].
  - specialize (Hu _ _ Hne E). rewrite Forall_forall in Hu. by destruct (Hu _ Hin).
Qed.

Lemma exec_body_consistent c lim il m t r t' : Forall (respects c lim) il ->
  exec_body exec il m = (t, r) ->
  match r with Some m' => consistent c lim (counters m' c) t' | None => t' = [] end ->
  consistent c lim (counters m c) (t ++ t').
Proof.
  intros Hil. revert m t. induction Hil as [|i il Hi Hil IH]; intros m t He Ht'.
  { simpl in He. by simplify_eq. }
  destruct i as [o|c' v|c'|c' x|code]; simpl in He;
    try (destruct (exec_body exec il _) as [t1 r1] eqn:E1; simplify_eq);
    try (specialize (IH _ _ E1 Ht')).
  - done.
  - simpl in *. unfold upd in IH. destruct (decide (c' = c)) as [->|Hne].
    + rewrite Nat.eqb_refl in IH. by rewrite Hi in IH.
    + by rewrite (proj2 (Nat.eqb_neq c c')) in IH.
  - simpl in *. unfold upd in IH. destruct (decide (c' = c)) as [->|Hne].
    + by rewrite Nat.eqb_refl in IH.
    + by rewrite (proj2 (Nat.eqb_neq c c')) in IH.
  - simpl in *. split; [|done]. intros ->. by rewrite Hi.
  - by simplify_eq.
Qed.

(** What the monitor does over the instructions of a block. *)
Lemma exec_body_monitor_plain c a il m t r : Forall (fun i => ~ is_check c i) il ->
  exec_body exec il m = (t, r) ->
  exists a', monitor c a t = Some a' /\ (a' = true -> a = true) /\
    (is_Some r -> Exists (writes c) il -> a' = false).
Proof.
  intros Hil. revert m t a. induction Hil as [|i il Hi Hil IH]; intros m t a He.
  { simpl in He. simplify_eq. exists a. split_and!; try done. intros _ Hx. by inversion Hx. }
  destruct i as [o|c' v|c'|c' x|code]; simpl in He;
    try (destruct (exec_body exec il _) as [t1 r1] eqn:E1; simplify_eq; simpl in *).
  - destruct (IH _ _ a E1) as (a' & ? & ? & Hw). exists a'. split_and!; try done.
    intros Hr Hx. apply Hw; [done|]. by inversion Hx.
  - destruct (IH _ _ (if decide (c' = c) then false else a) E1) as (a' & ? & Ha & Hw).
    exists a'. split_and!; [done|by destruct (decide _); intros; auto; discriminate Ha|].
    intros Hr Hx. inversion Hx as [? ? Hc|]; subst; [|auto]. simpl in Hc.
    rewrite decide_True in Ha by done. destruct a'; [|done]. symmetry. by apply Ha.
  - destruct (IH _ _ (if decide (c' = c) then false else a) E1) as (a' & ? & Ha & Hw).
    exists a'. split_and!; [done|by destruct (decide _); intros; auto; discriminate Ha|].
    intros Hr Hx. inversion Hx as [? ? Hc|]; subst; [|auto]. simpl in Hc.
    rewrite decide_True in Ha by done. destruct a'; [|done]. symmetry. by apply Ha.
  - rewrite decide_False by done. destruct (IH _ _ a E1) as (a' & ? & ? & Hw). exists a'.
    split_and!; try done. intros Hr Hx. apply Hw; [done|]. by inversion Hx.
  - simplify_eq. exists a. by split_and!.
Qed.

Lemma exec_body_app il il' m : exec_body exec (il ++ il') m =
  let '(t, r) := exec_body exec il m in
  match r with
  | None => (t, None)
  | Some m' => let '(t', r') := exec_body exec il' m' in (t ++ t', r')
  end.
Proof.
  revert m. induction il as [|i il IH]; intros m; simpl; [by destruct (exec_body exec il' m)|].
  destruct (exec_instr exec i m) as [t [m1|]]; [|done].
  rewrite IH. destruct (exec_body exec il m1) as [t1 [m2|]]; [|done].
  destruct (exec_body exec il' m2). by rewrite app_assoc.
Qed.

(** A body without a check of [c] leaves its outcome alone. *)
Lemma exec_body_no_check c il m t r : Forall (fun i => ~ is_check c i) il -> exec_body exec il m = (t, r) ->
  (forall v, ECheck c v ∉ t) /\ forall m1, r = Some m1 -> checks m1 c = checks m c.
Proof.
  intros Hil. revert m t r. induction Hil as [|i il Hi Hil IH]; intros m t r He; simpl in He.
  { simplify_eq. split; [set_solver|by intros m1 [= ->]]. }
  destruct i as [o|c' v|c'|c' x|code]; simpl in He;
    try (destruct (exec_body exec il _) as [t1 r1] eqn:E1; simplify_eq; destruct (IH _ _ _ E1) as [Hn Hm]).
  1-3: split; [intros w; simpl; rewrite ?elem_of_cons; naive_solver|exact Hm].
  - split; [intros v; rewrite elem_of_cons; intros [[= -> _]|Hv]; [by apply Hi|by eapply Hn]|].
    intros m1 ->. rewrite (Hm m1 eq_refl). simpl. unfold upd. by rewrite (proj2 (Nat.eqb_neq c c')) by (simpl in Hi; congruence).
  - simplify_eq. split; [set_solver|done].
Qed.

Lemma exec_body_reached c lim pre post m t m1 :
  Forall (fun i => ~ is_check c i) pre -> Forall (fun i => ~ is_check c i) post ->
  exec_body exec (pre ++ LoadCompare c lim :: post) m = (t, Some m1) -> ECheck c true ∈ t -> checks m1 c = true.
Proof.
  intros Hpre Hpost He Hin. rewrite exec_body_app in He.
  destruct (exec_body exec pre m) as [t0 [m0|]] eqn:E0; [|done]. simpl in He.
  destruct (exec_body exec post _) as [t2 r2] eqn:E2. simplify_eq.
  destruct (exec_body_no_check _ _ _ _ _ Hpre E0) as [Hn0 _], (exec_body_no_check _ _ _ _ _ Hpost E2) as [Hn2 Hm2].
  rewrite (Hm2 m1 eq_refl). simpl. unfold upd. rewrite Nat.eqb_refl.
  rewrite elem_of_app, elem_of_cons in Hin. destruct Hin as [Hin|[[= <-]|Hin]]; [by apply Hn0 in Hin|done|by apply Hn2 in Hin].
Qed.

Lemma leads_goto c X tr m : leads c X tr -> checks m c = true -> exec_term eval select tr m = Goto X.
Proof.
  intros Hl Hm. destruct tr as [|[| |v [| | | |]|v [| | | |[]]|] l0 l1| |]; simpl in *; try done;
    destruct Hl as [-> ->]; rewrite Hm; [done|by rewrite orb_true_r|by rewrite andb_false_r].
Qed.

(** A header whose check reports the limit reached goes nowhere but to [X]. *)
Lemma stops_block lim c h X g pred b m t m1 s : stops lim c h X g -> blocks g !! h = Some b ->
  exec_block assign exec eval select pred b m = (t, m1, s) -> ECheck c true ∈ t -> s = Goto X \/ s = SilentlyExited.
Proof.
  intros (hb & pre & post & Eh & Hb & Hpre & Hpost & Hl) Eb He Hin. rewrite Eh in Eb. simplify_eq.
  unfold exec_block in He. rewrite Hb in He.
  destruct (exec_body exec _ _) as [t1 [m2|]] eqn:E1; simplify_eq; [|by right]. left.
  apply (leads_goto c); [done|]. exact (exec_body_reached c lim pre post _ _ _ Hpre Hpost E1 Hin).
Qed.

Lemma exits_block X g pred m : exits X g ->
  exists t m', run assign exec eval select g 1 pred X m = (t, m', SilentlyExited).
Proof.
  intros (eb & rest & EX & Hb). simpl. rewrite EX. unfold exec_block. rewrite Hb. simpl. by eexists _, _.
Qed.

Lemma exec_term_successor tr m l : exec_term eval select tr m = Goto l -> l ∈ successors tr.
Proof.
  destruct tr as [l0|v l0 l1| |tt ls]; simpl; try done.
  - intros [= ->]. by apply list_elem_of_singleton.
  - intros [= <-]. destruct (eval_value _ _ _); set_solver.
  - destruct (select tt (prog m)) as [k|]; [|done]. destruct (ls !! k) eqn:E; [|done].
    intros [= ->]. by eapply list_elem_of_lookup_2.
Qed.

(** Control may stand armed before [l] only on the way round the loop that has
    a write at every way back. *)
Definition armed_ok c h g (l : label) (a : bool) : Prop :=
  a = true -> l <> h /\
    forall l b, blocks g !! l = Some b -> h ∈ successors (term b) ->
      l <> h /\ Exists (writes c) (body b).

Lemma exec_block_monitor lim g c h pred l b m t m' s a : counted lim g c h ->
  blocks g !! l = Some b -> armed_ok c h g l a ->
  exec_block assign exec eval select pred b m = (t, m', s) ->
  exists a', monitor c a t = Some a' /\ forall l', s = Goto l' -> armed_ok c h g l' a'.
Proof.
  intros Hg E Ha He. unfold exec_block in He.
  set (m0 := exec_phis assign pred (phis b) m) in He.
  destruct (exec_body exec (body b) m0) as [tb r] eqn:Eb.
  assert (forall l', s = Goto l' -> is_Some r /\ l' ∈ successors (term b)) as Hs.
  { intros l' ->. destruct r as [m1|]; [|done]. simplify_eq. split; [done|].
    by eapply exec_term_successor. }
  assert (tb = t) as ->. { destruct r; by simplify_eq. } clear He.
  destruct (decide (l = h)) as [->|Hne].
  - destruct (counted_header _ _ _ _ Hg) as (hb & pre & post & Eh & Hb & Hpre & Hpost & Hw).
    assert (b = hb) as -> by congruence.
    assert (a = false) as ->. { destruct a; [|done]. by destruct (Ha eq_refl). }
    rewrite Hb, exec_body_app in Eb. destruct (exec_body exec pre m0) as [t1 [m1|]] eqn:E1.
    2: { simplify_eq. destruct (exec_body_monitor_plain c false pre _ _ _ Hpre E1) as (a' & ? & ? & _).
      exists a'. split; [done|]. intros l' El. by destruct (Hs _ El) as [[? ?] _]. }
    destruct (exec_body_monitor_plain c false pre _ _ _ Hpre E1) as (a1 & Hm1 & Ha1 & _).
    assert (a1 = false) as -> by (destruct a1; [by specialize (Ha1 eq_refl)|done]).
    simpl in Eb. destruct (exec_body exec post _) as [t2 r2] eqn:E2. simplify_eq.
    destruct (exec_body_monitor_plain c true post _ _ _ Hpost E2) as (a2 & Hm2 & _ & Hw2).
    exists a2. rewrite monitor_app, Hm1. simpl. rewrite decide_True by done. split; [done|].
    intros l' El. destruct (Hs _ El) as [Hr Hin]. intros ->.
    destruct Hw as [Hw|Hw]; [by specialize (Hw2 Hr Hw)|]. split; [|done]. intros ->.
    by destruct (Hw _ _ E Hin).
  - destruct (exec_body_monitor_plain c a (body b) _ _ _ (counted_unique _ _ _ _ Hg _ _ Hne E) Eb)
      as (a' & Hm & Haa & Hw).
    exists a'. split; [done|]. intros l' El. destruct (Hs _ El) as [Hr Hin]. intros Ha'.
    destruct (Ha (Haa Ha')) as [_ Hex]. split; [|done]. intros ->.
    destruct (Hex _ _ E Hin) as [_ Hx]. specialize (Hw Hr Hx). congruence.
Qed.

Lemma run_monitor lim g c h n pred l m t m' s a : counted lim g c h -> armed_ok c h g l a ->
  run assign exec eval select g n pred l m = (t, m', s) -> is_Some (monitor c a t).
Proof.
  intros Hg. revert pred l m t a. induction n as [|n IH]; intros pred l m t a Ha Hr; simpl in Hr;
    [by simplify_eq|].
  destruct (blocks g !! l) as [b|] eqn:E; [|by simplify_eq].
  destruct (exec_block _ _ _ _ _ b m) as [[t1 m1] s1] eqn:E1.
  destruct (exec_block_monitor _ _ _ _ _ _ _ _ _ _ _ _ Hg E Ha E1) as (a' & Hm & Hs).
  destruct s1 as [l'| | |]; try (simplify_eq; by eexists).
  destruct (run assign exec eval select g n (Some l) l' m1) as [[t2 m2] s2] eqn:E2. simplify_eq.
  rewrite monitor_app, Hm. simpl. eapply IH; [by apply Hs|done].
Qed.

Lemma run_consistent lim g c h n pred l m t m' s : counted lim g c h ->
  run assign exec eval select g n pred l m = (t, m', s) -> consistent c lim (counters m c) t.
Proof.
  intros Hg. revert pred l m t m' s. induction n as [|n IH]; intros pred l m t m' s Hr; simpl in Hr;
    [by simplify_eq|].
  destruct (blocks g !! l) as [b|] eqn:E; [|by simplify_eq].
  pose proof (counted_respects _ _ _ _ _ _ Hg E) as Hb.
  unfold exec_block in Hr. set (m0 := exec_phis assign pred (phis b) m) in Hr.
  assert (counters m0 = counters m) as <- by (subst m0; by destruct pred).
  destruct (exec_body exec (body b) m0) as [tb [m1|]] eqn:Eb.
  2: { simplify_eq. pose proof (exec_body_consistent c lim _ _ _ _ [] Hb Eb eq_refl) as Hc.
    by rewrite app_nil_r in Hc. }
  destruct (exec_term eval select (term b) m1) as [l'| | |];
    [|simplify_eq; pose proof (exec_body_consistent c lim _ _ _ _ [] Hb Eb I) as Hc;
      by rewrite app_nil_r in Hc..].
  destruct (run assign exec eval select g n (Some l) l' m1) as [[t2 m2] s2] eqn:E2. simplify_eq.
  eapply exec_body_consistent; [done..|]. simpl. by eapply IH.
Qed.

Lemma consistent_from_zero c lim v t1 t2 :
  consistent c lim v (t1 ++ EZero c :: t2) -> consistent c lim 0 t2.
Proof.
  revert v. induction t1 as [|[c'|c'|c' r] t IH]; intros v; simpl.
  - by rewrite decide_True.
  - apply IH.
  - apply IH.
  - intros [_ ?]. by eapply IH.
Qed.

Lemma monitor_from_zero c a t1 t2 :
  is_Some (monitor c a (t1 ++ EZero c :: t2)) -> is_Some (monitor c false t2).
Proof.
  rewrite monitor_app. destruct (monitor c a t1); simpl; [|by intros []].
  by rewrite decide_True.
Qed.

(** From a reset of the counter on, at most [lim] checks let the loop go on. *)
Lemma counted_passes lim g c h n pred l m t1 t2 m' s : counted lim g c h ->
  run assign exec eval select g n pred l m = (t1 ++ EZero c :: t2, m', s) ->
  count (is_zero_of c) t2 = 0 -> count (is_inc_of c) t2 < 2 ^ 31 ->
  count (is_pass_of c) t2 <= Z.max 0 lim.
Proof.
  intros Hg Hr Hz Hi.
  pose proof (passes_le c lim 0 false t2
    (consistent_from_zero _ _ _ _ _ (run_consistent _ _ _ _ _ _ _ _ _ _ _ Hg Hr))
    (monitor_from_zero _ _ _ _ (run_monitor _ _ _ _ _ _ _ _ _ _ _ false Hg ltac:(done) Hr))
    Hz ltac:(lia) ltac:(lia)) as Hp. simpl in Hp. lia.
Qed.
End runs.
