(* ===== verification/LoopTest.v ===== *)
(** * The test program of the loop limiter: [loop-limiter/test.c].

    The functions [a] and [b] as control-flow graphs, [main] as the paths its
    assumptions leave, and what the pass makes of them for every limit. *)
From stdpp Require Import gmap strings.
From S2P Require Import Prelude LlvmIr LoopLimiter LlvmModel.
Local Open Scope Z_scope.

(** The locals and what was printed, the lines as pairs of [i] and [s]. *)
Record frame := mk_frame { var_i : Z; var_s : Z; var_n : Z; printed : list (Z * Z) }.

Inductive statement := InitS | InitI | AddS | Printf | IncI.
Inductive condition := I_lt_N.
Inductive return_void := RetVoid.

Definition exec_statement (x : statement) (f : frame) : frame :=
  let '(mk_frame i s n out) := f in
  match x with
  | InitS => mk_frame i 0 n out
  | InitI => mk_frame 0 s n out
  | AddS => mk_frame i (s32 (s + i)) n out
  | Printf => mk_frame i s n (out ++ [(i, s)])
  | IncI => mk_frame (s32 (i + 1)) s n out
  end.

Definition eval_condition (q : condition) (f : frame) : bool := var_i f <? var_n f.

Definition test_func : Type := func Empty_set Empty_set statement return_void condition.

(** [for (int i = 0; i < n; ++i) { s += i; printf(...); }]: entry, condition,
    body, increment, end. *)
Definition loop_function : test_func :=
  mk_func 0%nat (list_to_map [
    (0%nat, mk_block [] [Op InitS; Op InitI] (Br 1%nat));
    (1%nat, mk_block [] [] (CondBr (Orig I_lt_N) 2%nat 4%nat));
    (2%nat, mk_block [] [Op AddS; Op Printf] (Br 3%nat));
    (3%nat, mk_block [] [Op IncI] (Br 1%nat));
    (4%nat, mk_block [] [] (OtherTerm RetVoid []))]) [].

Definition loop_info : list Loop := [mk_loop 1%nat [1%nat; 2%nat; 3%nat] []].

Definition limited (o : options) : test_func :=
  match run_pass o "a" loop_function loop_info (mk_stats 0 0 0) with
  | Some (Ran f _ _ _) => f
  | _ => loop_function
  end.

Definition run_test (f : test_func) (n : nat) (pred : option label) (l : label) (m : machine frame) :=
  run (fun _ x => x) exec_statement eval_condition (fun _ _ => None) f n pred l m.

(** A call with argument [n]. *)
Definition call (f : test_func) (fuel : nat) (n : Z) :=
  run_test f fuel None (entry f) (mk_machine (mk_frame 0 0 n []) (fun _ => 0) (fun _ => false)).

(** [main] of two functions that only differ in the letter they print: [None] if
    an assumption fails, otherwise the lines of [a], those of [b], and the end.
    [b] runs if [a] has returned. *)
Definition a : options -> test_func := limited.
Definition b : options -> test_func := limited.

Definition main (o : options) (fuel_a fuel_b : nat) (n m : Z) : option (list (Z * Z) * list (Z * Z) * status) :=
  if negb ((0 <=? n) && (n <=? 10) && (0 <=? m) && (m <=? 10)) then None else
  let '(_, ma, sa) := call (a o) fuel_a n in
  Some match sa with
  | Returned =>
      let '(_, mb, sb) := call (b o) fuel_b m in
      (printed (prog ma), printed (prog mb), sb)
  | _ => (printed (prog ma), [], sa)
  end.

(** The lines [a] or [b] prints in [k] iterations. *)
Definition lines (k : Z) : list (Z * Z) := (fun i => (i, i * (i + 1) / 2)) <$> seqZ 0 k.

Definition how_it_ends (o : options) (n : Z) : status :=
  if BreakMode o || (n <? limit_of o) then Returned else SilentlyExited.

Example limited_5 : let o := mk_options 5 [] [] false in
  (call (limited o) 100 4).2 = Returned /\ (call (limited o) 100 5).2 = SilentlyExited /\
  (call (limited (mk_options 5 [] [] true)) 100 9).2 = Returned.
Proof. by vm_compute. Qed.

(** ** Runs of the loop *)
Lemma lines_snoc k : 0 <= k -> lines (k + 1) = lines k ++ [(k, k * (k + 1) / 2)].
Proof. intros. unfold lines. rewrite seqZ_app by lia. by rewrite fmap_app, Z.add_0_l. Qed.

(** The state before the [k]-th test of the condition. *)
Definition at_header (n k : Z) (m : machine frame) : Prop :=
  prog m = mk_frame k (k * (k - 1) / 2) n (lines k) /\ counters m 0%nat = k.

Lemma iterate_state n k : 0 <= k < 65536 ->
  exec_statement IncI (exec_statement Printf (exec_statement AddS
    (mk_frame k (k * (k - 1) / 2) n (lines k)))) =
  mk_frame (k + 1) ((k + 1) * (k + 1 - 1) / 2) n (lines (k + 1)).
Proof.
  intros Hk. simpl. assert (k * (k - 1) / 2 + k = k * (k + 1) / 2) as E.
  { rewrite <-Z.div_add by lia. f_equal. lia. }
  assert (0 <= k * (k + 1) / 2 < 2 ^ 31) as Hs.
  { split; [apply Z.div_pos; nia|]. apply Z.div_lt_upper_bound; nia. }
  rewrite E, !sgn_small by (unfold sword; lia). rewrite lines_snoc by lia.
  f_equal. f_equal. lia.
Qed.

Ltac eval_block := cbn -[run_test exec_statement Z.leb Z.ltb sgn limit_of].

Section runs.
Variables (M : Z) (brk : bool).
Definition test_options : options := mk_options M [] [] brk.
Abbreviation lim := (limit_of test_options).
Definition g : test_func := limited test_options.

Lemma limited_entry : blocks g !! (0%nat : label) =
  Some (mk_block [] [Op InitS; Op InitI; StoreCounter 0 0] (Br 1%nat)).
Proof. unfold g, test_options. by destruct brk. Qed.
Lemma limited_header : blocks g !! (1%nat : label) = Some (mk_block [] [LoadCompare 0 lim]
  (if brk then CondBr (And (Orig I_lt_N) (Not (BoundCheck 0))) 2%nat 4%nat
   else CondBr (BoundCheck 0) 5%nat 6%nat)).
Proof. unfold g, lim, test_options. by destruct brk. Qed.
Lemma limited_body : blocks g !! (2%nat : label) = Some (mk_block [] [Op AddS; Op Printf] (Br 3%nat)).
Proof. unfold g, test_options. by destruct brk. Qed.
Lemma limited_latch : blocks g !! (3%nat : label) = Some (mk_block [] [Op IncI; Increment 0] (Br 1%nat)).
Proof. unfold g, test_options. by destruct brk. Qed.
Lemma limited_end : blocks g !! (4%nat : label) = Some (mk_block [] [] (OtherTerm RetVoid [])).
Proof. unfold g, test_options. by destruct brk. Qed.
Lemma limited_exit : brk = false -> blocks g !! (5%nat : label) = Some (mk_block [] [CallSilentExit 1] Unreachable).
Proof. unfold g, test_options. by intros ->. Qed.
Lemma limited_continue : brk = false ->
  blocks g !! (6%nat : label) = Some (mk_block [] [] (CondBr (Orig I_lt_N) 2%nat 4%nat)).
Proof. unfold g, test_options. by intros ->. Qed.

Lemma run_step f n pred l m : run_test f (S n) pred l m =
  match blocks f !! l with
  | None => ([], m, Undefined)
  | Some b =>
      let '(t, m, s) := exec_block (fun _ x => x) exec_statement eval_condition (fun _ _ => None) pred b m in
      match s with
      | Goto l' => let '(t', m, s) := run_test f n (Some l) l' m in (t ++ t', m, s)
      | _ => (t, m, s)
      end
  end.
Proof. done. Qed.

(** No block has a phi, so the predecessor is irrelevant. *)
Lemma run_test_pred f n pred l m : run_test f n pred l m = run_test f n None l m.
Proof. unfold run_test. destruct n; simpl; [done|]. by destruct (blocks f !! l), pred, m. Qed.

(** Blocks until the loop is back at its header. *)
Definition per_iteration : nat := if brk then 3 else 4.

Lemma loop_goes_on n k pred m : at_header n k m -> 0 <= k < 65536 -> k < n -> k < lim ->
  exists t m', at_header n (k + 1) m' /\ forall fuel,
    run_test g (per_iteration + fuel) pred 1%nat m =
      let '(t', m'', s) := run_test g fuel (Some 3%nat) 1%nat m' in (t ++ t', m'', s).
Proof.
  intros [Hp Hc] Hk Hn Hl. destruct m as [x cs chk]. simpl in Hp, Hc. subst x.
  exists [ECheck 0 false; EInc 0], (mk_machine (mk_frame (k + 1) ((k + 1) * (k + 1 - 1) / 2) n (lines (k + 1)))
    (upd cs 0 (k + 1)) (upd chk 0 false)). split; [done|]. intros fuel.
  assert ((lim <=? k) = false) as El by lia. assert ((k <? n) = true) as En by lia.
  assert (s32 (k + 1) = k + 1) as Es by (apply sgn_small; unfold sword; lia).
  rewrite (run_test_pred _ _ pred). unfold per_iteration. destruct brk eqn:Eb.
  - simpl plus. rewrite run_step. rewrite limited_header, Eb. eval_block.
    rewrite Hc, El. unfold eval_condition. cbn [var_i var_n]. rewrite En. eval_block.
    rewrite run_step, limited_body. eval_block.
    rewrite run_step, limited_latch. eval_block.
    rewrite (iterate_state n k Hk), Hc, Es.
    by destruct (run_test g fuel _ _ _) as [[? ?] ?].
  - simpl plus. rewrite run_step, limited_header, Eb. eval_block.
    rewrite Hc, El. eval_block.
    rewrite run_step, limited_continue by done. eval_block.
    unfold eval_condition. cbn [var_i var_n]. rewrite En. eval_block.
    rewrite run_step, limited_body. eval_block.
    rewrite run_step, limited_latch. eval_block.
    rewrite (iterate_state n k Hk), Hc, Es.
    by destruct (run_test g fuel _ _ _) as [[? ?] ?].
Qed.

(** The last visit of the header. *)
Lemma loop_stops n k fuel pred m : at_header n k m -> k = Z.min n (Z.max 0 lim) -> 0 <= n ->
  exists t m', prog m' = prog m /\ run_test g (3 + fuel) pred 1%nat m =
    (t, m', if brk then Returned else if n <? lim then Returned else SilentlyExited).
Proof.
  intros [Hp Hc] Hk Hn. destruct m as [x cs chk]. simpl in Hp, Hc. subst x.
  eexists _, (mk_machine _ _ (upd chk 0 (lim <=? k))). split; [reflexivity|].
  rewrite (run_test_pred _ _ pred). destruct brk eqn:Eb; simpl plus.
  - rewrite run_step, limited_header, Eb. eval_block. rewrite Hc.
    unfold eval_condition. cbn [var_i var_n].
    assert ((k <? n) && negb (lim <=? k) = false) as -> by lia. eval_block.
    rewrite run_step, limited_end. eval_block. reflexivity.
  - rewrite run_step, limited_header, Eb. eval_block. rewrite Hc.
    destruct (Z.ltb_spec n lim) as [Hl|Hl].
    + replace (lim <=? k) with false by lia. eval_block.
      rewrite run_step, limited_continue by done. eval_block.
      unfold eval_condition. cbn [var_i var_n]. replace (k <? n) with false by lia. eval_block.
      rewrite run_step, limited_end. eval_block. reflexivity.
    + replace (lim <=? k) with true by lia. eval_block.
      rewrite run_step, limited_exit by done. eval_block. reflexivity.
Qed.

Lemma loop_runs n k (d : nat) pred m : at_header n k m -> 0 <= k -> n <= 65536 ->
  k + Z.of_nat d = Z.min n (Z.max 0 lim) -> 
  exists fuel t m', run_test g fuel pred 1%nat m =
    (t, m', if brk then Returned else if n <? lim then Returned else SilentlyExited) /\
    printed (prog m') = lines (Z.min n (Z.max 0 lim)).
Proof.
  revert k pred m. induction d as [|d IH]; intros k pred m Hm Hk Hn Hd.
  - destruct (loop_stops n k 0 pred m Hm ltac:(lia) ltac:(lia)) as (t & m' & Hp & Hr).
    exists (3 + 0)%nat, t, m'. split; [done|]. rewrite Hp. destruct Hm as [-> _]. simpl. f_equal. lia.
  - destruct (loop_goes_on n k pred m Hm ltac:(lia) ltac:(lia) ltac:(lia)) as (t1 & m1 & Hm1 & Hr1).
    destruct (IH (k + 1) (Some 3%nat) m1 Hm1 ltac:(lia) Hn ltac:(lia)) as (fuel & t & m' & Hr & Hp).
    exists (per_iteration + fuel)%nat, (t1 ++ t), m'. by rewrite Hr1, Hr.
Qed.
End runs.

Lemma call_limited (o : options) (n : Z) :
  Whitelist o = [] -> Blacklist o = [] -> 0 <= n <= 65536 ->
  exists fuel t m s, call (limited o) fuel n = (t, m, s) /\
    printed (prog m) = lines (Z.min n (Z.max 0 (limit_of o))) /\ s = how_it_ends o n.
Proof.
  destruct o as [M wl bl brk]. simpl. intros -> -> Hn.
  set (m0 := mk_machine (mk_frame 0 0 n []) (upd (fun _ => 0) 0 0) (fun _ => false)).
  destruct (loop_runs M brk n 0 (Z.to_nat (Z.min n (Z.max 0 (limit_of (test_options M brk))))) (Some 0%nat) m0)
    as (fuel & t & m' & Hr & Hp); [done|lia..|].
  exists (S fuel), (EZero 0 :: t), m'. eexists. unfold call.
  assert (entry (limited (mk_options M [] [] brk)) = 0%nat) as -> by (by destruct brk).
  rewrite run_step. rewrite (limited_entry M brk : blocks (limited (mk_options M [] [] brk)) !! _ = _).
  eval_block.
  change (run_test _ fuel _ _ _) with
    (run_test (limited (mk_options M [] [] brk)) fuel (Some 0%nat) 1%nat m0).
  rewrite (Hr : run_test (limited (mk_options M [] [] brk)) fuel (Some 0%nat) 1%nat m0 = _).
  split_and!; [done|done|]. by destruct brk.
Qed.

(** C7. For every [--max-iterations] value, reduced to the 32-bit signed limit,
    and every argument [n] with sums in range, a call of [test.c]'s [a] or [b],
    instrumented by the pass, comes to an end and has printed exactly
    [min n (max 0 limit)] lines with the running sums.  It returns if [n] is below
    the limit, and otherwise exits silently, unless break mode is on, in which case
    it returns.  So [main], for every [n] and [m] that satisfy its assumptions,
    prints the lines of [a], and the lines of [b] exactly if [a] returned. *)
Theorem test_program_limited (o : options) : Whitelist o = [] -> Blacklist o = [] ->
  (forall n, 0 <= n <= 65536 -> exists fuel t m s, call (limited o) fuel n = (t, m, s) /\
    printed (prog m) = lines (Z.min n (Z.max 0 (limit_of o))) /\ s = how_it_ends o n) /\
  (forall n m, exists fuel_a fuel_b, main o fuel_a fuel_b n m =
    if negb ((0 <=? n) && (n <=? 10) && (0 <=? m) && (m <=? 10)) then None else
    let lines_of k := lines (Z.min k (Z.max 0 (limit_of o))) in
    Some (if BreakMode o || (n <? limit_of o) then (lines_of n, lines_of m, how_it_ends o m)
          else (lines_of n, [], SilentlyExited))).
Proof.
  intros Hw Hb. split; [by intros n; apply call_limited|]. intros n m. unfold main.
  destruct (negb _) eqn:Er; [by exists 0%nat, 0%nat|]. apply negb_false_iff in Er.
  destruct (call_limited o n Hw Hb ltac:(lia)) as (fa & ta & ma & sa & Hca & Hpa & ->).
  destruct (call_limited o m Hw Hb ltac:(lia)) as (fb & tb & mb & sb & Hcb & Hpb & ->).
  exists fa, fb. unfold a, b. rewrite Hca, Hcb. unfold how_it_ends. simpl. rewrite Hpa, Hpb.
  by destruct (BreakMode o || (n <? limit_of o)).
Qed.

Lemma test_program_limited_witness :
  (exists fuel t m s, call (limited (mk_options 3 [] [] false)) fuel 7 = (t, m, s) /\
    printed (prog m) = lines 3 /\ s = SilentlyExited) /\
  exists fuel_a fuel_b, main (mk_options 3 [] [] true) fuel_a fuel_b 2 9 = Some (lines 2, lines 3, Returned).
Proof.
  split.
  - apply (test_program_limited (mk_options 3 [] [] false) eq_refl eq_refl). lia.
  - apply (test_program_limited (mk_options 3 [] [] true) eq_refl eq_refl).
Defined.

(** ** A nest of two loops *)
Definition nested_function : test_func :=
  mk_func 0%nat (list_to_map [
    (0%nat, mk_block [] [Op InitS] (Br 1%nat));
    (1%nat, mk_block [] [] (CondBr (Orig I_lt_N) 2%nat 6%nat));
    (2%nat, mk_block [] [Op InitI] (Br 3%nat));
    (3%nat, mk_block [] [] (CondBr (Orig I_lt_N) 4%nat 5%nat));
    (4%nat, mk_block [] [Op AddS; Op IncI] (Br 3%nat));
    (5%nat, mk_block [] [Op Printf] (Br 1%nat));
    (6%nat, mk_block [] [] (OtherTerm RetVoid []))]) [].

Definition nested_loops : list Loop :=
  [mk_loop 1%nat [1%nat; 2%nat; 3%nat; 4%nat; 5%nat] [mk_loop 3%nat [3%nat; 4%nat] []]].
