(* ===== verification/LoopLimiterPass.v ===== *)
(** * The pass enforces the bound.

    What every step of the loop limiter does to the graph, the invariant of the
    worklist loop, and the theorem on every run of the output. *)
From stdpp Require Import gmap strings.
From S2P Require Import Prelude LlvmIr LoopLimiter LlvmModel LoopLimiterBound LoopTest.
Local Open Scope Z_scope.

Section pass.
Context {var operand op tm cond : Type} `{!LLVM var operand op tm cond}.
Abbreviation instr := (instr op).
Abbreviation block := (block var operand op tm cond).
Abbreviation func := (func var operand op tm cond).
Abbreviation state := (state var operand op tm cond).
Implicit Types (f g : func) (b hb : block) (c : nat) (h l : label) (o : options) (s : state) (L : Loop).

(** ** The steps *)

Definition redirect h C hb l b : block :=
  if decide (l ∈ successors (term hb)) then redirect_phis h C b else b.

Lemma redirect_body h C hb l b : body (redirect h C hb l b) = body b.
Proof. unfold redirect. by destruct (decide _). Qed.
Lemma redirect_term h C hb l b : term (redirect h C hb l b) = term b.
Proof. unfold redirect. by destruct (decide _). Qed.

Definition split_result o c h f hb (E C l : label) : option block :=
  if decide (l = h) then
    Some (mk_block (phis (redirect h C hb h hb)) [LoadCompare c (limit_of o)] (CondBr (BoundCheck c) E C))
  else if decide (l = E) then Some (mk_block [] [CallSilentExit 1] Unreachable)
  else if decide (l = C) then Some (mk_block [] (body hb) (term hb))
  else redirect h C hb l <$> blocks f !! l.

Lemma split_header_blocks o c h f hb : blocks f !! h = Some hb ->
  exists E C, is_new f E /\ is_new f C /\ E <> C /\ E <> h /\ C <> h /\
    entry (split_header o c h f) = entry f /\
    forall l, blocks (split_header o c h f) !! l = split_result o c h f hb E C l.
Proof.
  intros Eh. unfold split_header. set (E := createBlock f).
  assert (is_new f E) as HE by apply createBlock_new. unfold is_new in HE.
  set (f1 := mk_func _ _ _).
  assert (E <> h) as HEh by congruence.
  assert (blocks f1 !! h = Some hb) as Eh1 by (subst f1; simpl; by rewrite lookup_insert_ne).
  destruct (splitBasicBlock_spec f1 h ltac:(by eexists)) as [HC HF].
  destruct (splitBasicBlock f1 h) as [f2 C]. simpl in HC, HF. subst f2.
  assert (C <> E) as HCE. { intros ->. unfold is_new in HC. subst f1. simpl in HC. by rewrite lookup_insert_eq in HC. }
  assert (is_new f C) as HC'.
  { unfold is_new in *. subst f1. simpl in HC. by rewrite lookup_insert_ne in HC by done. }
  assert (C <> h) as HCh by (unfold is_new in HC'; congruence).
  exists E, C. split_and!; try done.
  { simpl. unfold split_at. by rewrite Eh1. }
  intros l. unfold upd_block, split_result. simpl. unfold split_at. rewrite Eh1. simpl.
  fold (redirect h C hb).
  destruct (decide (l = h)) as [->|Hlh].
  { rewrite lookup_alter_eq, lookup_alter_ne, lookup_insert_ne, lookup_insert_eq by done. done. }
  rewrite lookup_alter_ne by done.
  destruct (decide (l = E)) as [->|HlE].
  { rewrite lookup_alter_eq, !lookup_insert_ne by done. rewrite map_lookup_imap, lookup_insert_eq. simpl.
    f_equal. by destruct (decide _). }
  rewrite lookup_alter_ne by done.
  destruct (decide (l = C)) as [->|HlC]; [by rewrite lookup_insert_eq|].
  rewrite !lookup_insert_ne, map_lookup_imap, lookup_insert_ne by done.
  by destruct (blocks f !! l).
Qed.

Lemma split_header_edit o c h f : is_Some (blocks f !! h) -> edit c h f (split_header o c h f).
Proof.
  intros [hb Eh]. destruct (split_header_blocks o c h f hb Eh) as (E & C & HE & HC & HEC & HEh & HCh & _ & Hl).
  unfold is_new in *. split.
  - intros l b' E'. rewrite Hl in E'. unfold split_result in E'.
    destruct (decide (l = h)) as [->|Hlh].
    { simplify_eq. right. simpl. split_and!; [by repeat constructor| |by left].
      intros l'. rewrite !elem_of_cons. intros [->|[->|[]%not_elem_of_nil]]; done. }
    destruct (decide (l = E)) as [->|HlE].
    { simplify_eq. right. simpl. split_and!; [by repeat constructor|set_solver|by right]. }
    destruct (decide (l = C)) as [->|HlC].
    { simplify_eq. left. exists h, hb, []. simpl. rewrite app_nil_r. auto. }
    apply fmap_Some in E' as (b & Eb & ->). left. exists l, b, [].
    rewrite redirect_body, redirect_term, app_nil_r. auto.
  - intros l b Hlh Eb. exists (redirect h C hb l b), []. rewrite redirect_body, redirect_term, app_nil_r.
    split_and!; [|done..]. rewrite Hl. unfold split_result.
    rewrite !decide_False, Eb by congruence. done.
  - intros l [b Eb]. rewrite Hl. unfold split_result. repeat destruct (decide _); try by eexists.
    rewrite Eb. by eexists.
Qed.

Lemma lookup_upd_block l l' (u : block -> block) f :
  blocks (upd_block l u f) !! l' = (if decide (l' = l) then u else id) <$> blocks f !! l'.
Proof.
  unfold upd_block. simpl. destruct (decide (l' = l)) as [->|].
  - by rewrite lookup_alter_eq.
  - rewrite lookup_alter_ne by done. by destruct (blocks f !! l').
Qed.

Lemma upd_block_edit c h l (u : block -> block) extra f : Forall (foreign c) extra ->
  (forall b, blocks f !! l = Some b ->
    body (u b) = body b ++ extra /\ successors (term (u b)) = successors (term b) /\
    (l <> h -> term (u b) = term b)) ->
  edit c h f (upd_block l u f).
Proof.
  intros Hx Hu. split.
  - intros l' b'. rewrite lookup_upd_block. intros (b & Eb & ->)%fmap_Some. left.
    destruct (decide (l' = l)) as [->|].
    + exists l, b, extra. destruct (Hu _ Eb) as (? & ? & _). auto.
    + exists l', b, []. rewrite app_nil_r. auto.
  - intros l' b Hne Eb. rewrite lookup_upd_block, Eb. simpl.
    destruct (decide (l' = l)) as [->|].
    + exists (u b), extra. destruct (Hu _ Eb) as (? & _ & ?). auto.
    + exists b, []. by rewrite app_nil_r.
  - intros l' [b Eb]. rewrite lookup_upd_block, Eb. by eexists.
Qed.

Lemma lookup_insert_before_term l l' i f :
  blocks (insert_before_term l i f) !! l' =
    (fun b => mk_block (phis b) (body b ++ if decide (l' = l) then [i] else []) (term b)) <$>
      blocks f !! l'.
Proof.
  unfold insert_before_term. rewrite lookup_upd_block. destruct (blocks f !! l') as [[]|]; [|done].
  simpl. destruct (decide _); simpl; [done|by rewrite app_nil_r].
Qed.

Lemma insert_before_term_edit c h l i f : foreign c i -> edit c h f (insert_before_term l i f).
Proof. intros Hi. apply (upd_block_edit c h l _ [i]); [by repeat constructor|done]. Qed.

Lemma foldl_latches_edit c h Latches f :
  edit c h f (foldl (fun f Latch => insert_before_term Latch (Increment c) f) f Latches).
Proof.
  revert f. induction Latches as [|l Latches IH]; intros f; simpl; [reflexivity|].
  etrans; [|apply IH]. by apply insert_before_term_edit.
Qed.

(** The increments a block gets. *)
Definition increments c l (Latches : list label) : list instr :=
  omap (fun l' => if decide (l' = l) then Some (Increment c) else None) Latches.

Lemma increments_only c l Latches : Forall (fun i => i = Increment c) (increments c l Latches).
Proof.
  apply Forall_forall. intros i (l' & _ & Hi)%list_elem_of_omap. by destruct (decide _); simplify_eq.
Qed.
Lemma increments_in c l Latches : l ∈ Latches -> Increment c ∈ increments c l Latches.
Proof. intros Hl. apply list_elem_of_omap. exists l. by rewrite decide_True. Qed.

Lemma lookup_foldl_latches c Latches f l :
  blocks (foldl (fun f Latch => insert_before_term Latch (Increment c) f) f Latches) !! l =
    (fun b => mk_block (phis b) (body b ++ increments c l Latches) (term b)) <$> blocks f !! l.
Proof.
  revert f. induction Latches as [|l' Latches IH]; intros f; simpl.
  { destruct (blocks f !! l) as [[]|]; simpl; [|done]. by rewrite app_nil_r. }
  rewrite IH. unfold insert_before_term. rewrite lookup_upd_block.
  destruct (blocks f !! l) as [b|]; simpl; [|done]. f_equal.
  destruct (decide (l = l')) as [->|]; simpl.
  - rewrite decide_True by done. by rewrite <-app_assoc.
  - rewrite decide_False by done. done.
Qed.

(** *** The check *)
Definition exit_edge : Type := warning + (value cond * label * label * label).

Definition check_step o c h (exit : exit_edge) f : func :=
  match exit with inr e => widen_exit o c h e f | inl _ => split_header o c h f end.

(** The exit edge is one of the header's branch. *)
Definition exit_ok h (exit : exit_edge) f : Prop :=
  match exit with
  | inl _ => True
  | inr (v, Succ0, Succ1, _) => term <$> blocks f !! h = Some (CondBr v Succ0 Succ1)
  end.

Lemma check_step_edit o c h exit f : is_Some (blocks f !! h) -> exit_ok h exit f ->
  edit c h f (check_step o c h exit f).
Proof.
  intros Hh He. destruct exit as [w|[[[v l0] l1] x]]; simpl in *; [by apply split_header_edit|].
  apply (upd_block_edit c h h _ [LoadCompare c (limit_of o)]); [by repeat constructor|].
  intros b Eb. rewrite Eb in He. simpl in He. simplify_eq. simpl. by rewrite He.
Qed.

(** An exit edge that is reused leaves the loop. *)
Definition exit_outside o L (exit : exit_edge) : Prop :=
  match exit with
  | inl _ => True
  | inr (_, Succ0, Succ1, x) => BreakMode o = true /\ contains L x = false /\ (x = Succ0 \/ x = Succ1)
  end.

(** When the limit is reached, the header leaves to a new block that exits
    silently, or out of the loop. *)
Lemma check_step_stops o c L exit f hb : blocks f !! getHeader L = Some hb -> exit_outside o L exit ->
  exists X hb', blocks (check_step o c (getHeader L) exit f) !! getHeader L = Some hb' /\ leads c X (term hb') /\
    (is_new f X /\ blocks (check_step o c (getHeader L) exit f) !! X = Some (mk_block [] [CallSilentExit 1] Unreachable) \/
     BreakMode o = true /\ contains L X = false).
Proof.
  intros Eh Hx. destruct exit as [w|[[[v l0] l1] x]]; unfold check_step, widen_exit.
  - destruct (split_header_blocks o c _ f hb Eh) as (E & C & HE & _ & _ & HEh & _ & _ & Hl).
    eexists E, _. rewrite !Hl. unfold split_result. rewrite decide_True by done.
    split_and!; [done|done|]. left. by rewrite decide_False, decide_True by done.
  - destruct Hx as (Hb & Hc & Hx). exists x. rewrite lookup_upd_block, Eh, decide_True by done. eexists.
    split_and!; [reflexivity| |by right]. simpl. destruct (decide (l0 = x)); simpl; [done|].
    by destruct Hx.
Qed.

Lemma check_step_header o c h exit f hb : blocks f !! h = Some hb ->
  exists hb' pre, blocks (check_step o c h exit f) !! h = Some hb' /\
    body hb' = pre ++ [LoadCompare c (limit_of o)] /\ (pre = [] \/ pre = body hb).
Proof.
  intros Eh. destruct exit as [w|[[[v l0] l1] x]]; unfold check_step, widen_exit.
  - destruct (split_header_blocks o c h f hb Eh) as (E & C & _ & _ & _ & _ & _ & _ & Hl).
    eexists _, []. rewrite Hl. unfold split_result. rewrite decide_True by done. by split_and!; [|..|left].
  - rewrite lookup_upd_block, Eh, decide_True by done. eexists _, (body hb). by split_and!; [|..|right].
Qed.

Lemma check_step_other o c h exit f l b' : is_Some (blocks f !! h) -> l <> h ->
  blocks (check_step o c h exit f) !! l = Some b' ->
  body b' = [CallSilentExit 1] \/ exists l0 b, blocks f !! l0 = Some b /\ body b' = body b.
Proof.
  intros [hb Eh] Hne. destruct exit as [w|[[[v l0] l1] x]]; unfold check_step, widen_exit.
  - destruct (split_header_blocks o c h f hb Eh) as (E & C & _ & _ & _ & _ & _ & _ & Hl).
    rewrite Hl. unfold split_result. rewrite (decide_False _ _ Hne).
    repeat destruct (decide _); try (intros [= <-]; simpl; eauto).
    intros (b & Eb & ->)%fmap_Some. rewrite redirect_body. eauto.
  - rewrite lookup_upd_block, decide_False by done.
    intros (b & Eb & ->)%fmap_Some. eauto.
Qed.

(** *** One loop *)
Definition instrumented o L c Preheader (exit : exit_edge) f : func :=
  let f1 := insert_before_term Preheader (StoreCounter c 0)
    (mk_func (entry f) (blocks f) (allocas f ++ [c])) in
  foldl (fun f Latch => insert_before_term Latch (Increment c) f)
    (check_step o c (getHeader L) exit f1) (getLoopLatches f L).

Definition exit_of o L f : exit_edge :=
  if BreakMode o then canonical_exit f L else inl NotConditional.

(** The reset a block gets. *)
Definition resets c p l : list instr := if decide (l = p) then [StoreCounter c 0] else [].

(** Every block of the result, by the kind of check. *)
Lemma instrumented_split o L c p w f hb : let h := getHeader L in let incs l := increments c l (getLoopLatches f L) in
  blocks f !! h = Some hb -> p <> h -> exists E C, is_new f E /\ is_new f C /\ E <> C /\ E <> h /\ C <> h /\ forall l,
  blocks (instrumented o L c p (inl w) f) !! l =
    if decide (l = h) then Some (mk_block (phis (redirect h C hb h hb)) (LoadCompare c (limit_of o) :: incs l) (CondBr (BoundCheck c) E C))
    else if decide (l = E) then Some (mk_block [] (CallSilentExit 1 :: incs l) Unreachable)
    else if decide (l = C) then Some (mk_block [] (body hb ++ incs l) (term hb))
    else (fun b => mk_block (phis (redirect h C hb l b)) (body b ++ resets c p l ++ incs l) (term b)) <$> blocks f !! l.
Proof.
  intros h incs Eh Hp. unfold instrumented. fold h. set (f1 := insert_before_term _ _ _).
  assert (forall l, blocks f1 !! l = (fun b => mk_block (phis b) (body b ++ resets c p l) (term b)) <$> blocks f !! l) as H1
    by (intros l; unfold f1; by rewrite lookup_insert_before_term).
  assert (blocks f1 !! h = Some hb) as Eh1.
  { rewrite H1, Eh. unfold resets. rewrite decide_False by done. simpl. rewrite app_nil_r. by destruct hb. }
  destruct (split_header_blocks o c h f1 hb Eh1) as (E & C & HE & HC & HEC & HEh & HCh & _ & Hl).
  exists E, C. unfold is_new in *. rewrite H1 in HE, HC. split_and!; try done.
  { by destruct (blocks f !! E). }
  { by destruct (blocks f !! C). }
  intros l. rewrite lookup_foldl_latches. unfold check_step. rewrite Hl. unfold split_result.
  repeat destruct (decide _); try done. rewrite H1. destruct (blocks f !! l) as [b|]; [|done]. simpl.
  unfold redirect. destruct (decide (l ∈ _)); simpl; by rewrite <-app_assoc.
Qed.

Lemma instrumented_widen o L c p v l0 l1 x f hb : let h := getHeader L in let incs l := increments c l (getLoopLatches f L) in
  blocks f !! h = Some hb -> p <> h -> forall l,
  blocks (instrumented o L c p (inr (v, l0, l1, x)) f) !! l =
    if decide (l = h) then Some (mk_block (phis hb) (body hb ++ LoadCompare c (limit_of o) :: incs l)
      (CondBr (if decide (l0 = x) then Or v (BoundCheck c) else And v (Not (BoundCheck c))) l0 l1))
    else (fun b => mk_block (phis b) (body b ++ resets c p l ++ incs l) (term b)) <$> blocks f !! l.
Proof.
  intros h incs Eh Hp l. unfold instrumented. rewrite lookup_foldl_latches. unfold check_step, widen_exit.
  rewrite lookup_upd_block, lookup_insert_before_term. simpl. fold h.
  destruct (decide (l = h)) as [->|].
  - rewrite Eh. simpl. rewrite decide_False by done. by rewrite app_nil_r, <-app_assoc.
  - destruct (blocks f !! l) as [b|]; [|done]. simpl. by rewrite <-app_assoc.
Qed.

Lemma exit_of_ok o L f : exit_ok (getHeader L) (exit_of o L f) f.
Proof.
  unfold exit_of, canonical_exit. destruct (BreakMode o); [|done].
  destruct (term <$> blocks f !! getHeader L) as [[| v l0 l1 | |]|] eqn:Et; try done.
  by destruct (eqb _ _).
Qed.

Lemma exit_of_outside o L f : exit_outside o L (exit_of o L f).
Proof.
  unfold exit_of, canonical_exit. destruct (BreakMode o) eqn:Eb; [|done].
  destruct (term <$> blocks f !! getHeader L) as [[| v l0 l1 | |]|]; try done.
  destruct (contains L l0) eqn:E0, (contains L l1) eqn:E1; simpl; auto.
Qed.

Lemma exit_ok_insert h exit f l i vars : exit_ok h exit f ->
  exit_ok h exit (insert_before_term l i (mk_func (entry f) (blocks f) vars)).
Proof.
  destruct exit as [|[[[v l0] l1] x]]; [done|]. unfold exit_ok. rewrite lookup_insert_before_term. simpl.
  by destruct (blocks f !! h).
Qed.

(** What [instrument_loop] does, by cases. *)
Lemma instrument_loop_cases o L s :
  (getLoopPreheader (fn s) L = None /\ instrument_loop o L s = warn NoPreheader s) \/
  (exists p, getLoopPreheader (fn s) L = Some p /\ getLoopLatches (fn s) L = [] /\
    instrument_loop o L s = warn NoLatch s) \/
  (exists p ws, getLoopPreheader (fn s) L = Some p /\ getLoopLatches (fn s) L <> [] /\
    Forall (fun w => w = NotConditional \/ w = NotOneExit) ws /\
    instrument_loop o L s =
      mk_state (instrumented o L (LoopIdx s) p (exit_of o L (fn s)) (fn s)) (S (LoopIdx s)) true
        (u64 (changed_loops s + 1)) (warnings s ++ ws)).
Proof.
  unfold instrument_loop, instrumented, check_step, exit_of.
  destruct (getLoopPreheader (fn s) L) as [p|]; [right|by left].
  destruct (decide _) as [El|El]; [left; by exists p|right]. exists p.
  assert (match canonical_exit (fn s) L with inl w => w = NotConditional \/ w = NotOneExit | inr _ => True end) as Hw.
  { unfold canonical_exit. destruct (term <$> _) as [[]|]; try by left. destruct (eqb _ _); [by right|done]. }
  destruct (BreakMode o); [destruct (canonical_exit (fn s) L) as [w|e]; [exists [w]|exists []]|exists []];
    rewrite ?app_nil_r; split_and!; try done; first [by apply Forall_singleton|by constructor].
Qed.

Lemma instrumented_edit o L c p f : is_Some (blocks f !! getHeader L) ->
  edit c (getHeader L) f (instrumented o L c p (exit_of o L f) f).
Proof.
  intros Hh. unfold instrumented. set (f0 := mk_func _ _ _).
  assert (edit c (getHeader L) f f0) as H0.
  { destruct (reflexivity (R:=edit c (getHeader L)) f) as [H1 H2 H3]. by split. }
  etrans; [exact H0|]. etrans; [by apply (insert_before_term_edit c (getHeader L) p (StoreCounter c 0))|].
  etrans; [|apply foldl_latches_edit].
  apply check_step_edit.
  - destruct Hh as [hb Eh]. rewrite lookup_insert_before_term. simpl. rewrite Eh. by eexists.
  - apply exit_ok_insert, exit_of_ok.
Qed.

Section one_loop.
Context (o : options) (L : Loop) (c : nat) (p : label) (f : func).
Hypothesis Hwf : wf_func f.
Hypothesis Hp : getLoopPreheader f L = Some p.
Hypothesis Hc : counters_below c f.
Abbreviation h := (getHeader L).
Abbreviation g := (instrumented o L c p (exit_of o L f) f).
(** The graph with the reset, before the check. *)
Abbreviation f1 := (insert_before_term p (StoreCounter c 0) (mk_func (entry f) (blocks f) (allocas f ++ [c]))).

Lemma reset_no_check l b : blocks f1 !! l = Some b -> Forall (fun i => ~ is_check c i) (body b).
Proof.
  rewrite lookup_insert_before_term. simpl. intros (b0 & Eb & ->)%fmap_Some. simpl. apply Forall_app. split.
  - eapply counters_below_no_check; [exact Hc|done].
  - destruct (decide _); [by apply Forall_singleton; intros []|by apply Forall_nil].
Qed.

Lemma reset_header : is_Some (blocks f1 !! h).
Proof.
  destruct (header_block f L p Hwf Hp) as [hb Eh]. rewrite lookup_insert_before_term. simpl. rewrite Eh. by eexists.
Qed.

Lemma after_latches l b3 : blocks g !! l = Some b3 -> exists b2,
  blocks (check_step o c h (exit_of o L f) f1) !! l = Some b2 /\
  body b3 = body b2 ++ increments c l (getLoopLatches f L) /\ term b3 = term b2.
Proof. unfold instrumented. rewrite lookup_foldl_latches. intros (b2 & Eb & ->)%fmap_Some. by exists b2. Qed.

Lemma increments_no_check l : Forall (fun i => ~ is_check c i) (increments c l (getLoopLatches f L)).
Proof. eapply Forall_impl; [apply increments_only|]. intros ? ->. by intros []. Qed.

Lemma latch_writes l (il : list instr) : l ∈ getLoopLatches f L ->
  Exists (writes c) (il ++ increments c l (getLoopLatches f L)).
Proof.
  intros Hl. apply Exists_app. right. apply Exists_exists. exists (Increment c). split; [by apply increments_in|done].
Qed.

(** The preheader resets the counter. *)
Lemma preheader_resets b3 : blocks g !! p = Some b3 -> StoreCounter c 0 ∈ body b3.
Proof.
  intros E3. destruct (preheader_block f L p Hwf Hp) as [[pb Ep] Hph].
  assert (edit c h f1 g) as He1.
  { etrans; [|apply foldl_latches_edit]. apply check_step_edit; [exact reset_header|]. apply exit_ok_insert, exit_of_ok. }
  destruct (edit_kept _ _ _ _ He1 p (mk_block (phis pb) (body pb ++ [StoreCounter c 0]) (term pb)) Hph)
    as (b' & y & Eb' & Hb' & _).
  { rewrite lookup_insert_before_term. simpl. by rewrite Ep, decide_True. }
  simplify_eq. rewrite Hb'. simpl. rewrite !elem_of_app. left. right. by left.
Qed.
Lemma preheader_writes b3 : blocks g !! p = Some b3 -> Exists (writes c) (body b3).
Proof. intros E3. apply Exists_exists. eexists. by split; [apply preheader_resets|]. Qed.

(** Unless the header is a latch itself, whoever enters it has written the counter. *)
Lemma header_entered l b3 : h ∉ getLoopLatches f L -> blocks g !! l = Some b3 -> h ∈ successors (term b3) ->
  l <> h /\ Exists (writes c) (body b3).
Proof.
  intros Hl E3 Hin. destruct (header_block f L p Hwf Hp) as [hb Eh], (preheader_block f L p Hwf Hp) as [_ Hph].
  pose proof (instrumented_edit o L c p f ltac:(by eexists)) as He.
  destruct (edit_blocks _ _ _ _ He _ _ E3) as [(l0 & b & x & Eb & Hl0 & _ & _ & Hs)|(_ & Hs & _)].
  2: { by rewrite (Hs _ Hin) in Eh. }
  rewrite Hs in Hin. pose proof (header_predecessors f L p l0 b Hwf Hp Eb Hin) as Hpred.
  assert (l0 <> h) as Hl0h by (destruct Hpred as [->|]; congruence).
  destruct Hl0 as [->|[-> _]]; [|done]. split; [done|].
  destruct Hpred as [->|Hpred]; [by apply preheader_writes|].
  destruct (after_latches _ _ E3) as (b2 & _ & -> & _). by apply latch_writes.
Qed.

(** The loop just instrumented is counted. *)
Lemma instrumented_counted : counted (limit_of o) g c h.
Proof.
  destruct (header_block f L p Hwf Hp) as [hb Eh], reset_header as [hb1 Eh1].
  pose proof (instrumented_edit o L c p f ltac:(by eexists)) as He. split.
  - destruct (check_step_header o c h (exit_of o L f) f1 hb1 Eh1) as (hb2 & pre & E2 & Hb2 & Hpre).
    destruct (edit_dom _ _ _ _ He h ltac:(by eexists)) as [hb3 E3].
    destruct (after_latches _ _ E3) as (hb2' & E2' & Hb3 & _). rewrite E2 in E2'. simplify_eq.
    exists hb3, pre, (increments c h (getLoopLatches f L)).
    split_and!; [done|by rewrite Hb3, Hb2, <-app_assoc| |apply increments_no_check|].
    + destruct Hpre as [->| ->]; [by apply Forall_nil|by eapply reset_no_check].
    + destruct (decide (h ∈ getLoopLatches f L)) as [Hl|Hl]; [left; by apply (latch_writes _ [])|right].
      intros l b3 E3'. by apply header_entered.
  - intros l b3 Hne E3. destruct (after_latches _ _ E3) as (b2 & E2 & -> & _). apply Forall_app.
    split; [|apply increments_no_check].
    destruct (check_step_other o c h (exit_of o L f) f1 l b2 reset_header Hne E2) as [->|(l0 & b & Eb & ->)];
      [by apply Forall_singleton; intros []|by eapply reset_no_check].
  - intros l b3 v E3 Hin.
    destruct (edit_blocks _ _ _ _ He _ _ E3) as [(l0 & b & x & Eb & _ & Hb & Hx & _)|(Hx & _)];
      rewrite Forall_forall in Hx; [|by destruct (Hx _ Hin)].
    rewrite Hb, elem_of_app in Hin. destruct Hin as [Hin|Hin]; [|by destruct (Hx _ Hin)].
    specialize (Hc _ _ _ c Eb Hin (or_introl eq_refl)). lia.
Qed.
(** And when its limit is reached, control leaves it. *)
Lemma instrumented_stops : exists X, stops (limit_of o) c h X g /\
  (exits X g /\ is_new f X \/ BreakMode o = true /\ contains L X = false).
Proof.
  destruct reset_header as [hb1 Eh1].
  destruct (check_step_stops o c L (exit_of o L f) f1 hb1 Eh1 (exit_of_outside o L f)) as (X & hb2 & E2 & Hl & HX).
  exists X. split.
  - destruct (counted_header _ _ _ _ instrumented_counted) as (hb & pre & post & Eh & Hb & Hpre & Hpost & _).
    exists hb, pre, post. split_and!; [done..|].
    destruct (after_latches _ _ Eh) as (b2 & E2' & _ & ->). rewrite E2 in E2'. by simplify_eq.
  - destruct HX as [[Hn EX]|?]; [left|by right]. split.
    + eexists _, _. unfold instrumented. rewrite lookup_foldl_latches, EX. by split.
    + unfold is_new in *. rewrite lookup_insert_before_term in Hn. simpl in Hn. by destruct (blocks f !! X).
Qed.
End one_loop.

(** ** Where the counter is reset and incremented *)

(** Block [l] of [f] is block [mv l] of [g], with instructions for counter [c] behind
    its own; the other blocks of [g] hold only such instructions and lead to new blocks. *)
Record relocates c h f g (mv : label -> label) : Prop := {
  rel_kept l b : blocks f !! l = Some b -> exists b' x, blocks g !! mv l = Some b' /\ body b' = body b ++ x /\
    Forall (foreign c) x /\ successors (term b') = successors (term b);
  rel_label l : mv l = l \/ is_new f (mv l);
  rel_other l : l <> h -> mv l = l;
  rel_blocks l b' : blocks g !! l = Some b' -> (exists l0 b, blocks f !! l0 = Some b /\ l = mv l0) \/
    Forall (foreign c) (body b') /\ forall v, v ∈ successors (term b') -> is_new f v }.

Lemma resets_foreign c p l : Forall (foreign c) (resets c p l).
Proof. unfold resets. destruct (decide _); by repeat constructor. Qed.
Lemma incs_foreign c l Latches : Forall (foreign c) (increments c l Latches).
Proof. eapply Forall_impl; [apply increments_only|]. by intros i ->. Qed.
Lemma added_foreign c p l Latches : Forall (foreign c) (resets c p l ++ increments c l Latches).
Proof. apply Forall_app. split; [apply resets_foreign|apply incs_foreign]. Qed.

Lemma instrumented_relocates o L c p f : is_Some (blocks f !! getHeader L) -> p <> getHeader L ->
  exists mv, relocates c (getHeader L) f (instrumented o L c p (exit_of o L f) f) mv.
Proof.
  intros [hb Eh] Hph. pose proof (exit_of_ok o L f) as Hx. destruct (exit_of o L f) as [w|[[[v l0] l1] x]].
  - destruct (instrumented_split o L c p w f hb Eh Hph) as (E & C & HE & HC & HEC & HEh & HCh & Hl). unfold is_new in *.
    exists (fun l => if decide (l = getHeader L) then C else l). split.
    + intros l b Eb. destruct (decide (l = getHeader L)) as [->|]; rewrite Hl.
      * simplify_eq. rewrite decide_False, decide_False, decide_True by done. eexists _, _. by split_and!; [| |apply incs_foreign|].
      * rewrite !decide_False, Eb by congruence. eexists _, _. by split_and!; [| |apply added_foreign|].
    + intros l. destruct (decide _); [by right|by left].
    + intros l ?. by rewrite decide_False.
    + intros l b'. rewrite Hl. destruct (decide (l = getHeader L)) as [->|].
      { intros [= <-]. right. simpl. split; [constructor; [done|apply incs_foreign]|]. intros v. set_solver. }
      destruct (decide (l = E)) as [->|].
      { intros [= <-]. right. simpl. split; [constructor; [done|apply incs_foreign]|]. set_solver. }
      destruct (decide (l = C)) as [->|].
      { intros _. left. exists (getHeader L), hb. by rewrite decide_True. }
      intros (b & Eb & _)%fmap_Some. left. exists l, b. by rewrite decide_False.
  - pose proof (instrumented_widen o L c p v l0 l1 x f hb Eh Hph) as Hl. unfold exit_ok in Hx. rewrite Eh in Hx. injection Hx as Ht.
    exists id. split; [|by left|done|].
    + intros l b Eb. unfold id. rewrite Hl. destruct (decide (l = getHeader L)) as [->|].
      * simplify_eq. eexists _, _. split_and!; [done|done|constructor; [done|apply incs_foreign]|by rewrite Ht].
      * rewrite Eb. eexists _, _. by split_and!; [| |apply added_foreign|].
    + intros l b'. rewrite Hl. destruct (decide (l = getHeader L)) as [->|]; [by left; exists (getHeader L), hb|].
      intros (b & Eb & _)%fmap_Some. left. by exists l, b.
Qed.

(** What an instruction of the instrumented graph is. *)
Lemma instrumented_instr o L c p f l b' i : is_Some (blocks f !! getHeader L) -> p <> getHeader L ->
  blocks (instrumented o L c p (exit_of o L f) f) !! l = Some b' -> i ∈ body b' ->
  (exists l0 b, blocks f !! l0 = Some b /\ i ∈ body b) \/ i ∈ resets c p l \/ i ∈ increments c l (getLoopLatches f L) \/
  ~ writes c i.
Proof.
  intros [hb Eh] Hph. destruct (exit_of o L f) as [w|[[[v l0] l1] x]].
  - destruct (instrumented_split o L c p w f hb Eh Hph) as (E & C & HE & HC & HEC & HEh & HCh & Hl). rewrite Hl.
    repeat destruct (decide _); intros Eb; [simplify_eq..|apply fmap_Some in Eb as (b & Eb & ->)]; simpl;
      rewrite ?elem_of_cons, ?elem_of_app; naive_solver.
  - rewrite (instrumented_widen o L c p v l0 l1 x f hb Eh Hph).
    destruct (decide _); intros Eb; [simplify_eq|apply fmap_Some in Eb as (b & Eb & ->)]; simpl;
      rewrite ?elem_of_app, ?elem_of_cons, ?elem_of_app; naive_solver.
Qed.

(** Counter [c] of the loop with header [h]: one block resets it, outside the loop and
    with the header as its only successor; whoever else enters the header increments it, or
    the header does so itself; and increments are in the loop.  A block the pass has split
    off is not one of the blocks [f0] had. *)
Definition entered f0 (all : list Loop) g c h : Prop := exists L p, L ∈ all /\ getHeader L = h /\
  (contains L p = false \/ is_new f0 p) /\
  (exists pb, blocks g !! p = Some pb /\ StoreCounter c 0 ∈ body pb /\ successors (term pb) = [h]) /\
  (forall l b v, blocks g !! l = Some b -> StoreCounter c v ∈ body b -> l = p) /\
  (forall l b, blocks g !! l = Some b -> Increment c ∈ body b -> contains L l = true \/ is_new f0 l) /\
  ((exists hb, blocks g !! h = Some hb /\ Increment c ∈ body hb) \/
   forall l b, blocks g !! l = Some b -> h ∈ successors (term b) -> l = p \/ Increment c ∈ body b).

(** Later steps keep it. *)
Lemma entered_relocates f0 all f g c h c' h' mv : entered f0 all f c h -> relocates c' h' f g mv ->
  (forall l, is_Some (blocks f0 !! l) -> is_Some (blocks f !! l)) -> is_Some (blocks f !! h) -> c <> c' -> h <> h' ->
  entered f0 all g c h.
Proof.
  intros (L & p & HL & Eh & Hp & (pb & Ep & Hst & Hs) & Hun & Hin & Hw) Hr Hd Hh Hc Hne.
  assert (forall l, is_new f l -> is_new f0 l) as Hnew.
  { unfold is_new. intros l Hn. destruct (blocks f0 !! l) eqn:E; [|done]. destruct (Hd l ltac:(by eexists)). congruence. }
  assert (forall (i : instr) il, (i = Increment c \/ exists v, i = StoreCounter c v) -> Forall (foreign c') il -> i ∈ il -> False) as Hf.
  { intros i il Hi Hil Hx. rewrite Forall_forall in Hil. specialize (Hil _ Hx).
    destruct Hi as [->|[v ->]]; simpl in Hil; [congruence|by destruct Hil]. }
  assert (forall l b', blocks g !! l = Some b' -> (exists l0 b x, blocks f !! l0 = Some b /\ l = mv l0 /\
    body b' = body b ++ x /\ Forall (foreign c') x /\ successors (term b') = successors (term b)) \/
    Forall (foreign c') (body b') /\ forall v, v ∈ successors (term b') -> is_new f v) as Hbl.
  { intros l b' Eb'. destruct (rel_blocks _ _ _ _ _ Hr l b' Eb') as [(l0 & b & Eb & ->)|?]; [left|by right].
    destruct (rel_kept _ _ _ _ _ Hr l0 b Eb) as (b2 & x & E2 & ?). simplify_eq. by exists l0, b, x. }
  exists L, (mv p). split_and!; [done..| | | | |].
  - destruct (rel_label _ _ _ _ _ Hr p) as [->|?]; [done|right; auto].
  - destruct (rel_kept _ _ _ _ _ Hr p pb Ep) as (b' & x & Eb' & Hb & _ & Es). exists b'. rewrite Es, Hb, elem_of_app. auto.
  - intros l b' v Eb' Hi. destruct (Hbl l b' Eb') as [(l0 & b & x & Eb & -> & Hb & Hx & _)|[Hx _]]; [|by destruct (Hf _ _ (or_intror (ex_intro _ v eq_refl)) Hx Hi)].
    rewrite Hb, elem_of_app in Hi. destruct Hi as [Hi|Hi]; [|by destruct (Hf _ _ (or_intror (ex_intro _ v eq_refl)) Hx Hi)].
    by rewrite (Hun l0 b v Eb Hi).
  - intros l b' Eb' Hi. destruct (Hbl l b' Eb') as [(l0 & b & x & Eb & -> & Hb & Hx & _)|[Hx _]]; [|by destruct (Hf _ _ (or_introl eq_refl) Hx Hi)].
    rewrite Hb, elem_of_app in Hi. destruct Hi as [Hi|Hi]; [|by destruct (Hf _ _ (or_introl eq_refl) Hx Hi)].
    destruct (rel_label _ _ _ _ _ Hr l0) as [->|?]; [by eapply Hin|right; auto].
  - destruct Hw as [(hb & Eb & Hi)|Hw]; [left|right].
    + destruct (rel_kept _ _ _ _ _ Hr h hb Eb) as (b' & x & Eb' & Hb & _). rewrite (rel_other _ _ _ _ _ Hr h Hne) in Eb'.
      exists b'. rewrite Hb, elem_of_app. auto.
    + intros l b' Eb' Hv. destruct (Hbl l b' Eb') as [(l0 & b & x & Eb & -> & Hb & _ & Es)|[_ Hx]].
      * rewrite Es in Hv. rewrite Hb, elem_of_app. destruct (Hw l0 b Eb Hv) as [->|]; auto.
      * specialize (Hx _ Hv). unfold is_new in Hx. destruct Hh. congruence.
Qed.

(** The loop just instrumented. *)
Lemma entered_new o L c p f f0 all : wf_func f -> getLoopPreheader f L = Some p -> counters_below c f -> L ∈ all ->
  entered f0 all (instrumented o L c p (exit_of o L f) f) c (getHeader L).
Proof.
  intros Hwf Hp Hc HL. destruct (header_block f L p Hwf Hp) as [hb Eh], (preheader_block f L p Hwf Hp) as [[pb Ep] Hph].
  destruct (preheader_edge f L p Hwf Hp) as [Hout Hedge]. rewrite Ep in Hedge. injection Hedge as Hedge. simpl in Hedge.
  pose proof (instrumented_instr o L c p f) as Hi. specialize (fun l b' i => Hi l b' i ltac:(by eexists) Hph).
  assert (forall i l b, blocks f !! l = Some b -> i ∈ body b -> ~ writes c i) as Hold.
  { intros i l b Eb Hx Hm. specialize (Hc _ _ _ c Eb Hx (or_introl Hm)). lia. }
  assert (forall (i : instr) l, i ∈ increments c l (getLoopLatches f L) -> i = Increment c /\ l ∈ getLoopLatches f L) as Hincs.
  { intros i l (l' & Hl' & E)%list_elem_of_omap. destruct (decide (l' = l)) as [->|]; by simplify_eq. }
  set (g := instrumented o L c p (exit_of o L f) f) in *.
  assert (edit c (getHeader L) f g) as He by (apply instrumented_edit; by eexists).
  exists L, p. split_and!; [done|done|by left| | | |].
  - destruct (edit_kept _ _ _ _ He p pb Hph Ep) as (b' & x & Eb' & _ & _ & Et). exists b'. rewrite Et. split_and!; [done| |done].
    exact (preheader_resets o L c p f Hwf Hp b' Eb').
  - intros l b v Eb Hx. destruct (Hi l b _ Eb Hx) as [(l0 & b0 & E0 & H0)|[Hr|[[Hr _]%Hincs|Hn]]]; [|..|by destruct Hn].
    + by destruct (Hold _ _ _ E0 H0).
    + unfold resets in Hr. destruct (decide (l = p)); [done|by apply not_elem_of_nil in Hr].
    + done.
  - intros l b Eb Hx. left. destruct (Hi l b _ Eb Hx) as [(l0 & b0 & E0 & H0)|[Hr|[[_ Hr]%Hincs|Hn]]]; [|..|by destruct Hn].
    + by destruct (Hold _ _ _ E0 H0).
    + unfold resets in Hr. destruct (decide (l = p)); [by apply list_elem_of_singleton in Hr|by apply not_elem_of_nil in Hr].
    + destruct (latch_blocks f L l Hwf Hr) as [lb El]. pose proof (latch_edges f L l lb Hwf El) as Ho.
      apply occurrences_pos in Hr. destruct (contains L l); [done|lia].
  - destruct (decide (getHeader L ∈ getLoopLatches f L)) as [Hl|Hl]; [left|right].
    + destruct (edit_dom _ _ _ _ He (getHeader L) ltac:(by eexists)) as [b' Eb']. exists b'. split; [done|].
      destruct (after_latches o L c p f _ _ Eb') as (b2 & _ & -> & _). apply elem_of_app. right. by apply increments_in.
    + intros l b Eb Hv.
      destruct (edit_blocks _ _ _ _ He _ _ Eb) as [(l0 & b0 & x & E0 & Hl0 & _ & _ & Hs)|(_ & Hs & _)].
      2: { by rewrite (Hs _ Hv) in Eh. }
      rewrite Hs in Hv. pose proof (header_predecessors f L p l0 b0 Hwf Hp E0 Hv) as Hpred.
      assert (l0 <> getHeader L) by (destruct Hpred as [->|]; congruence).
      destruct Hl0 as [->|[-> _]]; [|done]. destruct Hpred as [->|Hpred]; [by left|right].
      destruct (after_latches o L c p f _ _ Eb) as (b2 & _ & -> & _). apply elem_of_app. right. by apply increments_in.
Qed.

(** *** Well-formedness *)
Lemma wf_insert_before_term l i f vars : wf_func f ->
  wf_func (insert_before_term l i (mk_func (entry f) (blocks f) vars)).
Proof.
  intros [[eb Ee] Hf]. split.
  - change (is_Some (blocks (insert_before_term l i (mk_func (entry f) (blocks f) vars)) !! entry f)).
    rewrite lookup_insert_before_term. simpl. rewrite Ee. by eexists.
  - intros l1 b l2. rewrite !lookup_insert_before_term. simpl. intros (b0 & Eb & ->)%fmap_Some Hin.
    destruct (Hf _ _ _ Eb Hin) as [b2 ->]. by eexists.
Qed.

Lemma wf_latches c Latches f : wf_func f ->
  wf_func (foldl (fun f Latch => insert_before_term Latch (Increment c) f) f Latches).
Proof.
  revert f. induction Latches as [|l Latches IH]; intros f Hf; simpl; [done|]. apply IH.
  by destruct f; apply (wf_insert_before_term l (Increment c) _ _ Hf).
Qed.

Lemma redirect_labels h C hb l b l' : l' ∈ block_labels (redirect h C hb l b) ->
  l' = C \/ l' ∈ block_labels b.
Proof.
  unfold redirect. destruct (decide _); [|by right]. unfold block_labels. rewrite !elem_of_app.
  intros [?|(p & Hl' & (p0 & -> & Hp0)%list_elem_of_fmap)%list_elem_of_bind]; [by right; left|].
  simpl in Hl'. apply list_elem_of_fmap in Hl' as (e1 & -> & (e0 & -> & He0)%list_elem_of_fmap). simpl.
  destruct (decide (e0.1 = h)); [by left|]. right. right. apply list_elem_of_bind. exists p0.
  split; [|done]. apply list_elem_of_fmap. by exists e0.
Qed.

Lemma wf_split_header o c h f : wf_func f -> is_Some (blocks f !! h) -> wf_func (split_header o c h f).
Proof.
  intros [He Hf] [hb Eh].
  destruct (split_header_blocks o c h f hb Eh) as (E & C & HE & HC & HEC & HEh & HCh & Hen & Hl).
  assert (forall l, is_Some (blocks f !! l) \/ l = C \/ l = E -> is_Some (blocks (split_header o c h f) !! l)) as Hd.
  { intros l Hd. rewrite Hl. unfold split_result. repeat (destruct (decide _); [by eexists|]).
    destruct Hd as [[b ->]|[?|?]]; [by eexists|done..]. }
  split; [rewrite Hen; auto|]. intros l b l' Eb Hin. apply Hd. rewrite Hl in Eb. unfold split_result in Eb.
  assert (forall l b, blocks f !! l = Some b -> l' ∈ block_labels (redirect h C hb l b) ->
    is_Some (blocks f !! l') \/ l' = C \/ l' = E) as Hr.
  { intros l0 b0 Eb0 [->|Hin0]%redirect_labels; [auto|]. left. by eapply Hf. }
  repeat destruct (decide _); simplify_eq.
  - unfold block_labels in Hin. simpl in Hin. rewrite !elem_of_cons in Hin.
    destruct Hin as [->|[->|Hin]]; [auto..|]. apply (Hr h hb Eh). unfold block_labels. set_solver.
  - unfold block_labels in Hin. simpl in Hin. set_solver.
  - left. apply (Hf h hb _ Eh). unfold block_labels in *. simpl in Hin. set_solver.
  - apply fmap_Some in Eb as (b0 & Eb & ->). by eapply Hr.
Qed.

Lemma wf_check_step o c h exit f : wf_func f -> is_Some (blocks f !! h) -> exit_ok h exit f ->
  wf_func (check_step o c h exit f).
Proof.
  intros Hf Hh Hx. destruct exit as [w|[[[v l0] l1] x]]; [by apply wf_split_header|].
  destruct Hf as [[eb Ee] Hf]. split.
  - unfold check_step, widen_exit. change (entry _) with (entry f). rewrite lookup_upd_block, Ee.
    by eexists.
  - intros l b l' Eb Hin. unfold check_step, widen_exit in *. rewrite lookup_upd_block in *.
    cut (is_Some (blocks f !! l')); [intros [b' ->]; by eexists|].
    apply fmap_Some in Eb as (b0 & Eb & ->). apply (Hf _ _ _ Eb).
    destruct (decide (l = h)) as [->|]; [|done]. unfold exit_ok in Hx. rewrite Eb in Hx.
    simpl in Hx. simplify_eq. unfold block_labels in *. by rewrite Hx.
Qed.

Lemma wf_instrumented o L c p f : wf_func f -> is_Some (blocks f !! getHeader L) ->
  wf_func (instrumented o L c p (exit_of o L f) f).
Proof.
  intros Hf [hb Eh]. apply wf_latches, wf_check_step; [by apply wf_insert_before_term| |].
  - rewrite lookup_insert_before_term. simpl. rewrite Eh. by eexists.
  - apply exit_ok_insert, exit_of_ok.
Qed.

(** ** The worklist *)
Definition skips (w : warning) : bool := match w with NoPreheader | NoLatch => true | _ => false end.

Definition skipped (ws : list warning) : nat := length (List.filter skips ws).

Lemma skipped_app ws ws' : skipped (ws ++ ws') = (skipped ws + skipped ws')%nat.
Proof. unfold skipped. by rewrite List.filter_app, length_app. Qed.

Lemma skipped_fallback ws : Forall (fun w => w = NotConditional \/ w = NotOneExit) ws -> skipped ws = 0%nat.
Proof. induction 1 as [|w ws [-> | ->] _ IH]; done. Qed.

Lemma loop_forest_cons L Ls : loop_forest (L :: Ls) = L :: loop_forest (getSubLoops L) ++ loop_forest Ls.
Proof. by destruct L. Qed.
Lemma loop_forest_app Ls Ls' : loop_forest (Ls ++ Ls') = loop_forest Ls ++ loop_forest Ls'.
Proof. unfold loop_forest. by rewrite map_app, concat_app. Qed.
Lemma loop_forest_perm Ls Ls' : Ls ≡ₚ Ls' -> loop_forest Ls ≡ₚ loop_forest Ls'.
Proof.
  induction 1 as [|L Ls Ls' _ IH|L L' Ls|? ? ? _ IH1 _ IH2]; [done|..].
  - rewrite !loop_forest_cons. by rewrite IH.
  - rewrite !loop_forest_cons. solve_Permutation.
  - by rewrite IH1.
Qed.
Lemma loop_forest_rev Ls : loop_forest (rev Ls) ≡ₚ loop_forest Ls.
Proof. apply loop_forest_perm. by rewrite <-Permutation_rev. Qed.

(** The worklist after a step holds the rest of the forest. *)
Lemma loop_forest_step L Ls :
  loop_forest (L :: Ls) ≡ₚ L :: loop_forest (rev (getSubLoops L) ++ Ls).
Proof. by rewrite loop_forest_cons, loop_forest_app, loop_forest_rev. Qed.

(** The way out of loop [c] with header [h] when its limit is reached: a block
    that exits silently, or out of the loop if break mode is on. *)
Definition way_out o (all Ls : list Loop) g c h : Prop :=
  exists X, stops (limit_of o) c h X g /\
    (exits X g /\ X ∉ map getHeader (loop_forest Ls) \/
     BreakMode o = true /\ exists L, L ∈ all /\ getHeader L = h /\ contains L X = false).

(** What holds while the worklist is emptied: [all] are the loops of the function,
    [hs] the headers of those instrumented so far, counter [c] belonging to the
    [c]-th. *)
Record pass_inv o f0 (changed0 : Z) (hs : list label) (Ls : list Loop) (all : list Loop) s : Prop := {
  inv_wf : wf_func (fn s);
  inv_index : LoopIdx s = length hs;
  inv_below : counters_below (LoopIdx s) (fn s);
  inv_counted c h : hs !! c = Some h -> counted (limit_of o) (fn s) c h;
  inv_way_out c h : hs !! c = Some h -> way_out o all Ls (fn s) c h;
  inv_entered c h : hs !! c = Some h -> entered f0 all (fn s) c h;
  inv_dom l : is_Some (blocks f0 !! l) -> is_Some (blocks (fn s) !! l);
  inv_headers : NoDup (hs ++ map getHeader (loop_forest Ls));
  inv_blocks h : h ∈ map getHeader (loop_forest Ls) -> is_Some (blocks (fn s) !! h);
  inv_all L : L ∈ loop_forest Ls -> L ∈ all;
  inv_total : (length hs + skipped (warnings s) + length (loop_forest Ls))%nat = length all;
  inv_changed : Changed s = negb (bool_decide (hs = []));
  inv_stat : changed_loops s = u64 (changed0 + Z.of_nat (length hs));
  inv_same : hs = [] -> fn s = f0 }.

(** The headers left after a step, and those before it. *)
Lemma headers_step L Ls h :
  h ∈ map getHeader (loop_forest (L :: Ls)) <->
  h = getHeader L \/ h ∈ map getHeader (loop_forest (rev (getSubLoops L) ++ Ls)).
Proof. rewrite (loop_forest_step L Ls). simpl. apply elem_of_cons. Qed.

Lemma way_out_step o all L Ls g c h : way_out o all (L :: Ls) g c h ->
  way_out o all (rev (getSubLoops L) ++ Ls) g c h.
Proof.
  intros (X & Hs & HX). exists X. split; [done|]. destruct HX as [[He Hn]|?]; [left|by right].
  split; [done|]. intros Hin. apply Hn, headers_step. by right.
Qed.

Lemma way_out_edit o all L Ls g g' c h c' : way_out o all (L :: Ls) g c h -> edit c' (getHeader L) g g' ->
  c <> c' -> h <> getHeader L -> way_out o all (L :: Ls) g' c h.
Proof.
  intros (X & Hs & HX) He Hc Hh. exists X. split; [by eapply stops_edit|].
  destruct HX as [[Hex Hn]|?]; [left|by right]. split; [|done].
  eapply exits_edit; [done..|]. intros ->. apply Hn, headers_step. by left.
Qed.

Lemma way_out_new o L Ls all c p f : wf_func f -> getLoopPreheader f L = Some p -> counters_below c f ->
  (forall h, h ∈ map getHeader (loop_forest (L :: Ls)) -> is_Some (blocks f !! h)) -> L ∈ all ->
  way_out o all (L :: Ls) (instrumented o L c p (exit_of o L f) f) c (getHeader L).
Proof.
  intros Hwf Hp Hc Hb Ha. destruct (instrumented_stops o L c p f Hwf Hp Hc) as (X & Hs & HX).
  exists X. split; [done|]. destruct HX as [[He Hn]|[Hm HX]]; [left|right; eauto]. split; [done|].
  intros Hin. destruct (Hb X Hin) as [b Eb]. unfold is_new in Hn. congruence.
Qed.

Lemma inv_warn o f0 x hs L Ls all w s : skips w = true ->
  pass_inv o f0 x hs (L :: Ls) all s -> pass_inv o f0 x hs (rev (getSubLoops L) ++ Ls) all (warn w s).
Proof.
  intros Hw []. split; try done; simpl.
  - intros c h Hh. by apply way_out_step, inv_way_out0.
  - rewrite (loop_forest_step L Ls) in inv_headers0. simpl in inv_headers0.
    rewrite <-Permutation_middle in inv_headers0. by apply NoDup_cons in inv_headers0 as [_ ?].
  - intros h Hh. apply inv_blocks0, headers_step. by right.
  - intros L' HL. apply inv_all0. rewrite (loop_forest_step L Ls). by right.
  - rewrite (loop_forest_step L Ls) in inv_total0. rewrite skipped_app. unfold skipped at 2. simpl.
    rewrite Hw. simpl in *. lia.
Qed.

Lemma inv_instrument o f0 x hs L Ls all s : pass_inv o f0 x hs (L :: Ls) all s ->
  exists hs', pass_inv o f0 x hs' (rev (getSubLoops L) ++ Ls) all (instrument_loop o L s) /\
    (hs' = hs \/ hs' = hs ++ [getHeader L]).
Proof.
  intros Hi.
  destruct (instrument_loop_cases o L s) as [[_ ->]|[(p & _ & _ & ->)|(p & ws & Hp & _ & Hws & ->)]].
  { exists hs. split; [by apply inv_warn|by left]. }
  { exists hs. split; [by apply inv_warn|by left]. }
  exists (hs ++ [getHeader L]). split; [|by right]. destruct Hi.
  pose proof (header_block _ _ _ inv_wf0 Hp) as Hh.
  pose proof (instrumented_edit o L (LoopIdx s) p (fn s) Hh) as He.
  assert (forall c h, hs !! c = Some h -> c <> LoopIdx s /\ h <> getHeader L) as Hold.
  { intros c h Hc. split; [apply lookup_lt_Some in Hc; lia|]. intros ->.
    apply NoDup_app in inv_headers0 as (_ & Hd & _). apply (Hd (getHeader L)).
    - by eapply list_elem_of_lookup_2.
    - apply headers_step. by left. }
  split; simpl.
  - by apply wf_instrumented.
  - rewrite length_app, inv_index0. simpl. lia.
  - by eapply counters_below_edit.
  - intros c h [[Hc Hh']|[Hc Hh']]%lookup_snoc_Some.
    + destruct (Hold c h Hh'). by eapply counted_edit; [apply inv_counted0|..].
    + subst h. rewrite inv_index0, Hc in *. by apply instrumented_counted.
  - intros c h [[Hc Hh']|[Hc Hh']]%lookup_snoc_Some; apply way_out_step.
    + destruct (Hold c h Hh'). by eapply way_out_edit; [apply inv_way_out0|..].
    + subst h. rewrite inv_index0, Hc in *. apply way_out_new; try done. apply inv_all0.
      rewrite (loop_forest_step L Ls). by left.
  - intros c h [[Hc Hh']|[Hc Hh']]%lookup_snoc_Some.
    + destruct (Hold c h Hh'), (preheader_block _ _ _ inv_wf0 Hp) as [_ Hph].
      destruct (instrumented_relocates o L (LoopIdx s) p (fn s) Hh Hph) as [mv Hr].
      eapply entered_relocates; [by apply inv_entered0|done..| |done|done].
      destruct (counted_header _ _ _ _ (inv_counted0 c h Hh')) as (hb & _ & _ & Eh & _). by eexists.
    + subst h. rewrite inv_index0, Hc in *. apply entered_new; try done. apply inv_all0.
      rewrite (loop_forest_step L Ls). by left.
  - intros l Hl. by apply (edit_dom _ _ _ _ He), inv_dom0.
  - rewrite <-app_assoc. simpl. by rewrite (loop_forest_step L Ls) in inv_headers0.
  - intros h Hin. apply (edit_dom _ _ _ _ He), inv_blocks0, headers_step. by right.
  - intros L' HL. apply inv_all0. rewrite (loop_forest_step L Ls). by right.
  - rewrite (loop_forest_step L Ls) in inv_total0. rewrite skipped_app, (skipped_fallback ws Hws), length_app.
    simpl in *. lia.
  - rewrite bool_decide_false; [done|by destruct hs].
  - rewrite inv_stat0, length_app, wrap_add_l. f_equal. simpl. lia.
  - by destruct hs.
Qed.

Lemma process_inv o f0 x fuel Ls hs all s : pass_inv o f0 x hs Ls all s ->
  (length (loop_forest Ls) <= fuel)%nat ->
  exists s' hs', process fuel o Ls s = Some s' /\ pass_inv o f0 x hs' [] all s' /\
    forall h, h ∈ hs' -> h ∈ hs \/ h ∈ map getHeader (loop_forest Ls).
Proof.
  revert Ls hs s. induction fuel as [|fuel IH]; intros [|L Ls] hs s Hi Hf; simpl; eauto 6;
    rewrite (loop_forest_step L Ls) in Hf; simpl in Hf; [lia|].
  destruct (inv_instrument _ _ _ _ _ _ _ _ Hi) as (hs1 & Hi1 & Hhs1).
  destruct (IH _ _ _ Hi1 ltac:(lia)) as (s' & hs' & -> & Hi' & Hin). exists s', hs'. split_and!; [done..|].
  intros h Hh. rewrite (loop_forest_step L Ls). simpl. destruct (Hin h Hh) as [Hh1|?]; [|set_solver].
  destruct Hhs1 as [->| ->]; set_solver.
Qed.

Lemma count_loops_forest fuel Ls k : (length (loop_forest Ls) <= fuel)%nat -> word 32 k ->
  count_loops fuel Ls k = Some (u32 (k + Z.of_nat (length (loop_forest Ls)))).
Proof.
  revert Ls k. induction fuel as [|fuel IH]; intros [|L Ls] k Hf Hk; simpl;
    try (f_equal; simpl; rewrite Z.add_0_r; symmetry; by apply wrap_small);
    rewrite loop_forest_cons in Hf |- *; simpl in Hf; rewrite length_app in Hf; [lia|].
  rewrite IH, loop_forest_app; [|rewrite loop_forest_app, length_app; lia|apply wrap_range; lia].
  simpl. rewrite !length_app, wrap_add_l. do 2 f_equal. lia.
Qed.

Lemma existsb_names name (ns : list string) : existsb (String.eqb name) ns = true <-> name ∈ ns.
Proof.
  rewrite existsb_exists. setoid_rewrite String.eqb_eq. setoid_rewrite <-list_elem_of_In. naive_solver.
Qed.

Lemma is_allowed_spec o name : is_allowed o name = true <->
  Whitelist o <> [] /\ name ∈ Whitelist o \/ Whitelist o = [] /\ name ∉ Blacklist o.
Proof.
  unfold is_allowed. destruct (Whitelist o) as [|w ws].
  - destruct (Blacklist o) as [|x xs]; [set_solver|]. rewrite negb_true_iff, <-not_true_iff_false, existsb_names.
    naive_solver.
  - rewrite existsb_names. naive_solver.
Qed.

(** What the pass is run on: a well-formed function without instructions of the
    pass, loops with a header each, which is a block, counters in range. *)
Record pass_input f LI st : Prop := {
  input_wf : wf_func f;
  input_pristine : counters_below 0 f;
  input_headers : NoDup (map getHeader (loop_forest LI));
  input_blocks h : h ∈ map getHeader (loop_forest LI) -> is_Some (blocks f !! h);
  input_total : word 64 (StatTotalLoops st);
  input_changed : word 64 (StatChangedLoops st);
  input_excluded : word 64 (StatExcludedLoops st) }.

(** The worklist starts with the whole forest. *)
Lemma start_inv o f LI st : pass_input f LI st ->
  pass_inv o f (StatChangedLoops st) [] (rev LI) (loop_forest LI) (mk_state f 0%nat false (StatChangedLoops st) []).
Proof.
  intros []. split; try done; simpl.
  - by rewrite loop_forest_rev.
  - intros h. rewrite loop_forest_rev. auto.
  - intros L. by rewrite loop_forest_rev.
  - by rewrite loop_forest_rev.
  - rewrite Z.add_0_r. symmetry. by apply wrap_small.
Qed.

(** The result of the pass when it does not stop at the command line. *)
Lemma run_pass_inv o name f LI st : pass_input f LI st -> both_lists o = false -> is_allowed o name = true ->
  exists g inv ws hs, run_pass o name f LI st = Some (Ran g inv
      (mk_stats (u64 (StatTotalLoops st + u32 (Z.of_nat (length (loop_forest LI)))))
        (if decide (LI = []) then StatChangedLoops st
         else u64 (StatChangedLoops st + Z.of_nat (length hs))) (StatExcludedLoops st)) ws) /\
    (length hs + skipped ws)%nat = length (loop_forest LI) /\
    inv = negb (bool_decide (hs = [])) /\ (hs = [] -> g = f) /\
    (forall h, h ∈ hs -> h ∈ map getHeader (loop_forest LI)) /\
    (forall c h, hs !! c = Some h -> counted (limit_of o) g c h) /\
    (forall c h, hs !! c = Some h -> way_out o (loop_forest LI) [] g c h) /\
    (forall c h, hs !! c = Some h -> entered f (loop_forest LI) g c h).
Proof.
  intros Hin Hb Ha. pose proof Hin as [Hf Hc Hn _ _ Hst _]. unfold run_pass.
  rewrite Hb, count_loops_forest, Z.add_0_l by (done || unfold word; lia). simpl. rewrite Ha. simpl.
  destruct (decide (LI = [])) as [->|Hne].
  { exists f, false, [], []. split_and!; try done. }
  set (s0 := mk_state f 0%nat false (StatChangedLoops st) []).
  destruct (process_inv o f (StatChangedLoops st) (length (loop_forest LI)) (rev LI) []
    (loop_forest LI) s0) as (s' & hs & -> & Hi & Hhs); [by apply start_inv|by rewrite loop_forest_rev|].
  simpl. destruct Hi. exists (fn s'), (Changed s'), (warnings s'), hs.
  rewrite inv_stat0. split_and!; try done.
  - by rewrite <-inv_total0, Nat.add_0_r.
  - intros h Hh. destruct (Hhs h Hh) as [[]%not_elem_of_nil|Hh']. by rewrite loop_forest_rev in Hh'.
Qed.

(** C3. A function with an allowed name is instrumented so that every loop is
    bounded: each loop of the function (nested ones included) is either skipped
    with a warning or owns a counter [c], and its header checks [c] against the
    limit.  One block resets [c]: it is outside the loop and leads to the header only;
    any other block that leads to the header increments [c] (or the header does, when it
    is its own latch), and only blocks of the loop increment it ([entered]; a block split
    off by the pass counts as either).  In every run, from whatever block and state, between two
    resets and as long as [c] is incremented less than 2^31 times, at most
    [max 0 limit] checks let the loop go on.  When a check reports the limit reached,
    control goes only to one block: one that exits silently or, in break mode only, a
    block outside the loop.  Later steps of the pass (sibling and nested loops, split
    blocks) do not break this. *)
Theorem loop_limit_enforced o name f LI st g inv st' ws :
  pass_input f LI st -> is_allowed o name = true ->
  run_pass o name f LI st = Some (Ran g inv st' ws) ->
  exists hs, (length hs + skipped ws)%nat = length (loop_forest LI) /\
    (forall h, h ∈ hs -> h ∈ map getHeader (loop_forest LI)) /\
    forall c h, hs !! c = Some h ->
      (exists b, blocks g !! h = Some b /\ LoadCompare c (limit_of o) ∈ body b) /\
      entered f (loop_forest LI) g c h /\
      (forall st (assign : list (var * operand) -> st -> st) exec eval select n pred l m t1 t2 m' r,
        run assign exec eval select g n pred l m = (t1 ++ EZero c :: t2, m', r) ->
        count (is_zero_of c) t2 = 0 -> count (is_inc_of c) t2 < 2 ^ 31 ->
        count (is_pass_of c) t2 <= Z.max 0 (limit_of o)) /\
      exists X,
        (forall st (assign : list (var * operand) -> st -> st) exec eval select pred b m t m' r,
          blocks g !! h = Some b -> exec_block assign exec eval select pred b m = (t, m', r) ->
          ECheck c true ∈ t -> r = Goto X \/ r = SilentlyExited) /\
        ((forall st (assign : list (var * operand) -> st -> st) exec eval select pred m,
            exists t m', run assign exec eval select g 1 pred X m = (t, m', SilentlyExited)) \/
         BreakMode o = true /\ exists L, L ∈ loop_forest LI /\ getHeader L = h /\ contains L X = false).
Proof.
  intros Hin Ha Hr.
  destruct (both_lists o) eqn:Eb; [unfold run_pass in Hr; by rewrite Eb in Hr|].
  destruct (run_pass_inv o name f LI st Hin Eb Ha) as (g' & inv' & ws' & hs & Hr' & Hl & _ & _ & Hhs & Hc & Hw & He).
  rewrite Hr' in Hr. simplify_eq. exists hs. split_and!; [done..|]. intros c h Hh.
  pose proof (Hc c h Hh) as Hcnt. split_and!.
  - destruct (counted_header _ _ _ _ Hcnt) as (hb & pre & post & Eh & Hb & _).
    exists hb. split; [done|]. rewrite Hb. set_solver.
  - by apply He.
  - intros. by eapply counted_passes.
  - destruct (Hw c h Hh) as (X & Hs & HX). exists X. split; [intros; by eapply stops_block|].
    destruct HX as [[Hx _]|?]; [left|by right]. intros. by apply exits_block.
Qed.

Lemma run_pass_excluded o name f LI st : both_lists o = false -> is_allowed o name = false ->
  let n := u32 (Z.of_nat (length (loop_forest LI))) in
  run_pass o name f LI st =
    Some (Ran f false (mk_stats (u64 (StatTotalLoops st + n)) (StatChangedLoops st) (u64 (StatExcludedLoops st + n))) []).
Proof.
  intros Eb Ea. unfold run_pass. rewrite Eb, count_loops_forest, Z.add_0_l by (done || unfold word; lia). simpl. by rewrite Ea.
Qed.

Lemma run_pass_allowed o name f LI st : pass_input f LI st -> both_lists o = false -> is_allowed o name = true ->
  exists g inv ws (k : nat), (k + skipped ws)%nat = length (loop_forest LI) /\
    inv = negb (k =? 0)%nat /\ (k = 0%nat -> g = f) /\
    run_pass o name f LI st = Some (Ran g inv (mk_stats (u64 (StatTotalLoops st + u32 (Z.of_nat (length (loop_forest LI)))))
      (u64 (StatChangedLoops st + Z.of_nat k)) (StatExcludedLoops st)) ws).
Proof.
  intros Hin Eb Ea.
  destruct (run_pass_inv o name f LI st Hin Eb Ea) as (g & inv & ws & hs & -> & Hl & -> & Hg & _).
  exists g, (negb (bool_decide (hs = []))), ws, (length hs).
  split_and!; [done|by destruct hs|intros; by apply Hg, nil_length_inv|].
  destruct (decide (LI = [])) as [->|]; [|done]. simpl in Hl.
  do 3 f_equal. destruct hs; [|done]. rewrite Z.add_0_r. symmetry. apply wrap_small, Hin.
Qed.

(** C4. The pass always comes to a result.  Both a whitelist and a blacklist are a
    fatal error.  Otherwise all loops of the function, nested ones included, are
    added to the total; a function that is not allowed is left as it is and its
    loops are added to the excluded ones; of an allowed one the loops not skipped
    with a warning are added to the instrumented ones, analyses are invalidated
    exactly if there is one, and the function is unchanged if there is none.  A
    function is allowed if a whitelist names it, or if there is no whitelist and
    no blacklist entry names it. *)
Theorem run_pass_accounting o name f LI st : pass_input f LI st ->
  let n := Z.of_nat (length (loop_forest LI)) in
  (is_allowed o name = true <->
    Whitelist o <> [] /\ name ∈ Whitelist o \/ Whitelist o = [] /\ name ∉ Blacklist o) /\
  (both_lists o = true -> run_pass o name f LI st = Some FatalError) /\
  (both_lists o = false -> is_allowed o name = false ->
   run_pass o name f LI st = Some (Ran f false (mk_stats (u64 (StatTotalLoops st + u32 n))
     (StatChangedLoops st) (u64 (StatExcludedLoops st + u32 n))) [])) /\
  (both_lists o = false -> is_allowed o name = true ->
   exists g inv ws (k : nat), (k + skipped ws)%nat = length (loop_forest LI) /\
     inv = negb (k =? 0)%nat /\ (k = 0%nat -> g = f) /\
     run_pass o name f LI st = Some (Ran g inv (mk_stats (u64 (StatTotalLoops st + u32 n))
       (u64 (StatChangedLoops st + Z.of_nat k)) (StatExcludedLoops st)) ws)).
Proof.
  intros Hin n. split_and!; [apply is_allowed_spec|..].
  - intros Eb. unfold run_pass. by rewrite Eb.
  - by apply run_pass_excluded.
  - by apply run_pass_allowed.
Qed.

(** The input conditions can be decided by evaluation. *)
Definition plain_block f b : bool :=
  bool_decide (Forall (fun l => is_Some (blocks f !! l)) (block_labels b)) &&
  forallb (fun i => match i with Op _ => true | _ => false end) (body b).

Lemma pass_input_dec f LI st :
  bool_decide (is_Some (blocks f !! entry f)) &&
    bool_decide (map_Forall (fun _ b => plain_block f b = true) (blocks f)) &&
    bool_decide (NoDup (map getHeader (loop_forest LI))) &&
    bool_decide (Forall (fun h => is_Some (blocks f !! h)) (map getHeader (loop_forest LI))) = true ->
  word 64 (StatTotalLoops st) -> word 64 (StatChangedLoops st) -> word 64 (StatExcludedLoops st) ->
  pass_input f LI st.
Proof.
  intros [[[He Hf]%andb_prop Hn]%andb_prop Hb]%andb_prop Ht Hc Hx.
  apply bool_decide_eq_true in He, Hf, Hn, Hb. rewrite Forall_forall in Hb.
  assert (forall l b, blocks f !! l = Some b -> plain_block f b = true) as Hp by (intros l b Eb; by apply (Hf l b)).
  split; try done.
  - split; [done|]. intros l b l' Eb Hl. specialize (Hp _ _ Eb). apply andb_prop in Hp as [Hp _].
    apply bool_decide_eq_true in Hp. rewrite Forall_forall in Hp. auto.
  - intros l b i c Eb Hi Hm. specialize (Hp _ _ Eb). apply andb_prop in Hp as [_ Hp].
    rewrite forallb_forall in Hp. apply list_elem_of_In in Hi. specialize (Hp _ Hi).
    destruct i; try done. by destruct Hm.
Qed.
End pass.

Lemma nested_input : pass_input nested_function nested_loops (mk_stats 0 0 0).
Proof. apply pass_input_dec; [by vm_compute|unfold word; simpl; lia..]. Qed.

Lemma loop_limit_enforced_witness :
  exists g inv st' ws,
    run_pass (mk_options 5 [] [] true) "f" nested_function nested_loops (mk_stats 0 0 0) =
      Some (Ran g inv st' ws) /\
    exists hs, (length hs + skipped ws)%nat = 2%nat /\
      forall c h, hs !! c = Some h -> (exists b, blocks g !! h = Some b /\ LoadCompare c 5 ∈ body b) /\
        entered nested_function (loop_forest nested_loops) g c h /\
        exists X, forall pred b m t m' r, blocks g !! h = Some b ->
          exec_block (fun _ x => x) exec_statement eval_condition (fun _ _ => None) pred b m = (t, m', r) ->
          ECheck c true ∈ t -> r = Goto X \/ r = SilentlyExited.
Proof.
  eexists _, _, _, _. split; [vm_compute; reflexivity|].
  edestruct (loop_limit_enforced (mk_options 5 [] [] true) "f" nested_function nested_loops (mk_stats 0 0 0))
    as (hs & Hl & _ & H); [apply nested_input|done|vm_compute; reflexivity|].
  exists hs. split; [exact Hl|]. intros c h Hh. destruct (H c h Hh) as (Hb & He & _ & X & HX & _).
  split; [exact Hb|]. split; [exact He|]. exists X. exact (HX _ _ _ _ _).
Defined.

Lemma run_pass_accounting_witness :
  run_pass (mk_options 5 [] ["f"] true) "f" nested_function nested_loops (mk_stats 0 0 0) =
    Some (Ran nested_function false (mk_stats 2 0 2) []).
Proof.
  by apply (run_pass_accounting (mk_options 5 [] ["f"%string] true) "f" nested_function nested_loops
    (mk_stats 0 0 0) nested_input).
Defined.
