(* ===== verification/LoopLimiterSim.v ===== *)
(** * The pass is transparent until a limit is reached.

    A simulation between the function before and after one step of the worklist,
    and its composition over the whole pass: a run of the original function is a
    run of the instrumented one with the same program states, up to the first
    check that reports the limit reached. *)
From stdpp Require Import gmap strings.
From S2P Require Import Prelude LlvmIr LoopLimiter LlvmModel LoopLimiterBound LoopTest LoopLimiterPass.
Local Open Scope Z_scope.

Definition fired (t : list event) : Prop := Exists (fun e => exists c, e = ECheck c true) t.

Lemma fired_app t t' : fired (t ++ t') <-> fired t \/ fired t'.
Proof. apply Exists_app. Qed.

Section simulation.
Context {var operand op tm cond st : Type} `{!LLVM var operand op tm cond}.
Context (assign : list (var * operand) -> st -> st) (exec : op -> st -> st)
  (eval : cond -> st -> bool) (select : tm -> st -> option nat).
Abbreviation instr := (instr op).
Abbreviation value := (value cond).
Abbreviation terminator := (terminator tm cond).
Abbreviation block := (block var operand op tm cond).
Abbreviation func := (func var operand op tm cond).
Abbreviation machine := (machine st).
Implicit Types (f g : func) (b hb : block) (c : nat) (h l : label) (o : options) (L : Loop) (m : machine).

Abbreviation run := (run assign exec eval select).
Abbreviation exec_block := (exec_block assign exec eval select).

(** ** Values *)
Fixpoint value_below (k : nat) (v : value) : Prop :=
  match v with
  | Orig _ => True
  | BoundCheck c => (c < k)%nat
  | Or v w | And v w => value_below k v /\ value_below k w
  | Not v => value_below k v
  end.

Definition term_below (k : nat) (t : terminator) : Prop :=
  match t with CondBr v _ _ => value_below k v | _ => True end.

Definition terms_below (k : nat) f : Prop := forall l b, blocks f !! l = Some b -> term_below k (term b).

(** Machines that agree on everything but counter [c]. *)
Record agree c m m' : Prop := {
  agree_prog : prog m' = prog m;
  agree_counters k : k <> c -> counters m' k = counters m k;
  agree_checks k : k <> c -> checks m' k = checks m k }.

Lemma agree_refl c m : agree c m m.
Proof. done. Qed.

Lemma eval_value_agree c m m' v : agree c m m' -> value_below c v -> eval_value eval m' v = eval_value eval m v.
Proof.
  intros Ha. induction v as [q|k|v IHv w IHw|v IHv w IHw|v IHv]; simpl; intros Hv.
  - by rewrite (agree_prog _ _ _ Ha).
  - apply (agree_checks _ _ _ Ha). lia.
  - destruct Hv. by rewrite IHv, IHw.
  - destruct Hv. by rewrite IHv, IHw.
  - by rewrite IHv.
Qed.

Lemma exec_term_agree c m m' (t : terminator) : agree c m m' -> term_below c t ->
  exec_term eval select t m' = exec_term eval select t m.
Proof.
  intros Ha Ht. destruct t as [l|v l0 l1| |tt ls]; simpl; try done.
  - by rewrite (eval_value_agree c m m').
  - by rewrite (agree_prog _ _ _ Ha).
Qed.

(** ** Instructions *)
Lemma exec_body_agree c il m m' t r : Forall (fun i => ~ mentions c i) il -> agree c m m' ->
  exec_body exec il m = (t, r) ->
  exists r', exec_body exec il m' = (t, r') /\
    match r, r' with Some n, Some n' => agree c n n' | None, None => True | _, _ => False end.
Proof.
  intros Hil. revert m m' t. induction Hil as [|i il Hi Hil IH]; intros m m' t Ha He.
  { simpl in He. simplify_eq. by exists (Some m'). }
  destruct Ha as [Hp Hc Hk].
  assert (exists te q q', exec_instr exec i m = (te, q) /\ exec_instr exec i m' = (te, q') /\
    match q, q' with Some n, Some n' => agree c n n' | None, None => True | _, _ => False end)
    as (te & q & q' & E & E' & Hq).
  { destruct i as [x|k v|k|k x|code]; unfold mentions in Hi; simpl in Hi.
    - eexists _, _, _. split_and!; [done..|]. split; simpl; [by rewrite Hp|done|done].
    - eexists _, _, _. split_and!; [done..|]. split; simpl; [done| |done].
      intros j Hj. unfold upd. destruct (j =? k)%nat; [done|by apply Hc].
    - eexists _, _, _. simpl. rewrite (Hc k) by tauto. split_and!; [done..|]. split; simpl; [done| |done].
      intros j Hj. unfold upd. destruct (j =? k)%nat; [done|by apply Hc].
    - eexists _, _, _. simpl. rewrite (Hc k) by tauto. split_and!; [done..|]. split; simpl; [done|done|].
      intros j Hj. unfold upd. destruct (j =? k)%nat; [done|by apply Hk].
    - by eexists _, None, None. }
  simpl in He |- *. rewrite E in He. rewrite E'.
  destruct q as [n|], q' as [n'|]; try done; [|simplify_eq; by exists None].
  destruct (exec_body exec il n) as [t1 r1] eqn:E1. simplify_eq.
  destruct (IH _ _ _ Hq E1) as (r' & -> & Hr). by exists r'.
Qed.

(** What the pass appends to blocks other than the header: resets and increments. *)
Definition writes_only c (i : instr) : Prop := i = StoreCounter c 0 \/ i = Increment c.

Lemma exec_writes c il m m' : Forall (writes_only c) il -> agree c m m' ->
  exists t m'', exec_body exec il m' = (t, Some m'') /\ agree c m m'' /\ ~ fired t /\ checks m'' = checks m'.
Proof.
  intros Hil. revert m'. induction Hil as [|i il Hi Hil IH]; intros m' [Hp Hc Hk].
  { exists [], m'. split_and!; [done|done| |done]. by intros Hf%Exists_nil. }
  assert (exists e m1, exec_instr exec i m' = ([e], Some m1) /\ agree c m m1 /\ ~ (exists k, e = ECheck k true) /\
    checks m1 = checks m') as (e & m1 & E & Ha & He & Hm1).
  { destruct Hi as [-> | ->]; (eexists _, _; split_and!; [reflexivity| |by intros [? ?]|done]);
      (split; simpl; [done| |done]; intros j Hj; unfold upd;
       destruct (Nat.eqb_spec j c); [done|by apply Hc]). }
  destruct (IH m1 Ha) as (t & m'' & E' & Ha' & Ht & Hm''). simpl. rewrite E, E'.
  exists (e :: t), m''. split_and!; [done|done| |congruence]. intros Hf. apply Exists_cons in Hf. tauto.
Qed.

(** ** The graph after a step *)
Record other_blocks c h f g (ren : label -> block -> list (var * list (label * operand))) : Prop := {
  other_lookup l b : l <> h -> blocks f !! l = Some b -> exists extra,
    blocks g !! l = Some (mk_block (ren l b) (body b ++ extra) (term b)) /\ Forall (writes_only c) extra }.

(** The two ways of checking: the widened exit, or the split header. *)
Inductive shape c h f g (hb : block) : Prop :=
  | Widened v v' l0 l1 lim extra :
      other_blocks c h f g (fun _ b => phis b) ->
      term hb = CondBr v l0 l1 ->
      (forall m, checks m c = false -> eval_value eval m v' = eval_value eval m v) ->
      blocks g !! h = Some (mk_block (phis hb) (body hb ++ LoadCompare c lim :: extra) (CondBr v' l0 l1)) ->
      Forall (writes_only c) extra -> shape c h f g hb
  | Split E C lim extra :
      other_blocks c h f g (fun l b => phis (redirect h C hb l b)) ->
      is_new f C ->
      blocks g !! h = Some (mk_block (phis (redirect h C hb h hb)) (LoadCompare c lim :: extra)
        (CondBr (BoundCheck c) E C)) ->
      blocks g !! C = Some (mk_block [] (body hb) (term hb)) ->
      Forall (writes_only c) extra -> shape c h f g hb.

Lemma increments_writes c l Latches : Forall (writes_only c) (increments (op:=op) c l Latches).
Proof. eapply Forall_impl; [apply increments_only|]. intros i ->. by right. Qed.

Lemma increments_none c l Latches : l ∉ Latches -> increments (op:=op) c l Latches = [].
Proof.
  intros Hl. unfold increments. induction Latches as [|l' Ls IH]; [done|]. simpl.
  rewrite decide_False by set_solver. apply IH. set_solver.
Qed.

(** What the pass appends to a block, the header apart. *)
Lemma appended_writes c p l Ls :
  Forall (writes_only c) ((if decide (l = p) then [StoreCounter c 0] else []) ++ increments c l Ls).
Proof.
  apply Forall_app. split; [|apply increments_writes].
  destruct (decide _); [apply Forall_singleton; by left|by apply Forall_nil].
Qed.

Lemma instrumented_shape o L c p f hb : wf_func f -> getLoopPreheader f L = Some p ->
  blocks f !! getHeader L = Some hb ->
  shape c (getHeader L) f (instrumented o L c p (exit_of o L f) f) hb.
Proof.
  intros Hwf Hp Eh. destruct (preheader_block f L p Hwf Hp) as [_ Hph]. set (h := getHeader L) in *.
  pose proof (exit_of_ok o L f) as Hx. fold h in Hx.
  destruct (exit_of o L f) as [w|[[[v l0] l1] x]].
  - destruct (instrumented_split o L c p w f hb Eh Hph) as (E & C & HE & HC & HEC & HEh & HCh & Hl). fold h in HEh, HCh, Hl.
    unfold is_new in *. eapply (Split _ _ _ _ _ E C); [split| |..].
    + intros l b Hlh Eb. rewrite Hl, !decide_False, Eb by congruence. eexists. split; [done|]. apply appended_writes.
    + done.
    + by rewrite Hl, decide_True.
    + rewrite Hl, decide_False, decide_False, decide_True by done. rewrite increments_none, app_nil_r; [done|].
      intros Hin. destruct (latch_blocks f L C Hwf Hin) as [b Eb]. congruence.
    + apply increments_writes.
  - pose proof (instrumented_widen o L c p v l0 l1 x f hb Eh Hph) as Hl. fold h in Hl.
    unfold exit_ok in Hx. rewrite Eh in Hx. injection Hx as Ht.
    eapply (Widened _ _ _ _ _ v (if decide (l0 = x) then Or v (BoundCheck c) else And v (Not (BoundCheck c))) l0 l1);
      [split| | |..].
    + intros l b Hlh Eb. rewrite Hl, decide_False, Eb by done. eexists. split; [done|]. apply appended_writes.
    + done.
    + intros m Hm. destruct (decide (l0 = x)); simpl; rewrite Hm; simpl; [by rewrite orb_false_r|by rewrite andb_true_r].
    + by rewrite Hl, decide_True.
    + apply increments_writes.
Qed.

(** ** One block *)
Lemma exec_body_app_some il il' m t m1 t' r : exec_body exec il m = (t, Some m1) ->
  exec_body exec il' m1 = (t', r) -> exec_body exec (il ++ il') m = (t ++ t', r).
Proof. intros E E'. by rewrite exec_body_app, E, E'. Qed.

Lemma exec_plain c b extra m m' t r : agree c m m' -> Forall (fun i => ~ mentions c i) (body b) ->
  term_below c (term b) -> Forall (writes_only c) extra -> exec_body exec (body b) m = (t, r) ->
  exists t' r', exec_body exec (body b ++ extra) m' = (t', r') /\ (fired t' <-> fired t) /\
    match r, r' with
    | Some n, Some n' => agree c n n' /\ exec_term eval select (term b) n' = exec_term eval select (term b) n
    | None, None => True
    | _, _ => False
    end.
Proof.
  intros Ha Hb Ht Hx E. destruct (exec_body_agree c (body b) m m' t r Hb Ha E) as (r1 & E1 & Hr).
  rewrite exec_body_app, E1. destruct r as [n|], r1 as [n1|]; try done; [|by eexists _, None].
  destruct (exec_writes c extra n n1 Hx Hr) as (t2 & n2 & E2 & Ha2 & Hf2 & _). rewrite E2.
  eexists _, (Some n2). split_and!; [done|rewrite fired_app; tauto|done|]. by apply (exec_term_agree c).
Qed.

(** Some run of [g] from here on reports a limit reached. *)
Definition fires g (pred : option label) l m : Prop :=
  exists n t m' s, run g n pred l m = (t, m', s) /\ fired t.

(** What a block of [f] that ends with [s] in [m1] corresponds to in [g]. *)
Definition simulated c g (pred : option label) l m' (t : list event) m1 (s : status) (next : label) : Prop :=
  exists n' t' m1', (fired t' <-> fired t) /\ prog m1' = prog m1 /\
    match s with
    | Goto l1 => agree c m1 m1' /\ forall n, run g (n' + n) pred l m' =
        let '(t2, m2, s2) := run g n (Some next) l1 m1' in (t' ++ t2, m2, s2)
    | _ => run g n' pred l m' = (t', m1', s)
    end.

Lemma simulated_one c g pred l m' b' t' r' m0' b m0 t r :
  blocks g !! l = Some b' -> m0' = exec_phis assign pred (phis b') m' ->
  exec_body exec (body b') m0' = (t', r') -> (fired t' <-> fired t) -> prog m0' = prog m0 ->
  match r, r' with
  | Some n, Some n' => agree c n n' /\ exec_term eval select (term b') n' = exec_term eval select (term b) n
  | None, None => True
  | _, _ => False
  end ->
  let '(m1, s) := match r with Some n => (n, exec_term eval select (term b) n) | None => (m0, SilentlyExited) end in
  simulated c g pred l m' t m1 s l.
Proof.
  intros Eb -> Et Hf Hp Hr. unfold simulated.
  destruct r as [n|], r' as [n'|]; try done.
  - destruct Hr as [Ha Hterm]. exists 1%nat, t', n'.
    assert (forall k, run g (1 + k) pred l m' = match exec_term eval select (term b) n with
      | Goto l1 => let '(t2, m2, s2) := run g k (Some l) l1 n' in (t' ++ t2, m2, s2)
      | s => (t', n', s) end) as Hrun.
    { intros k. simpl. rewrite Eb. unfold LlvmIr.exec_block. rewrite Et, Hterm.
      by destruct (exec_term eval select (term b) n). }
    split_and!; [done|by apply agree_prog with c|].
    specialize (Hrun) as Hrun'. destruct (exec_term eval select (term b) n); try apply (Hrun 0%nat). done.
  - exists 1%nat, t', (exec_phis assign pred (phis b') m'). split_and!; [done..|].
    simpl. rewrite Eb. unfold LlvmIr.exec_block. by rewrite Et.
Qed.

(** Blocks of [g] that fire nothing may come first. *)
Lemma simulated_after c g pred l m' pred2 l2 m2 t0 t m1 s next :
  (forall k, run g (1 + k) pred l m' = let '(t3, m3, s3) := run g k pred2 l2 m2 in (t0 ++ t3, m3, s3)) ->
  ~ fired t0 -> simulated c g pred2 l2 m2 t m1 s next -> simulated c g pred l m' t m1 s next.
Proof.
  intros Hrun Hf0 (n' & t3 & m3 & Hf3 & Hp3 & Hs3). exists (S n'), (t0 ++ t3), m3. split_and!; [|done|].
  - rewrite fired_app. tauto.
  - destruct s as [l1| | |].
    + destruct Hs3 as [Ha3 Hs3]. split; [done|]. intros n. change (S n' + n)%nat with (1 + (n' + n))%nat.
      rewrite Hrun, Hs3. destruct (run g n (Some next) l1 m3) as [[? ?] ?]. by rewrite app_assoc.
    + change (S n') with (1 + n')%nat. by rewrite Hrun, Hs3.
    + change (S n') with (1 + n')%nat. by rewrite Hrun, Hs3.
    + change (S n') with (1 + n')%nat. by rewrite Hrun, Hs3.
Qed.

Section step.
Variables (c : nat) (h : label) (f g : func) (hb : block).
Hypothesis assign_nil : forall x, assign [] x = x.
Hypothesis Hwf : wf_func f.
Hypothesis Hbody : forall l b, blocks f !! l = Some b -> Forall (fun i => ~ mentions c i) (body b).
Hypothesis Hterm : terms_below c f.
Hypothesis Eh : blocks f !! h = Some hb.

(** The block entered is a successor of the one left. *)
Definition edge_ok (pred : option label) l : Prop :=
  match pred with None => True | Some l0 => exists b0, blocks f !! l0 = Some b0 /\ l ∈ successors (term b0) end.

Lemma exec_phis_agree pred pred' ps ps' m m' : agree c m m' ->
  match pred, pred' with
  | Some l0, Some l0' => omap (incoming l0') ps' = omap (incoming l0) ps
  | None, None => True
  | _, _ => False
  end -> agree c (exec_phis assign pred ps m) (exec_phis assign pred' ps' m').
Proof.
  intros [Hp Hc Hk]. destruct pred, pred'; simpl; try done. intros E. split; simpl; [by rewrite E, Hp|done|done].
Qed.

(** Renaming [h] to the new block in the phis of the successors of [h]. *)
Definition rename (C l : label) : label := if decide (l = h) then C else l.

Lemma omap_fmap_ext {A B} (F F' : A -> option B) (G : A -> A) (ps : list A) :
  (forall p, p ∈ ps -> F (G p) = F' p) -> omap F (G <$> ps) = omap F' ps.
Proof.
  induction ps as [|p ps IH]; intros H; [done|].
  assert (omap F (G <$> ps) = omap F' ps) as E by (apply IH; intros q Hq; apply H; by right).
  change (match F (G p) with Some y => y :: omap F (G <$> ps) | None => omap F (G <$> ps) end =
    match F' p with Some y => y :: omap F' ps | None => omap F' ps end).
  rewrite (H p) by (by left). by rewrite E.
Qed.

Lemma incoming_rename C l0 (x : var) (es : list (label * operand)) :
  (forall e, e ∈ es -> e.1 <> C) -> l0 <> C ->
  incoming (rename C l0) (prod_map id (map (prod_map (fun l => if decide (l = h) then C else l) id)) (x, es)) =
    incoming l0 (x, es).
Proof.
  intros Hes Hl0. unfold incoming, rename. cbn [fst snd prod_map id].
  induction es as [|[l' u] es IH]; [done|].
  assert (l' <> C) as Hl' by (apply (Hes (l', u)); by left).
  specialize (IH ltac:(set_solver)). revert IH. cbn [map prod_map list_find fst snd id].
  destruct (list_find (fun e => e.1 = l0) es) as [[k [l1 u1]]|],
    (list_find _ (map _ es)) as [[k' [l1' u1']]|]; simpl; intros IH;
  repeat case_decide; simpl in *; congruence.
Qed.

Lemma incoming_redirect C l b l0 b0 : is_new f C -> blocks f !! l = Some b -> blocks f !! l0 = Some b0 ->
  l ∈ successors (term b0) ->
  omap (incoming (rename C l0)) (phis (redirect h C hb l b)) = omap (incoming l0) (phis b).
Proof.
  intros HC Eb E0 Hl.
  assert (forall p e, p ∈ phis b -> e ∈ p.2 -> e.1 <> C) as HnC.
  { intros p e Hp He HeC. destruct (proj2 Hwf l b e.1 Eb) as [b' Eb']; [|unfold is_new in HC; congruence].
    unfold block_labels. apply elem_of_app. right. apply list_elem_of_bind. exists p.
    split; [by apply list_elem_of_fmap_2|done]. }
  unfold redirect, rename. destruct (decide (l ∈ successors (term hb))) as [Hs|Hs].
  - unfold redirect_phis. cbn [phis]. apply omap_fmap_ext. intros [x es] Hp.
    apply incoming_rename; [intros e He; by apply (HnC (x, es))|].
    intros ->. unfold is_new in HC. congruence.
  - destruct (decide (l0 = h)) as [->|]; [|done]. congruence.
Qed.

(** The simulation of one block, [rp] being how the labels left are renamed. *)
Definition step_simulated (rp : label -> label) : Prop :=
  forall pred l b m m' t m1 s, agree c m m' -> blocks f !! l = Some b -> edge_ok pred l ->
    exec_block pred b m = (t, m1, s) ->
    simulated c g (rp <$> pred) l m' t m1 s (rp l) \/ fires g (rp <$> pred) l m'.

(** A block of [f] that is in [g] with writes appended. *)
Lemma step_plain pred pred' l b ps extra m m' t m1 s : agree c m m' -> blocks f !! l = Some b ->
  blocks g !! l = Some (mk_block ps (body b ++ extra) (term b)) -> Forall (writes_only c) extra ->
  match pred, pred' with
  | Some l0, Some l0' => omap (incoming l0') ps = omap (incoming l0) (phis b)
  | None, None => True
  | _, _ => False
  end ->
  exec_block pred b m = (t, m1, s) -> simulated c g pred' l m' t m1 s l.
Proof.
  intros Ha Eb Eg Hx Hps He. unfold LlvmIr.exec_block in He.
  pose proof (exec_phis_agree pred pred' (phis b) ps m m' Ha Hps) as Ha0.
  set (m0 := exec_phis assign pred (phis b) m) in *.
  destruct (exec_body exec (body b) m0) as [tb r] eqn:E.
  destruct (exec_plain c b extra m0 _ tb r Ha0 (Hbody _ _ Eb) (Hterm _ _ Eb) Hx E) as (t' & r' & E' & Hf & Hr).
  pose proof (simulated_one c g pred' l m' _ t' r' _ b m0 tb r Eg eq_refl E' Hf (agree_prog _ _ _ Ha0) Hr) as Hs.
  destruct r; simplify_eq; exact Hs.
Qed.

Lemma fires_one pred l m b t r m0 t' : blocks g !! l = Some b -> m0 = exec_phis assign pred (phis b) m ->
  exec_body exec (body b) m0 = (t ++ ECheck c true :: t', r) -> fires g pred l m.
Proof.
  intros Eb -> E. exists 1%nat. simpl. rewrite Eb. unfold LlvmIr.exec_block. rewrite E.
  assert (fired (t ++ ECheck c true :: t')) as Hf.
  { apply fired_app. right. apply Exists_cons. left. by exists c. }
  destruct r as [n|]; [|by eexists _, _, _].
  destruct (exec_term eval select (term b) n); eexists _, _, _; (split; [reflexivity|]); rewrite ?app_nil_r; done.
Qed.

(** The check: either it fires, or the machines still agree. *)
Lemma exec_check lim extra n n' : agree c n n' -> Forall (writes_only c) extra ->
  exists t' n2, exec_body exec (LoadCompare c lim :: extra) n' = (ECheck c (lim <=? counters n' c) :: t', Some n2) /\
    agree c n n2 /\ ~ fired t' /\ checks n2 c = (lim <=? counters n' c).
Proof.
  intros [Hp Hc Hk] Hx. cbn [exec_body exec_instr].
  set (n1 := mk_machine (prog n') (counters n') (upd (checks n') c (lim <=? counters n' c))).
  assert (agree c n n1) as Ha1.
  { split; simpl; [done|done|]. intros j Hj. unfold upd. destruct (Nat.eqb_spec j c); [done|by apply Hk]. }
  destruct (exec_writes c extra n n1 Hx Ha1) as (t' & n2 & E & Ha2 & Hf & Hck). rewrite E.
  exists t', n2. split_and!; [done|done|done|]. rewrite Hck. unfold n1, upd. simpl. by rewrite Nat.eqb_refl.
Qed.

Lemma step_widened v v' l0 l1 lim extra : other_blocks c h f g (fun _ b => phis b) ->
  term hb = CondBr v l0 l1 ->
  (forall m, checks m c = false -> eval_value eval m v' = eval_value eval m v) ->
  blocks g !! h = Some (mk_block (phis hb) (body hb ++ LoadCompare c lim :: extra) (CondBr v' l0 l1)) ->
  Forall (writes_only c) extra -> step_simulated id.
Proof.
  intros Ho Ht Hv Eg Hx pred l b m m' t m1 s Ha Eb Hedge He.
  assert (id <$> pred = pred) as -> by (by destruct pred).
  destruct (decide (l = h)) as [->|Hlh].
  2: { destruct (other_lookup _ _ _ _ _ Ho l b Hlh Eb) as (ex & Egl & Hex). left.
    eapply step_plain; [exact Ha|exact Eb|exact Egl|exact Hex| |exact He]. by destruct pred. }
  assert (b = hb) as -> by congruence.
  assert (agree c (exec_phis assign pred (phis hb) m) (exec_phis assign pred (phis hb) m')) as Ha0
    by (apply exec_phis_agree; [done|by destruct pred]).
  unfold LlvmIr.exec_block in He. set (m0 := exec_phis assign pred (phis hb) m) in *.
  destruct (exec_body exec (body hb) m0) as [tb r] eqn:E.
  destruct (exec_body_agree c (body hb) m0 _ tb r (Hbody _ _ Eh) Ha0 E) as (r1 & E1 & Hr1).
  destruct r as [n|], r1 as [n1|]; try done.
  - destruct (exec_check lim extra n n1 Hr1 Hx) as (t2 & n2 & E2 & Ha2 & Hf2 & Hck).
    pose proof (exec_body_app_some _ _ _ _ _ _ _ E1 E2) as E'.
    destruct (lim <=? counters n1 c) eqn:Ec; [right; by eapply fires_one; [exact Eg| |exact E']|left].
    assert (fired (tb ++ ECheck c false :: t2) <-> fired tb) as Hf.
    { rewrite fired_app. unfold fired at 2. rewrite Exists_cons. split; [|by left].
      intros [?|[[k Hk]|?]]; [done|done|by destruct Hf2]. }
    pose proof (simulated_one c g pred h m' _ _ (Some n2) _ hb m0 tb (Some n) Eg eq_refl E' Hf (agree_prog _ _ _ Ha0)) as Hs.
    assert (exec_term eval select (CondBr v' l0 l1) n2 = exec_term eval select (term hb) n) as Hn2.
    { simpl. rewrite Hv by done. rewrite Ht. simpl. rewrite (eval_value_agree c n n2 v Ha2); [done|].
      pose proof (Hterm _ _ Eh) as Htb. by rewrite Ht in Htb. }
    specialize (Hs (conj Ha2 Hn2)). simplify_eq. exact Hs.
  - left. assert (exec_body exec (body hb ++ LoadCompare c lim :: extra) (exec_phis assign pred (phis hb) m') = (tb, None)) as E'
      by (by rewrite exec_body_app, E1).
    pose proof (simulated_one c g pred h m' _ tb None _ hb m0 tb None Eg eq_refl E' ltac:(done) (agree_prog _ _ _ Ha0) I) as Hs.
    by simplify_eq.
Qed.

Lemma step_split E C lim extra : other_blocks c h f g (fun l b => phis (redirect h C hb l b)) -> is_new f C ->
  blocks g !! h = Some (mk_block (phis (redirect h C hb h hb)) (LoadCompare c lim :: extra) (CondBr (BoundCheck c) E C)) ->
  blocks g !! C = Some (mk_block [] (body hb) (term hb)) ->
  Forall (writes_only c) extra -> step_simulated (rename C).
Proof.
  intros Ho HC Eg EC Hx pred l b m m' t m1 s Ha Eb Hedge He.
  assert (match pred, rename C <$> pred with
    | Some l0, Some l0' => omap (incoming l0') (phis (redirect h C hb l b)) = omap (incoming l0) (phis b)
    | None, None => True | _, _ => False end) as Hps.
  { destruct pred as [l0|]; [|done]. destruct Hedge as (b0 & E0 & Hl). simpl. by eapply incoming_redirect. }
  destruct (decide (l = h)) as [->|Hlh].
  2: { destruct (other_lookup _ _ _ _ _ Ho l b Hlh Eb) as (ex & Egl & Hex). left.
    replace (rename C l) with l by (unfold rename; by rewrite decide_False).
    eapply step_plain; [exact Ha|exact Eb|exact Egl|exact Hex|exact Hps|exact He]. }
  assert (b = hb) as -> by congruence. replace (rename C h) with C by (unfold rename; by rewrite decide_True).
  pose proof (exec_phis_agree pred (rename C <$> pred) (phis hb) (phis (redirect h C hb h hb)) m m' Ha Hps) as Ha0.
  unfold LlvmIr.exec_block in He. set (m0 := exec_phis assign pred (phis hb) m) in *.
  destruct (exec_check lim extra m0 _ Ha0 Hx) as (t2 & n2 & E2 & Ha2 & Hf2 & Hck).
  set (m0' := exec_phis assign (rename C <$> pred) _ m') in *.
  destruct (lim <=? counters m0' c) eqn:Ec.
  { right. eapply (fires_one _ _ _ _ []); [exact Eg|reflexivity|exact E2]. }
  left. apply (simulated_after _ _ _ _ _ (Some h) C n2 (ECheck c false :: t2)).
  { intros k. simpl. rewrite Eg. unfold LlvmIr.exec_block. cbn [phis body term]. fold m0'. rewrite E2. simpl.
    rewrite Hck. by destruct (run g k (Some h) C n2) as [[? ?] ?]. }
  { unfold fired. rewrite Exists_cons. intros [[k Hk]|Hk]; [done|by destruct Hf2]. }
  assert (exec_phis assign (Some h) [] n2 = mk_machine (prog n2) (counters n2) (checks n2)) as Ephi
    by (simpl; by rewrite assign_nil).
  destruct (exec_body exec (body hb) m0) as [tb r] eqn:Eb'.
  assert (agree c m0 (exec_phis assign (Some h) [] n2)) as Ha3 by (rewrite Ephi; destruct Ha2; by split).
  destruct (exec_plain c hb [] m0 _ tb r Ha3 (Hbody _ _ Eh) (Hterm _ _ Eh) ltac:(by apply Forall_nil) Eb')
    as (t' & r' & E' & Hf & Hr). rewrite app_nil_r in E'.
  assert (prog (exec_phis assign (Some h) [] n2) = prog m0) as Hp by (rewrite Ephi; by destruct Ha2).
  pose proof (simulated_one c g (Some h) C n2 _ t' r' _ hb m0 tb r EC eq_refl E' Hf Hp Hr) as Hs.
  destruct r; simplify_eq; exact Hs.
Qed.

(** ** Runs *)
Lemma edge_after pred l b m t m1 l1 : blocks f !! l = Some b -> exec_block pred b m = (t, m1, Goto l1) ->
  edge_ok (Some l) l1 /\ is_Some (blocks f !! l1).
Proof.
  intros Eb He. unfold LlvmIr.exec_block in He. destruct (exec_body exec (body b) _) as [tb [n|]]; [|done].
  injection He as _ _ Ht. apply exec_term_successor in Ht. split; [by exists b|].
  apply (proj2 Hwf l b l1 Eb). unfold block_labels. apply elem_of_app. by left.
Qed.

Lemma run_simulated rp : step_simulated rp -> forall n pred l m m' t m1 s,
  agree c m m' -> is_Some (blocks f !! l) -> edge_ok pred l -> run f n pred l m = (t, m1, s) ->
  exists n' t' m1' s', run g n' (rp <$> pred) l m' = (t', m1', s') /\ (fired t -> fired t') /\
    (fired t' \/ s' = s /\ prog m1' = prog m1).
Proof.
  intros Hstep n. induction n as [|n IH]; intros pred l m m' t m1 s Ha [b Eb] Hedge Hr.
  { simpl in Hr. simplify_eq. exists 0%nat, [], m', (Goto l). split_and!; [done..|right]. by destruct Ha. }
  simpl in Hr. rewrite Eb in Hr. destruct (exec_block pred b m) as [[tb mb] sb] eqn:E.
  destruct (Hstep pred l b m m' tb mb sb Ha Eb Hedge E) as [(n' & t' & m1' & Hf & Hp & Hs)|(n' & t' & m1' & s' & Hs & Hf)].
  2: { exists n', t', m1', s'. auto. }
  destruct sb as [l1| | |]; [|simplify_eq; exists n', t', m1'; eexists; split_and!; [exact Hs|apply Hf|by right]..].
  destruct Hs as [Ha' Hs]. destruct (edge_after pred l b m tb mb l1 Eb E) as [He' Hl1].
  destruct (run f n (Some l) l1 mb) as [[t2 m2] s2] eqn:E2. simplify_eq.
  destruct (IH (Some l) l1 mb m1' _ _ _ Ha' Hl1 He' E2) as (n2 & t3 & m3 & s3 & Hr3 & Hf3 & Hend).
  exists (n' + n2)%nat, (t' ++ t3), m3, s3. rewrite Hs. simpl in Hr3. rewrite Hr3. split_and!; [done| |].
  - rewrite !fired_app. tauto.
  - rewrite fired_app. tauto.
Qed.

Lemma shape_simulated : shape c h f g hb -> exists rp, step_simulated rp.
Proof.
  intros [v v' l0 l1 lim extra Ho Ht Hv Eg Hx|E C lim extra Ho HC Eg EC Hx].
  - exists id. by eapply step_widened.
  - exists (rename C). by eapply step_split.
Qed.
End step.

(** [g] runs as [f] does, or fires. *)
Definition transparent f g : Prop :=
  forall n m t m1 s, run f n None (entry f) m = (t, m1, s) ->
    exists n' t' m1' s', run g n' None (entry g) m = (t', m1', s') /\ (fired t -> fired t') /\
      (fired t' \/ s' = s /\ prog m1' = prog m1).

#[export] Instance transparent_preorder : PreOrder transparent.
Proof.
  split.
  - intros f n m t m1 s Hr. exists n, t, m1, s. auto.
  - intros f g k Hfg Hgk n m t m1 s Hr. destruct (Hfg _ _ _ _ _ Hr) as (n1 & t1 & m2 & s1 & Hr1 & Hf1 & He1).
    destruct (Hgk _ _ _ _ _ Hr1) as (n2 & t2 & m3 & s2 & Hr2 & Hf2 & He2).
    exists n2, t2, m3, s2. split_and!; [done|tauto|]. destruct He2 as [?|[-> ->]]; [by left|].
    destruct He1 as [?|?]; [left; auto|by right].
Qed.

Hypothesis assign_nil : forall x, assign [] x = x.

Lemma instrumented_entry o L c p f hb : blocks f !! getHeader L = Some hb ->
  entry (instrumented o L c p (exit_of o L f) f) = entry f.
Proof.
  intros Eh. unfold instrumented.
  assert (forall Ls k, entry (foldl (fun f Latch => insert_before_term Latch (Increment c) f) k Ls) = entry k) as ->.
  { intros Ls. induction Ls as [|l Ls IH]; intros k; simpl; [done|]. by rewrite IH. }
  unfold check_step. destruct (exit_of o L f) as [w|[[[v l0] l1] x]]; [|done].
  edestruct (split_header_blocks o c (getHeader L)) as (E & C & _ & _ & _ & _ & _ & -> & _); [|done].
  rewrite lookup_insert_before_term. simpl. by rewrite Eh.
Qed.

Lemma instrumented_transparent o L c p f : wf_func f -> getLoopPreheader f L = Some p ->
  counters_below c f -> terms_below c f -> transparent f (instrumented o L c p (exit_of o L f) f).
Proof.
  intros Hwf Hp Hc Ht. destruct (header_block f L p Hwf Hp) as [hb Eh].
  assert (forall l b, blocks f !! l = Some b -> Forall (fun i => ~ mentions c i) (body b)) as Hb.
  { intros l b Eb. apply Forall_forall. intros i Hi Hm. specialize (Hc _ _ _ _ Eb Hi Hm). lia. }
  destruct (shape_simulated c (getHeader L) f _ hb assign_nil Hwf Hb Ht Eh (instrumented_shape o L c p f hb Hwf Hp Eh)) as [rp Hrp].
  intros n m t m1 s Hr. rewrite (instrumented_entry o L c p f hb Eh).
  destruct (run_simulated c f _ Hwf rp Hrp n None (entry f) m m t m1 s (agree_refl c m) (proj1 Hwf) I Hr)
    as (n' & t' & m1' & s' & Hr' & ?). by exists n', t', m1', s'.
Qed.

Lemma value_below_mono k k' v : value_below k v -> (k <= k')%nat -> value_below k' v.
Proof. intros Hv Hk. induction v; simpl in *; [done|lia|naive_solver..]. Qed.

Lemma instrumented_terms o L c p f hb : blocks f !! getHeader L = Some hb -> terms_below c f ->
  terms_below (S c) (instrumented o L c p (exit_of o L f) f).
Proof.
  intros Eh Ht l b' Eb'. unfold instrumented in Eb'. rewrite lookup_foldl_latches in Eb'.
  apply fmap_Some in Eb' as (b1 & E1 & ->). simpl.
  assert (forall l b, blocks f !! l = Some b -> term_below (S c) (term b)) as Hm.
  { intros l0 b0 E0. specialize (Ht l0 b0 E0). destruct (term b0); simpl in *; try done.
    eapply value_below_mono; [done|lia]. }
  set (f1 := insert_before_term p (StoreCounter c 0) (mk_func (entry f) (blocks f) (allocas f ++ [c]))) in *.
  assert (forall l b, blocks f1 !! l = Some b -> term_below (S c) (term b)) as Hm1.
  { intros l0 b0. unfold f1. rewrite lookup_insert_before_term. simpl. intros (b2 & E2 & ->)%fmap_Some.
    exact (Hm l0 b2 E2). }
  pose proof (exit_of_ok o L f) as Hx. unfold check_step in E1.
  destruct (exit_of o L f) as [w|[[[v l0] l1] x]].
  - assert (blocks f1 !! getHeader L = Some (mk_block (phis hb) (body hb ++
      if decide (getHeader L = p) then [StoreCounter c 0] else []) (term hb))) as Eh1
      by (unfold f1; rewrite lookup_insert_before_term; simpl; by rewrite Eh).
    destruct (split_header_blocks o c _ f1 _ Eh1) as (E & C & _ & _ & _ & _ & _ & _ & Hl).
    rewrite Hl in E1. unfold split_result in E1. destruct (decide (l = getHeader L)); [simplify_eq; simpl; lia|].
    destruct (decide (l = E)); [by simplify_eq|].
    destruct (decide (l = C)); [simplify_eq; exact (Hm _ _ Eh)|].
    apply fmap_Some in E1 as (b2 & E2 & ->). rewrite redirect_term. exact (Hm1 l b2 E2).
  - unfold widen_exit in E1. rewrite lookup_upd_block in E1. apply fmap_Some in E1 as (b2 & E2 & ->).
    destruct (decide (l = getHeader L)) as [->|]; [|exact (Hm1 l b2 E2)]. simpl.
    unfold exit_ok in Hx. rewrite Eh in Hx. injection Hx as Hx.
    pose proof (Hm _ _ Eh) as Hv. rewrite Hx in Hv. simpl in Hv.
    destruct (decide (l0 = x)); simpl; split; try done; lia.
Qed.

Lemma process_transparent o f0 x fuel Ls hs all s s' : pass_inv o f0 x hs Ls all s ->
  terms_below (LoopIdx s) (fn s) -> process fuel o Ls s = Some s' -> transparent (fn s) (fn s').
Proof.
  revert Ls hs s. induction fuel as [|fuel IH]; intros [|L Ls] hs s Hi Ht Hp; simpl in Hp; simplify_eq; try reflexivity.
  destruct (inv_instrument _ _ _ _ _ _ _ _ Hi) as (hs1 & Hi1 & _).
  assert (transparent (fn s) (fn (instrument_loop o L s)) /\
    terms_below (LoopIdx (instrument_loop o L s)) (fn (instrument_loop o L s))) as [Hs Ht1].
  { destruct (instrument_loop_cases o L s) as [[_ ->]|[(p & _ & _ & ->)|(p & ws & Hpre & _ & _ & ->)]];
      [by split; [reflexivity|]..|]. simpl.
    pose proof (inv_wf _ _ _ _ _ _ _ Hi) as Hwf. pose proof (inv_below _ _ _ _ _ _ _ Hi) as Hb.
    destruct (header_block _ _ _ Hwf Hpre) as [hb Eh].
    split; [by apply instrumented_transparent|by eapply instrumented_terms]. }
  etrans; [exact Hs|]. by eapply IH.
Qed.

(** C2. Up to the first check that reports a limit reached, the instrumented
    function does what the original one does: whatever a run of the original
    function from its entry comes to (a return, undefined behaviour, or the next
    block to run), some run of the instrumented one from the same state comes to
    the same with the same program state, or has fired a check.  This holds in both
    modes, for nested, sibling and multi-latch loops, and for the phis that split
    blocks redirect. *)
Theorem loop_limiter_transparent o name LI stats0 f g inv stats1 ws :
  pass_input f LI stats0 -> terms_below 0 f ->
  run_pass o name f LI stats0 = Some (Ran g inv stats1 ws) ->
  forall n m t m1 s, run f n None (entry f) m = (t, m1, s) ->
    exists n' t' m1' s', run g n' None (entry g) m = (t', m1', s') /\
      (fired t' \/ s' = s /\ prog m1' = prog m1).
Proof.
  intros Hin Ht Hr. cut (transparent f g).
  { intros Htr n m t m1 s Hrun. destruct (Htr _ _ _ _ _ Hrun) as (n' & t' & m1' & s' & ? & _ & ?). eauto 6. }
  unfold run_pass in Hr. destruct (both_lists o); [done|].
  rewrite count_loops_forest, Z.add_0_l in Hr by (done || unfold word; lia). simpl in Hr.
  destruct (is_allowed o name); simpl in Hr; [|by simplify_eq].
  destruct (decide (LI = [])); [by simplify_eq|].
  destruct (process _ _ _ _) as [s'|] eqn:Ep; [|done]. simpl in Hr. simplify_eq.
  pose proof (start_inv o f LI stats0 Hin) as Hi.
  exact (process_transparent _ _ _ _ _ _ _ _ _ Hi Ht Ep).
Qed.
End simulation.

(** The original loop function needs no counter. *)
Lemma loop_function_terms : terms_below 0 loop_function.
Proof.
  intros l b Eb%elem_of_list_to_map_2. rewrite !elem_of_cons, elem_of_nil in Eb.
  by destruct_or? Eb; simplify_eq.
Qed.

Lemma loop_limiter_transparent_witness :
  let m := mk_machine (mk_frame 0 0 3 []) (fun _ => 0) (fun _ => false) in
  let g := limited (mk_options 5 [] [] false) in
  exists n' t' m1' s',
    run (fun _ x => x) exec_statement eval_condition (fun _ _ => None) g n' None (entry g) m = (t', m1', s') /\
    (fired t' \/ s' = Returned /\ prog m1' = (call loop_function 20 3).1.2.(prog)).
Proof.
  intros m g0.
  destruct (run_pass (mk_options 5 [] [] false) "a" loop_function loop_info (mk_stats 0 0 0)) as [[|g inv st ws]|] eqn:E;
    [by vm_compute in E| |by vm_compute in E].
  assert (g0 = g) as -> by (unfold g0, limited; by rewrite E).
  destruct (call loop_function 20 3) as [[t m1] s] eqn:Ec.
  destruct (loop_limiter_transparent (fun _ x => x) exec_statement eval_condition (fun _ _ => None) (fun _ => eq_refl)
    (mk_options 5 [] [] false) "a" loop_info (mk_stats 0 0 0) loop_function g inv st ws) with (n := 20%nat) (m := m) (t := t) (m1 := m1) (s := s)
    as (n' & t' & m1' & s' & Hr & He).
  - apply pass_input_dec; [by vm_compute|unfold word; simpl; lia..].
  - exact loop_function_terms.
  - exact E.
  - exact Ec.
  - assert ((call loop_function 20 3).2 = Returned) as Es by (by vm_compute). rewrite Ec in Es. simpl in Es. subst s.
    exists n', t', m1', s'. exact (conj Hr He).
Defined.
