(* ===== verification/LoopPlugin.v ===== *)
(** * The plugin around the pass: [loop-limiter/LoopLimiter.cpp].

    The pass run on the functions of a module, one after the other, with the
    process-wide statistics, what it prints to [errs()] on the way, the statistics
    printed when the process exits, and the registration of the pass. *)
From stdpp Require Import gmap strings.
From Stdlib Require Import DecimalString DecimalNat DecimalN.
From S2P Require Import Prelude LlvmIr LoopLimiter LlvmModel LoopLimiterBound LoopTest LoopLimiterPass.
Local Open Scope Z_scope.

(** ** Output *)
Definition newline : string := String (Ascii.ascii_of_nat 10) EmptyString.
Definition decimal (z : Z) : string := NilZero.string_of_uint (N.to_uint (Z.to_N z)).

Local Open Scope string_scope.

(** The destructor of [StatsPrinterInstance]. *)
Definition stats_text (s : stats) : string :=
  "LoopLimiter statistics:" ++ newline ++
  "  total loops: " ++ decimal (StatTotalLoops s) ++ newline ++
  "  loops instrumented: " ++ decimal (StatChangedLoops s) ++ newline ++
  "  loops excluded (by whitelist/blacklist): " ++ decimal (StatExcludedLoops s) ++ newline.

Definition warning_text (name : string) (w : warning) : string :=
  match w with
  | NoPreheader => "warning: skipping loop in function '" ++ name ++ "' because it has no preheader/header" ++ newline
  | NoLatch => "warning: skipping loop in function '" ++ name ++ "' because it has no latch" ++ newline
  | NotConditional => "warning: loop in function '" ++ name ++
      "' cannot be break-instrumented conservatively because the loop header is not conditionally exiting; falling back to klee_silent_exit" ++ newline
  | NotOneExit => "warning: loop in function '" ++ name ++
      "' cannot be break-instrumented conservatively because the loop header does not have exactly one in-loop and one out-of-loop successor after loop-simplify; falling back to klee_silent_exit" ++ newline
  end.

(** What [report_fatal_error] is called with. *)
Definition fatal_message : string := "LoopLimiter: --whitelist and --blacklist are mutually exclusive".

(** The name of a counter. *)
Definition CounterName (LoopIdx : nat) : string := "loop.counter." ++ decimal (Z.of_nat LoopIdx).

(** ** Registration *)
Inductive function_pass := LoopLimiter.

Definition isRequired (P : function_pass) : bool := match P with LoopLimiter => true end.

Definition pipeline_parsing_callback (Name : string) (FPM : list function_pass) : list function_pass * bool :=
  if String.eqb Name "loop-limiter" then ((FPM ++ [LoopLimiter])%list, true) else (FPM, false).

(** ** A module *)
Section plugin.
Context {var operand op tm cond : Type} `{!LLVM var operand op tm cond}.
Abbreviation func := (func var operand op tm cond).
Implicit Types (f g : func) (o : options) (s : stats).

(** A call of [run]: the function, its name and its loops. *)
Record call := mk_call { getName : string; function : func; loop_info_of : list Loop }.

Inductive module_result :=
  | Fatal (message : string)
  | Finished (fs : list func) (s : stats) (errs : string).

Fixpoint run_module o (calls : list call) s : option module_result :=
  match calls with
  | [] => Some (Finished [] s (stats_text s))
  | c :: calls =>
      r ← run_pass o (getName c) (function c) (loop_info_of c) s;
      match r with
      | FatalError => Some (Fatal fatal_message)
      | Ran g _ s ws =>
          r ← run_module o calls s;
          Some match r with
          | Fatal m => Fatal m
          | Finished gs s' t => Finished (g :: gs) s' (String.concat "" (map (warning_text (getName c)) ws) ++ t)
          end
      end
  end.

(** *** Accounting *)
(** What became of a function: the result, how many loops were instrumented, and
    the warnings. *)
Record report := mk_report { rep_function : func; rep_instrumented : nat; rep_warnings : list warning }.

Definition loops_of (c : call) : nat := length (loop_forest (loop_info_of c)).

Definition accounted o (c : call) (r : report) : Prop :=
  (rep_instrumented r = 0%nat -> rep_function r = function c) /\
  if is_allowed o (getName c) then (rep_instrumented r + skipped (rep_warnings r))%nat = loops_of c
  else rep_instrumented r = 0%nat /\ rep_warnings r = [].

Definition total {A} (k : A -> Z) (xs : list A) : Z := foldr (fun x n => k x + n) 0 xs.

Definition excluded_loops o (c : call) : Z := if is_allowed o (getName c) then 0 else u32 (Z.of_nat (loops_of c)).

Definition call_ok (c : call) : Prop := pass_input (function c) (loop_info_of c) (mk_stats 0 0 0).

Lemma call_ok_input c s : call_ok c -> word 64 (StatTotalLoops s) -> word 64 (StatChangedLoops s) ->
  word 64 (StatExcludedLoops s) -> pass_input (function c) (loop_info_of c) s.
Proof. by intros []. Qed.

(** One function. *)
Lemma run_pass_report o c s : both_lists o = false -> call_ok c -> word 64 (StatTotalLoops s) ->
  word 64 (StatChangedLoops s) -> word 64 (StatExcludedLoops s) ->
  exists inv r, accounted o c r /\ run_pass o (getName c) (function c) (loop_info_of c) s =
    Some (Ran (rep_function r) inv (mk_stats (u64 (StatTotalLoops s + u32 (Z.of_nat (loops_of c))))
      (u64 (StatChangedLoops s + Z.of_nat (rep_instrumented r))) (u64 (StatExcludedLoops s + excluded_loops o c))) (rep_warnings r)).
Proof.
  intros Hb Hc H1 H2 H3. unfold accounted, excluded_loops. destruct (is_allowed o (getName c)) eqn:Ea.
  - destruct (run_pass_allowed o _ _ _ _ (call_ok_input c s Hc H1 H2 H3) Hb Ea) as (g & inv & ws & k & Hk & _ & Hg & ->).
    exists inv, (mk_report g k ws). split; [done|]. by rewrite Z.add_0_r, (wrap_small 64 (StatExcludedLoops s)).
  - exists false, (mk_report (function c) 0 []). split; [done|]. rewrite run_pass_excluded by done.
    simpl. by rewrite Z.add_0_r, (wrap_small 64 (StatChangedLoops s)).
Qed.

Definition warnings_text (c : call) (r : report) : string := String.concat "" (map (warning_text (getName c)) (rep_warnings r)).

Lemma run_module_report o calls s : both_lists o = false -> Forall call_ok calls -> word 64 (StatTotalLoops s) ->
  word 64 (StatChangedLoops s) -> word 64 (StatExcludedLoops s) ->
  exists reports s', Forall2 (accounted o) calls reports /\
    s' = mk_stats (u64 (StatTotalLoops s + total (fun c => u32 (Z.of_nat (loops_of c))) calls))
      (u64 (StatChangedLoops s + total (fun r => Z.of_nat (rep_instrumented r)) reports))
      (u64 (StatExcludedLoops s + total (excluded_loops o) calls)) /\
    run_module o calls s = Some (Finished (map rep_function reports) s'
      (foldr String.append (stats_text s') (zip_with warnings_text calls reports))).
Proof.
  intros Hb Hc. revert s. induction Hc as [|c calls Hc _ IH]; intros s H1 H2 H3.
  - exists [], s. split; [done|]. simpl. rewrite !Z.add_0_r, !wrap_small by done. by destruct s.
  - destruct (run_pass_report o c s Hb Hc H1 H2 H3) as (inv & r & Hr & E). simpl. rewrite E. simpl.
    edestruct IH as (rs & s' & Hrs & -> & ->); [by apply wrap_range..|].
    exists (r :: rs). eexists. split_and!; [by constructor|reflexivity|]. simpl. by rewrite !wrap_add_l, !Z.add_assoc.
Qed.

(** Mod 2^64, the loops counted are the instrumented, the excluded and the skipped. *)
Lemma totals_add_up o calls reports : Forall2 (accounted o) calls reports ->
  Forall (fun c => Z.of_nat (loops_of c) < 2 ^ 32) calls ->
  total (fun c => u32 (Z.of_nat (loops_of c))) calls =
    total (fun r => Z.of_nat (rep_instrumented r)) reports + total (excluded_loops o) calls +
    total (fun r => Z.of_nat (skipped (rep_warnings r))) reports.
Proof.
  induction 1 as [|c r calls reports [_ Hr] _ IH]; [done|]. intros [Hc Hcs]%Forall_cons. simpl. rewrite (IH Hcs).
  assert (u32 (Z.of_nat (loops_of c)) = Z.of_nat (loops_of c)) as E by (apply wrap_small; unfold word; lia).
  assert (Z.of_nat (loops_of c) = Z.of_nat (rep_instrumented r) + excluded_loops o c + Z.of_nat (skipped (rep_warnings r))) as E'.
  { unfold excluded_loops. rewrite E. destruct (is_allowed o (getName c)); [lia|]. destruct Hr as [-> ->]. change (skipped []) with 0%nat. lia. }
  lia.
Qed.
End plugin.

(** ** Reading the statistics back *)
Fixpoint strip (p t : string) : option string :=
  match p, t with
  | EmptyString, _ => Some t
  | String x p, String y t => if Ascii.eqb x y then strip p t else None
  | _, _ => None
  end.

Fixpoint split_line (t : string) : string * string :=
  match t with
  | EmptyString => (EmptyString, EmptyString)
  | String x t => if Ascii.eqb x (Ascii.ascii_of_nat 10) then (EmptyString, t)
      else let '(l, r) := split_line t in (String x l, r)
  end.

Definition read_number (p t : string) : option (Z * string) :=
  t ← strip p t; let '(d, r) := split_line t in
  d ← NilZero.uint_of_string d; Some (Z.of_N (N.of_uint d), r).

Definition read_stats (t : string) : option stats :=
  t ← strip ("LoopLimiter statistics:" ++ newline) t;
  '(n, t) ← read_number "  total loops: " t;
  '(k, t) ← read_number "  loops instrumented: " t;
  '(x, t) ← read_number "  loops excluded (by whitelist/blacklist): " t;
  match t with EmptyString => Some (mk_stats n k x) | _ => None end.

Lemma strip_app p t : strip p (p ++ t) = Some t.
Proof. induction p as [|x p IH]; simpl; [done|]. by rewrite Ascii.eqb_refl. Qed.

Lemma split_line_digits (d : Decimal.uint) t : split_line (NilEmpty.string_of_uint d ++ newline ++ t) = (NilEmpty.string_of_uint d, t).
Proof. induction d; simpl; [done|..]; by rewrite IHd. Qed.

Lemma split_line_decimal z t : split_line (decimal z ++ newline ++ t) = (decimal z, t).
Proof.
  unfold decimal. destruct (N.to_uint (Z.to_N z)) as [|d|d|d|d|d|d|d|d|d|d]; [done|..]; exact (split_line_digits _ t).
Qed.

Lemma read_decimal p z t : 0 <= z -> read_number p (p ++ decimal z ++ newline ++ t) = Some (z, t).
Proof.
  intros Hz. unfold read_number. rewrite strip_app. simpl. rewrite split_line_decimal. unfold decimal.
  rewrite NilZero.usu; [simpl; rewrite DecimalN.Unsigned.of_to; by rewrite Z2N.id|].
  destruct (Z.to_N z) as [|q]; [done|]. apply DecimalPos.Unsigned.to_uint_nonnil.
Qed.

Lemma read_stats_text s : 0 <= StatTotalLoops s -> 0 <= StatChangedLoops s -> 0 <= StatExcludedLoops s ->
  read_stats (stats_text s) = Some s.
Proof.
  intros H1 H2 H3. unfold read_stats, stats_text.
  set (rest := "  total loops: " ++ _).
  change ("LoopLimiter statistics:" ++ newline ++ rest) with (("LoopLimiter statistics:" ++ newline) ++ rest).
  rewrite strip_app. cbn [mbind option_bind]. subst rest. rewrite read_decimal by done. cbn [mbind option_bind].
  rewrite read_decimal by done. cbn [mbind option_bind].
  change newline with (newline ++ EmptyString). rewrite read_decimal by done. by destruct s.
Qed.

Lemma wrap_add3 w x y z : wrap w (wrap w x + wrap w y + z) = wrap w (x + y + z).
Proof.
  rewrite <-Z.add_assoc, wrap_add_l, Z.add_assoc, (Z.add_comm x), <-Z.add_assoc, wrap_add_l. f_equal. lia.
Qed.

Lemma string_app_assoc (s t u : string) : (s ++ t) ++ u = s ++ (t ++ u).
Proof. induction s as [|x s IH]; [done|]. exact (f_equal (String x) IH). Qed.

Lemma foldr_append (ts : list string) u : foldr String.append u ts = String.concat "" ts ++ u.
Proof.
  assert (forall t ts, String.concat "" (t :: ts) = t ++ String.concat "" ts) as Hc.
  { intros t [|t' ts']; [|done]. induction t as [|x t IH]; [done|]. exact (f_equal (String x) IH). }
  induction ts as [|t ts IH]; [done|]. rewrite Hc. rewrite string_app_assoc, <-IH. done.
Qed.

(** ** The whole process *)
Section process.
Context {var operand op tm cond : Type} `{!LLVM var operand op tm cond}.
Implicit Types (o : options).

Definition no_stats : stats := mk_stats 0 0 0.

(** C6. Over a whole process.  Given both lists the process ends in the fatal
    error at the first function.  Otherwise the pass comes to a result on every
    function of the module; each function that is not allowed, or of which no loop
    was instrumented, is left as it is; the statistics printed at exit, after the
    warnings of all functions in order, can be read back from the text, and they
    are consistent: the total is the number of loops of all functions, the excluded
    ones those of the functions that are not allowed, and instrumented, excluded
    and skipped loops add up to the total, all modulo 2^64. *)
Theorem run_module_accounting o (calls : list (call (var:=var) (operand:=operand) (op:=op) (tm:=tm) (cond:=cond))) :
  Forall call_ok calls ->
  (both_lists o = true -> calls <> [] -> run_module o calls no_stats = Some (Fatal fatal_message)) /\
  (both_lists o = false -> exists reports s errs,
    run_module o calls no_stats = Some (Finished (map rep_function reports) s errs) /\
    Forall2 (accounted o) calls reports /\
    errs = (String.concat "" (zip_with warnings_text calls reports) ++ stats_text s)%string /\
    read_stats (stats_text s) = Some s /\
    StatTotalLoops s = u64 (total (fun c => u32 (Z.of_nat (loops_of c))) calls) /\
    StatExcludedLoops s = u64 (total (excluded_loops o) calls) /\
    (Forall (fun c => Z.of_nat (loops_of c) < 2 ^ 32) calls ->
      StatTotalLoops s = u64 (StatChangedLoops s + StatExcludedLoops s +
        total (fun r => Z.of_nat (skipped (rep_warnings r))) reports))).
Proof.
  intros Hc. split.
  - intros Hb Hne. destruct calls as [|c calls]; [done|]. simpl. unfold run_pass. by rewrite Hb.
  - intros Hb. destruct (run_module_report o calls no_stats Hb Hc) as (rs & s & Hrs & Es & Er); [unfold word; simpl; lia..|].
    exists rs, s. eexists. split_and!; [exact Er|done| | |by rewrite Es..|].
    + apply foldr_append.
    + assert (forall x, 0 <= u64 x) as Hw by (intros x; apply (wrap_range 64); lia).
      apply read_stats_text; rewrite Es; apply Hw.
    + intros Hl. rewrite Es. cbn [StatTotalLoops StatChangedLoops StatExcludedLoops]. simpl (_ + _).
      rewrite (totals_add_up o calls rs Hrs Hl), wrap_add3. done.
Qed.
End process.

Lemma run_module_accounting_witness :
  let calls := [mk_call "f" nested_function nested_loops; mk_call "a" loop_function loop_info] in
  exists reports s errs,
    run_module (mk_options 5 [] ["a"%string] true) calls no_stats = Some (Finished (map rep_function reports) s errs) /\
    read_stats (stats_text s) = Some s /\ StatTotalLoops s = 3 /\ StatExcludedLoops s = 1.
Proof.
  intros calls. destruct (run_module_accounting (mk_options 5 [] ["a"%string] true) calls) as [_ H].
  { apply Forall_cons_2; [|apply Forall_cons_2; [|by apply Forall_nil]]; apply pass_input_dec; by vm_compute. }
  destruct (H eq_refl) as (reports & s & errs & Hr & _ & _ & Hs & Ht & Hx & _).
  exists reports, s, errs. split_and!; [exact Hr|exact Hs|rewrite Ht; by vm_compute|rewrite Hx; by vm_compute].
Defined.
