(* ===== verification/LoopValid.v ===== *)
(** * The pass writes valid IR.

    What LLVM's verifier asks of a graph, as far as the model shows it, and that
    every step of the pass keeps it. *)
From stdpp Require Import gmap strings.
From S2P Require Import Prelude LlvmIr LoopLimiter LlvmModel LoopLimiterBound LoopTest LoopLimiterPass LoopLimiterSim.
Local Open Scope Z_scope.

(** ** Labels a redirected phi has *)
Lemma occurrences_cons l x ls : occurrences l (x :: ls) = ((if decide (x = l) then 1 else 0) + occurrences l ls)%nat.
Proof.
  unfold occurrences. simpl. destruct (decide (x = l)); [by rewrite bool_decide_true|by rewrite bool_decide_false].
Qed.

(** Label [h] replaced by [C], which does not occur. *)
Lemma occurrences_redirect h C l ls : h <> C -> occurrences C ls = 0%nat ->
  occurrences l ((fun x => if decide (x = h) then C else x) <$> ls) =
    if decide (l = C) then occurrences h ls else if decide (l = h) then 0%nat else occurrences l ls.
Proof.
  intros Hne. induction ls as [|x ls IH]; [by repeat destruct (decide _)|].
  rewrite fmap_cons, !occurrences_cons. intros H0. rewrite IH by lia.
  repeat destruct (decide _); congruence || lia.
Qed.

Section valid.
Context {var operand op tm cond : Type} `{!LLVM var operand op tm cond}.
Abbreviation instr := (instr op).
Abbreviation value := (value cond).
Abbreviation terminator := (terminator tm cond).
Abbreviation block := (block var operand op tm cond).
Abbreviation func := (func var operand op tm cond).
Abbreviation state := (state var operand op tm cond).
Implicit Types (f g : func) (b hb : block) (c k : nat) (h l p : label) (o : options) (s : state) (L : Loop).

(** How many edges lead from one block to another. *)
Definition edges f l l' : nat :=
  match blocks f !! l with Some b => occurrences l' (successors (term b)) | None => 0%nat end.

(** The bound checks a value or a terminator uses. *)
Fixpoint value_uses c (v : value) : Prop :=
  match v with
  | Orig _ => False
  | BoundCheck c' => c' = c
  | Or v w | And v w => value_uses c v \/ value_uses c w
  | Not v => value_uses c v
  end.
Definition term_uses c (t : terminator) : Prop :=
  match t with CondBr v _ _ => value_uses c v | _ => False end.

(** Labels are blocks, nothing leads back to the entry, a phi has one incoming value
    for every edge into its block and no other, a bound check is computed in the
    block that uses it, and every counter is a stack slot of its own.  The [k] slots are
    numbered. *)
Record valid k f : Prop := {
  valid_wf : wf_func f;
  valid_entry l : edges f l (entry f) = 0%nat;
  valid_phis l b q l' : blocks f !! l = Some b -> q ∈ phis b -> occurrences l' q.2.*1 = edges f l' l;
  valid_checks l b c : blocks f !! l = Some b -> term_uses c (term b) -> Exists (is_check c) (body b);
  valid_allocated l b i c : blocks f !! l = Some b -> i ∈ body b -> mentions c i -> c ∈ allocas f;
  valid_slots : allocas f = seq 0 k }.

Lemma valid_below k f c : valid k f -> c ∈ allocas f -> (c < k)%nat.
Proof. intros Hv. rewrite (valid_slots _ _ Hv), elem_of_seq. lia. Qed.

Lemma valid_counters k f : valid k f -> counters_below k f.
Proof. intros Hv l b i c Eb Hi Hm. by eapply valid_below, valid_allocated. Qed.

(** A block is only ever entered with a value for each of its phis. *)
Lemma valid_incoming k f l b l' b' q : valid k f -> blocks f !! l = Some b -> q ∈ phis b ->
  blocks f !! l' = Some b' -> l ∈ successors (term b') -> is_Some (incoming l' q).
Proof.
  intros Hv Eb Hq Eb' Hl. pose proof (valid_phis _ _ Hv l b q l' Eb Hq) as Ho. unfold edges in Ho. rewrite Eb' in Ho.
  apply occurrences_pos in Hl. assert (l' ∈ q.2.*1) as ((l1 & x) & E & Hin)%list_elem_of_fmap by (apply occurrences_pos; lia).
  unfold incoming. destruct (list_find_elem_of (fun e => e.1 = l') q.2 (l1, x) Hin) as [[n e] ->]; [done|]. by eexists.
Qed.

(** ** Redirected phis *)
Lemma redirect_phi h C hb l b q : q ∈ phis (redirect h C hb l b) ->
  exists q0, q0 ∈ phis b /\ q.2.*1 = if decide (l ∈ successors (term hb))
    then (fun x => if decide (x = h) then C else x) <$> q0.2.*1 else q0.2.*1.
Proof.
  unfold redirect. destruct (decide _); [|by exists q]. simpl. intros (q0 & -> & Hq0)%list_elem_of_fmap.
  exists q0. split; [done|]. simpl. change (map ?u ?v) with (u <$> v). by rewrite <-!list_fmap_compose.
Qed.

(** ** One step *)
Section step.
Context (o : options) (L : Loop) (c : nat) (p : label) (f : func).
Hypothesis Hf : valid c f.
Hypothesis Hp : getLoopPreheader f L = Some p.
Abbreviation h := (getHeader L).

(** The header has an edge, so it is not the entry. *)
Lemma header_not_entry : h <> entry f.
Proof.
  destruct (preheader_edge f L p (valid_wf _ _ Hf) Hp) as [_ Hs].
  pose proof (valid_entry _ _ Hf p) as He. unfold edges in He. destruct (blocks f !! p) as [pb|]; [|done].
  simpl in Hs. injection Hs as Hs. rewrite Hs, occurrences_cons in He. intros E. by rewrite E, decide_True in He.
Qed.

Lemma allocas_instrumented exit hb : blocks f !! h = Some hb -> allocas (instrumented o L c p exit f) = allocas f ++ [c].
Proof.
  intros Eh. unfold instrumented.
  assert (forall Ls g, allocas (foldl (fun f Latch => insert_before_term Latch (Increment c) f) g Ls) = allocas g) as ->
    by (intros Ls; induction Ls as [|l Ls IH]; intros g; simpl; [done|by rewrite IH]).
  unfold check_step. destruct exit as [w|[[[v l0] l1] x]]; [|done]. unfold split_header.
  destruct (splitBasicBlock _ h) as [f2 C] eqn:E. simpl.
  set (f1 := mk_func _ _ _) in E. pose proof (splitBasicBlock_spec f1 h) as Hs. rewrite E in Hs. simpl in Hs.
  destruct Hs as [_ ->].
  { subst f1. cbn [blocks]. destruct (decide (h = createBlock (insert_before_term p (StoreCounter c 0)
      (mk_func (entry f) (blocks f) (allocas f ++ [c]))))) as [E'|].
    - rewrite <-E', lookup_insert_eq. by eexists.
    - destruct (preheader_block f L p (valid_wf _ _ Hf) Hp) as [_ Hph].
      rewrite lookup_insert_ne, lookup_alter_ne, Eh by done. by eexists. }
  unfold split_at. by destruct (blocks f1 !! h).
Qed.

Abbreviation incs l := (increments (op:=op) c l (getLoopLatches f L)).

Lemma exists_app (P : instr -> Prop) il il' : Exists P il -> Exists P (il ++ il').
Proof. intros Hx. apply Exists_app. by left. Qed.

(** *** A check before the header *)
Section split.
Context (hb : block) (w : warning) (E C : label).
Abbreviation g := (instrumented o L c p (inl w) f).
Hypothesis Eh : blocks f !! h = Some hb.
Hypothesis (HE : is_new f E) (HC : is_new f C) (HEC : E <> C) (HEh : E <> h) (HCh : C <> h).
Hypothesis Hl : forall l, blocks g !! l =
    if decide (l = h) then Some (mk_block (phis (redirect h C hb h hb)) (LoadCompare c (limit_of o) :: incs l) (CondBr (BoundCheck c) E C))
    else if decide (l = E) then Some (mk_block [] (CallSilentExit 1 :: incs l) Unreachable)
    else if decide (l = C) then Some (mk_block [] (body hb ++ incs l) (term hb))
    else (fun b => mk_block (phis (redirect h C hb l b)) (body b ++ resets c p l ++ incs l) (term b)) <$> blocks f !! l.

(** Edges into the blocks of the original graph. *)
Lemma split_edges l v : v <> E -> v <> C ->
  edges g l v = if decide (l = C) then edges f h v else if decide (l = h) then 0%nat else edges f l v.
Proof.
  intros Hv1 Hv2. unfold edges. rewrite Hl, Eh. unfold is_new in *.
  repeat destruct (decide _); try congruence; simpl; try done.
  - rewrite !occurrences_cons, !decide_False by done. done.
  - subst l. by rewrite HE.
  - by destruct (blocks f !! l).
Qed.

Lemma new_no_edge v : is_Some (blocks f !! v) -> edges f C v = 0%nat.
Proof. intros _. unfold edges. by rewrite HC. Qed.

Lemma split_entry l : edges g l (entry f) = 0%nat.
Proof.
  destruct (proj1 (valid_wf _ _ Hf)) as [eb Ee]. unfold is_new in *.
  rewrite split_edges, !(valid_entry _ _ Hf) by congruence. by repeat destruct (decide _).
Qed.

Lemma split_phis_ok l b q l' : blocks f !! l = Some b -> q ∈ phis (redirect h C hb l b) ->
  occurrences l' q.2.*1 = edges g l' l.
Proof.
  intros Eb (q0 & Hq0 & ->)%redirect_phi. pose proof (fun l' => valid_phis _ _ Hf l b q0 l' Eb Hq0) as Ho.
  assert (edges f C l = 0%nat) as HC0 by (apply new_no_edge; by eexists). unfold is_new in *.
  rewrite split_edges by congruence. destruct (decide (l ∈ successors (term hb))) as [Hin|Hin].
  - rewrite occurrences_redirect, !Ho by (done || by rewrite Ho). done.
  - assert (edges f h l = 0%nat) as Hh0 by (unfold edges; rewrite Eh; by apply occurrences_none).
    rewrite Ho, Hh0. repeat destruct (decide _); congruence.
Qed.

Lemma split_phis l b q l' : blocks g !! l = Some b -> q ∈ phis b -> occurrences l' q.2.*1 = edges g l' l.
Proof.
  rewrite Hl. repeat destruct (decide _); intros Eb; simplify_eq; simpl; try (by intros []%not_elem_of_nil).
  - by apply split_phis_ok.
  - apply fmap_Some in Eb as (b0 & Eb & ->). by apply split_phis_ok.
Qed.

Lemma split_checks l b k : blocks g !! l = Some b -> term_uses k (term b) -> Exists (is_check k) (body b).
Proof.
  rewrite Hl. repeat destruct (decide _); intros Eb; simplify_eq; simpl; try done.
  - intros ->. by left.
  - intros Hu. by eapply exists_app, valid_checks.
  - apply fmap_Some in Eb as (b0 & Eb & ->). simpl. intros Hu. by eapply exists_app, valid_checks.
Qed.
End split.

(** *** A wider exit condition *)
Section widen.
Context (hb : block) (v : value) (l0 l1 x : label).
Abbreviation g := (instrumented o L c p (inr (v, l0, l1, x)) f).
Hypothesis Eh : blocks f !! h = Some hb.
Hypothesis Ht : term hb = CondBr v l0 l1.
Hypothesis Hl : forall l, blocks g !! l =
    if decide (l = h) then Some (mk_block (phis hb) (body hb ++ LoadCompare c (limit_of o) :: incs l)
      (CondBr (if decide (l0 = x) then Or v (BoundCheck c) else And v (Not (BoundCheck c))) l0 l1))
    else (fun b => mk_block (phis b) (body b ++ resets c p l ++ incs l) (term b)) <$> blocks f !! l.

Lemma widen_edges l l' : edges g l l' = edges f l l'.
Proof.
  unfold edges. rewrite Hl. destruct (decide (l = h)) as [->|]; [by rewrite Eh, Ht|by destruct (blocks f !! l)].
Qed.

Lemma widen_phis l b q l' : blocks g !! l = Some b -> q ∈ phis b -> occurrences l' q.2.*1 = edges g l' l.
Proof.
  rewrite Hl, widen_edges. destruct (decide (l = h)) as [->|].
  - intros [= <-]. simpl. by eapply valid_phis.
  - intros (b0 & Eb & ->)%fmap_Some. simpl. by eapply valid_phis.
Qed.

Lemma widen_checks l b k : blocks g !! l = Some b -> term_uses k (term b) -> Exists (is_check k) (body b).
Proof.
  rewrite Hl. destruct (decide (l = h)) as [->|].
  - intros [= <-]. simpl. intros Hu. assert (value_uses k v \/ c = k) as [Hv| ->] by (destruct (decide (l0 = x)); simpl in Hu; tauto).
    + apply exists_app, (valid_checks _ _ Hf h hb k Eh). by rewrite Ht.
    + apply Exists_app. right. by left.
  - intros (b0 & Eb & ->)%fmap_Some. simpl. intros Hu. by eapply exists_app, valid_checks.
Qed.
End widen.

(** What is asked of edges, phis and checks, in both cases. *)
Lemma instrumented_clauses (g := instrumented o L c p (exit_of o L f) f) :
  (forall l, edges g l (entry f) = 0%nat) /\
  (forall l b q l', blocks g !! l = Some b -> q ∈ phis b -> occurrences l' q.2.*1 = edges g l' l) /\
  (forall l b k, blocks g !! l = Some b -> term_uses k (term b) -> Exists (is_check k) (body b)).
Proof.
  pose proof (valid_wf _ _ Hf) as Hwf. destruct (header_block f L p Hwf Hp) as [hb Eh], (preheader_block f L p Hwf Hp) as [_ Hph].
  pose proof (exit_of_ok o L f) as Hx. subst g. destruct (exit_of o L f) as [w|[[[v l0] l1] x]].
  - destruct (instrumented_split o L c p w f hb Eh Hph) as (E & C & HE & HC & HEC & HEh & HCh & Hl).
    split_and!; [by eapply (split_entry hb w E C)|by eapply (split_phis hb w E C)|by eapply (split_checks hb w E C)].
  - unfold exit_ok in Hx. rewrite Eh in Hx. injection Hx as Hx.
    pose proof (instrumented_widen o L c p v l0 l1 x f hb Eh Hph) as Hl.
    split_and!; [|by eapply (widen_phis hb v l0 l1 x)|by eapply (widen_checks hb v l0 l1 x)].
    intros l. rewrite (widen_edges hb v l0 l1 x Eh Hx Hl). by eapply valid_entry.
Qed.

Lemma valid_instrumented : valid (S c) (instrumented o L c p (exit_of o L f) f).
Proof.
  pose proof (valid_wf _ _ Hf) as Hwf. destruct (header_block f L p Hwf Hp) as [hb Eh].
  pose proof (instrumented_edit o L c p f ltac:(by eexists)) as He. destruct instrumented_clauses as (Hent & Hphi & Hck).
  split; try done.
  - apply wf_instrumented; [done|by eexists].
  - by rewrite (instrumented_entry o L c p f hb Eh).
  - intros l b i k Eb Hi Hm. rewrite (allocas_instrumented _ hb Eh), elem_of_app, list_elem_of_singleton.
    destruct (edit_blocks _ _ _ _ He _ _ Eb) as [(l0 & b0 & ex & Eb0 & _ & Hb & Hx & _)|(Hx & _)]; rewrite Forall_forall in Hx.
    + rewrite Hb, elem_of_app in Hi. destruct Hi as [Hi|Hi]; [left; by eapply valid_allocated|right].
      by eapply foreign_mentions; [apply Hx|].
    + right. by eapply foreign_mentions; [apply Hx|].
  - rewrite (allocas_instrumented _ hb Eh), (valid_slots _ _ Hf). symmetry. apply seq_S.
Qed.
End step.

(** ** The pass *)
Lemma instrument_loop_valid o L s : valid (LoopIdx s) (fn s) ->
  valid (LoopIdx (instrument_loop o L s)) (fn (instrument_loop o L s)).
Proof.
  intros Hv. destruct (instrument_loop_cases o L s) as [[_ ->]|[(p & _ & _ & ->)|(p & ws & Hp & _ & _ & ->)]]; [done..|].
  by apply valid_instrumented.
Qed.

Lemma process_valid o fuel Ls s s' : valid (LoopIdx s) (fn s) -> process fuel o Ls s = Some s' -> valid (LoopIdx s') (fn s').
Proof.
  revert Ls s. induction fuel as [|fuel IH]; intros [|L Ls] s Hv Hp; simpl in Hp; simplify_eq; try done.
  eapply IH; [|exact Hp]. by apply instrument_loop_valid.
Qed.

(** C5. The pass turns valid IR into valid IR, for every loop forest, in both
    modes: labels are blocks, nothing leads back to the entry, every phi has exactly
    one incoming value for each edge into its block (the phis behind a split header
    name the new block, those of a header that is its own latch as well), every
    bound check is computed in the block that branches on it, and every counter has
    a stack slot of its own. *)
Theorem run_pass_valid o name f LI stats0 g inv stats1 ws :
  valid 0 f -> run_pass o name f LI stats0 = Some (Ran g inv stats1 ws) -> exists k, valid k g.
Proof.
  intros Hv Hr. unfold run_pass in Hr. destruct (both_lists o); [done|].
  destruct (count_loops _ _ _) as [n|]; [|done]. simpl in Hr. destruct (negb _); [exists 0%nat; by simplify_eq|].
  destruct (decide (LI = [])); [exists 0%nat; by simplify_eq|].
  destruct (process _ _ _ _) as [s'|] eqn:Ep; [|done]. simpl in Hr. simplify_eq.
  exists (LoopIdx s'). eapply process_valid; [|exact Ep]. exact Hv.
Qed.
End valid.

(** A loop of one block, with phis in the header and behind it. *)
Definition self_loop : func nat nat nat nat nat :=
  mk_func 0%nat (<[0%nat := mk_block [] [Op 0%nat] (Br 1%nat)]>
    (<[1%nat := mk_block [(0%nat, [(0%nat, 10%nat); (1%nat, 11%nat)])] [Op 1%nat] (CondBr (Orig 0%nat) 1%nat 2%nat)]>
    (<[2%nat := mk_block [(1%nat, [(1%nat, 12%nat)])] [] (OtherTerm 0%nat [])]> ∅))) [].

Lemma self_loop_blocks l b : blocks self_loop !! l = Some b ->
  l = 0%nat /\ b = mk_block [] [Op 0%nat] (Br 1%nat) \/
  l = 1%nat /\ b = mk_block [(0%nat, [(0%nat, 10%nat); (1%nat, 11%nat)])] [Op 1%nat] (CondBr (Orig 0%nat) 1%nat 2%nat) \/
  l = 2%nat /\ b = mk_block [(1%nat, [(1%nat, 12%nat)])] [] (OtherTerm 0%nat []).
Proof. simpl. rewrite !lookup_insert_Some, lookup_empty. naive_solver. Qed.

Lemma self_loop_edges l l' : edges self_loop l l' =
  match l, l' with 0%nat, 1%nat | 1%nat, 1%nat | 1%nat, 2%nat => 1%nat | _, _ => 0%nat end.
Proof.
  unfold edges. destruct (blocks self_loop !! l) as [b|] eqn:E.
  - destruct (self_loop_blocks l b E) as [[-> ->]|[[-> ->]|[-> ->]]]; by destruct l' as [|[|[|]]].
  - destruct l as [|[|[|l]]]; by destruct l' as [|[|[|]]].
Qed.

Lemma self_loop_valid : valid 0 self_loop.
Proof.
  split; try done.
  - split; [by eexists|]. intros l b l' Eb. unfold block_labels.
    destruct (self_loop_blocks l b Eb) as [[-> ->]|[[-> ->]|[-> ->]]]; simpl; rewrite ?elem_of_cons, elem_of_nil;
      intros Hl'; destruct_or? Hl'; subst; done || by eexists.
  - intros l. rewrite self_loop_edges. by destruct l as [|[|]].
  - intros l b q l' Eb Hq. rewrite self_loop_edges.
    destruct (self_loop_blocks l b Eb) as [[-> ->]|[[-> ->]|[-> ->]]]; simpl in Hq;
      [by apply not_elem_of_nil in Hq|apply list_elem_of_singleton in Hq as ->..]; by destruct l' as [|[|[|]]].
  - intros l b c Eb. by destruct (self_loop_blocks l b Eb) as [[-> ->]|[[-> ->]|[-> ->]]].
  - intros l b i c Eb Hi Hm. destruct (self_loop_blocks l b Eb) as [[-> ->]|[[-> ->]|[-> ->]]]; simpl in Hi;
      [apply list_elem_of_singleton in Hi as ->; by destruct Hm..|by apply not_elem_of_nil in Hi].
Qed.

Lemma run_pass_valid_witness :
  exists g inv st ws, run_pass (mk_options 5 [] [] false) "f" self_loop [mk_loop 1%nat [1%nat] []] (mk_stats 0 0 0) =
      Some (Ran g inv st ws) /\
    phis <$> blocks g !! (1%nat : label) = Some [(0%nat, [(0%nat, 10%nat); (4%nat, 11%nat)])] /\
    exists k, valid k g.
Proof.
  eexists _, _, _, _. split; [vm_compute; reflexivity|]. split; [vm_compute; reflexivity|].
  eapply (run_pass_valid (mk_options 5 [] [] false) "f" self_loop [mk_loop 1%nat [1%nat] []] (mk_stats 0 0 0)).
  - exact self_loop_valid.
  - vm_compute. reflexivity.
Defined.
