(* ===== verification/LoopNest.v ===== *)
(** * Loop nests and a measure on them.

    When the control-flow graph of a function is a nest of natural loops in the
    form LLVM's [loop-simplify] leaves, with one latch each.  A position in the
    nest, with the counters of the loops around it, is measured by a list of
    numbers compared lexicographically, outermost loop first. *)
From stdpp Require Import gmap.
From S2P Require Import Prelude LlvmIr LoopLimiter.
Local Open Scope Z_scope.

(** ** Lexicographic order on lists of numbers *)
Fixpoint lexlt (v w : list Z) : Prop :=
  match v, w with
  | _, [] => False
  | [], _ :: _ => True
  | x :: v, y :: w => x < y \/ x = y /\ lexlt v w
  end.

(** Lists of at most [D] digits between 1 and [W - 1], as numbers. *)
Section encoding.
Variable W : Z.
Definition digit (x : Z) : Prop := 1 <= x < W.

Fixpoint encode (D : nat) (v : list Z) : Z :=
  match D, v with
  | S D, x :: v => x * W ^ Z.of_nat D + encode D v
  | _, _ => 0
  end.

Lemma encode_bound D v : Forall digit v -> 1 < W -> 0 <= encode D v < W ^ Z.of_nat D.
Proof.
  intros Hv HW. revert v Hv. induction D as [|D IH]; intros [|x v] Hv; cbn [encode]; try (split; [lia|apply Z.pow_pos_nonneg; lia]).
  apply Forall_cons in Hv as [Hx Hv]. specialize (IH v Hv). unfold digit in Hx.
  rewrite Nat2Z.inj_succ, Z.pow_succ_r by lia. nia.
Qed.

Lemma encode_lt D v w : Forall digit v -> Forall digit w -> 1 < W -> (length w <= D)%nat ->
  lexlt v w -> encode D v < encode D w.
Proof.
  intros Hv Hw HW. revert D w Hw. induction Hv as [|x v Hx Hv IH]; intros D [|y w] Hw Hl Hlt; try done;
    apply Forall_cons in Hw as [Hy Hw]; destruct D as [|D]; simpl in Hl; try lia; cbn [encode];
    pose proof (encode_bound D w Hw HW); unfold digit in *; [nia|].
  pose proof (encode_bound D v Hv HW). destruct Hlt as [Hlt|[-> Hlt]]; [nia|].
  specialize (IH D w Hw ltac:(lia) Hlt). lia.
Qed.
End encoding.

(** ** The form of the graph *)
Section nest.
Context {var operand op tm cond : Type}.
Abbreviation func := (func var operand op tm cond).
Implicit Types (f : func) (A B : Loop) (l u v h : label).

(** Later loops of the list are inside earlier ones or apart from them. *)
Definition inside A B : Prop := Forall (fun x => contains B x = true) (loop_blocks A).
Definition laminar_pair A B : Prop :=
  Forall (fun x => contains A x = true -> inside B A) (loop_blocks B).

Fixpoint laminar (all : list Loop) : Prop :=
  match all with
  | [] => True
  | A :: all => Forall (laminar_pair A) all /\ laminar all
  end.

#[export] Instance inside_dec A B : Decision (inside A B).
Proof. unfold inside. apply _. Defined.
#[export] Instance laminar_dec all : Decision (laminar all).
Proof. unfold laminar_pair. induction all; simpl; apply _. Defined.

(** [u] is a block of [A] with one edge to its header and no other edge into it. *)
Definition latch_ok f A u : Prop :=
  contains A u = true /\
  match blocks f !! u with
  | None => False
  | Some b => occurrences (getHeader A) (successors (term b)) = 1%nat /\
      Forall (fun v => contains A v = true -> v = getHeader A) (successors (term b))
  end.
#[export] Instance latch_ok_dec f A u : Decision (latch_ok f A u).
Proof. unfold latch_ok. destruct (blocks f !! u); apply _. Defined.

(** [all] are the loops, outer before inner; [rank] decreases along every edge but
    the back edges, [latch] is the latch of the loop with a given header. *)
Section conditions.
Variables (f : func) (all : list Loop) (rank : label -> nat) (latch : label -> label).

Definition edges_descend : Prop :=
  map_Forall (fun u b => Forall (fun v => (rank v < rank u)%nat \/
    Exists (fun A => getHeader A = v /\ contains A u = true) all) (successors (term b))) (blocks f).
Definition entered_at_header : Prop :=
  map_Forall (fun u b => Forall (fun v => Forall (fun A =>
    contains A v = true -> contains A u = false -> v = getHeader A) all) (successors (term b))) (blocks f).
Definition header_on_top : Prop :=
  Forall (fun A => contains A (getHeader A) = true /\ contains A (entry f) = false /\
    Forall (fun x => (rank x <= rank (getHeader A))%nat /\ is_Some (blocks f !! x)) (loop_blocks A)) all.
Definition one_latch : Prop :=
  map_Forall (fun u b => Forall (fun A => contains A u = true ->
    getHeader A ∈ successors (term b) -> u = latch (getHeader A)) all) (blocks f) /\
  Forall (fun A => latch_ok f A (latch (getHeader A))) all.
(** No other loop contains the header or the latch of [A] but those around [A]. *)
Definition innermost : Prop :=
  Forall (fun A => Forall (fun B => getHeader A <> getHeader B ->
    contains B (getHeader A) = true \/ contains B (latch (getHeader A)) = true ->
    inside A B /\ contains A (getHeader B) = false) all) all.

#[export] Instance edges_descend_dec : Decision edges_descend.
Proof. unfold edges_descend. apply _. Defined.
#[export] Instance entered_at_header_dec : Decision entered_at_header.
Proof. unfold entered_at_header. apply _. Defined.
#[export] Instance header_on_top_dec : Decision header_on_top.
Proof. unfold header_on_top. apply _. Defined.
#[export] Instance one_latch_dec : Decision one_latch.
Proof. unfold one_latch. apply _. Defined.
#[export] Instance innermost_dec : Decision innermost.
Proof. unfold innermost. apply _. Defined.

Record nest : Prop := {
  nest_descend : edges_descend;
  nest_entered : entered_at_header;
  nest_top : header_on_top;
  nest_latch : one_latch;
  nest_innermost : innermost;
  nest_laminar : laminar all }.

(** The form can be decided by evaluation. *)
#[export] Instance nest_dec : Decision nest.
Proof.
  destruct (decide edges_descend); [|right; abstract (by intros [])].
  destruct (decide entered_at_header); [|right; abstract (by intros [])].
  destruct (decide header_on_top); [|right; abstract (by intros [])].
  destruct (decide one_latch); [|right; abstract (by intros [])].
  destruct (decide innermost); [|right; abstract (by intros [])].
  destruct (decide (laminar all)); [|right; abstract (by intros [])].
  left. by split.
Defined.
End conditions.

(** *** What the form says of an edge *)
Section facts.
Context (f : func) (all : list Loop) (rank : label -> nat) (latch : label -> label).
Hypothesis Hn : nest f all rank latch.

Definition edge u v : Prop := exists b, blocks f !! u = Some b /\ v ∈ successors (term b).

Lemma header_in A : A ∈ all -> contains A (getHeader A) = true.
Proof. intros HA. destruct Hn as [_ _ Ht _ _ _]. unfold header_on_top in Ht. rewrite Forall_forall in Ht. by destruct (Ht A HA). Qed.

Lemma entry_out A : A ∈ all -> contains A (entry f) = false.
Proof. intros HA. destruct Hn as [_ _ Ht _ _ _]. unfold header_on_top in Ht. rewrite Forall_forall in Ht. by destruct (Ht A HA) as (_ & ? & _). Qed.

Lemma loop_rank A x : A ∈ all -> contains A x = true -> (rank x <= rank (getHeader A))%nat /\ is_Some (blocks f !! x).
Proof.
  intros HA Hx%bool_decide_eq_true. destruct Hn as [_ _ Ht _ _ _]. unfold header_on_top in Ht. rewrite Forall_forall in Ht.
  destruct (Ht A HA) as (_ & _ & Hr). rewrite Forall_forall in Hr. by apply Hr.
Qed.

Lemma latch_in A : A ∈ all -> latch_ok f A (latch (getHeader A)).
Proof. intros HA. destruct Hn as [_ _ _ [_ Hl] _ _]. rewrite Forall_forall in Hl. by apply Hl. Qed.

Lemma back_edge A u : A ∈ all -> contains A u = true -> edge u (getHeader A) -> u = latch (getHeader A).
Proof.
  intros HA Hu (b & Eb & Hin). destruct Hn as [_ _ _ [Hl _] _ _]. specialize (Hl u b Eb). simpl in Hl.
  rewrite Forall_forall in Hl. by apply Hl.
Qed.

Lemma enters A u v : A ∈ all -> edge u v -> contains A v = true -> contains A u = false -> v = getHeader A.
Proof.
  intros HA (b & Eb & Hin) Hv Hu. destruct Hn as [_ He _ _ _ _]. specialize (He u b Eb). simpl in He.
  rewrite Forall_forall in He. specialize (He v Hin). rewrite Forall_forall in He. by apply (He A).
Qed.

(** An edge goes down, or back from a latch to its header. *)
Lemma edge_cases u v : edge u v ->
  (rank v < rank u)%nat \/ exists A, A ∈ all /\ v = getHeader A /\ u = latch (getHeader A).
Proof.
  intros He. pose proof He as (b & Eb & Hin). destruct Hn as [Hd _ _ _ _ _]. specialize (Hd u b Eb). simpl in Hd.
  rewrite Forall_forall in Hd. destruct (Hd v Hin) as [?|(A & HA & <- & Hu)%Exists_exists]; [by left|right].
  exists A. split_and!; try done. by apply back_edge.
Qed.

(** The latch leads nowhere in its loop but to the header. *)
Lemma latch_edge A v : A ∈ all -> edge (latch (getHeader A)) v -> contains A v = true -> v = getHeader A.
Proof.
  intros HA (b & Eb & Hin) Hv. destruct (latch_in A HA) as [_ Hl]. rewrite Eb in Hl. destruct Hl as [_ Hl].
  rewrite Forall_forall in Hl. by apply Hl.
Qed.

Lemma contains_inside A B x : inside A B -> contains A x = true -> contains B x = true.
Proof. unfold inside. rewrite Forall_forall. intros Hi Hx%bool_decide_eq_true. by apply Hi. Qed.

Lemma innermost_spec A B : A ∈ all -> B ∈ all -> getHeader A <> getHeader B ->
  contains B (getHeader A) = true \/ contains B (latch (getHeader A)) = true ->
  inside A B /\ contains A (getHeader B) = false.
Proof.
  intros HA HB. destruct Hn as [_ _ _ _ Hi _]. unfold innermost in Hi. rewrite Forall_forall in Hi.
  specialize (Hi A HA). rewrite Forall_forall in Hi. by apply Hi.
Qed.

(** Header and latch are in the same loops. *)
Lemma header_latch A B : A ∈ all -> B ∈ all -> contains B (latch (getHeader A)) = contains B (getHeader A).
Proof.
  intros HA HB. destruct (latch_in A HA) as [Hl _]. pose proof (header_in A HA) as Hh.
  destruct (decide (getHeader A = getHeader B)) as [E|Hne].
  - assert (contains B (getHeader A) = true) as -> by (rewrite E; by apply header_in).
    destruct (latch_in B HB) as [Hl' _]. by rewrite <-E in Hl'.
  - destruct (contains B (latch (getHeader A))) eqn:E1.
    + destruct (innermost_spec A B HA HB Hne) as [Hi _]; [by right|]. symmetry. by apply (contains_inside A).
    + destruct (contains B (getHeader A)) eqn:E2; [|done].
      destruct (innermost_spec A B HA HB Hne) as [Hi _]; [by left|].
      by rewrite (contains_inside A B _ Hi Hl) in E1.
Qed.

(** The latch of a loop belongs to no other loop as latch or header. *)
Lemma latch_header A B : A ∈ all -> B ∈ all -> latch (getHeader A) = getHeader B -> getHeader A = getHeader B.
Proof.
  intros HA HB E. destruct (decide (getHeader A = getHeader B)) as [|Hne]; [done|].
  destruct (innermost_spec A B HA HB Hne) as [_ Hf]; [right; rewrite E; by apply header_in|].
  destruct (latch_in A HA) as [Hl _]. by rewrite E, Hf in Hl.
Qed.

Lemma latch_inj A B : A ∈ all -> B ∈ all -> latch (getHeader A) = latch (getHeader B) -> getHeader A = getHeader B.
Proof.
  intros HA HB E. destruct (decide (getHeader A = getHeader B)) as [|Hne]; [done|].
  destruct (innermost_spec A B HA HB Hne) as [_ Hf]; [right; rewrite E; apply latch_in, HB|].
  destruct (innermost_spec B A HB HA ltac:(done)) as [Hi _]; [right; rewrite <-E; apply latch_in, HA|].
  by rewrite (contains_inside B A _ Hi (header_in B HB)) in Hf.
Qed.

(** ** The measure *)
Section measure.
Variable lim : Z.
(** The counters, by header. *)
Implicit Types (cs : label -> Z).

(** Blocks of the instrumented graph are named by their label [l] and the original
    block [l0] they come from; the second half of a split header comes after the
    header, or before it if the header is its own latch. *)
Definition place l l0 : Z :=
  3 * Z.of_nat (rank l0) + (if decide (l = l0) then 2 else if decide (latch l0 = l0) then 3 else 1).
Definition top A : Z := 3 * Z.of_nat (rank (getHeader A)) + 3.
Definition remaining (x : Z) : Z := Z.max 0 (lim - x) + 1.

Fixpoint position (Ls : list Loop) l l0 cs : list Z :=
  match Ls with
  | [] => [place l l0]
  | A :: Ls =>
      if contains A l0 then top A :: remaining (cs (getHeader A)) :: position Ls l l0 cs
      else position Ls l l0 cs
  end.

Lemma place_range l l0 : 3 * Z.of_nat (rank l0) + 1 <= place l l0 <= 3 * Z.of_nat (rank l0) + 3.
Proof. unfold place. repeat destruct (decide _); lia. Qed.

Lemma position_length Ls l l0 cs : (length (position Ls l l0 cs) <= 2 * length Ls + 1)%nat.
Proof. induction Ls as [|A Ls IH]; simpl; [lia|]. destruct (contains A l0); simpl; lia. Qed.

Lemma position_digits Ls l l0 cs R : Ls ⊆ all -> (forall x, is_Some (blocks f !! x) -> (rank x <= R)%nat) ->
  is_Some (blocks f !! l0) -> (forall A, A ∈ Ls -> - 2 ^ 31 <= cs (getHeader A)) -> lim < 2 ^ 31 ->
  Forall (digit (2 ^ 32 + 3 * Z.of_nat R + 4)) (position Ls l l0 cs).
Proof.
  intros HLs HR Hl0 Hcs Hlim. unfold digit. induction Ls as [|A Ls IH]; simpl.
  { apply Forall_singleton. pose proof (place_range l l0). specialize (HR l0 Hl0). lia. }
  specialize (IH ltac:(set_solver) ltac:(set_solver)). destruct (contains A l0) eqn:EA; [|done].
  assert (A ∈ all) as HA by set_solver. destruct (loop_rank A (getHeader A) HA (header_in A HA)) as [_ Hb].
  apply Forall_cons. split; [unfold top; specialize (HR _ Hb); lia|]. apply Forall_cons. split; [|done].
  unfold remaining. specialize (Hcs A ltac:(by left)). lia.
Qed.

(** The first number of a position. *)
Lemma position_head_ge Ls l l0 cs : Ls ⊆ all ->
  exists x w, position Ls l l0 cs = x :: w /\ 3 * Z.of_nat (rank l0) + 1 <= x.
Proof.
  induction Ls as [|A Ls IH]; intros HLs; simpl; [eexists _, _; split; [done|]; apply place_range|].
  destruct (contains A l0) eqn:EA; [|apply IH; set_solver]. eexists _, _. split; [done|].
  destruct (loop_rank A l0 ltac:(set_solver) EA) as [? _]. unfold top. lia.
Qed.

Lemma position_head_le Ls l l0 cs : (forall A, A ∈ Ls -> contains A l0 = true -> l0 = getHeader A) ->
  exists x w, position Ls l l0 cs = x :: w /\ x <= 3 * Z.of_nat (rank l0) + 3.
Proof.
  induction Ls as [|A Ls IH]; intros HLs; simpl; [eexists _, _; split; [done|]; apply place_range|].
  destruct (contains A l0) eqn:EA; [|apply IH; set_solver]. eexists _, _. split; [done|].
  unfold top. rewrite <-(HLs A); [lia|by left|done].
Qed.

(** Down an edge, the counters of the loops around both ends being kept. *)
Lemma position_down Ls l l' l0 cs cs' : Ls ⊆ all -> laminar Ls -> edge l0 l' -> (rank l' < rank l0)%nat ->
  (forall A, A ∈ Ls -> contains A l0 = true -> contains A l' = true -> cs' (getHeader A) = cs (getHeader A)) ->
  lexlt (position Ls l' l' cs') (position Ls l l0 cs).
Proof.
  intros HLs Hlam He Hr. induction Ls as [|A Ls IH]; intros Hcs; simpl.
  { left. unfold place. rewrite decide_True by done. pose proof (place_range l l0). unfold place in *. lia. }
  destruct Hlam as [HA Hlam]. assert (A ∈ all) as HAll by set_solver.
  specialize (IH ltac:(set_solver) Hlam ltac:(intros; apply Hcs; [by right|done..])).
  destruct (contains A l0) eqn:E0, (contains A l') eqn:E1; [|..|done].
  - right. split; [done|]. right. split; [|done]. f_equal. by apply Hcs; [left|..].
  - destruct (position_head_le Ls l' l' cs') as (x & w & -> & Hx).
    { intros B HB HBl. apply (enters B l0); try done; [set_solver|].
      destruct (contains B l0) eqn:EB; [|done]. rewrite Forall_forall in HA. specialize (HA B HB).
      unfold laminar_pair in HA. rewrite Forall_forall in HA.
      assert (inside B A) as Hi by (apply (HA l0); [by apply bool_decide_eq_true in EB|done]).
      by rewrite (contains_inside B A _ Hi HBl) in E1. }
    left. destruct (loop_rank A l0 HAll E0) as [? _]. unfold top. lia.
  - destruct (position_head_ge Ls l l0 cs ltac:(set_solver)) as (x & w & -> & Hx). left.
    unfold top. rewrite <-(enters A l0 l' HAll He E1 E0). lia.
Qed.

(** Within the same loops, no counter being farther from the limit. *)
Lemma position_within Ls l l' l0 l0' cs cs' :
  (forall A, A ∈ Ls -> contains A l0' = contains A l0) ->
  (forall A, A ∈ Ls -> contains A l0 = true -> remaining (cs' (getHeader A)) <= remaining (cs (getHeader A))) ->
  place l' l0' < place l l0 \/
    (exists A, A ∈ Ls /\ contains A l0 = true /\ remaining (cs' (getHeader A)) < remaining (cs (getHeader A))) ->
  lexlt (position Ls l' l0' cs') (position Ls l l0 cs).
Proof.
  induction Ls as [|A Ls IH]; intros Hc Hle Hlt; simpl.
  { left. destruct Hlt as [?|(? & []%not_elem_of_nil & _)]; done. }
  rewrite (Hc A) by left. destruct (contains A l0) eqn:E0.
  - right. split; [done|]. specialize (Hle A ltac:(by left) E0) as HleA.
    destruct (decide (remaining (cs' (getHeader A)) < remaining (cs (getHeader A)))) as [?|Hge]; [by left|right].
    split; [lia|]. apply IH; [set_solver..|]. destruct Hlt as [?|(B & HB & HBc & HBlt)]; [by left|right].
    apply elem_of_cons in HB as [->|HB]; [lia|eauto].
  - apply IH; [set_solver..|]. destruct Hlt as [?|(B & HB & HBc & HBlt)]; [by left|right].
    apply elem_of_cons in HB as [->|HB]; [congruence|eauto].
Qed.
End measure.
End facts.
End nest.
