(* ===== verification/LoopShadow.v ===== *)
(** * What the pass leaves of the original graph.

    The graph after every step of the pass is the original one with headers split
    and exits added, in which a loop already instrumented has one increment, at its
    latch, and a guard at its header.  File LoopLimiterTerm runs it. *)
From stdpp Require Import gmap strings.
From S2P Require Import Prelude LlvmIr LoopLimiter LlvmModel LoopLimiterBound LoopTest LoopLimiterPass LoopNest.
Local Open Scope Z_scope.

(** ** What a block does to a counter *)
Section writes.
Context {var operand op tm cond : Type}.
Abbreviation instr := (instr op).
Implicit Types (i : instr) (il : list instr) (c : nat).

Definition is_write c i : bool :=
  match i with StoreCounter c' _ | Increment c' => bool_decide (c' = c) | _ => false end.
Definition writes_to c il : list instr := List.filter (is_write c) il.
Definition apply_write (x : Z) i : Z :=
  match i with StoreCounter _ v => v | Increment _ => s32 (x + 1) | _ => x end.

Lemma writes_to_app c il il' : writes_to c (il ++ il') = writes_to c il ++ writes_to c il'.
Proof. apply List.filter_app. Qed.

Lemma writes_to_none c il : Forall (fun i => ~ writes c i) il -> writes_to c il = [].
Proof.
  induction 1 as [|i il Hi _ IH]; [done|]. unfold writes_to in *. simpl. rewrite IH.
  destruct i; simpl in *; try done; by rewrite bool_decide_false.
Qed.

Lemma writes_only_other c c' il : c <> c' -> Forall (foreign c') il -> writes_to c il = [].
Proof.
  intros Hc Hil. apply writes_to_none. eapply Forall_impl; [exact Hil|].
  intros i Hf Hw. apply Hc. eapply foreign_mentions; [done|by left].
Qed.

Lemma writes_to_resets c p l : writes_to c (resets c p l) = if decide (l = p) then [StoreCounter c 0] else [].
Proof. unfold resets. destruct (decide _); [|done]. unfold writes_to. simpl. by rewrite bool_decide_true. Qed.

Lemma increments_occurrences c l Ls : increments (op:=op) c l Ls = replicate (occurrences l Ls) (Increment c).
Proof.
  assert (forall l' Ls, increments (op:=op) c l (l' :: Ls) =
    (if decide (l' = l) then [Increment c] else []) ++ increments c l Ls) as Hc
    by (intros; unfold increments; simpl; by destruct (decide _)).
  induction Ls as [|l' Ls IH]; [done|]. rewrite Hc, IH. unfold occurrences. simpl.
  by destruct (decide (l' = l)); [rewrite bool_decide_true by done|rewrite bool_decide_false by done].
Qed.

Lemma writes_to_increments c l Ls : writes_to c (increments c l Ls) = increments c l Ls.
Proof.
  rewrite increments_occurrences. induction (occurrences l Ls) as [|n IH]; [done|].
  unfold writes_to in *. simpl. rewrite bool_decide_true by done. by rewrite IH.
Qed.

Context {st : Type} (exec : op -> st -> st).

Lemma exec_body_counter c il m t m' : exec_body exec il m = (t, Some m') ->
  counters m' c = foldl apply_write (counters m c) (writes_to c il).
Proof.
  revert m t. induction il as [|i il IH]; intros m t He; simpl in He; [by simplify_eq|].
  destruct i as [o|c' v|c'|c' x|code]; simpl in He; [| | | |done];
    destruct (exec_body exec il _) as [t1 [m1|]] eqn:E1; simplify_eq; rewrite (IH _ _ E1); unfold writes_to; simpl; try done.
  all: unfold upd; destruct (Nat.eqb_spec c c') as [->|Hne];
    [by rewrite bool_decide_true|by rewrite bool_decide_false by congruence].
Qed.

(** A header: what the check sees, and what it says of the next block. *)
Lemma exec_body_check c lim pre post m t m' : writes_to c pre = [] -> Forall (fun i => ~ is_check c i) post ->
  exec_body exec (pre ++ LoadCompare c lim :: post) m = (t, Some m') -> checks m' c = (lim <=? counters m c).
Proof.
  intros Hpre Hpost He. rewrite exec_body_app in He.
  destruct (exec_body exec pre m) as [t0 [m0|]] eqn:E0; [|done]. simpl in He.
  destruct (exec_body exec post _) as [t2 r2] eqn:E2. simplify_eq.
  destruct (exec_body_no_check exec _ _ _ _ _ Hpost E2) as [_ Hm]. rewrite (Hm m' eq_refl). simpl.
  unfold upd. rewrite Nat.eqb_refl. by rewrite (exec_body_counter c pre m t0 m0 E0), Hpre.
Qed.
End writes.

(** ** The graph after some steps *)
Section shadow.
Context {var operand op tm cond : Type}.
Abbreviation instr := (instr op).
Abbreviation block := (block var operand op tm cond).
Abbreviation func := (func var operand op tm cond).
Context `{!LLVM var operand op tm cond}.
Implicit Types (g : func) (b : block) (c : nat) (l h v : label) (A : Loop) (src : label -> option label).

Context (o : options) (f : func) (all : list Loop) (rank : label -> nat) (latch : label -> label).
Hypothesis Hwf : wf_func f.
Hypothesis Hn : nest f all rank latch.
Hypothesis Hinj : forall A B, A ∈ all -> B ∈ all -> getHeader A = getHeader B -> A = B.

(** The header checks [c] before anything it does to it, and leaves the loop when
    the limit is reached. *)
Definition guard g src c A : Prop :=
  exists X hb pre post, blocks g !! getHeader A = Some hb /\ body hb = pre ++ LoadCompare c (limit_of o) :: post /\
    writes_to c pre = [] /\ Forall (fun i => ~ is_check c i) post /\ leads c X (term hb) /\
    (src X = None \/ src X = Some X /\ contains A X = false).

(** [src] tells which original block a block comes from, if any; [hs] are the
    headers of the loops instrumented so far. *)
Record shadow g (hs : list label) src : Prop := {
  sh_old l : is_Some (blocks f !! l) -> src l = Some l;
  sh_kept l : is_Some (blocks f !! l) -> is_Some (blocks g !! l);
  sh_block l b : blocks g !! l = Some b ->
    match src l with None => successors (term b) = [] | Some l0 => is_Some (blocks f !! l0) end;
  sh_new l l0 : is_Some (blocks g !! l) -> src l = Some l0 -> l <> l0 -> l0 ∈ hs;
  sh_edge l b l0 v : blocks g !! l = Some b -> src l = Some l0 -> v ∈ successors (term b) ->
    src v = None \/ edge f l0 v \/ src v = Some l0 /\ v <> l0 /\ l = l0;
  sh_term l : is_Some (blocks f !! l) -> l ∉ hs -> term <$> blocks g !! l = term <$> blocks f !! l;
  sh_headers h : h ∈ hs -> exists A, A ∈ all /\ h = getHeader A;
  sh_writes c A l b l0 : A ∈ all -> hs !! c = Some (getHeader A) -> blocks g !! l = Some b ->
    src l = Some l0 -> contains A l0 = true ->
    writes_to c (body b) = if decide (l = latch (getHeader A)) then [Increment c] else [];
  sh_guard c A : A ∈ all -> hs !! c = Some (getHeader A) -> guard g src c A }.

Lemma edge_block u v : edge f u v -> is_Some (blocks f !! v).
Proof.
  intros (b & Eb & Hin). destruct Hwf as [_ Hf]. apply (Hf u b); [done|]. unfold block_labels. apply elem_of_app. by left.
Qed.

Lemma header_some A : A ∈ all -> is_Some (blocks f !! getHeader A).
Proof. intros HA. by destruct (loop_rank f all rank latch Hn A _ HA (header_in f all rank latch Hn A HA)). Qed.
Lemma latch_some A : A ∈ all -> is_Some (blocks f !! latch (getHeader A)).
Proof.
  intros HA. destruct (latch_in f all rank latch Hn A HA) as [Hl _]. by destruct (loop_rank f all rank latch Hn A _ HA Hl).
Qed.

Lemma leads_successor c X (t : terminator tm cond) : leads c X t -> X ∈ successors t.
Proof.
  destruct t as [|[| |v [| | | |]|v [| | | |[]]|] l0 l1| |]; simpl; try done; intros [_ ->]; set_solver.
Qed.

Lemma shadow_start : shadow f [] (fun l => if blocks f !! l is Some _ then Some l else None).
Proof.
  split; try done.
  - by intros l [b ->].
  - intros l b Eb. rewrite Eb. by eexists.
  - intros l l0 [b Eb]. rewrite Eb. intros [= ->]. done.
  - intros l b l0 v Eb El Hv. rewrite Eb in El. simplify_eq. right. left. by exists b.
  - intros h []%not_elem_of_nil.
Qed.

(** *** One step *)
Section one_step.
Context (g : func) (hs : list label) (src : label -> option label) (L : Loop) (p : label).
Hypothesis Hg : wf_func g.
Hypothesis Hs : shadow g hs src.
Hypothesis Hbelow : counters_below (length hs) g.
Hypothesis HL : L ∈ all.
Hypothesis Hnew : getHeader L ∉ hs.
Hypothesis Hp : getLoopPreheader g L = Some p.
Abbreviation h := (getHeader L).
Abbreviation c := (length hs).
Abbreviation incs l := (increments (op:=op) c l (getLoopLatches g L)).

Lemma header_term : exists hb fb, blocks g !! h = Some hb /\ blocks f !! h = Some fb /\ term hb = term fb.
Proof.
  destruct (header_some L HL) as [fb Ef]. destruct (sh_kept _ _ _ Hs h ltac:(by eexists)) as [hb Eh].
  exists hb, fb. pose proof (sh_term _ _ _ Hs h ltac:(by eexists) Hnew) as Ht. rewrite Eh, Ef in Ht. simpl in Ht.
  by simplify_eq.
Qed.

(** A block with an edge to the header is the latch, or comes from outside the loop. *)
Lemma header_edge l b l0 : blocks g !! l = Some b -> src l = Some l0 -> h ∈ successors (term b) ->
  edge f l0 h /\ (contains L l0 = true -> l = l0 /\ l0 = latch h).
Proof.
  intros Eb El Hh. pose proof (sh_old _ _ _ Hs h (header_some L HL)) as Esh.
  destruct (sh_edge _ _ _ Hs l b l0 h Eb El Hh) as [?|[He|(Hsrc & Hne & _)]]; [congruence| |congruence].
  split; [done|]. intros Hc. pose proof (back_edge f all rank latch Hn L l0 HL Hc He) as ->. split; [|done].
  destruct (decide (l = latch h)) as [|Hne]; [done|].
  pose proof (sh_new _ _ _ Hs l _ ltac:(by eexists) El Hne) as Hin.
  destruct (sh_headers _ _ _ Hs _ Hin) as (B & HB & EB).
  pose proof (latch_header f all rank latch Hn L B HL HB EB) as E. by rewrite EB, <-E in Hin.
Qed.

Lemma latch_not_header A : A ∈ all -> latch h = getHeader A -> getHeader A ∉ hs.
Proof. intros HA E. by rewrite <-(latch_header f all rank latch Hn L A HL HA E). Qed.

(** The one latch gets one increment. *)
Lemma step_increments l : incs l = if decide (l = latch h) then [Increment c] else [].
Proof.
  destruct (blocks g !! l) as [b|] eqn:Eb.
  2: { assert (l ∉ getLoopLatches g L) as Hl by (intros [b Eb']%(latch_blocks g L l Hg); congruence).
    rewrite decide_False by (intros ->; destruct (sh_kept _ _ _ Hs _ (latch_some L HL)); congruence).
    by rewrite increments_occurrences, occurrences_none. }
  rewrite increments_occurrences, (latch_edges g L l b Hg Eb).
  destruct (contains L l) eqn:El.
  - destruct (loop_rank f all rank latch Hn L l HL El) as [_ Hl].
    destruct (decide (h ∈ successors (term b))) as [Hin|Hin].
    + destruct (header_edge l b l Eb (sh_old _ _ _ Hs l Hl) Hin) as [He Hc].
      destruct (Hc El) as [_ ->]. rewrite decide_True by done.
      destruct (latch_in f all rank latch Hn L HL) as [_ Hok].
      pose proof (sh_term _ _ _ Hs _ Hl) as Ht. rewrite Eb in Ht.
      destruct (blocks f !! latch h) as [fb|]; [|done]. destruct Hok as [Hocc _].
      assert (term b = term fb) as ->; [|by rewrite Hocc].
      simpl in Ht. assert (Some (term b) = Some (term fb)) as [= ?]; [|done]. apply Ht.
      intros Hin'. destruct (sh_headers _ _ _ Hs _ Hin') as (B & HB & EB).
      rewrite EB in Hin'. by apply (latch_not_header B).
    + rewrite occurrences_none by done. rewrite decide_False; [done|]. intros ->. destruct (latch_in f all rank latch Hn L HL) as [_ Hok].
      pose proof (sh_term _ _ _ Hs _ Hl) as Ht. rewrite Eb in Ht.
      destruct (blocks f !! latch h) as [fb|]; [|done]. destruct Hok as [Hocc _]. simpl in Ht.
      assert (Some (term b) = Some (term fb)) as [= E].
      { apply Ht. intros Hin'. destruct (sh_headers _ _ _ Hs _ Hin') as (B & HB & EB).
        rewrite EB in Hin'. by apply (latch_not_header B). }
      apply Hin. rewrite E. apply occurrences_pos. rewrite Hocc. lia.
  - rewrite decide_False; [done|]. intros ->. by destruct (latch_in f all rank latch Hn L HL) as [El' _]; rewrite El' in El.
Qed.

(** The preheader comes from outside the loop. *)
Lemma preheader_outside : exists p0, src p = Some p0 /\ contains L p0 = false.
Proof.
  destruct (preheader_edge g L p Hg Hp) as [Hc Hs0]. destruct (blocks g !! p) as [pb|] eqn:Ep; [|done].
  simpl in Hs0. injection Hs0 as Hs0. pose proof (sh_block _ _ _ Hs p pb Ep) as Hb. rewrite Hs0 in Hb.
  destruct (src p) as [p0|] eqn:E0; [|done]. exists p0. split; [done|].
  destruct (contains L p0) eqn:E; [|done].
  destruct (header_edge p pb p0 Ep E0 ltac:(rewrite Hs0; set_solver)) as [_ Hl].
  destruct (Hl E) as [-> _]. congruence.
Qed.

Lemma old_counter k A : hs !! k = Some (getHeader A) -> k <> c /\ getHeader A <> h.
Proof.
  intros Hk. split; [apply lookup_lt_Some in Hk; lia|]. intros E. apply Hnew. rewrite <-E. by eapply list_elem_of_lookup_2.
Qed.

Lemma not_old_latch A : A ∈ all -> getHeader A ∈ hs -> h <> latch (getHeader A).
Proof. intros HA Hin E. apply Hnew. by rewrite <-(latch_header f all rank latch Hn A L HA HL). Qed.

Lemma no_writes_yet l b : blocks g !! l = Some b -> writes_to c (body b) = [].
Proof.
  intros Eb. apply writes_to_none, Forall_forall. intros i Hi Hw.
  specialize (Hbelow l b i c Eb Hi (or_introl Hw)). lia.
Qed.

(** What the header of the step writes. *)
Lemma header_writes k A hb : A ∈ all -> hs !! k = Some (getHeader A) -> contains A h = true ->
  blocks g !! h = Some hb -> writes_to k (body hb) = [].
Proof.
  intros HA Hk Hc Eb. rewrite (sh_writes _ _ _ Hs k A h hb h HA Hk Eb (sh_old _ _ _ Hs h (header_some L HL)) Hc).
  apply decide_False, not_old_latch; [done|]. by eapply list_elem_of_lookup_2.
Qed.

(** The step as the shadow sees it: blocks keep their place and their terminator,
    but for the header; a new block leads nowhere or is the rest of the header. *)
Record stepped (g' : func) (hb : block) (src' : label -> option label) : Prop := {
  st_old l b : l <> h -> blocks g !! l = Some b -> exists b', blocks g' !! l = Some b' /\
    body b' = body b ++ resets c p l ++ incs l /\ term b' = term b;
  st_new l b' : blocks g !! l = None -> blocks g' !! l = Some b' ->
    src' l = None /\ successors (term b') = [] \/ src' l = Some h /\ body b' = body hb ++ incs l /\ term b' = term hb;
  st_src l : is_Some (blocks g !! l) -> src' l = src l;
  st_header : exists hb', blocks g' !! h = Some hb' /\ (exists pre, body hb' = pre ++ LoadCompare c (limit_of o) :: incs h /\
      (pre = [] \/ pre = body hb)) /\
    (forall v, v ∈ successors (term hb') -> src' v = None \/ src' v = Some h /\ v <> h \/ v ∈ successors (term hb)) /\
    exists X, leads c X (term hb') /\ (src' X = None \/ src' X = Some X /\ contains L X = false) }.

Section stepped.
Context (g' : func) (hb : block) (src' : label -> option label).
Hypothesis Ehb : blocks g !! h = Some hb.
Hypothesis Hst : stepped g' hb src'.

Lemma stepped_header : src' h = Some h.
Proof. rewrite (st_src _ _ _ Hst) by (by eexists). apply (sh_old _ _ _ Hs), header_some, HL. Qed.

(** Every block of the result. *)
Lemma stepped_cases l b' : blocks g' !! l = Some b' ->
  l = h \/
  (l <> h /\ exists b, blocks g !! l = Some b /\ body b' = body b ++ resets c p l ++ incs l /\ term b' = term b /\ src' l = src l) \/
  (blocks g !! l = None /\ src' l = None /\ successors (term b') = []) \/
  (blocks g !! l = None /\ src' l = Some h /\ body b' = body hb ++ incs l /\ term b' = term hb).
Proof.
  intros Eb'. destruct (decide (l = h)) as [|Hlh]; [by left|right].
  destruct (blocks g !! l) as [b|] eqn:Eb.
  - left. split; [done|]. exists b. destruct (st_old _ _ _ Hst l b Hlh Eb) as (b2 & E2 & ? & ?).
    rewrite E2 in Eb'. simplify_eq. split_and!; [done..|]. apply (st_src _ _ _ Hst). by eexists.
  - right. destruct (st_new _ _ _ Hst l b' Eb Eb') as [(?&?)|(?&?&?)]; [left|right]; done.
Qed.

Lemma header_next v : v ∈ successors (term hb) -> edge f h v /\ is_Some (blocks f !! v).
Proof.
  intros Hv. destruct header_term as (hb0 & fb & E0 & Ef & Et). rewrite Ehb in E0. simplify_eq.
  assert (edge f h v) as He by (exists fb; by rewrite <-Et). split; [done|]. by eapply edge_block.
Qed.

Lemma stepped_edge l b' l0 v : blocks g' !! l = Some b' -> src' l = Some l0 -> v ∈ successors (term b') ->
  src' v = None \/ edge f l0 v \/ src' v = Some l0 /\ v <> l0 /\ l = l0.
Proof.
  intros Eb' El Hv. destruct (stepped_cases l b' Eb') as [->|[(Hlh & b & Eb & _ & Et & Es)|[(_ & Es & _)|(_ & Es & _ & Et)]]].
  - rewrite stepped_header in El. simplify_eq. destruct (st_header _ _ _ Hst) as (hb' & E & _ & Hnext & _). simplify_eq.
    destruct (Hnext v Hv) as [?|[[? ?]|Hin]]; [by left|by right; right|right; left]. by apply header_next.
  - rewrite Et in Hv. rewrite Es in El. destruct Hg as [_ Hlab].
    assert (is_Some (blocks g !! v)) as Hin.
    { apply (Hlab l b v Eb). unfold block_labels. apply elem_of_app. by left. }
    rewrite (st_src _ _ _ Hst v Hin). by apply (sh_edge _ _ _ Hs l b).
  - congruence.
  - rewrite Et in Hv. rewrite El in Es. simplify_eq. right. left. by apply header_next.
Qed.

Lemma stepped_writes k A l b' l0 : A ∈ all -> (hs ++ [h]) !! k = Some (getHeader A) -> blocks g' !! l = Some b' ->
  src' l = Some l0 -> contains A l0 = true -> writes_to k (body b') = if decide (l = latch (getHeader A)) then [Increment k] else [].
Proof.
  intros HA [[_ Hk]|[Hk EA]]%lookup_snoc_Some Eb' El Hc.
  - destruct (old_counter k A Hk) as [Hkc HAh].
    assert (writes_to k (incs l) = []) as Hi by (eapply writes_only_other; [done|apply incs_foreign]).
    assert (writes_to (op:=op) k (resets c p l) = []) as Hr by (eapply writes_only_other; [done|apply resets_foreign]).
    assert (getHeader A ∈ hs) as Hin by (by eapply list_elem_of_lookup_2).
    destruct (stepped_cases l b' Eb') as [->|[(Hlh & b & Eb & Hb & Et & Es)|[(_ & Es & _)|(Enew & Es & Hb & _)]]].
    + rewrite stepped_header in El. simplify_eq. destruct (st_header _ _ _ Hst) as (hb' & E & (pre & Hb & Hpre) & _). simplify_eq.
      rewrite Hb, writes_to_app. unfold writes_to at 2. simpl. fold (writes_to k (incs h)). rewrite Hi, app_nil_r.
      rewrite decide_False by (by apply not_old_latch). destruct Hpre as [->| ->]; [done|]. by eapply header_writes.
    + rewrite Hb, !writes_to_app, Hi, Hr, !app_nil_r. apply (sh_writes _ _ _ Hs k A l b l0); try done. congruence.
    + congruence.
    + rewrite Es in El. simplify_eq. rewrite Hb, writes_to_app, Hi, app_nil_r, (header_writes k A hb) by done.
      rewrite decide_False; [done|]. intros ->. destruct (sh_kept _ _ _ Hs _ (latch_some A HA)); congruence.
  - subst k. assert (A = L) as -> by (by apply Hinj). rewrite <-step_increments.
    assert (l <> p) as Hlp.
    { intros ->. destruct preheader_outside as (p0 & E0 & Hc0).
      rewrite (st_src _ _ _ Hst) in El by (by eapply preheader_block). congruence. }
    rewrite <-(writes_to_increments c l (getLoopLatches g L)) at 1.
    destruct (stepped_cases l b' Eb') as [->|[(Hlh & b & Eb & Hb & Et & Es)|[(_ & Es & _)|(Enew & Es & Hb & _)]]].
    + destruct (st_header _ _ _ Hst) as (hb' & E & (pre & Hb & Hpre) & _). simplify_eq.
      rewrite Hb, writes_to_app. change (LoadCompare c (limit_of o) :: incs h) with ([LoadCompare (op:=op) c (limit_of o)] ++ incs h).
      rewrite writes_to_app. destruct Hpre as [->| ->]; [done|]. by rewrite (no_writes_yet h hb).
    + rewrite Hb, !writes_to_app, (no_writes_yet l b Eb), writes_to_resets. by rewrite decide_False.
    + congruence.
    + by rewrite Hb, writes_to_app, (no_writes_yet h hb Ehb).
Qed.

Lemma stepped_guard k A : A ∈ all -> (hs ++ [h]) !! k = Some (getHeader A) -> guard g' src' k A.
Proof.
  intros HA [[_ Hk]|[Hk EA]]%lookup_snoc_Some.
  - destruct (old_counter k A Hk) as [Hkc HAh].
    destruct (sh_guard _ _ _ Hs k A HA Hk) as (X & b & pre & post & Eb & Hb & Hpre & Hpost & Hl & HX).
    destruct (st_old _ _ _ Hst _ b HAh Eb) as (b' & Eb' & Hb' & Et).
    exists X, b', pre, (post ++ resets c p (getHeader A) ++ incs (getHeader A)). rewrite Hb', Hb, Et, <-app_assoc.
    split_and!; [done..| |done|].
    + rewrite !Forall_app. split_and!; [done|..]; (eapply Forall_impl; [first [apply resets_foreign|apply incs_foreign]|]);
        intros i; by apply foreign_not_check.
    + rewrite (st_src _ _ _ Hst); [done|]. destruct Hg as [_ Hlab]. apply (Hlab _ b X Eb).
      unfold block_labels. apply elem_of_app. left. by eapply leads_successor.
  - subst k. assert (A = L) as -> by (by apply Hinj).
    destruct (st_header _ _ _ Hst) as (hb' & E & (pre & Hb & Hpre) & _ & X & Hl & HX).
    exists X, hb', pre, (incs h). split_and!; try done.
    + destruct Hpre as [->| ->]; [done|]. by eapply no_writes_yet.
    + eapply Forall_impl; [apply increments_only|]. by intros i -> [].
Qed.

Lemma stepped_shadow : shadow g' (hs ++ [h]) src'.
Proof.
  split.
  - intros l Hl. rewrite (st_src _ _ _ Hst) by (by apply (sh_kept _ _ _ Hs)). by apply (sh_old _ _ _ Hs).
  - intros l Hl. destruct (decide (l = h)) as [->|Hlh].
    { destruct (st_header _ _ _ Hst) as (hb' & -> & _). by eexists. }
    destruct (sh_kept _ _ _ Hs l Hl) as [b Eb]. destruct (st_old _ _ _ Hst l b Hlh Eb) as (b' & -> & _). by eexists.
  - intros l b' Eb'. destruct (stepped_cases l b' Eb') as [->|[(Hlh & b & Eb & _ & -> & ->)|[(_ & -> & Hn0)|(_ & -> & _)]]].
    + rewrite stepped_header. by apply header_some.
    + by apply (sh_block _ _ _ Hs l b).
    + done.
    + by apply header_some.
  - intros l l0 [b' Eb'] El Hne. apply elem_of_app.
    destruct (stepped_cases l b' Eb') as [->|[(Hlh & b & Eb & _ & _ & Es)|[(_ & Es & _)|(_ & Es & _)]]].
    + rewrite stepped_header in El. congruence.
    + left. eapply (sh_new _ _ _ Hs l); [by eexists|congruence|done].
    + congruence.
    + right. rewrite Es in El. simplify_eq. by left.
  - apply stepped_edge.
  - intros l Hl Hnl. rewrite elem_of_app, list_elem_of_singleton in Hnl.
    rewrite <-(sh_term _ _ _ Hs l Hl) by tauto. destruct (sh_kept _ _ _ Hs l Hl) as [b Eb].
    destruct (st_old _ _ _ Hst l b ltac:(tauto) Eb) as (b' & -> & _ & Et). rewrite Eb. simpl. by rewrite Et.
  - intros k. rewrite elem_of_app, list_elem_of_singleton. intros [Hk| ->]; [by apply (sh_headers _ _ _ Hs)|by exists L].
  - apply stepped_writes.
  - apply stepped_guard.
Qed.
End stepped.

(** *** What the pass does is such a step *)
Lemma split_stepped w hb : blocks g !! h = Some hb ->
  exists src', stepped (instrumented o L c p (inl w) g) hb src'.
Proof.
  intros Eh. destruct (preheader_block g L p Hg Hp) as [_ Hph].
  destruct (instrumented_split o L c p w g hb Eh Hph) as (E & C & HE & HC & HEC & HEh & HCh & Hl). cbn zeta in Hl.
  unfold is_new in *.
  exists (fun l => if decide (l = E) then None else if decide (l = C) then Some h else src l). split.
  - intros l b Hlh Eb. rewrite Hl, !decide_False, Eb by congruence. eexists. by split_and!.
  - intros l b' Enew. rewrite Hl, Enew. rewrite decide_False by congruence.
    destruct (decide (l = E)); [intros [= <-]; by left|].
    destruct (decide (l = C)); [intros [= <-]; by right|done].
  - intros l [b Eb]. by rewrite !decide_False by congruence.
  - eexists. rewrite Hl, decide_True by done. split; [done|]. simpl. split_and!.
    + exists []. split; [done|by left].
    + intros v. rewrite !elem_of_cons. intros [->|[->|[]%not_elem_of_nil]]; [left; by rewrite decide_True|].
      right. left. by rewrite decide_False, decide_True.
    + exists E. split; [done|]. left. by rewrite decide_True.
Qed.

Lemma widen_stepped (q : value cond) l0 l1 x hb : blocks g !! h = Some hb -> exit_of o L g = inr (q, l0, l1, x) ->
  stepped (instrumented o L c p (inr (q, l0, l1, x)) g) hb src.
Proof.
  intros Eh Ex. destruct (preheader_block g L p Hg Hp) as [_ Hph].
  pose proof (instrumented_widen o L c p q l0 l1 x g hb Eh Hph) as Hl. cbn zeta in Hl.
  pose proof (exit_of_ok o L g) as Hok. pose proof (exit_of_outside o L g) as Hout. rewrite Ex in Hok, Hout.
  unfold exit_ok in Hok. rewrite Eh in Hok. injection Hok as Ht. destruct Hout as (_ & Hcx & Hx).
  assert (successors (term hb) = [l0; l1]) as Hsucc by (by rewrite Ht).
  split.
  - intros l b Hlh Eb. rewrite Hl, decide_False, Eb by done. eexists. by split_and!.
  - intros l b' Enew. rewrite Hl, Enew, decide_False by congruence. done.
  - done.
  - eexists. rewrite Hl, decide_True by done. split; [done|]. simpl. split_and!.
    + exists (body hb). split; [done|by right].
    + intros u Hu. right. right. by rewrite Hsucc.
    + exists x. split; [|right; split; [|done]].
      * destruct (decide (l0 = x)) as [->|]; [done|]. by destruct Hx.
      * apply (sh_old _ _ _ Hs). destruct header_term as (hb0 & fb & E0 & Ef & Et). rewrite Eh in E0. simplify_eq.
        eapply (edge_block h). exists fb. split; [done|]. rewrite <-Et, Hsucc. destruct Hx as [->| ->]; set_solver.
Qed.

Lemma shadow_instrumented : exists src', shadow (instrumented o L c p (exit_of o L g) g) (hs ++ [h]) src'.
Proof.
  destruct header_term as (hb & fb & Eh & _).
  destruct (exit_of o L g) as [w|[[[q l0] l1] x]] eqn:Ex.
  - destruct (split_stepped w hb Eh) as [src' Hst]. exists src'. by eapply stepped_shadow.
  - exists src. eapply stepped_shadow; [done|]. by apply widen_stepped.
Qed.
End one_step.

(** *** All steps *)
Lemma instrument_loop_shadow L s hs src Ls x f0 : pass_inv o f0 x hs (L :: Ls) all s -> shadow (fn s) hs src ->
  exists hs' src', pass_inv o f0 x hs' (rev (getSubLoops L) ++ Ls) all (instrument_loop o L s) /\
    shadow (fn (instrument_loop o L s)) hs' src'.
Proof.
  intros Hi Hs. destruct (inv_instrument _ _ _ _ _ _ _ _ Hi) as (hs' & Hi' & Hhs).
  destruct (instrument_loop_cases o L s) as [[_ E]|[(p & _ & _ & E)|(p & ws & Hp & _ & _ & E)]].
  1,2: exists hs', src; split; [done|]; assert (hs' = hs) as -> by
    (pose proof (inv_index _ _ _ _ _ _ _ Hi') as E'; rewrite E in E'; simpl in E';
     rewrite (inv_index _ _ _ _ _ _ _ Hi) in E'; destruct Hhs as [|Hhs]; [done|];
     rewrite Hhs, length_app in E'; simpl in E'; lia); by rewrite E.
  assert (hs' = hs ++ [getHeader L]) as ->.
  { pose proof (inv_index _ _ _ _ _ _ _ Hi') as E'. rewrite E in E'. simpl in E'.
    rewrite (inv_index _ _ _ _ _ _ _ Hi) in E'. destruct Hhs as [->|]; [simpl in E'; lia|done]. }
  pose proof (inv_headers _ _ _ _ _ _ _ Hi) as Hnd. rewrite (loop_forest_step L Ls) in Hnd.
  destruct (shadow_instrumented (fn s) hs src L p) as [src' Hs']; try done.
  - by eapply inv_wf.
  - rewrite <-(inv_index _ _ _ _ _ _ _ Hi). by eapply inv_below.
  - eapply inv_all; [exact Hi|]. rewrite (loop_forest_step L Ls). by left.
  - apply NoDup_app in Hnd as (_ & Hd & _). intros Hin. by apply (Hd _ Hin); left.
  - exists (hs ++ [getHeader L]), src'. split; [done|]. rewrite E. simpl. by rewrite (inv_index _ _ _ _ _ _ _ Hi).
Qed.

Lemma process_shadow fuel Ls s s' hs src x f0 : pass_inv o f0 x hs Ls all s -> shadow (fn s) hs src ->
  process fuel o Ls s = Some s' -> exists hs' src', pass_inv o f0 x hs' [] all s' /\ shadow (fn s') hs' src'.
Proof.
  revert Ls s hs src. induction fuel as [|fuel IH]; intros [|L Ls] s hs src Hi Hs Hp; simpl in Hp; simplify_eq; eauto.
  destruct (instrument_loop_shadow L s hs src Ls x f0 Hi Hs) as (hs1 & src1 & Hi1 & Hs1). by eapply IH.
Qed.
End shadow.
