(* ===== verification/LoopLimiterTerm.v ===== *)
(** * The pass makes a function terminate.

    For a nest of natural loops (file LoopNest) a position in the instrumented
    graph (file LoopShadow) descends in every block, so every run of it ends. *)
From stdpp Require Import gmap strings.
From S2P Require Import Prelude LlvmIr LoopLimiter LlvmModel LoopLimiterBound LoopTest LoopLimiterPass LoopLimiterSim LoopNest LoopShadow.
Local Open Scope Z_scope.

(** ** Runs *)
Section runs.
Context {var operand op tm cond st : Type} `{!LLVM var operand op tm cond}.
Context (assign : list (var * operand) -> st -> st) (exec : op -> st -> st)
  (eval : cond -> st -> bool) (select : tm -> st -> option nat).
Abbreviation instr := (instr op).
Abbreviation block := (block var operand op tm cond).
Abbreviation func := (func var operand op tm cond).
Abbreviation machine := (machine st).
Abbreviation run := (run assign exec eval select).
Abbreviation exec_block := (exec_block assign exec eval select).
Implicit Types (b : block) (l v h : label) (A B : Loop) (m : machine).

Context (o : options) (f g : func) (all : list Loop) (rank : label -> nat) (latch : label -> label)
  (hs : list label) (src : label -> option label).
Hypothesis Hf : wf_func f.
Hypothesis Hg : wf_func g.
Hypothesis Hn : nest f all rank latch.
Hypothesis Hs : shadow o f all latch g hs src.
(** Every loop has its counter, which is only ever reset to 0. *)
Hypothesis Hall : forall A, A ∈ all -> getHeader A ∈ hs.
Hypothesis Hzero : forall k l b (v : Z), (k < length hs)%nat -> blocks g !! l = Some b -> StoreCounter k v ∈ body b -> v = 0.
Abbreviation lim := (limit_of o).

Lemma limit_range : - 2 ^ 31 <= lim < 2 ^ 31.
Proof. apply (sgn_range 32). lia. Qed.

Definition counter_of h : nat := default 0%nat (fst <$> list_find (eq h) hs).
Definition count_of m h : Z := counters m (counter_of h).

Lemma counter_of_spec A : A ∈ all -> hs !! counter_of (getHeader A) = Some (getHeader A).
Proof.
  intros HA. unfold counter_of. destruct (list_find_elem_of (eq (getHeader A)) hs (getHeader A) (Hall A HA) eq_refl) as [[k h] E].
  rewrite E. simpl. by apply list_find_Some in E as (Ek & <- & _).
Qed.

(** Control stands before block [l], which comes from [l0]. *)
Record stands l l0 m : Prop := {
  at_src : src l = Some l0;
  at_range A : A ∈ all -> sword 32 (count_of m (getHeader A));
  at_below A : A ∈ all -> contains A l0 = true -> l <> getHeader A -> latch (getHeader A) <> getHeader A ->
    count_of m (getHeader A) < lim }.

Lemma apply_writes_range k (il : list instr) x : (forall v : Z, StoreCounter k v ∈ il -> v = 0) -> sword 32 x ->
  sword 32 (foldl apply_write x (writes_to k il)).
Proof.
  revert x. induction il as [|i il IH]; intros x Hz Hx; [done|]. unfold writes_to in *. simpl.
  destruct (is_write k i) eqn:Ew; [|apply IH; [intros v Hv; apply Hz; by right|done]].
  simpl. apply IH; [intros v Hv; apply Hz; by right|].
  destruct i as [|k' v|k'| |]; simpl in *; try done; apply bool_decide_eq_true in Ew; subst k'.
  - rewrite (Hz v) by left. unfold sword. lia.
  - apply sgn_range. lia.
Qed.

Lemma count_up x : sword 32 x -> x < lim -> s32 (x + 1) = x + 1 /\ remaining lim (x + 1) < remaining lim x.
Proof.
  pose proof limit_range. unfold sword. intros Hx Hl. split; [|unfold remaining; lia].
  apply sgn_small; [lia|]. unfold sword. lia.
Qed.

(** *** One block *)
Section one_block.
Context (pred : option label) (l l0 v v0 : label) (b : block) (m m' : machine) (t : list event).
Hypothesis Eb : blocks g !! l = Some b.
Hypothesis Hat : stands l l0 m.
Hypothesis He : exec_block pred b m = (t, m', Goto v).
Hypothesis Ev : src v = Some v0.

Lemma block_ran : exists m0, counters m0 = counters m /\ exec_body exec (body b) m0 = (t, Some m') /\
  exec_term eval select (term b) m' = Goto v.
Proof.
  unfold LlvmIr.exec_block in He. exists (exec_phis assign pred (phis b) m). split; [by destruct pred|].
  destruct (exec_body exec (body b) _) as [tb [n|]]; [|done]. by simplify_eq.
Qed.

Lemma next_successor : v ∈ successors (term b).
Proof. destruct block_ran as (_ & _ & _ & Ht). by eapply exec_term_successor. Qed.

Lemma next_block : is_Some (blocks g !! v).
Proof.
  destruct Hg as [_ Hlab]. apply (Hlab l b v Eb). unfold block_labels. apply elem_of_app. left. apply next_successor.
Qed.

(** The block comes from an edge of the original graph, or is the second half of a header. *)
Lemma next_cases : v0 = v /\ edge f l0 v \/ l = l0 /\ v0 = l0 /\ v <> l0 /\ exists B, B ∈ all /\ l0 = getHeader B.
Proof.
  destruct (sh_edge _ _ _ _ _ _ _ Hs l b l0 v Eb (at_src _ _ _ Hat) next_successor) as [?|[Hed|(E & Hne & El)]]; [congruence| |].
  - left. split; [|done]. pose proof (sh_old _ _ _ _ _ _ _ Hs v (edge_block f Hf l0 v Hed)). congruence.
  - right. assert (v0 = l0) by congruence. split_and!; [done..|].
    apply (sh_headers _ _ _ _ _ _ _ Hs), (sh_new _ _ _ _ _ _ _ Hs v l0 next_block); done.
Qed.

Lemma count_after A : A ∈ all -> contains A l0 = true ->
  count_of m' (getHeader A) = if decide (l = latch (getHeader A)) then s32 (count_of m (getHeader A) + 1) else count_of m (getHeader A).
Proof.
  intros HA Hc. destruct block_ran as (m0 & Em & Eb0 & _). unfold count_of.
  rewrite (exec_body_counter exec _ _ _ _ _ Eb0), Em.
  rewrite (sh_writes _ _ _ _ _ _ _ Hs _ A l b l0 HA (counter_of_spec A HA) Eb (at_src _ _ _ Hat) Hc).
  by destruct (decide _).
Qed.

Lemma range_after A : A ∈ all -> sword 32 (count_of m' (getHeader A)).
Proof.
  intros HA. destruct block_ran as (m0 & Em & Eb0 & _). unfold count_of.
  rewrite (exec_body_counter exec _ _ _ _ _ Eb0), Em. apply apply_writes_range; [|by apply (at_range _ _ _ Hat)].
  intros x Hx. eapply Hzero; [|exact Eb|exact Hx]. by eapply lookup_lt_Some, counter_of_spec.
Qed.

(** The header lets control into the loop below the limit only. *)
Lemma header_guards A : A ∈ all -> l = getHeader A -> contains A v0 = true -> count_of m (getHeader A) < lim.
Proof.
  intros HA El Hc. destruct (sh_guard _ _ _ _ _ _ _ Hs _ A HA (counter_of_spec A HA)) as (X & hb & pre & post & Eh & Hb & Hpre & Hpost & Hl & HX).
  assert (b = hb) as Ebh by congruence. destruct block_ran as (m0 & Em & Eb0 & Ht). rewrite Ebh, Hb in Eb0. rewrite Ebh in Ht.
  pose proof (exec_body_check exec _ _ _ _ _ _ _ Hpre Hpost Eb0) as Hck. rewrite Em in Hck. fold (count_of m (getHeader A)) in Hck.
  destruct (Z.leb_spec lim (count_of m (getHeader A))) as [Hle|]; [|done]. exfalso.
  rewrite (leads_goto eval select _ X _ _ Hl Hck) in Ht. injection Ht as EX.
  destruct HX as [?|[EX' HcX]]; congruence.
Qed.

Lemma latch_from A : A ∈ all -> l = latch (getHeader A) -> l0 = l.
Proof.
  intros HA ->. pose proof (sh_old _ _ _ _ _ _ _ Hs _ (latch_some f all rank latch Hn A HA)) as E.
  rewrite (at_src _ _ _ Hat) in E. by injection E.
Qed.

(** Before its latch adds to it, the counter is below the limit. *)
Lemma latch_below A : A ∈ all -> contains A l0 = true -> contains A v0 = true -> l = latch (getHeader A) ->
  count_of m (getHeader A) < lim.
Proof.
  intros HA H0 H1 El. destruct (decide (l = getHeader A)) as [Eh|Hne]; [by apply header_guards|].
  apply (at_below _ _ _ Hat); congruence.
Qed.

Lemma remaining_after A : A ∈ all -> contains A l0 = true -> contains A v0 = true ->
  remaining lim (count_of m' (getHeader A)) <= remaining lim (count_of m (getHeader A)) /\
  (l = latch (getHeader A) -> remaining lim (count_of m' (getHeader A)) < remaining lim (count_of m (getHeader A))).
Proof.
  intros HA H0 H1. rewrite (count_after A HA H0). destruct (decide _) as [El|]; [|by split; [lia|]].
  destruct (count_up _ (at_range _ _ _ Hat A HA) (latch_below A HA H0 H1 El)) as [-> ?]. split; [lia|done].
Qed.

Lemma stands_after : stands v v0 m'.
Proof.
  split; [done|exact range_after|]. intros A HA Hc Hv Hne.
  assert (contains A l0 = true /\ l <> latch (getHeader A)) as [H0 Hl].
  { destruct next_cases as [[E0 Hed]|(El & E0 & _ & B & HB & EB)]; rewrite E0 in Hc.
    - assert (contains A l0 = true) as H0.
      { destruct (contains A l0) eqn:EA; [done|]. destruct Hv. by eapply enters. }
      split; [done|]. intros El. rewrite (latch_from A HA El), El in Hed. by apply Hv, (latch_edge f all rank latch Hn A v HA Hed).
    - split; [done|]. intros E. apply Hne. rewrite <-E, El, EB. symmetry. apply (latch_header f all rank latch Hn A B HA HB). congruence. }
  rewrite (count_after A HA H0), (decide_False _ _ Hl).
  destruct (decide (l = getHeader A)); [by apply header_guards|by apply (at_below _ _ _ Hat)].
Qed.

Lemma position_after : lexlt (position rank latch lim all v v0 (count_of m')) (position rank latch lim all l l0 (count_of m)).
Proof.
  destruct next_cases as [[E0 Hed]|(El & E0 & Hv & B & HB & EB)].
  - destruct (edge_cases f all rank latch Hn l0 v Hed) as [Hr|(A & HA & Eh & El0)].
    + rewrite E0. apply (position_down f all rank latch Hn); [done|by destruct Hn|done..|].
      intros A HA H0 H1. rewrite (count_after A HA H0). apply decide_False. intros El.
      pose proof (latch_from A HA El) as E. rewrite E, El in Hed, Hr.
      rewrite (latch_edge f all rank latch Hn A v HA Hed H1) in Hr.
      destruct (latch_in f all rank latch Hn A HA) as [Hc _].
      destruct (loop_rank f all rank latch Hn A _ HA Hc) as [? _]. lia.
    + assert (forall B, B ∈ all -> contains B v0 = contains B l0) as Hsame
        by (intros B HB; rewrite El0, E0, Eh; symmetry; by eapply header_latch).
      assert (contains A v0 = true) as Hh by (rewrite E0, Eh; by eapply header_in).
      apply (position_within f all rank latch Hn); [exact Hsame|intros B HB H0; apply remaining_after; by rewrite ?Hsame|].
      destruct (decide (l = l0)) as [El|Hne].
      * right. exists A. split_and!; [done|by rewrite <-Hsame|]. apply remaining_after; [done|by rewrite <-Hsame|done|congruence].
      * left. pose proof (sh_new _ _ _ _ _ _ _ Hs l l0 ltac:(by eexists) (at_src _ _ _ Hat) Hne) as Hin.
        destruct (sh_headers _ _ _ _ _ _ _ Hs _ Hin) as (B & HB & EB).
        pose proof (latch_header f all rank latch Hn A B HA HB ltac:(congruence)) as E.
        assert (l0 = v) as E1 by congruence. assert (latch l0 = l0) as E2 by congruence.
        unfold place. rewrite E0, <-E1, (decide_True (P := l0 = l0)), decide_False, decide_True by congruence. lia.
  - assert (forall A, A ∈ all -> contains A v0 = contains A l0) as Hsame by (intros; by rewrite E0).
    apply (position_within f all rank latch Hn); [exact Hsame|intros A HA H0; apply remaining_after; by rewrite ?Hsame|].
    assert (contains B l0 = true) as Hc by (rewrite EB; by eapply header_in).
    destruct (decide (latch l0 = l0)) as [E|Hne].
    + right. exists B. split_and!; [done..|]. apply remaining_after; [done|done|by rewrite Hsame|congruence].
    + left. unfold place. rewrite E0, (decide_False (P := v = l0)), (decide_False (P := latch l0 = l0)), decide_True by done. lia.
Qed.
End one_block.

(** *** All blocks *)
Section bounded.
Context (R : nat) (HR : forall l, is_Some (blocks f !! l) -> (rank l <= R)%nat).
Definition base : Z := 2 ^ 32 + 3 * Z.of_nat R + 4.
Definition measure l l0 m : Z :=
  encode base (2 * length all + 1) (position rank latch lim all l l0 (count_of m)).

Lemma position_ok l l0 m b : stands l l0 m -> blocks g !! l = Some b ->
  Forall (digit base) (position rank latch lim all l l0 (count_of m)).
Proof.
  intros Hat Eb. pose proof (sh_block _ _ _ _ _ _ _ Hs l b Eb) as Hb. rewrite (at_src _ _ _ Hat) in Hb.
  apply (position_digits f all rank latch Hn); [done|done|done| |apply limit_range].
  intros A HA. by destruct (at_range _ _ _ Hat A HA).
Qed.

Lemma base_large : 1 < base.
Proof. unfold base. lia. Qed.

Lemma measure_bound l l0 m b : stands l l0 m -> blocks g !! l = Some b ->
  0 <= measure l l0 m < base ^ Z.of_nat (2 * length all + 1).
Proof. intros Hat Eb. apply encode_bound; [by eapply position_ok|apply base_large]. Qed.

Lemma block_exits pred v b m t m' s : blocks g !! v = Some b -> src v = None ->
  exec_block pred b m = (t, m', s) -> forall v', s <> Goto v'.
Proof.
  intros Eb Ev He v' ->. pose proof (sh_block _ _ _ _ _ _ _ Hs v b Eb) as Hb. rewrite Ev in Hb.
  unfold LlvmIr.exec_block in He. destruct (exec_body exec (body b) _) as [tb [n|]]; [|done]. injection He as _ _ Ht.
  apply exec_term_successor in Ht. rewrite Hb in Ht. by apply not_elem_of_nil in Ht.
Qed.

Lemma run_stops pred v m n t m' s : src v = None -> run g (S n) pred v m = (t, m', s) -> forall v', s <> Goto v'.
Proof.
  intros Ev. simpl. destruct (blocks g !! v) as [b|] eqn:Eb; [|by intros [= <- <- <-]].
  destruct (exec_block pred b m) as [[tb mb] sb] eqn:E. pose proof (block_exits _ _ _ _ _ _ _ Eb Ev E) as Hx.
  destruct sb as [v1| | |]; [by destruct (Hx v1)|by intros [= <- <- <-]..].
Qed.

Lemma run_ends n pred l l0 m t m' s : stands l l0 m -> measure l l0 m < Z.of_nat n ->
  run g (S n) pred l m = (t, m', s) -> forall v, s <> Goto v.
Proof.
  revert pred l l0 m t. induction n as [|n IH]; intros pred l l0 m t Hat Hm Hr;
    (destruct (blocks g !! l) as [b|] eqn:Eb; [|simpl in Hr; rewrite Eb in Hr; by simplify_eq]);
    pose proof (measure_bound l l0 m b Hat Eb); [lia|].
  change (run g (S (S n)) pred l m) with (match blocks g !! l with None => ([], m, Undefined) | Some b =>
    let '(t, m, s) := exec_block pred b m in
    match s with Goto v => let '(t', m, s) := run g (S n) (Some l) v m in (t ++ t', m, s) | _ => (t, m, s) end end) in Hr.
  rewrite Eb in Hr. destruct (exec_block pred b m) as [[tb mb] [v| | |]] eqn:E; [|by simplify_eq..].
  destruct (run g (S n) (Some l) v mb) as [[t2 m2] s2] eqn:E2. simplify_eq.
  destruct (src v) as [v0|] eqn:Ev; [|by eapply run_stops].
  pose proof (stands_after pred l l0 v v0 b m mb tb Eb Hat E Ev) as Hat'.
  pose proof (position_after pred l l0 v v0 b m mb tb Eb Hat E Ev) as Hlt.
  destruct (blocks g !! v) as [b'|] eqn:Eb'; [|simpl in E2; rewrite Eb' in E2; by simplify_eq].
  eapply IH; [exact Hat'| |exact E2]. unfold measure in *.
  pose proof (encode_lt base (2 * length all + 1) _ _ (position_ok v v0 mb b' Hat' Eb') (position_ok l l0 m b Hat Eb) base_large
    ltac:(rewrite Nat.add_1_r; etrans; [apply position_length|lia]) Hlt). lia.
Qed.
End bounded.
End runs.

(** ** The pass *)
Section pass.
Context {var operand op tm cond st : Type} `{!LLVM var operand op tm cond}.
Context (assign : list (var * operand) -> st -> st) (exec : op -> st -> st)
  (eval : cond -> st -> bool) (select : tm -> st -> option nat).
Abbreviation func := (func var operand op tm cond).
Implicit Types (o : options) (f g : func) (L : Loop).

(** The pass keeps the entry block. *)
Lemma process_entry o f0 x fuel Ls hs all s s' : pass_inv o f0 x hs Ls all s -> process fuel o Ls s = Some s' ->
  entry (fn s') = entry (fn s).
Proof.
  revert Ls hs s. induction fuel as [|fuel IH]; intros [|L Ls] hs s Hi Hp; simpl in Hp; simplify_eq; try done.
  destruct (inv_instrument _ _ _ _ _ _ _ _ Hi) as (hs' & Hi' & _). rewrite (IH _ _ _ Hi' Hp).
  destruct (instrument_loop_cases o L s) as [[_ ->]|[(p & _ & _ & ->)|(p & ws & Hpre & _ & _ & ->)]]; [done..|]. simpl.
  destruct (header_block _ _ _ (inv_wf _ _ _ _ _ _ _ Hi) Hpre) as [hb Eh]. by apply (instrumented_entry o L _ p _ hb).
Qed.

Lemma NoDup_map_inj {A B} (k : A -> B) (xs : list A) x y : NoDup (map k xs) -> x ∈ xs -> y ∈ xs -> k x = k y -> x = y.
Proof.
  induction xs as [|z xs IH]; [by intros _ []%not_elem_of_nil|]. simpl. intros [Hz Hd]%NoDup_cons Hx Hy E.
  apply elem_of_cons in Hx as [->|Hx], Hy as [->|Hy]; [done|..|by apply IH].
  - destruct Hz. rewrite E. by apply list_elem_of_fmap_2.
  - destruct Hz. rewrite <-E. by apply list_elem_of_fmap_2.
Qed.

(** When no loop is skipped, every loop has a counter. *)
Lemma all_counted o f0 x hs all s : pass_inv o f0 x hs [] all s -> skipped (warnings s) = 0%nat ->
  (forall h, h ∈ hs -> exists A, A ∈ all /\ h = getHeader A) -> forall A, A ∈ all -> getHeader A ∈ hs.
Proof.
  intros Hi Hsk Hh A HA. pose proof (inv_total _ _ _ _ _ _ _ Hi) as Hl. rewrite Hsk in Hl. simpl in Hl.
  pose proof (inv_headers _ _ _ _ _ _ _ Hi) as Hd. simpl in Hd. rewrite app_nil_r in Hd.
  assert (hs ≡ₚ map getHeader all) as ->; [|by apply list_elem_of_fmap_2].
  apply submseteq_length_Permutation; [|rewrite length_map; lia].
  apply NoDup_submseteq; [done|]. intros h (B & HB & ->)%Hh. by apply list_elem_of_fmap_2.
Qed.

(** The number of blocks a run can take, for [k] loops and ranks up to [R]. *)
Definition run_bound (R k : nat) : Z := base R ^ Z.of_nat (2 * k + 1) + 1.

(** C1. The pass makes functions terminate.  Let the loops of a function be a nest
    of natural loops in the form [loop-simplify] leaves, one latch each (every cycle
    of the graph goes through the header of a loop, loops are entered at their
    header and nested or apart).  When the pass skips no loop of it, every run of
    the result from its entry comes to an end, in both modes, for every limit,
    whatever the program's own instructions and branch conditions do and whatever
    the counters hold at the start: it never takes more than [run_bound] blocks. *)
Theorem instrumented_terminates o name LI stats0 f g inv stats1 ws rank latch R :
  pass_input f LI stats0 -> nest f (loop_forest LI) rank latch ->
  (forall l, is_Some (blocks f !! l) -> (rank l <= R)%nat) ->
  run_pass o name f LI stats0 = Some (Ran g inv stats1 ws) -> is_allowed o name = true -> skipped ws = 0%nat ->
  forall n m, (forall c, sword 32 (counters m c)) -> run_bound R (length (loop_forest LI)) < Z.of_nat n ->
    exists t m' s, run assign exec eval select g n None (entry g) m = (t, m', s) /\
      (s = Returned \/ s = SilentlyExited \/ s = Undefined).
Proof.
  intros Hin Hn HR Hr Ha Hsk n m Hm Hb. pose proof Hin as [Hf _ Hd _ _ _ _].
  set (s0 := mk_state f 0%nat false (StatChangedLoops stats0) []).
  assert (exists s' fuel, process fuel o (rev LI) s0 = Some s' /\ fn s' = g /\ warnings s' = ws) as (s' & fuel & Ep & <- & <-).
  { unfold run_pass in Hr. destruct (both_lists o); [done|].
    rewrite count_loops_forest, Z.add_0_l in Hr by (done || unfold word; lia). simpl in Hr. rewrite Ha in Hr. simpl in Hr.
    destruct (decide (LI = [])) as [->|]; [exists s0, 0%nat; by simplify_eq|].
    destruct (process _ _ _ _) as [s'|] eqn:Ep; [|done]. simpl in Hr. simplify_eq. by exists s', (length (loop_forest LI)). }
  pose proof (start_inv o f LI stats0 Hin) as Hi.
  assert (forall A B, A ∈ loop_forest LI -> B ∈ loop_forest LI -> getHeader A = getHeader B -> A = B) as Hinj
    by (intros A B HA HB; by eapply NoDup_map_inj).
  destruct (process_shadow o f (loop_forest LI) rank latch Hf Hn Hinj _ _ _ _ _ _ _ _ Hi (shadow_start o f _ latch) Ep)
    as (hs & src & Hi' & Hs).
  pose proof (all_counted o f _ hs _ s' Hi' Hsk (sh_headers _ _ _ _ _ _ _ Hs)) as Hall.
  rewrite (process_entry o f _ fuel (rev LI) [] _ s0 s' Hi Ep). change (fn s0) with f.
  destruct (run assign exec eval select (fn s') n None (entry f) m) as [[t m'] s] eqn:Erun. exists t, m', s. split; [done|].
  assert (forall v, s <> Goto v) as Hv; [|destruct s as [v| | |]; [by destruct (Hv v)|tauto..]].
  pose proof (Z.pow_nonneg (base R) (Z.of_nat (2 * length (loop_forest LI) + 1)) ltac:(unfold base; lia)).
  unfold run_bound in Hb. destruct n as [|n]; [lia|].
  assert (stands o (loop_forest LI) latch hs src (entry f) (entry f) m) as Hat.
  { split; [by apply (sh_old _ _ _ _ _ _ _ Hs), Hf|intros A HA; apply Hm|]. intros A HA Hc. by rewrite (entry_out f _ rank latch Hn A HA) in Hc. }
  destruct (sh_kept _ _ _ _ _ _ _ Hs _ (proj1 Hf)) as [eb Eb].
  eapply (run_ends _ _ _ _ o f (fn s') (loop_forest LI) rank latch hs src) with (R := R); try done.
  - by eapply inv_wf.
  - intros k l b v Hk Eb' Hv. apply lookup_lt_is_Some_2 in Hk as [h Eh].
    by eapply counted_zero; [eapply inv_counted|..].
  - pose proof (measure_bound o f (fn s') (loop_forest LI) rank latch hs src Hn Hs R HR _ _ m eb Hat Eb). lia.
Qed.
End pass.

(** The nest of two loops of file LoopTest, blocks ranked backwards. *)
Definition nested_rank (l : label) : nat := 6 - l.
Definition nested_latch (h : label) : label := if decide (h = 1%nat) then 5%nat else 4%nat.

Lemma nested_nest : nest nested_function (loop_forest nested_loops) nested_rank nested_latch.
Proof. apply (bool_decide_unpack _). by vm_compute. Qed.

Lemma instrumented_terminates_witness :
  exists g inv st' ws,
    run_pass (mk_options 5 [] [] false) "f" nested_function nested_loops (mk_stats 0 0 0) = Some (Ran g inv st' ws) /\
    forall n, run_bound 6 2 < Z.of_nat n -> exists t m' s,
      run_test g n None (entry g) (mk_machine (mk_frame 0 0 3 []) (fun _ => 0) (fun _ => false)) = (t, m', s) /\
      (s = Returned \/ s = SilentlyExited \/ s = Undefined).
Proof.
  eexists _, _, _, _. split; [vm_compute; reflexivity|]. intros n Hn.
  eapply (instrumented_terminates (fun _ x => x) exec_statement eval_condition (fun _ _ => None)
    (mk_options 5 [] [] false) "f" nested_loops (mk_stats 0 0 0) nested_function _ _ _ _ nested_rank nested_latch 6).
  - exact nested_input.
  - exact nested_nest.
  - intros l _. unfold nested_rank. apply Nat.le_sub_l.
  - vm_compute. reflexivity.
  - reflexivity.
  - reflexivity.
  - intros c. simpl. unfold sword. lia.
  - exact Hn.
Defined.
