(* ===== verification/Runner.v ===== *)
(** * The benchmark runner: [include/runner.h].

    The generic half of a benchmark harness: loading a test vector, copying
    bytes, and [main] for the four tools.  What a generated header and the driver
    provide is the class [Generated]. *)
From stdpp Require Import strings.
From S2P Require Import Prelude Arrays.
Local Open Scope Z_scope.

(** ** Test vectors *)

(** What [fopen] and [fread] can deliver of a name: nothing, or its bytes. *)
Definition filesystem : Type := string -> option (list Z).

Inductive message := UnableToOpen (filename : string) | ErrorReading (filename : string).

(** The buffer, what is printed, and the result; [None] is a write outside the
    buffer.  A short [fread] has already written the bytes it got. *)
Definition load_bytes (fs : filesystem) (filename : string) (buf : list Z) (size : Z)
    : option (list Z * list message * Z) :=
  match fs filename with
  | None => Some (buf, [UnableToOpen filename], 0)
  | Some content =>
      let got := take (Z.to_nat size) content in
      buf ← blit buf 0 got;
      if negb (zlen got =? size) then Some (buf, [ErrorReading filename], 0) else Some (buf, [], 1)
  end.

(** C9. [load_bytes] never writes outside a buffer of at least [size] bytes and
    returns 1 or 0; it returns 1 exactly if the file can be opened and has at least
    [size] bytes, and then the buffer starts with the first [size] bytes of the file
    and is otherwise unchanged, further bytes of the file being ignored.  It returns
    0 with a message naming the file; if the file could not be opened the buffer is
    unchanged, if the file was short its bytes are already in the buffer. *)
Theorem load_bytes_correct fs filename buf size : word 64 size -> size <= zlen buf ->
  load_bytes fs filename buf size = match fs filename with
    | None => Some (buf, [UnableToOpen filename], 0)
    | Some content =>
        if size <=? zlen content then
          Some (take (Z.to_nat size) content ++ drop (Z.to_nat size) buf, [], 1)
        else Some (content ++ drop (length content) buf, [ErrorReading filename], 0)
    end.
Proof.
  intros [Hs0 _] Hb. unfold load_bytes. destruct (fs filename) as [content|]; [|done].
  rewrite blit_0 by (rewrite zlen_take; lia). simpl. rewrite zlen_take, Z2Nat.id by done.
  destruct (Z.leb_spec size (zlen content)) as [Hl|Hl].
  - replace (Z.min size (zlen content)) with size by lia. rewrite Z.eqb_refl. simpl. rewrite length_take.
    do 5 f_equal. unfold zlen in Hl. lia.
  - replace (Z.min size (zlen content)) with (zlen content) by lia.
    replace (zlen content =? size) with false by lia. simpl. rewrite take_ge; [done|].
    unfold zlen in Hl. lia.
Qed.

Lemma load_bytes_correct_witness :
  load_bytes (fun _ => Some [7; 8]) "secret.bin" [0; 0; 0] 3 =
    Some ([7; 8; 0], [ErrorReading "secret.bin"], 0).
Proof. apply (load_bytes_correct (fun _ => Some [7; 8]) "secret.bin" [0; 0; 0] 3); done. Defined.

(** ** Copying bytes *)

(** [dst] and [src] are addresses of one memory, so they may overlap. *)
Definition runner_copy_bytes (mem : list Z) (dst src size : Z) : option (list Z) :=
  for_range 0 size (fun i mem => v ← rd mem (src + i); wr mem (dst + i) v) mem.

(** The source byte that ends up in [dst + i]: copying upwards repeats the
    distance between the two when [dst] lies inside the source. *)
Definition copied_from (dst src i : Z) : Z := src + if src <? dst then i mod (dst - src) else i.

Lemma copied_from_before dst src i : 0 <= i -> src < dst -> src <= copied_from dst src i < dst.
Proof.
  intros Hi Hlt. unfold copied_from. replace (src <? dst) with true by lia.
  pose proof (Z.mod_pos_bound i (dst - src)). lia.
Qed.

Lemma copied_from_step dst src i : src < dst -> dst <= src + i ->
  copied_from dst src (src + i - dst) = copied_from dst src i.
Proof.
  intros Hlt Hi. unfold copied_from. replace (src <? dst) with true by lia. f_equal.
  replace i with ((src + i - dst) + 1 * (dst - src)) at 2 by lia. by rewrite Z.mod_add by lia.
Qed.

Lemma copied_from_small dst src i : 0 <= i -> (src < dst -> src + i < dst) -> copied_from dst src i = src + i.
Proof.
  intros Hi Hlt. unfold copied_from. destruct (Z.ltb_spec src dst); [|done]. by rewrite Z.mod_small by lia.
Qed.

(** [runner_copy_bytes] within the memory is total, changes nothing outside
    the destination, and leaves in [dst + i] the byte that was at [src + i] if the
    destination does not start inside the source (it may end inside it), and
    otherwise repeats the first [dst - src] source bytes. *)
Lemma runner_copy_bytes_correct mem dst src size :
  0 <= size -> 0 <= dst -> dst + size <= zlen mem -> 0 <= src -> src + size <= zlen mem ->
  exists mem', runner_copy_bytes mem dst src size = Some mem' /\ zlen mem' = zlen mem /\
    (forall k, k < dst \/ dst + size <= k -> rd mem' k = rd mem k) /\
    (forall i, 0 <= i < size -> rd mem' (dst + i) = rd mem (copied_from dst src i)).
Proof.
  intros Hs Hd Hdl Hsr Hsl.
  edestruct (for_range_inv (fun n mem' => zlen mem' = zlen mem /\
    (forall k, k < dst \/ dst + n <= k -> rd mem' k = rd mem k) /\
    (forall i, 0 <= i < n -> rd mem' (dst + i) = rd mem (copied_from dst src i)))) as (mem' & Hr & HI);
    [exact Hs| | |exists mem'; split; [exact Hr|exact HI]].
  { split_and!; [done|done|lia]. }
  intros n m Hn (Hl & Hout & Hin).
  destruct (rd_Some m (src + n) ltac:(lia)) as [v Ev]. exists (<[Z.to_nat (dst + n) := v]> m).
  rewrite Ev. simpl. rewrite wr_Some by lia. split; [done|].
  assert (rd mem (copied_from dst src n) = Some v) as Hv.
  { rewrite <-Ev. destruct (Z.ltb_spec src dst); [destruct (Z.leb_spec dst (src + n))|].
    - replace (src + n) with (dst + (src + n - dst)) by lia. rewrite Hin by lia.
      by rewrite copied_from_step by lia.
    - by rewrite copied_from_small, Hout by lia.
    - by rewrite copied_from_small, Hout by lia. }
  split_and!.
  - by rewrite zlen_insert.
  - intros k Hk. rewrite rd_insert_ne by lia. apply Hout. lia.
  - intros i Hi. destruct (decide (i = n)) as [->|Hne].
    + by rewrite rd_insert_eq by lia.
    + rewrite rd_insert_ne by lia. apply Hin. lia.
Qed.

(** A copy to the end of what is written. *)
Lemma copy_behind M J src S : slice M src (zlen S) = Some S -> zlen S <= zlen J ->
  runner_copy_bytes (M ++ J) (zlen M) src (zlen S) = Some (M ++ S ++ drop (length S) J).
Proof.
  intros HS HJ. unfold runner_copy_bytes.
  for_loop (fun i mem => mem = M ++ take (Z.to_nat i) S ++ drop (Z.to_nat i) J) as (mem & -> & ->); [apply zlen_nonneg|done| |].
  - intros i mem Hi ->. destruct (rd_Some S i Hi) as [v Ev]. pose proof Ev as EM. rewrite (rd_slice _ _ _ _ _ HS) in EM by lia.
    pose proof (rd_range _ _ _ EM) as HM. rewrite rd_app_l, EM by lia. rewrite bind_Some.
    destruct (rd_Some J i ltac:(lia)) as [w Ew]. unfold rd in Ev, Ew. destruct (Z.ltb_spec i 0); [lia|].
    rewrite (drop_S J _ _ Ew), app_assoc.
    rewrite wr_app by (rewrite zlen_app, zlen_take; lia). eexists. split; [reflexivity|].
    replace (Z.to_nat (i + 1)) with (Datatypes.S (Z.to_nat i)) by lia. by rewrite (take_S_r _ _ _ Ev), <-!app_assoc.
  - unfold zlen. by rewrite Nat2Z.id, take_ge.
Qed.

(** ** The main program *)
Inductive mode := KLEE_CF | REPLAY | BINSEC | ABACUS.

(** The macros: the mode, [-DCONCRETE_PUBS], and what the generated header sets. *)
Record config := mk_config {
  runner_mode : mode; concrete_pubs_flag : bool; RUNNER_ABACUS_PUBLIC_FIXED : bool;
  RUNNER_REPLAY_ARGC_CONCRETE : Z; RUNNER_REPLAY_ARGC_SYMBOLIC : Z }.

Definition CONCRETE_PUBS (c : config) : bool :=
  concrete_pubs_flag c || match runner_mode c with ABACUS => RUNNER_ABACUS_PUBLIC_FIXED c | _ => false end.

Definition RUNNER_EXPECTED_REPLAY_ARGC (c : config) : Z :=
  if CONCRETE_PUBS c then RUNNER_REPLAY_ARGC_CONCRETE c else RUNNER_REPLAY_ARGC_SYMBOLIC c.

(** The runner's own ABACUS hook. *)
Definition abacus_make_symbolic {S} (name : string) (addr length : Z) (s : S) : S * Z := (s, 1).
Definition runner_binsec_halt {S} (status : Z) (s : S) : S := s.

(** What the generated header and the driver provide, on the program's memory
    [S]; [None]: the call does not return (an exit, an abandoned path). *)
Class Generated (S : Type) := {
  runner_apply_preset : S -> option (S * Z);
  runner_load_replay_inputs : Z -> list string -> S -> option (S * Z);
  runner_apply_klee_assumptions : S -> option S;
  runner_make_klee_secret_inputs : S -> option S;
  runner_make_klee_public_inputs : S -> option S;
  runner_make_abacus_secret_inputs : S -> option S;
  driver_main : S -> option (S * Z) }.

Inductive call :=
  | ApplyPreset | LoadReplayInputs | ApplyKleeAssumptions | MakeKleeSecretInputs
  | MakeKleePublicInputs | MakeAbacusSecretInputs | DriverMain | BinsecHalt (status : Z).

Inductive ending := Returned (status : Z) | Exited (status : Z) | AssertionFailed | NoReturn (c : call).

Section main.
Context {S : Type} `{Generated S}.

(** Computations that log calls and may end the process. *)
Definition M (A : Type) : Type := S * list call -> S * list call * (A + ending).

Definition ret {A} (x : A) : M A := fun w => (w, inl x).
Definition bind {A B} (m : M A) (k : A -> M B) : M B := fun w =>
  let '(w, r) := m w in match r with inl x => k x w | inr e => (w, inr e) end.
Definition stop {A} (e : ending) : M A := fun w => (w, inr e).
Definition c_assert (b : bool) : M unit := if b then ret tt else stop AssertionFailed.

(** A call of a function outside the runner. *)
Definition invoke {A} (c : call) (f : S -> option (S * A)) : M A := fun '(s, tr) =>
  match f s with
  | Some (s, x) => ((s, tr ++ [c]), inl x)
  | None => ((s, tr ++ [c]), inr (NoReturn c))
  end.
Definition procedure (f : S -> option S) (s : S) : option (S * unit) := (., tt) <$> f s.

Local Notation "x <-- m ;; k" := (bind m (fun x => k))
  (at level 100, m at next level, k at level 200, right associativity).
Local Notation "m ;;; k" := (bind m (fun _ => k)) (at level 100, k at level 200, right associativity).

Definition main (c : config) (argc : Z) (argv : list string) : M unit :=
  match runner_mode c with
  | REPLAY =>
      c_assert (0 <? RUNNER_EXPECTED_REPLAY_ARGC c) ;;;
      c_assert (argc =? RUNNER_EXPECTED_REPLAY_ARGC c)
  | _ => ret tt
  end ;;;
  match runner_mode c with
  | KLEE_CF => invoke MakeKleeSecretInputs (procedure runner_make_klee_secret_inputs)
  | REPLAY =>
      ok <-- invoke LoadReplayInputs (runner_load_replay_inputs argc argv) ;;
      if ok =? 0 then stop (Returned 1) else ret tt
  | ABACUS => invoke MakeAbacusSecretInputs (procedure runner_make_abacus_secret_inputs)
  | BINSEC => ret tt
  end ;;;
  (if CONCRETE_PUBS c then
    ok <-- invoke ApplyPreset runner_apply_preset ;;
    if ok =? 0 then stop (match runner_mode c with BINSEC => Exited 1 | _ => Returned 1 end) else ret tt
  else
    match runner_mode c with
    | KLEE_CF =>
        invoke MakeKleePublicInputs (procedure runner_make_klee_public_inputs) ;;;
        invoke ApplyKleeAssumptions (procedure runner_apply_klee_assumptions)
    | _ => ret tt
    end) ;;;
  match runner_mode c with
  | BINSEC =>
      status <-- invoke DriverMain driver_main ;;
      invoke (BinsecHalt status) (fun s => Some (runner_binsec_halt status s, tt)) ;;;
      stop (Exited status)
  | _ => status <-- invoke DriverMain driver_main ;; stop (Returned status)
  end.

(** ** The contract of the runner *)

(** The calls that prepare the inputs, in order. *)
Definition input_phases (c : config) : list call :=
  match runner_mode c with
  | KLEE_CF => [MakeKleeSecretInputs]
  | REPLAY => [LoadReplayInputs]
  | ABACUS => [MakeAbacusSecretInputs]
  | BINSEC => []
  end ++
  if CONCRETE_PUBS c then [ApplyPreset]
  else match runner_mode c with KLEE_CF => [MakeKleePublicInputs; ApplyKleeAssumptions] | _ => [] end.

(** A phase either succeeds, or fails, or does not return. *)
Definition phase (argc : Z) (argv : list string) (p : call) (s : S) : option (S * bool) :=
  let nonzero (r : S * Z) := (r.1, negb (r.2 =? 0)) in
  match p with
  | ApplyPreset => nonzero <$> runner_apply_preset s
  | LoadReplayInputs => nonzero <$> runner_load_replay_inputs argc argv s
  | ApplyKleeAssumptions => (., true) <$> runner_apply_klee_assumptions s
  | MakeKleeSecretInputs => (., true) <$> runner_make_klee_secret_inputs s
  | MakeKleePublicInputs => (., true) <$> runner_make_klee_public_inputs s
  | MakeAbacusSecretInputs => (., true) <$> runner_make_abacus_secret_inputs s
  | DriverMain | BinsecHalt _ => Some (s, true)
  end.

(** Phases up to the first that fails. *)
Inductive prepared :=
  | Ready (s : S)
  | Failed (s : S) (done : list call)
  | Stuck (s : S) (done : list call) (p : call).

Fixpoint prepare (argc : Z) (argv : list string) (ps done : list call) (s : S) : prepared :=
  match ps with
  | [] => Ready s
  | p :: ps =>
      match phase argc argv p s with
      | None => Stuck s (done ++ [p]) p
      | Some (s, false) => Failed s (done ++ [p])
      | Some (s, true) => prepare argc argv ps (done ++ [p]) s
      end
  end.

Definition leave (c : config) (status : Z) : ending :=
  match runner_mode c with BINSEC => Exited status | _ => Returned status end.

Definition halts (c : config) (status : Z) : list call :=
  match runner_mode c with BINSEC => [BinsecHalt status] | _ => [] end.

(** C8. [main] of every mode is: check the argument count (replay only, before
    anything else); run the input phases of the mode in order, stopping at the first
    that reports failure with exit status 1; then, and only then, run the driver
    exactly once on the memory the phases left, and end with the driver's status
    (through [runner_binsec_halt] and [exit] for BINSEC). *)
Theorem runner_main_contract c argc argv s :
  main c argc argv (s, []) =
    if match runner_mode c with REPLAY => true | _ => false end &&
       negb ((0 <? RUNNER_EXPECTED_REPLAY_ARGC c) && (argc =? RUNNER_EXPECTED_REPLAY_ARGC c))
    then ((s, []), inr AssertionFailed)
    else match prepare argc argv (input_phases c) [] s with
    | Failed s' done => ((s', done), inr (leave c 1))
    | Stuck s' done p => ((s', done), inr (NoReturn p))
    | Ready s' =>
        match driver_main s' with
        | None => ((s', input_phases c ++ [DriverMain]), inr (NoReturn DriverMain))
        | Some (s'', status) =>
            ((s'', input_phases c ++ [DriverMain] ++ halts c status), inr (leave c status))
        end
    end.
Proof.
  unfold main, input_phases, leave, halts. set (cp := CONCRETE_PUBS c). set (ex := RUNNER_EXPECTED_REPLAY_ARGC c).
  destruct (runner_mode c) eqn:Em; destruct cp; simpl;
  repeat first
    [ done
    | progress unfold bind, ret, stop, invoke, procedure, c_assert
    | progress simpl
    | match goal with
      | E : ?x = Some _ |- context [?x] => rewrite E; simpl
      | E : ?x = None |- context [?x] => rewrite E; simpl
      | |- context [driver_main ?s] => destruct (driver_main s) as [[? ?]|] eqn:?
      | |- context [runner_apply_preset ?s] => destruct (runner_apply_preset s) as [[? ?]|] eqn:?
      | |- context [runner_load_replay_inputs ?n ?v ?s] =>
          destruct (runner_load_replay_inputs n v s) as [[? ?]|] eqn:?
      | |- context [runner_apply_klee_assumptions ?s] => destruct (runner_apply_klee_assumptions s) eqn:?
      | |- context [runner_make_klee_secret_inputs ?s] => destruct (runner_make_klee_secret_inputs s) eqn:?
      | |- context [runner_make_klee_public_inputs ?s] => destruct (runner_make_klee_public_inputs s) eqn:?
      | |- context [runner_make_abacus_secret_inputs ?s] => destruct (runner_make_abacus_secret_inputs s) eqn:?
      | |- context [?z =? ?y] => destruct (z =? y) eqn:?
      | |- context [0 <? ?y] => destruct (0 <? y) eqn:?
      end ].
Qed.
End main.

