(* ===== verification/RunnerIo.v ===== *)
(** * The in-memory standard input: [include/original_stdin_runner.h].

    [runner_io_read] serves a program's reads of file descriptor 0 from a list of
    input segments.  The concrete state (segment index and offset) refines an
    abstract one, the bytes still to be delivered. *)
From S2P Require Import Prelude Arrays.
Local Open Scope Z_scope.

Record runner_input_segment := mk_segment { data : list Z; size : Z }.

(** The five static variables. *)
Record runner_io := mk_runner_io {
  runner_io_segments : list runner_input_segment;
  runner_io_segment_count : Z;
  runner_io_segment_index : Z;
  runner_io_segment_offset : Z;
  runner_io_failed : Z }.

(** Their static initialisers. *)
Definition runner_io_initial : runner_io := mk_runner_io [] 0 0 0 0.

Definition runner_io_reset (segments : list runner_input_segment) (count : Z) (_ : runner_io) : runner_io :=
  mk_runner_io segments count 0 0 0.

Definition runner_io_status (s : runner_io) : Z := runner_io_failed s.

Definition fail_io (s : runner_io) : runner_io :=
  mk_runner_io (runner_io_segments s) (runner_io_segment_count s) (runner_io_segment_index s)
    (runner_io_segment_offset s) 1.

Definition move_io (index offset : Z) (s : runner_io) : runner_io :=
  mk_runner_io (runner_io_segments s) (runner_io_segment_count s) index offset (runner_io_failed s).

(** The [while] loop, [dst] an index of [buf].  [None]: an access outside an
    object, or not enough fuel. *)
Fixpoint read_loop (fuel : nat) (s : runner_io) (buf : list Z) (dst remaining : Z)
    : option (runner_io * list Z * Z * Z) :=
  if (0 <? remaining) && (runner_io_segment_index s <? runner_io_segment_count s) then
    match fuel with
    | O => None
    | S fuel =>
        segment ← rd (runner_io_segments s) (runner_io_segment_index s);
        let available := u64 (size segment - runner_io_segment_offset s) in
        let chunk := if available <? remaining then available else remaining in
        src ← slice (data segment) (runner_io_segment_offset s) chunk;
        buf ← blit buf dst src;
        let offset := u64 (runner_io_segment_offset s + chunk) in
        let s := if offset =? size segment
          then move_io (u64 (runner_io_segment_index s + 1)) 0 s
          else move_io (runner_io_segment_index s) offset s in
        read_loop fuel s buf (dst + chunk) (u64 (remaining - chunk))
    end
  else Some (s, buf, dst, remaining).

(** [ssize_t] results are 64-bit. *)
Abbreviation s64 := (sgn 64).

Definition runner_io_read (fd : Z) (buf : list Z) (count : Z) (s : runner_io)
    : option (runner_io * list Z * Z) :=
  if negb (fd =? 0) then Some (fail_io s, buf, -1) else
  r ← read_loop (length (runner_io_segments s)) s buf 0 count;
  let '(s, buf, dst, remaining) := r in
  if negb (remaining =? 0) then
    buf ← blit buf dst (replicate (Z.to_nat remaining) 0);
    Some (fail_io s, buf, s64 count)
  else Some (s, buf, s64 count).

Definition runner_io_write (fd count : Z) (s : runner_io) : runner_io * Z :=
  if negb (fd =? 1) then (fail_io s, -1) else (s, s64 count).

(** ** The stream *)

(** The bytes still to be delivered. *)
Definition stream (s : runner_io) : list Z :=
  drop (Z.to_nat (runner_io_segment_offset s))
    (concat (map data (drop (Z.to_nat (runner_io_segment_index s)) (runner_io_segments s)))).

Definition segment_ok (g : runner_input_segment) : Prop := size g = zlen (data g) /\ word 64 (size g).

(** The representation invariant. *)
Record io_ok (s : runner_io) : Prop := {
  ok_segments : Forall segment_ok (runner_io_segments s);
  ok_count : runner_io_segment_count s = zlen (runner_io_segments s);
  ok_word : word 64 (runner_io_segment_count s);
  ok_index : 0 <= runner_io_segment_index s <= runner_io_segment_count s;
  ok_offset : match rd (runner_io_segments s) (runner_io_segment_index s) with
    | Some g => 0 <= runner_io_segment_offset s <= size g
    | None => runner_io_segment_offset s = 0 end }.

Section loop.
Implicit Types (s : runner_io) (buf : list Z) (dst remaining : Z).

(** The segment at the index is what the stream starts with. *)
Lemma stream_segment s : io_ok s -> runner_io_segment_index s < runner_io_segment_count s ->
  exists g, rd (runner_io_segments s) (runner_io_segment_index s) = Some g /\ segment_ok g /\
    0 <= runner_io_segment_offset s <= size g /\
    forall off, 0 <= off <= size g -> stream (move_io (runner_io_segment_index s) off s) =
      drop (Z.to_nat off) (data g) ++ stream (move_io (runner_io_segment_index s + 1) 0 s).
Proof.
  intros [Hsegs Hc _ Hi Ho] Hlt.
  destruct (rd_Some (runner_io_segments s) (runner_io_segment_index s) ltac:(lia)) as [g Eg].
  rewrite Eg in Ho. exists g.
  assert (runner_io_segments s !! Z.to_nat (runner_io_segment_index s) = Some g) as El.
  { unfold rd in Eg. by destruct (Z.ltb_spec (runner_io_segment_index s) 0). }
  assert (segment_ok g) as Hg by (rewrite Forall_lookup in Hsegs; by eapply Hsegs).
  split_and!; [done|done|lia|lia|]. intros off Hoff. unfold stream, move_io. simpl.
  rewrite (drop_S _ _ _ El). simpl. rewrite drop_app_le.
  - by replace (Z.to_nat (runner_io_segment_index s + 1)) with (S (Z.to_nat (runner_io_segment_index s))) by lia.
  - destruct Hg as [Hs _]. unfold zlen in Hs. lia.
Qed.

Lemma move_offset_ok s g off : io_ok s ->
  rd (runner_io_segments s) (runner_io_segment_index s) = Some g -> 0 <= off <= size g ->
  io_ok (move_io (runner_io_segment_index s) off s).
Proof. intros [] Hg Ho. split; try done. simpl. by rewrite Hg. Qed.

(** Past the segment. *)
Lemma move_next_ok s : io_ok s -> runner_io_segment_index s < runner_io_segment_count s ->
  io_ok (move_io (runner_io_segment_index s + 1) 0 s).
Proof.
  intros [Hsegs Hc Hw Hi Ho] Hlt. split; simpl; try done; [lia|].
  destruct (rd _ (runner_io_segment_index s + 1)) as [g|] eqn:E; [|done].
  unfold rd in E. destruct (Z.ltb_spec (runner_io_segment_index s + 1) 0); [done|].
  rewrite Forall_lookup in Hsegs. destruct (Hsegs _ _ E) as [_ Hg]. unfold word in Hg. lia.
Qed.

Lemma stream_end s : io_ok s -> runner_io_segment_count s <= runner_io_segment_index s -> stream s = [].
Proof.
  intros [Hsegs Hc _ Hi Ho] Hge. unfold stream. rewrite (drop_ge (runner_io_segments s)); [simpl; by rewrite drop_nil|].
  unfold zlen in Hc. lia.
Qed.

(** What the loop leaves: [n] bytes delivered. *)
Definition delivered s buf dst remaining (r : option (runner_io * list Z * Z * Z)) : Prop :=
  let n := Z.min remaining (zlen (stream s)) in
  exists s', r = Some (s',
      take (Z.to_nat dst) buf ++ take (Z.to_nat n) (stream s) ++ drop (Z.to_nat (dst + n)) buf,
      dst + n, remaining - n) /\
    io_ok s' /\ stream s' = drop (Z.to_nat n) (stream s) /\
    runner_io_failed s' = runner_io_failed s /\ runner_io_segments s' = runner_io_segments s.

Lemma delivered_none s buf dst remaining : io_ok s -> 0 <= dst -> 0 <= remaining ->
  Z.min remaining (zlen (stream s)) = 0 -> delivered s buf dst remaining (Some (s, buf, dst, remaining)).
Proof.
  intros Hs Hd Hr Hn. unfold delivered. rewrite Hn. exists s. simpl.
  rewrite Z.add_0_r, Z.sub_0_r, take_drop. auto.
Qed.

Lemma splice_take {A} (buf src : list A) (d : nat) : (d <= length buf)%nat ->
  take (d + length src) (take d buf ++ src ++ drop (d + length src) buf) = take d buf ++ src.
Proof.
  intros Hd. rewrite app_assoc. apply take_app_length'. rewrite length_app, length_take. lia.
Qed.
Lemma splice_drop {A} (buf src : list A) (d n : nat) : (d <= length buf)%nat ->
  drop (d + length src + n) (take d buf ++ src ++ drop (d + length src) buf) = drop (d + length src + n) buf.
Proof.
  intros Hd. rewrite app_assoc, drop_app_ge by (rewrite length_app, length_take; lia).
  rewrite drop_drop. f_equal. rewrite length_app, length_take. lia.
Qed.

Lemma delivered_step s s1 src buf dst remaining r : stream s = src ++ stream s1 ->
  runner_io_failed s1 = runner_io_failed s -> runner_io_segments s1 = runner_io_segments s ->
  0 <= dst -> zlen src <= remaining -> dst + remaining <= zlen buf ->
  delivered s1 (take (Z.to_nat dst) buf ++ src ++ drop (Z.to_nat (dst + zlen src)) buf)
    (dst + zlen src) (remaining - zlen src) r ->
  delivered s buf dst remaining r.
Proof.
  intros Hst Hf Hg Hd Hr Hb (s' & -> & Hok & Hst' & Hf' & Hg'). unfold delivered.
  rewrite Hst, zlen_app. pose proof (zlen_nonneg src). pose proof (zlen_nonneg (stream s1)).
  set (k := zlen src) in *. set (n := Z.min (remaining - k) (zlen (stream s1))) in *.
  replace (Z.min remaining (k + zlen (stream s1))) with (k + n) by lia.
  exists s'. split_and!; [|done| |congruence..].
  - f_equal. f_equal; [|lia]. f_equal; [|lia]. f_equal.
    replace (Z.to_nat (dst + k)) with (Z.to_nat dst + length src)%nat by (unfold zlen in k; lia).
    replace (Z.to_nat (dst + k + n)) with (Z.to_nat dst + length src + Z.to_nat n)%nat by (unfold zlen in k; lia).
    replace (Z.to_nat (dst + (k + n))) with (Z.to_nat dst + length src + Z.to_nat n)%nat by (unfold zlen in k; lia).
    assert (Z.to_nat dst <= length buf)%nat by (unfold zlen in *; lia).
    rewrite splice_take, splice_drop, <-app_assoc by done. f_equal.
    rewrite (take_app_ge src) by (unfold zlen in *; lia). rewrite <-app_assoc. do 3 f_equal.
    unfold zlen in k. lia.
  - rewrite Hst', drop_app_ge by (unfold zlen in *; lia). f_equal. unfold zlen in *. lia.
Qed.

Lemma read_loop_0 fuel s buf dst : read_loop fuel s buf dst 0 = Some (s, buf, dst, 0).
Proof. by destruct fuel. Qed.

Lemma read_loop_spec fuel s buf dst remaining :
  io_ok s -> word 64 remaining -> 0 <= dst -> dst + remaining <= zlen buf ->
  runner_io_segment_count s - runner_io_segment_index s <= Z.of_nat fuel ->
  delivered s buf dst remaining (read_loop fuel s buf dst remaining).
Proof.
  revert s buf dst remaining. induction fuel as [|fuel IH]; intros s buf dst remaining Hs Hr Hd Hb Hf;
    simpl; destruct (Z.ltb_spec 0 remaining) as [H0|H0]; simpl;
    try destruct (Z.ltb_spec (runner_io_segment_index s) (runner_io_segment_count s)) as [Hlt|Hge]; try lia;
    
    try (pose proof (zlen_nonneg (stream s)); unfold word in Hr; apply delivered_none; [done..|lia|];
      first [lia | rewrite stream_end by done; change (zlen []) with 0; lia]).
  destruct (stream_segment s Hs Hlt) as (g & Eg & [Hsz Hgw] & Ho & Hst). rewrite Eg. simpl.
  set (off := runner_io_segment_offset s) in *. set (idx := runner_io_segment_index s) in *.
  rewrite (wrap_small 64 (size g - off)) by (unfold word in *; lia).
  set (chunk := if size g - off <? remaining then size g - off else remaining).
  assert (chunk = Z.min (size g - off) remaining) as Ec
    by (subst chunk; destruct (Z.ltb_spec (size g - off) remaining); lia).
  clearbody chunk. rewrite slice_Some by lia. simpl.
  set (src := take (Z.to_nat chunk) (drop (Z.to_nat off) (data g))).
  assert (zlen src = chunk) as Hsrc by (subst src; rewrite zlen_take, zlen_drop; lia).
  rewrite blit_Some by lia. simpl.
  rewrite (wrap_small 64 (off + chunk)), (wrap_small 64 (remaining - chunk)) by (unfold word in *; lia).
  rewrite (wrap_small 64 (idx + 1)) by (destruct Hs; subst idx; unfold word in *; lia).
  replace (Z.to_nat dst + length src)%nat with (Z.to_nat (dst + zlen src)) by (unfold zlen; lia).
  assert (stream s = drop (Z.to_nat off) (data g) ++ stream (move_io (idx + 1) 0 s)) as Hs0
    by (rewrite <-Hst by done; done).
  apply (delivered_step s (if off + chunk =? size g then move_io (idx + 1) 0 s else move_io idx (off + chunk) s)
    src); try lia; [|by destruct (_ =? _)..|]; rewrite ?Hsrc;
    destruct (Z.eqb_spec (off + chunk) (size g)) as [Ee|Ee].
  - rewrite Hs0. f_equal. subst src. symmetry. apply take_ge. unfold zlen in *. rewrite length_drop. lia.
  - rewrite Hst, Hs0, app_assoc by lia. f_equal. subst src.
    rewrite <-(take_drop (Z.to_nat chunk) (drop (Z.to_nat off) (data g))) at 1. f_equal.
    rewrite drop_drop. f_equal. lia.
  - apply IH; [by apply move_next_ok|unfold word in *; lia|lia| |simpl; fold idx; lia].
    rewrite !zlen_app, Hsrc, zlen_take, zlen_drop. lia.
  - assert (remaining - chunk = 0) as -> by lia. rewrite read_loop_0.
    apply delivered_none; [by eapply move_offset_ok; [|exact Eg|lia]|lia..|].
    pose proof (zlen_nonneg (stream (move_io idx (off + chunk) s))). lia.
Qed.
End loop.

(** ** The abstract input *)

(** The bytes still to be delivered, and the failure flag. *)
Definition input : Type := list Z * Z.

Definition input_read (fd : Z) (buf : list Z) (count : Z) (i : input) : input * list Z * Z :=
  let '(rest, failed) := i in
  if negb (fd =? 0) then (rest, 1, buf, -1) else
  let n := Z.to_nat (Z.min count (zlen rest)) in
  (drop n rest, if zlen rest <? count then 1 else failed,
    take n rest ++ replicate (Z.to_nat count - n) 0 ++ drop (Z.to_nat count) buf, s64 count).

Definition input_write (fd count : Z) (i : input) : input * Z :=
  if negb (fd =? 1) then (i.1, 1, -1) else (i, s64 count).

(** A sequence of calls: a read into a buffer, or a write. *)
Inductive io_call := Read (fd : Z) (buf : list Z) (count : Z) | Write (fd count : Z).

Definition call_ok (c : io_call) : Prop :=
  match c with
  | Read _ buf count => word 64 count /\ count <= zlen buf
  | Write _ count => word 64 count
  end.

(** What each call returns, with the buffer of a read. *)
Fixpoint runner_calls (cs : list io_call) (s : runner_io) : option (runner_io * list (list Z * Z)) :=
  match cs with
  | [] => Some (s, [])
  | Read fd buf count :: cs =>
      r ← runner_io_read fd buf count s;
      let '(s, buf, ret) := r in
      r ← runner_calls cs s;
      Some (r.1, (buf, ret) :: r.2)
  | Write fd count :: cs =>
      let '(s, ret) := runner_io_write fd count s in
      r ← runner_calls cs s;
      Some (r.1, ([], ret) :: r.2)
  end.

Fixpoint input_calls (cs : list io_call) (i : input) : input * list (list Z * Z) :=
  match cs with
  | [] => (i, [])
  | Read fd buf count :: cs =>
      let '(i, buf, ret) := input_read fd buf count i in
      let '(i, rs) := input_calls cs i in (i, (buf, ret) :: rs)
  | Write fd count :: cs =>
      let '(i, ret) := input_write fd count i in
      let '(i, rs) := input_calls cs i in (i, ([], ret) :: rs)
  end.

Definition abstract (s : runner_io) : input := (stream s, runner_io_status s).

Lemma fail_io_ok s : io_ok s -> io_ok (fail_io s).
Proof. by intros []. Qed.

Lemma runner_io_read_spec fd buf count s : io_ok s -> word 64 count -> count <= zlen buf ->
  exists s' buf' ret, runner_io_read fd buf count s = Some (s', buf', ret) /\ io_ok s' /\
    input_read fd buf count (abstract s) = (abstract s', buf', ret).
Proof.
  intros Hs Hc Hb. unfold runner_io_read, input_read, abstract, runner_io_status.
  destruct (fd =? 0); simpl; [|eexists _, _, _; split_and!; [done|by apply fail_io_ok|done]].
  destruct (read_loop_spec (length (runner_io_segments s)) s buf 0 count Hs Hc) as (s' & -> & Hs' & Hst & Hf & _);
    [lia|lia| |].
  { destruct Hs. unfold zlen in *. lia. }
  simpl. rewrite Z.add_0_l. pose proof (zlen_nonneg (stream s)) as Hz.
  set (n := Z.min count (zlen (stream s))) in *.
  assert (zlen (take (Z.to_nat n) (stream s)) = n) as Hn.
  { rewrite zlen_take. unfold word in Hc. lia. }
  destruct (Z.eqb_spec (count - n) 0) as [E|E]; simpl.
  - eexists _, _, _. split_and!; [done..|]. rewrite Hst, Hf.
    replace (zlen (stream s) <? count) with false by lia.
    replace (Z.to_nat count - Z.to_nat n)%nat with 0%nat by lia. by replace count with n by lia.
  - rewrite blit_Some.
    2: lia. 2: { rewrite zlen_replicate, zlen_app, Hn, zlen_drop. unfold word in Hc. lia. }
    simpl. eexists _, _, _. split_and!; [done|by apply fail_io_ok|].
    unfold stream in *. simpl. rewrite Hst. replace (zlen _ <? count) with true by lia.
    f_equal. f_equal.
    rewrite take_app_length', drop_app_ge; unfold zlen in Hn; [|rewrite length_replicate; lia|lia].
    rewrite drop_drop, length_replicate. do 3 f_equal; unfold word in Hc; lia.
Qed.

Lemma runner_calls_spec cs s : io_ok s -> Forall call_ok cs ->
  exists s' rs, runner_calls cs s = Some (s', rs) /\ io_ok s' /\
    input_calls cs (abstract s) = (abstract s', rs).
Proof.
  revert s. induction cs as [|[fd buf count|fd count] cs IH]; intros s Hs Hcs;
    cbn [runner_calls input_calls]; [eauto|..];
    apply Forall_cons in Hcs as [Hc Hcs].
  - destruct Hc as [Hw Hb].
    destruct (runner_io_read_spec fd buf count s Hs Hw Hb) as (s1 & buf1 & ret & -> & Hs1 & ->). simpl.
    destruct (IH s1 Hs1 Hcs) as (s' & rs & -> & Hs' & ->). simpl. eauto 6.
  - unfold runner_io_write, input_write, abstract, runner_io_status.
    destruct (fd =? 1); simpl.
    + destruct (IH s Hs Hcs) as (s' & rs & -> & Hs' & Ha). unfold abstract, runner_io_status in Ha.
      rewrite Ha. simpl. eauto 6.
    + destruct (IH (fail_io s) (fail_io_ok s Hs) Hcs) as (s' & rs & -> & Hs' & Ha).
      unfold abstract, runner_io_status, fail_io, stream in *. simpl in *. rewrite Ha. simpl. eauto 6.
Qed.

(** C10. After [runner_io_reset], any sequence of reads and writes behaves as on a
    plain stream, the concatenation of the segments (empty ones included): every
    read of descriptor 0 fills the whole buffer with the next bytes of the stream
    (crossing segments) and zeros behind its end, returning the full count; the
    failure flag reports exactly that some read ran past the end or some call
    named a wrong descriptor, which is answered with -1 and leaves the stream
    alone.  No access leaves a segment or the buffer, and the loop ends. *)
Theorem runner_io_refines_stream segments s cs :
  Forall segment_ok segments -> word 64 (zlen segments) -> Forall call_ok cs ->
  exists s' rs, runner_calls cs (runner_io_reset segments (zlen segments) s) = Some (s', rs) /\
    input_calls cs (concat (map data segments), 0) = ((stream s', runner_io_status s'), rs).
Proof.
  intros Hg Hw Hcs.
  assert (io_ok (runner_io_reset segments (zlen segments) s)) as Hok.
  { split; simpl; try done; [unfold word in Hw; lia|]. destruct (rd segments 0) as [g|] eqn:E; [|done].
    rewrite Forall_lookup in Hg. destruct (Hg _ _ E) as [_ Hs]. unfold word in Hs. lia. }
  destruct (runner_calls_spec cs _ Hok Hcs) as (s' & rs & Hr & _ & Ha). by exists s', rs.
Qed.

Lemma runner_io_refines_stream_witness :
  let cs := [Read 0 [9; 9; 9] 2; Write 1 7; Read 0 [9; 9; 9; 9] 3] in
  exists s' rs, runner_calls cs (runner_io_reset [mk_segment [1; 2; 3] 3; mk_segment [] 0; mk_segment [4] 1]
      3 runner_io_initial) = Some (s', rs) /\
    input_calls cs ([1; 2; 3; 4], 0) = ((stream s', runner_io_status s'), rs) /\
    rs = [([1; 2; 9], 2); ([], 7); ([3; 4; 0; 9], 3)].
Proof.
  destruct (runner_io_refines_stream [mk_segment [1; 2; 3] 3; mk_segment [] 0; mk_segment [4] 1] runner_io_initial
    [Read 0 [9; 9; 9] 2; Write 1 7; Read 0 [9; 9; 9; 9] 3]) as (s' & rs & Hr & Hi).
  - repeat (apply Forall_cons; split; [split; [done|unfold word; simpl; lia]|]). by apply Forall_nil.
  - unfold word, zlen. simpl. lia.
  - repeat (apply Forall_cons; split; [unfold call_ok, word, zlen; simpl; lia|]). by apply Forall_nil.
  - exists s', rs. split_and!; [exact Hr|exact Hi|]. vm_compute in Hr. by simplify_eq.
Defined.
