(* ===== verification/Stdin.v ===== *)
(** * Programs that read standard input.

    What a program is promised of [read] and [write], met by the functions of
    [include/original_stdin_runner.h] (file RunnerIo), and what follows for a program
    that fills an array of [int] from it. *)
From S2P Require Import Prelude Arrays Bytes RunnerIo.
Local Open Scope Z_scope.

(** ** The interface *)

(** [read(0, ...)] and [write(1, ...)] on a state [T]: they behave as on the pending
    bytes and the failure flag of [T]. *)
Class Stdin (T : Type) := {
  sys_read : Z -> list Z -> Z -> T -> option (T * list Z * Z);
  sys_write : Z -> Z -> T -> T * Z;
  stdin_ok : T -> Prop;
  pending : T -> input;
  sys_read_spec fd buf count (s : T) : stdin_ok s -> word 64 count -> count <= zlen buf ->
    exists s' buf' ret, sys_read fd buf count s = Some (s', buf', ret) /\ stdin_ok s' /\
      input_read fd buf count (pending s) = (pending s', buf', ret);
  sys_write_spec fd count (s : T) : stdin_ok s -> word 64 count ->
    stdin_ok (sys_write fd count s).1 /\
    input_write fd count (pending s) = (pending (sys_write fd count s).1, (sys_write fd count s).2) }.

#[export] Program Instance runner_stdin : Stdin runner_io := {|
  sys_read := runner_io_read; sys_write := runner_io_write; stdin_ok := io_ok; pending := abstract |}.
Next Obligation. intros. by apply runner_io_read_spec. Qed.
Next Obligation.
  intros fd count s Hs _. unfold runner_io_write, input_write. destruct (fd =? 1); simpl; [done|].
  split; [by apply fail_io_ok|done].
Qed.

(** A reset starts the stream. *)
Lemma reset_ok segments s : Forall segment_ok segments -> word 64 (zlen segments) ->
  io_ok (runner_io_reset segments (zlen segments) s).
Proof.
  intros Hg Hw. split; simpl; try done; [unfold word in Hw; lia|]. destruct (rd segments 0) as [g|] eqn:E; [|done].
  unfold rd in E. simpl in E. rewrite Forall_lookup in Hg. destruct (Hg _ _ E) as [_ Hs]. unfold word in Hs. lia.
Qed.

(** ** Objects of type [int] *)
Definition int_bytes (x : Z) : list Z := let u := u32 x in [u mod 256; u / 2 ^ 8 mod 256; u / 2 ^ 16 mod 256; u / 2 ^ 24].
Definition int_value (bs : list Z) : Z :=
  s32 (get bs 0 + get bs 1 * 2 ^ 8 + get bs 2 * 2 ^ 16 + get bs 3 * 2 ^ 24).

Lemma int_value_bytes x : sword 32 x -> int_value (int_bytes x) = x.
Proof.
  intros Hx. unfold int_value, int_bytes, get. simpl.
  pose proof (wrap_range 32 x ltac:(lia)) as Hu. unfold word in Hu. set (u := u32 x) in *.
  replace (_ + _) with u by (Z.to_euclidean_division_equations; lia). subst u.
  rewrite <-(sgn_small 32 x) at 2 by (done || lia). unfold sgn, wrap. by rewrite Zplus_mod_idemp_l.
Qed.

Section programs.
Context {T : Type} `{!Stdin T}.
Implicit Types (s : T) (rest : list Z).

(** [read(0, &x, count)] into an [int] that holds [x]. *)
Definition read_int (count x : Z) s : option (T * Z) :=
  '(s, buf, _) ← sys_read 0 (int_bytes x) count s; Some (s, int_value buf).

(** [for (i = 0; i < n; i++) read(0, &in[i], count)]. *)
Definition read_array (count n : Z) (a : list Z) s : option (T * list Z) :=
  for_range 0 n (fun i '(s, a) =>
    x ← rd a i; '(s, x) ← read_int count x s; a ← wr a i x; Some (s, a)) (s, a).

(** The bytes of the stream from [k] on, zeros behind its end, as an unsigned number
    of [count] bytes. *)
Definition number_at rest (count k : Z) : Z :=
  foldr (fun i n => get rest (k + i) + 256 * n) 0 (seqZ 0 count).

(** The input after [n] bytes have been asked for. *)
Definition consumed (n : Z) (i : input) : input :=
  (drop (Z.to_nat n) i.1, if zlen i.1 <? n then 1 else i.2).

Lemma consumed_0 i : consumed 0 i = i.
Proof.
  destruct i as [rest failed]. unfold consumed. simpl. pose proof (zlen_nonneg rest).
  by destruct (Z.ltb_spec (zlen rest) 0); [lia|].
Qed.

Lemma consumed_add n k i : 0 <= n -> 0 <= k -> consumed k (consumed n i) = consumed (n + k) i.
Proof.
  intros Hn Hk. destruct i as [rest failed]. unfold consumed. simpl. pose proof (zlen_nonneg rest).
  rewrite drop_drop, zlen_drop. f_equal; [f_equal; lia|].
  destruct (Z.ltb_spec (zlen rest) n), (Z.ltb_spec (Z.max 0 (zlen rest - Z.of_nat (Z.to_nat n))) k),
    (Z.ltb_spec (zlen rest) (n + k)); done || lia.
Qed.

(** A prefix, filled up with zeros. *)
Lemma take_padded (n : nat) (rest : list Z) : let k := Nat.min n (length rest) in
  take k rest ++ replicate (n - k) 0 = tab (Z.of_nat n) (get rest).
Proof.
  intros k. apply rd_ext; [rewrite zlen_app, zlen_take, zlen_replicate, zlen_tab; unfold zlen; lia|].
  intros i Hi. rewrite zlen_app, zlen_take, zlen_replicate in Hi. rewrite rd_tab by (unfold zlen in *; lia).
  destruct (Z.ltb_spec i (zlen rest)) as [Hl|Hl].
  - destruct (rd_Some rest i ltac:(lia)) as [v Ev]. rewrite (get_rd rest i v) by first [lia|exact Ev].
    rewrite rd_app_l by (rewrite zlen_take; unfold zlen in *; lia). rewrite <-Ev. unfold rd. destruct (Z.ltb_spec i 0); [lia|].
    apply lookup_take_lt. unfold zlen in *. lia.
  - rewrite rd_app_r by (rewrite zlen_take; unfold zlen in *; lia).
    rewrite rd_replicate by (rewrite zlen_take; unfold zlen in *; lia).
    unfold get. rewrite nth_overflow; [done|unfold zlen in *; lia].
Qed.

(** A read of [count] bytes. *)
Lemma input_read_tab buf count i : 0 <= count ->
  input_read 0 buf count i =
    (consumed count i, tab count (get i.1) ++ drop (Z.to_nat count) buf, s64 count).
Proof.
  intros Hc. destruct i as [rest failed]. unfold input_read, consumed. simpl. rewrite app_assoc.
  pose proof (zlen_nonneg rest) as Hz. f_equal. f_equal.
  - destruct (Z.ltb_spec (zlen rest) count) as [Hl|Hl]; f_equal.
    + rewrite !drop_ge; unfold zlen in *; [done|lia..].
    + f_equal. lia.
  - f_equal. pose proof (take_padded (Z.to_nat count) rest) as Ht. simpl in Ht. rewrite Z2Nat.id in Ht by done.
    rewrite <-Ht. by replace (Z.to_nat (Z.min count (zlen rest))) with (Nat.min (Z.to_nat count) (length rest)) by (unfold zlen; lia).
Qed.

Lemma get_drop (n : Z) rest i : 0 <= n -> 0 <= i -> get (drop (Z.to_nat n) rest) i = get rest (n + i).
Proof. intros. unfold get. rewrite !nth_lookup, lookup_drop. do 2 f_equal. lia. Qed.

Lemma number_at_drop n rest count k : 0 <= n -> 0 <= k -> number_at (drop (Z.to_nat n) rest) count k = number_at rest count (n + k).
Proof.
  intros Hn Hk. unfold number_at.
  assert (Forall (fun i => 0 <= i) (seqZ 0 count)) as Hi by (apply Forall_forall; intros i ?%elem_of_seqZ; lia).
  induction Hi as [|i ks Hi _ IH]; simpl; [done|]. rewrite IH, get_drop by lia. do 2 f_equal. lia.
Qed.

Lemma number_at_1 rest k : number_at rest 1 k = get rest k.
Proof. unfold number_at. change (seqZ 0 1) with [0]. cbn [foldr]. replace (k + 0) with k by lia. lia. Qed.
Lemma number_at_2 rest k : number_at rest 2 k = get rest k + 256 * get rest (k + 1).
Proof. unfold number_at. change (seqZ 0 2) with [0; 1]. cbn [foldr]. replace (k + 0) with k by lia. lia. Qed.

(** Counts the programs use. *)
Definition small_count (count : Z) : Prop := count = 1 \/ count = 2.

Lemma number_at_range rest count k : small_count count -> Forall (word 8) rest -> 0 <= number_at rest count k < 2 ^ 16.
Proof.
  intros Hc Hr. pose proof (get_word 8 rest k ltac:(lia) Hr). pose proof (get_word 8 rest (k + 1) ltac:(lia) Hr).
  unfold word in *. destruct Hc as [-> | ->]; rewrite ?number_at_1, ?number_at_2; lia.
Qed.

Lemma read_int_spec s count : stdin_ok s -> small_count count -> Forall (word 8) (pending s).1 ->
  exists s', read_int count 0 s = Some (s', number_at (pending s).1 count 0) /\ stdin_ok s' /\
    pending s' = consumed count (pending s).
Proof.
  intros Hs Hc Hr. pose proof (number_at_range (pending s).1 count 0 Hc Hr) as Hn.
  destruct (sys_read_spec 0 (int_bytes 0) count s Hs) as (s' & buf' & ret & E & Hs' & Hi);
    [unfold word; destruct Hc as [-> | ->]; lia|change (zlen (int_bytes 0)) with 4; destruct Hc; lia|].
  rewrite input_read_tab in Hi by (destruct Hc; lia). simplify_eq. exists s'. unfold read_int. rewrite E. simpl.
  split_and!; [|done|done]. do 2 f_equal. rewrite <-(sgn_small 32 (number_at _ _ _)) by (unfold sword; lia).
  unfold int_value. f_equal. change (int_bytes 0) with [0; 0; 0; 0]. set (rest := (pending s).1). destruct Hc as [-> | ->].
  - rewrite number_at_1. change (tab 1 (get rest)) with [get rest 0]. generalize (get rest 0). intros x. unfold get. simpl. lia.
  - rewrite number_at_2. change (tab 2 (get rest)) with [get rest 0; get rest 1]. change (0 + 1) with 1.
    generalize (get rest 0), (get rest 1). intros x y. unfold get. simpl. lia.
Qed.

(** The next number. *)
Lemma read_int_next s count i0 k : stdin_ok s -> small_count count -> Forall (word 8) i0.1 -> 0 <= k ->
  pending s = consumed k i0 ->
  exists s', read_int count 0 s = Some (s', number_at i0.1 count k) /\ stdin_ok s' /\ pending s' = consumed (k + count) i0.
Proof.
  intros Hs Hc Hr Hk Ep. destruct (read_int_spec s count Hs Hc) as (s' & E & Hs' & Ep').
  { rewrite Ep. simpl. by apply Forall_drop. }
  exists s'. rewrite E, Ep', Ep, consumed_add by (destruct Hc; lia). split_and!; [|done|done].
  simpl. rewrite number_at_drop by lia. by rewrite Z.add_0_r.
Qed.

Lemma read_array_spec s count n : stdin_ok s -> small_count count -> Forall (word 8) (pending s).1 -> 0 <= n ->
  exists s', read_array count n (replicate (Z.to_nat n) 0) s =
      Some (s', tab n (fun i => number_at (pending s).1 count (count * i))) /\ stdin_ok s' /\
    pending s' = consumed (count * n) (pending s).
Proof.
  intros Hs Hc Hr Hn. unfold read_array.
  for_loop (fun j '(s', a) => stdin_ok s' /\ pending s' = consumed (count * j) (pending s) /\
    a = tab n (fun i => if i <? j then number_at (pending s).1 count (count * i) else 0)) as ([s' a] & -> & Hs' & Ep & ->); [done| | |].
  - rewrite Z.mul_0_r, consumed_0, replicate_tab. split_and!; [done|done|]. apply tab_ext. intros i Hi.
    by destruct (Z.ltb_spec i 0); [lia|].
  - intros j [s1 a] Hj (Hs1 & Ep & ->). rewrite rd_tab by lia. simpl. destruct (Z.ltb_spec j j); [lia|].
    destruct (read_int_next s1 count (pending s) (count * j) Hs1 Hc Hr) as (s2 & -> & Hs2 & Ep2); [destruct Hc; lia|done|].
    simpl. rewrite wr_tab by lia. simpl. eexists. split; [done|]. split_and!; [done|by rewrite Ep2, Z.mul_add_distr_l, Z.mul_1_r|].
    apply tab_ext. intros i Hi. destruct (Z.eqb_spec i j), (Z.ltb_spec i j), (Z.ltb_spec i (j + 1)); subst; done || lia.
  - exists s'. split_and!; [|done|done]. do 2 f_equal. apply tab_ext. intros i Hi. by destruct (Z.ltb_spec i n); [|lia].
Qed.
End programs.
