(* ===== verification/Shifts.v ===== *)
(** * Signed and unsigned 32-bit words.

    A word is its 32 bits; the type of the C variable that holds it decides whether
    [>>] copies the sign bit. *)
From S2P Require Import Prelude Arrays Bytes Stdin.
Local Open Scope Z_scope.
Local Open Scope word_scope.

Inductive word_type := int32_t | uint32_t.

(** [x >> n] and [x << n]. *)
Definition shr (t : word_type) (x n : Z) : Z :=
  match t with int32_t => u32 (s32 x ≫ n) | uint32_t => x ≫ n end.
Definition shl (x n : Z) : Z := u32 (x ≪ n).

Section bits.
Context (t : word_type).

Lemma wrap_s32 x : word 32 x -> u32 (s32 x) = x.
Proof. unfold wrap, sgn, word. intros Hx. Z.to_euclidean_division_equations. lia. Qed.

Lemma testbit_s32 x i : word 32 x -> 0 <= i -> Z.testbit (s32 x) i = Z.testbit x (Z.min i 31).
Proof.
  intros Hx Hi. destruct (Z.ltb_spec i 32) as [Hlt|Hge].
  { rewrite <-(wrap_s32 x Hx) at 2. rewrite testbit_wrap by done.
    destruct (Z.ltb_spec (Z.min i 31) 32); [|lia]. simpl.
    destruct (decide (i = 31)) as [->|]; [done|]. by replace (Z.min i 31) with i by lia. }
  rewrite Z.min_r by lia. change 31 with (32 - 1) at 1. rewrite (testbit_top 32) by done.
  pose proof (sgn_range 32 x ltac:(done)) as Hs. unfold sword, word in *.
  assert (s32 x = if 2 ^ (32 - 1) <=? x then Z.lnot (2 ^ 32 - 1 - x) else x) as ->.
  { unfold Z.lnot, sgn. destruct (Z.leb_spec (2 ^ (32 - 1)) x); Z.to_euclidean_division_equations; lia. }
  destruct (Z.leb_spec (2 ^ (32 - 1)) x).
  - rewrite Z.lnot_spec, (word_testbit 32) by (done || unfold word; lia). done.
  - by apply (word_testbit 32).
Qed.

(** What bit [i] of [x >> n] is. *)
Lemma testbit_shr x n i : word 32 x -> 0 <= n -> 0 <= i < 32 ->
  Z.testbit (shr t x n) i = match t with int32_t => Z.testbit x (Z.min (i + n) 31) | uint32_t => Z.testbit x (i + n) end.
Proof.
  intros Hx Hn Hi. destruct t; simpl.
  - rewrite testbit_wrap, Z.shiftr_spec, testbit_s32 by (done || lia). by destruct (Z.ltb_spec i 32); [|lia].
  - by rewrite Z.shiftr_spec by lia.
Qed.

Lemma testbit_shl x n i : 0 <= n -> 0 <= i < 32 -> Z.testbit (shl x n) i = Z.testbit x (i - n).
Proof. intros Hn Hi. unfold shl. rewrite testbit_wrap, Z.shiftl_spec by lia. by destruct (Z.ltb_spec i 32); [|lia]. Qed.

Lemma word_shr x n : 0 <= n -> word 32 x -> word 32 (shr t x n).
Proof. intros. destruct t; simpl; [by apply wrap_range|by apply word_shiftr]. Qed.
Lemma word_shl x n : word 32 (shl x n).
Proof. by apply wrap_range. Qed.

(** Words are equal if their bits are. *)
Lemma word_ext x y : word 32 x -> word 32 y -> (forall i, 0 <= i < 32 -> Z.testbit x i = Z.testbit y i) -> x = y.
Proof.
  intros Hx Hy H. apply Z.bits_inj'. intros i Hi. destruct (Z.ltb_spec i 32); [by apply H|].
  by rewrite !(word_testbit 32) by done.
Qed.
End bits.

(** The bytes of an array of words, and back. *)
Definition word_at (l : list Z) (i : Z) : Z :=
  get l i + get l (i + 1) * 2 ^ 8 + get l (i + 2) * 2 ^ 16 + get l (i + 3) * 2 ^ 24.

Lemma int_bytes_ok x : bytes 4 (int_bytes x).
Proof.
  split; [done|]. pose proof (wrap_range 32 x ltac:(done)) as Hu. unfold int_bytes. cbv zeta. set (u := u32 x) in *. unfold word in *.
  repeat (apply Forall_cons; split); try apply Forall_nil; unfold word; Z.to_euclidean_division_equations; lia.
Qed.

Lemma int_bytes_value x : word 32 x ->
  get (int_bytes x) 0 + get (int_bytes x) 1 * 2 ^ 8 + get (int_bytes x) 2 * 2 ^ 16 + get (int_bytes x) 3 * 2 ^ 24 = x.
Proof.
  intros Hx. unfold int_bytes. rewrite wrap_small by done. unfold get, word in *. simpl.
  Z.to_euclidean_division_equations. lia.
Qed.

(** Two words in eight bytes. *)
Lemma word_at_pair x y : word 32 x -> word 32 y ->
  word_at (int_bytes x ++ int_bytes y) 0 = x /\ word_at (int_bytes x ++ int_bytes y) 4 = y.
Proof. intros Hx Hy. split; [exact (int_bytes_value x Hx)|exact (int_bytes_value y Hy)]. Qed.

Lemma word_at_word l i : Forall (word 8) l -> word 32 (word_at l i).
Proof.
  intros Hl. unfold word_at. pose proof (fun n => get_word 8 l n ltac:(done) Hl) as Hg. unfold word in *.
  pose proof (Hg i). pose proof (Hg (i + 1)). pose proof (Hg (i + 2)). pose proof (Hg (i + 3)). lia.
Qed.

Lemma pair_word_at b : bytes 8 b -> int_bytes (word_at b 0) ++ int_bytes (word_at b 4) = b.
Proof.
  intros Hb. pose proof (word_at_word b 0 (proj2 Hb)) as H0. pose proof (word_at_word b 4 (proj2 Hb)) as H4.
  unfold int_bytes. rewrite !wrap_small by done. destruct (bytes_8 b Hb) as (b0 & b1 & b2 & b3 & b4 & b5 & b6 & b7 & -> & ?).
  unfold word_at, get, word in *. simpl in *. repeat f_equal; Z.to_euclidean_division_equations; lia.
Qed.
