(* ===== verification/Leakage.v ===== *)
(** * Observable leakage.

    Programs that leak: a computation produces the events a constant-time checker
    observes (which way a branch went, which index an array access used, with the
    source line) and then a value, or ends early.  [sim] relates two runs with the
    same observations; its rules are those of a relational program logic. *)
From S2P Require Import Prelude Arrays.
Local Open Scope Z_scope.

Inductive observation := Branch (line : Z) (taken : bool) | Access (line : Z) (index : Z).

(** How a run ends without a value: a failed assertion, an access outside an
    object, or an exit with a status. *)
Inductive early := AssertionFails (line : Z) | OutOfBounds (line : Z) | Exits (status : Z).

Definition leaky (A : Type) : Type := list observation * (early + A).

Section monad.
Context {A B : Type}.

Definition value (x : A) : leaky A := ([], inr x).
Definition ends (e : early) : leaky A := ([], inl e).
Definition andthen (p : leaky A) (k : A -> leaky B) : leaky B :=
  match p with
  | (t, inl e) => (t, inl e)
  | (t, inr x) => let '(t', r) := k x in (t ++ t', r)
  end.

(** [if (b)] at a line. *)
Definition branch (line : Z) (b : bool) : leaky bool := ([Branch line b], inr b).

(** [l[i]] at a line. *)
Definition access (line : Z) (l : list A) (i : Z) : leaky A :=
  ([Access line i], match rd l i with Some x => inr x | None => inl (OutOfBounds line) end).

(** [l[i] = x] at a line. *)
Definition store (line : Z) (l : list A) (i : Z) (x : A) : leaky (list A) :=
  ([Access line i], match wr l i x with Some l => inr l | None => inl (OutOfBounds line) end).
End monad.

Declare Scope leaky_scope.
Delimit Scope leaky_scope with leaky.
Notation "x <- p ;; k" := (andthen p (fun x => k))
  (at level 100, p at next level, k at level 200, right associativity) : leaky_scope.
Notation "p ;;; k" := (andthen p (fun _ => k)) (at level 100, k at level 200, right associativity) : leaky_scope.
Local Open Scope leaky_scope.

Lemma andthen_value {A B} (x : A) (k : A -> leaky B) : andthen (value x) k = k x.
Proof. unfold andthen, value. by destruct (k x). Qed.
Lemma andthen_assoc {A B C} (p : leaky A) (k : A -> leaky B) (k' : B -> leaky C) :
  andthen (andthen p k) k' = andthen p (fun x => andthen (k x) k').
Proof.
  destruct p as [t [e|x]]; simpl; [done|]. destruct (k x) as [t' [e|y]]; simpl; [done|].
  destruct (k' y). by rewrite app_assoc.
Qed.

(** [lfor lo hi] is a counted loop whose body leaks. *)
Fixpoint lfor_from {S} (n : nat) (i : Z) (f : Z -> S -> leaky S) (s : S) : leaky S :=
  match n with
  | O => value s
  | Datatypes.S n => s <- f i s ;; lfor_from n (i + 1) f s
  end.
Definition lfor {S} (lo hi : Z) (f : Z -> S -> leaky S) (s : S) : leaky S :=
  lfor_from (Z.to_nat (hi - lo)) lo f s.

(** ** Runs with the same observations *)
Section sim.
Context {A B : Type}.

Definition sim (R : A -> B -> Prop) (p : leaky A) (q : leaky B) : Prop :=
  p.1 = q.1 /\
  match p.2, q.2 with inl e, inl e' => e = e' | inr x, inr y => R x y | _, _ => False end.

Lemma sim_value (R : A -> B -> Prop) x y : R x y -> sim R (value x) (value y).
Proof. done. Qed.

Lemma sim_mono (R R' : A -> B -> Prop) p q : sim R p q -> (forall x y, R x y -> R' x y) -> sim R' p q.
Proof. intros [Ht Hr] HR. split; [done|]. destruct (p.2), (q.2); try done. by apply HR. Qed.

Lemma sim_ends (R : A -> B -> Prop) e : sim R (ends e) (ends e).
Proof. done. Qed.
End sim.

Lemma sim_andthen {A B A' B'} (R : A -> B -> Prop) (R' : A' -> B' -> Prop) p q k k' :
  sim R p q -> (forall x y, R x y -> sim R' (k x) (k' y)) -> sim R' (andthen p k) (andthen q k').
Proof.
  intros [Ht Hr] Hk. destruct p as [t [e|x]], q as [t' [e'|y]]; simpl in *; subst; try done.
  specialize (Hk _ _ Hr) as [Ht Hr']. destruct (k x), (k' y); simpl in *. by subst.
Qed.

Lemma sim_branch line b b' : b = b' -> sim eq (branch line b) (branch line b').
Proof. by intros ->. Qed.

Lemma sim_access {A} line (l l' : list A) i : zlen l = zlen l' ->
  sim (fun _ _ => True) (access line l i) (access line l' i).
Proof.
  intros Hl. split; [done|]. unfold access. simpl. unfold rd. destruct (i <? 0); [done|].
  destruct (l !! Z.to_nat i) eqn:E, (l' !! Z.to_nat i) eqn:E'; try done;
    [apply lookup_lt_Some in E; apply lookup_ge_None in E' | apply lookup_ge_None in E; apply lookup_lt_Some in E'];
    unfold zlen in Hl; lia.
Qed.

Lemma sim_store {A} line (l l' : list A) i x x' : zlen l = zlen l' ->
  sim (fun m m' => zlen m = zlen m') (store line l i x) (store line l' i x').
Proof.
  intros Hl. split; [done|]. unfold store, wr. simpl. rewrite Hl.
  destruct (_ && _); [|done]. by rewrite !zlen_insert.
Qed.

Lemma sim_lfor {S S'} (R : S -> S' -> Prop) lo hi f f' s s' : R s s' ->
  (forall i s s', lo <= i < hi -> R s s' -> sim R (f i s) (f' i s')) ->
  sim R (lfor lo hi f s) (lfor lo hi f' s').
Proof.
  intros Hs Hf. unfold lfor. assert (forall i, lo <= i -> forall n, i + Z.of_nat n <= Z.max lo hi ->
    forall s s', R s s' -> sim R (lfor_from n i f s) (lfor_from n i f' s')) as H.
  { intros i Hi n. revert i Hi. induction n as [|n IH]; intros i Hi Hn t t' Ht; simpl; [by apply sim_value|].
    eapply sim_andthen; [apply Hf; [lia|done]|]. intros. apply IH; [lia|lia|done]. }
  apply H; [lia|lia|done].
Qed.

(** A program of a public and a secret input is constant time. *)
Definition constant_time {P S A} (p : P -> S -> leaky A) : Prop :=
  forall pub s s', sim (fun _ _ => True) (p pub s) (p pub s').

(** ** Successful runs *)
Definition yields {A} (p : leaky A) (t : list observation) (x : A) : Prop := p = (t, inr x).

Lemma yields_andthen {A B} (p : leaky A) (k : A -> leaky B) t t' x y :
  yields p t x -> yields (k x) t' y -> yields (andthen p k) (t ++ t') y.
Proof. unfold yields. intros -> E. simpl. by rewrite E. Qed.

Lemma yields_access {A} line (l : list A) i x : rd l i = Some x -> yields (access line l i) [Access line i] x.
Proof. unfold yields, access. by intros ->. Qed.

Lemma yields_value {A} (x : A) : yields (value x) [] x.
Proof. done. Qed.

Lemma andthen_step {A B} (p : leaky A) (k : A -> leaky B) t t' x r :
  yields p t x -> k x = (t', r) -> andthen p k = (t ++ t', r).
Proof. unfold yields. intros -> E. simpl. by rewrite E. Qed.

(** A counted loop with an invariant: it yields, one trace per iteration. *)
Lemma lfor_inv {S} (I : Z -> S -> Prop) lo hi (f : Z -> S -> leaky S) s : lo <= hi -> I lo s ->
  (forall i s, lo <= i < hi -> I i s -> exists t s', f i s = (t, inr s') /\ I (i + 1) s') ->
  exists t s', lfor lo hi f s = (t, inr s') /\ I hi s'.
Proof.
  intros Hle Hs Hf. unfold lfor.
  assert (forall n i s, lo <= i -> i + Z.of_nat n <= hi -> I i s ->
    exists t s', lfor_from n i f s = (t, inr s') /\ I (i + Z.of_nat n) s') as H.
  { intros n. induction n as [|n IH]; intros i x Hi Hn Hx; cbn [lfor_from].
    - exists [], x. by rewrite Z.add_0_r.
    - destruct (Hf i x ltac:(lia) Hx) as (t & x1 & -> & Hx1).
      destruct (IH (i + 1) x1 ltac:(lia) ltac:(lia) Hx1) as (t' & s' & E & Hs'). simpl. rewrite E.
      exists (t ++ t'), s'. split; [done|]. by replace (i + Z.of_nat (Datatypes.S n)) with (i + 1 + Z.of_nat n) by lia. }
  destruct (H (Z.to_nat (hi - lo)) lo s ltac:(lia) ltac:(lia) Hs) as (t & s' & E & Hs').
  exists t, s'. split; [done|]. by replace hi with (lo + Z.of_nat (Z.to_nat (hi - lo))) by lia.
Qed.

(** The trace of a loop whose iterations have known events. *)
Lemma lfor_trace {S} (I : Z -> S -> Prop) (ev : Z -> list observation) lo hi (f : Z -> S -> leaky S) s :
  lo <= hi -> I lo s ->
  (forall i s, lo <= i < hi -> I i s -> exists s', f i s = (ev i, inr s') /\ I (i + 1) s') ->
  exists s', lfor lo hi f s = (seqZ lo (hi - lo) ≫= ev, inr s') /\ I hi s'.
Proof.
  intros Hle Hs Hf. unfold lfor.
  assert (forall n i s, lo <= i -> i + Z.of_nat n <= hi -> I i s ->
    exists s', lfor_from n i f s = (seqZ i (Z.of_nat n) ≫= ev, inr s') /\ I (i + Z.of_nat n) s') as H.
  { intros n. induction n as [|n IH]; intros i x Hi Hn Hx; cbn [lfor_from].
    - exists x. by rewrite Z.add_0_r.
    - destruct (Hf i x ltac:(lia) Hx) as (x1 & -> & Hx1).
      destruct (IH (i + 1) x1 ltac:(lia) ltac:(lia) Hx1) as (s' & E & Hs'). simpl. rewrite E.
      exists s'. rewrite (seqZ_cons i) by lia. cbn [mbind list_bind].
      replace (Z.pred (Z.of_nat (Datatypes.S n))) with (Z.of_nat n) by lia.
      replace (Z.succ i) with (i + 1) by lia. split; [done|].
      by replace (i + Z.of_nat (Datatypes.S n)) with (i + 1 + Z.of_nat n) by lia. }
  destruct (H (Z.to_nat (hi - lo)) lo s ltac:(lia) ltac:(lia) Hs) as (s' & E & Hs').
  replace (Z.of_nat (Z.to_nat (hi - lo))) with (hi - lo) in * by lia. exists s'. split; [done|].
  by replace hi with (lo + (hi - lo)) by lia.
Qed.
