(* ===== verification/ToyAes.v ===== *)
(** * Two AES-shaped toys: [examples/toy_aes_big_like.c] and [toy_aes_big_like_no_tables.c].

    The same two rounds, once with a lookup table and once with arithmetic.  The
    models leak what a constant-time checker observes, so the difference the two
    programs are there to show can be stated. *)
From S2P Require Import Prelude Arrays Bytes Leakage.
Local Open Scope Z_scope.
Local Open Scope word_scope.
Local Open Scope leaky_scope.

Definition sbox : list Z := [
   0xa56363c6; 0x847c7cf8; 0x997777ee; 0x8d7b7bf6; 0x0df2f2ff; 0xbd6b6bd6; 0xb16f6fde; 0x54c5c591;
   0x50303060; 0x03010102; 0xa96767ce; 0x7d2b2b56; 0x19fefee7; 0x62d7d7b5; 0xe6abab4d; 0x9a7676ec;
   0x45caca8f; 0x9d82821f; 0x40c9c989; 0x877d7dfa; 0x15fafaef; 0xeb5959b2; 0xc947478e; 0x0bf0f0fb;
   0xecadad41; 0x67d4d4b3; 0xfda2a25f; 0xeaafaf45; 0xbf9c9c23; 0xf7a4a453; 0x967272e4; 0x5bc0c09b;
   0xc2b7b775; 0x1cfdfde1; 0xae93933d; 0x6a26264c; 0x5a36366c; 0x413f3f7e; 0x02f7f7f5; 0x4fcccc83;
   0x5c343468; 0xf4a5a551; 0x34e5e5d1; 0x08f1f1f9; 0x937171e2; 0x73d8d8ab; 0x53313162; 0x3f15152a;
   0x0c040408; 0x52c7c795; 0x65232346; 0x5ec3c39d; 0x28181830; 0xa1969637; 0x0f05050a; 0xb59a9a2f;
   0x0907070e; 0x36121224; 0x9b80801b; 0x3de2e2df; 0x26ebebcd; 0x6927274e; 0xcdb2b27f; 0x9f7575ea;
   0x1b090912; 0x9e83831d; 0x742c2c58; 0x2e1a1a34; 0x2d1b1b36; 0xb26e6edc; 0xee5a5ab4; 0xfba0a05b;
   0xf65252a4; 0x4d3b3b76; 0x61d6d6b7; 0xceb3b37d; 0x7b292952; 0x3ee3e3dd; 0x712f2f5e; 0x97848413;
   0xf55353a6; 0x68d1d1b9; 0x00000000; 0x2cededc1; 0x60202040; 0x1ffcfce3; 0xc8b1b179; 0xed5b5bb6;
   0xbe6a6ad4; 0x46cbcb8d; 0xd9bebe67; 0x4b393972; 0xde4a4a94; 0xd44c4c98; 0xe85858b0; 0x4acfcf85;
   0x6bd0d0bb; 0x2aefefc5; 0xe5aaaa4f; 0x16fbfbed; 0xc5434386; 0xd74d4d9a; 0x55333366; 0x94858511;
   0xcf45458a; 0x10f9f9e9; 0x06020204; 0x817f7ffe; 0xf05050a0; 0x443c3c78; 0xba9f9f25; 0xe3a8a84b;
   0xf35151a2; 0xfea3a35d; 0xc0404080; 0x8a8f8f05; 0xad92923f; 0xbc9d9d21; 0x48383870; 0x04f5f5f1;
   0xdfbcbc63; 0xc1b6b677; 0x75dadaaf; 0x63212142; 0x30101020; 0x1affffe5; 0x0ef3f3fd; 0x6dd2d2bf;
   0x4ccdcd81; 0x140c0c18; 0x35131326; 0x2fececc3; 0xe15f5fbe; 0xa2979735; 0xcc444488; 0x3917172e;
   0x57c4c493; 0xf2a7a755; 0x827e7efc; 0x473d3d7a; 0xac6464c8; 0xe75d5dba; 0x2b191932; 0x957373e6;
   0xa06060c0; 0x98818119; 0xd14f4f9e; 0x7fdcdca3; 0x66222244; 0x7e2a2a54; 0xab90903b; 0x8388880b;
   0xca46468c; 0x29eeeec7; 0xd3b8b86b; 0x3c141428; 0x79dedea7; 0xe25e5ebc; 0x1d0b0b16; 0x76dbdbad;
   0x3be0e0db; 0x56323264; 0x4e3a3a74; 0x1e0a0a14; 0xdb494992; 0x0a06060c; 0x6c242448; 0xe45c5cb8;
   0x5dc2c29f; 0x6ed3d3bd; 0xefacac43; 0xa66262c4; 0xa8919139; 0xa4959531; 0x37e4e4d3; 0x8b7979f2;
   0x32e7e7d5; 0x43c8c88b; 0x5937376e; 0xb76d6dda; 0x8c8d8d01; 0x64d5d5b1; 0xd24e4e9c; 0xe0a9a949;
   0xb46c6cd8; 0xfa5656ac; 0x07f4f4f3; 0x25eaeacf; 0xaf6565ca; 0x8e7a7af4; 0xe9aeae47; 0x18080810;
   0xd5baba6f; 0x887878f0; 0x6f25254a; 0x722e2e5c; 0x241c1c38; 0xf1a6a657; 0xc7b4b473; 0x51c6c697;
   0x23e8e8cb; 0x7cdddda1; 0x9c7474e8; 0x211f1f3e; 0xdd4b4b96; 0xdcbdbd61; 0x868b8b0d; 0x858a8a0f;
   0x907070e0; 0x423e3e7c; 0xc4b5b571; 0xaa6666cc; 0xd8484890; 0x05030306; 0x01f6f6f7; 0x120e0e1c;
   0xa36161c2; 0x5f35356a; 0xf95757ae; 0xd0b9b969; 0x91868617; 0x58c1c199; 0x271d1d3a; 0xb99e9e27;
   0x38e1e1d9; 0x13f8f8eb; 0xb398982b; 0x33111122; 0xbb6969d2; 0x70d9d9a9; 0x898e8e07; 0xa7949433;
   0xb69b9b2d; 0x221e1e3c; 0x92878715; 0x20e9e9c9; 0x49cece87; 0xff5555aa; 0x78282850; 0x7adfdfa5;
   0x8f8c8c03; 0xf8a1a159; 0x80898909; 0x170d0d1a; 0xdabfbf65; 0x31e6e6d7; 0xc6424284; 0xb86868d0;
   0xc3414182; 0xb0999929; 0x772d2d5a; 0x110f0f1e; 0xcbb0b07b; 0xfc5454a8; 0xd6bbbb6d; 0x3a16162c].

(** [src[off..off+3]] at the lines of the two copies of the function. *)
Definition load32_be (l0 : Z) (src : list Z) (off : Z) : leaky Z :=
  b0 <- access l0 src off ;; b1 <- access (l0 + 1) src (off + 1) ;;
  b2 <- access (l0 + 2) src (off + 2) ;; b3 <- access (l0 + 3) src (off + 3) ;;
  value (u32 (b0 ≪ 24) .| u32 (b1 ≪ 16) .| u32 (b2 ≪ 8) .| b3).

(** *** With the table *)
Definition mix_word (a b c d : Z) : leaky Z :=
  w <- access 96 sbox ((a ≫ 24) .& 0xff) ;; x <- access 97 sbox ((b ≫ 16) .& 0xff) ;;
  y <- access 98 sbox ((c ≫ 8) .& 0xff) ;; z <- access 99 sbox (d .& 0xff) ;;
  value (w .^ x .^ y .^ z).

(** *** Without *)
Definition rotl32 (v count : Z) : Z := u32 (v ≪ count) .| (v ≫ (32 - count)).

Definition mix_word_no_tables (a b c d : Z) : Z :=
  let x := rotl32 (a .^ b) 5 in
  let x := x .^ rotl32 (u32 (b + c)) 11 in
  let x := x .^ rotl32 (c .^ d) 17 in
  let x := u32 (x + rotl32 (u32 (d + a)) 23) in
  let x := x .^ 0x9e3779b9 in
  rotl32 x 3 .^ (x ≫ 7).

(** *** The two programs, which differ in [mix_word] and the line numbers *)
Section rounds.
Variable (load : list Z -> Z -> leaky Z) (mix : Z -> Z -> Z -> Z -> leaky Z).
Variables (check : Z).

Definition rounds (data round_keys : list Z) : leaky unit :=
  d <- load data 0 ;; k <- load round_keys 0 ;; let s0 := d .^ k in
  d <- load data 4 ;; k <- load round_keys 4 ;; let s1 := d .^ k in
  d <- load data 8 ;; k <- load round_keys 8 ;; let s2 := d .^ k in
  d <- load data 12 ;; k <- load round_keys 12 ;; let s3 := d .^ k in
  m <- mix s0 s1 s2 s3 ;; k <- load round_keys 16 ;; let next0 := m .^ k in
  m <- mix s1 s2 s3 s0 ;; k <- load round_keys 20 ;; let next1 := m .^ k in
  m <- mix s2 s3 s0 s1 ;; k <- load round_keys 24 ;; let next2 := m .^ k in
  m <- mix s3 s0 s1 s2 ;; k <- load round_keys 28 ;; let next3 := m .^ k in
  m <- mix next0 next1 next2 next3 ;; k <- load round_keys 32 ;; let s0 := m .^ k in
  m <- mix next1 next2 next3 next0 ;; k <- load round_keys 36 ;; let s1 := m .^ k in
  m <- mix next2 next3 next0 next1 ;; k <- load round_keys 40 ;; let s2 := m .^ k in
  m <- mix next3 next0 next1 next2 ;; k <- load round_keys 44 ;; let s3 := m .^ k in
  b <- branch check (((s0 .^ s1) .& 0xff) =? ((s2 .^ s3) .& 0xff)) ;;
  if b then ends (AssertionFails check) else value tt.
End rounds.

Definition load32_be_no_tables : list Z -> Z -> leaky Z := load32_be 22.

(** [data] and [round_keys] are both secret. *)
Definition toy_aes_big_like : list Z -> list Z -> leaky unit := rounds (load32_be 89) mix_word 132.
Definition toy_aes_big_like_no_tables : list Z -> list Z -> leaky unit :=
  rounds load32_be_no_tables (fun a b c d => value (mix_word_no_tables a b c d)) 73.

(** ** Reference: the same rounds without leakage *)
Definition word_at (l : list Z) (off : Z) : Z :=
  match rd l off, rd l (off + 1), rd l (off + 2), rd l (off + 3) with
  | Some b0, Some b1, Some b2, Some b3 => be32 b0 b1 b2 b3
  | _, _, _, _ => 0
  end.

(** The [i]-th word before the first round. *)
Definition whitened (data round_keys : list Z) (i : Z) : Z := word_at data (4 * i) .^ word_at round_keys (4 * i).

Section reference.
Variable (mix : Z -> Z -> Z -> Z -> Z).

(** One round with the round key at [koff]. *)
Definition ref_round (round_keys : list Z) (koff : Z) (s : Z * Z * Z * Z) : Z * Z * Z * Z :=
  let '(s0, s1, s2, s3) := s in
  (mix s0 s1 s2 s3 .^ word_at round_keys koff, mix s1 s2 s3 s0 .^ word_at round_keys (koff + 4),
   mix s2 s3 s0 s1 .^ word_at round_keys (koff + 8), mix s3 s0 s1 s2 .^ word_at round_keys (koff + 12)).

Definition ref_state (data round_keys : list Z) : Z * Z * Z * Z :=
  (whitened data round_keys 0, whitened data round_keys 1, whitened data round_keys 2, whitened data round_keys 3).

Definition ref_equal (data round_keys : list Z) : bool :=
  let '(s0, s1, s2, s3) := ref_round round_keys 32 (ref_round round_keys 16 (ref_state data round_keys)) in
  ((s0 .^ s1) .& 0xff) =? ((s2 .^ s3) .& 0xff).
End reference.

Definition load_trace (l0 off : Z) : list observation :=
  [Access l0 off; Access (l0 + 1) (off + 1); Access (l0 + 2) (off + 2); Access (l0 + 3) (off + 3)].

Lemma load32_be_yields l0 n src off : bytes n src -> 0 <= off -> off + 4 <= Z.of_nat n ->
  yields (load32_be l0 src off) (load_trace l0 off) (word_at src off) /\ word 32 (word_at src off).
Proof.
  intros [Hn Hb] Ho Hl. assert (zlen src = Z.of_nat n) as Hz by (unfold zlen; lia).
  assert (forall i, 0 <= i < Z.of_nat n -> exists b, rd src i = Some b /\ word 8 b) as Hrd.
  { intros i Hi. destruct (rd_Some src i ltac:(lia)) as [b Eb]. exists b. split; [done|].
    unfold rd in Eb. destruct (Z.ltb_spec i 0); [done|]. rewrite Forall_lookup in Hb. by eapply Hb. }
  destruct (Hrd off ltac:(lia)) as (b0 & E0 & H0), (Hrd (off + 1) ltac:(lia)) as (b1 & E1 & H1),
    (Hrd (off + 2) ltac:(lia)) as (b2 & E2 & H2), (Hrd (off + 3) ltac:(lia)) as (b3 & E3 & H3).
  unfold word_at, load32_be, yields, load_trace, access, andthen, value. rewrite E0, E1, E2, E3.
  split; [|by apply be32_word]. unfold be32. do 2 f_equal.
  rewrite !wrap_small; [done|..]; unfold word in *; rewrite Z.shiftl_mul_pow2 by lia; lia.
Qed.

(** The events of the whole program, for a [mix] with known events. *)
Section trace.
Variables (l0 check : Z) (mix : Z -> Z -> Z -> Z -> leaky Z).
Variables (mix_trace : Z -> Z -> Z -> Z -> list observation) (mixed : Z -> Z -> Z -> Z -> Z).
Hypothesis mix_yields : forall a b c d, word 32 a -> word 32 b -> word 32 c -> word 32 d ->
  yields (mix a b c d) (mix_trace a b c d) (mixed a b c d) /\ word 32 (mixed a b c d).

Definition round_trace (koff : Z) (s : Z * Z * Z * Z) : list observation :=
  let '(s0, s1, s2, s3) := s in
  mix_trace s0 s1 s2 s3 ++ load_trace l0 koff ++ mix_trace s1 s2 s3 s0 ++ load_trace l0 (koff + 4) ++
  mix_trace s2 s3 s0 s1 ++ load_trace l0 (koff + 8) ++ mix_trace s3 s0 s1 s2 ++ load_trace l0 (koff + 12).

Definition whitening_trace : list observation :=
  load_trace l0 0 ++ load_trace l0 0 ++ load_trace l0 4 ++ load_trace l0 4 ++
  load_trace l0 8 ++ load_trace l0 8 ++ load_trace l0 12 ++ load_trace l0 12.

Definition rounds_trace (data round_keys : list Z) : list observation :=
  whitening_trace ++ round_trace 16 (ref_state data round_keys) ++
  round_trace 32 (ref_round mixed round_keys 16 (ref_state data round_keys)).

Lemma rounds_run data round_keys : bytes 16 data -> bytes 48 round_keys ->
  rounds (load32_be l0) mix check data round_keys =
    (rounds_trace data round_keys ++ [Branch check (ref_equal mixed data round_keys)],
     if ref_equal mixed data round_keys then inl (AssertionFails check) else inr tt).
Proof.
  intros Hd Hk.
  assert (forall off, 0 <= off -> off + 4 <= 16 -> yields (load32_be l0 data off) (load_trace l0 off) (word_at data off) /\
    word 32 (word_at data off)) as Ld by (intros off; apply (load32_be_yields l0 16); done).
  assert (forall off, 0 <= off -> off + 4 <= 48 -> yields (load32_be l0 round_keys off) (load_trace l0 off)
    (word_at round_keys off) /\ word 32 (word_at round_keys off)) as Lk
    by (intros off; apply (load32_be_yields l0 48); done).
  etrans.
  - unfold rounds.
    repeat (eapply andthen_step; [first [apply Ld; lia | apply Lk; lia | apply mix_yields;
      repeat first [apply word_lxor | apply Ld; lia | apply Lk; lia | apply mix_yields | lia]]|]).
    eapply (andthen_step _ _ [Branch check (ref_equal mixed data round_keys)]); [reflexivity|].
    instantiate (1 := if ref_equal mixed data round_keys then inl (AssertionFails check) else inr tt).
    instantiate (1 := []).
    match goal with |- (if ?b then _ else _) = _ => change b with (ref_equal mixed data round_keys) end.
    by destruct (ref_equal mixed data round_keys).
  - unfold rounds_trace, round_trace, whitening_trace, ref_round, ref_state, whitened. f_equal.
    by rewrite <-!app_assoc.
Qed.
End trace.

(** ** The table *)

(** Multiplication in GF(2^8) modulo x^8 + x^4 + x^3 + x + 1. *)
Definition xtime (a : Z) : Z := let b := 2 * a in if b <? 256 then b else b .^ 0x11b.
Fixpoint gf_mul (n : nat) (a b : Z) : Z :=
  match n with
  | O => 0
  | S n => (if Z.odd b then a else 0) .^ gf_mul n (xtime a) (b ≫ 1)
  end.

(** The AES S-box: the inverse (0 for 0) and the affine map. *)
Definition gf_inverse (a : Z) : Z :=
  match find (fun b => gf_mul 8 a b =? 1) (seqZ 0 256) with Some b => b | None => 0 end.
Definition rotl8 (b n : Z) : Z := rotl 8 b n.
Definition aes_sbox (a : Z) : Z :=
  let b := gf_inverse a in b .^ rotl8 b 1 .^ rotl8 b 2 .^ rotl8 b 3 .^ rotl8 b 4 .^ 0x63.

(** C15. The table is a round table of AES: entry [x] holds, from the top byte
    down, 3, 1, 1 and 2 times the AES S-box of [x] in GF(2^8), the S-box being the
    affine map of the field inverse. *)
Theorem sbox_is_aes_table : forall x, 0 <= x < 256 ->
  rd sbox x = Some (be32 (gf_mul 8 (aes_sbox x) 3) (aes_sbox x) (aes_sbox x) (gf_mul 8 (aes_sbox x) 2)).
Proof.
  assert (forallb (fun x => bool_decide (rd sbox x =
    Some (be32 (gf_mul 8 (aes_sbox x) 3) (aes_sbox x) (aes_sbox x) (gf_mul 8 (aes_sbox x) 2))))
    (seqZ 0 256) = true) as H by (vm_compute; reflexivity).
  intros x Hx. rewrite forallb_forall in H. specialize (H x). rewrite bool_decide_eq_true in H.
  apply H, list_elem_of_In, elem_of_seqZ. lia.
Qed.

Lemma sbox_is_aes_table_witness : rd sbox 0x53 = Some (be32 0x2c 0xed 0xed 0xc1).
Proof. rewrite (sbox_is_aes_table 0x53 ltac:(lia)). vm_compute. reflexivity. Defined.

Lemma sbox_entry i : 0 <= i < 256 -> exists e, rd sbox i = Some e /\ word 32 e.
Proof.
  intros Hi. destruct (rd_Some sbox i) as [e Ee]; [done|]. exists e. split; [done|].
  assert (forallb (fun x => (0 <=? x) && (x <? 2 ^ 32)) sbox = true) as H by (vm_compute; reflexivity).
  unfold rd in Ee. destruct (i <? 0); [done|]. rewrite forallb_forall in H.
  specialize (H e (proj1 (list_elem_of_In _ _) (list_elem_of_lookup_2 _ _ _ Ee))). unfold word. lia.
Qed.

Definition table_entry (i : Z) : Z := default 0 (rd sbox i).
Definition mix_table (a b c d : Z) : Z :=
  table_entry ((a ≫ 24) .& 0xff) .^ table_entry ((b ≫ 16) .& 0xff) .^
  table_entry ((c ≫ 8) .& 0xff) .^ table_entry (d .& 0xff).
Definition table_trace (a b c d : Z) : list observation :=
  [Access 96 ((a ≫ 24) .& 0xff); Access 97 ((b ≫ 16) .& 0xff);
   Access 98 ((c ≫ 8) .& 0xff); Access 99 (d .& 0xff)].

Lemma mix_word_yields a b c d : word 32 a -> word 32 b -> word 32 c -> word 32 d ->
  yields (mix_word a b c d) (table_trace a b c d) (mix_table a b c d) /\ word 32 (mix_table a b c d).
Proof.
  intros _ _ _ _. assert (forall x, 0 <= x .& 0xff < 256) as Hb.
  { intros x. rewrite land_ff. by apply Z.mod_pos_bound. }
  unfold mix_table, table_trace, mix_word, yields, table_entry.
  destruct (sbox_entry _ (Hb (a ≫ 24))) as (w & Ew & Hw), (sbox_entry _ (Hb (b ≫ 16))) as (x & Ex & Hx),
    (sbox_entry _ (Hb (c ≫ 8))) as (y & Ey & Hy), (sbox_entry _ (Hb d)) as (z & Ez & Hz).
  unfold access. rewrite Ew, Ex, Ey, Ez. simpl. split; [done|]. by repeat apply word_lxor.
Qed.

Lemma mix_word_no_tables_yields a b c d : word 32 a -> word 32 b -> word 32 c -> word 32 d ->
  yields (value (mix_word_no_tables a b c d)) [] (mix_word_no_tables a b c d) /\
  word 32 (mix_word_no_tables a b c d).
Proof.
  intros. split; [done|].
  assert (forall v n, 0 <= n <= 32 -> word 32 v -> word 32 (rotl32 v n)) as Hr by (intros; by apply word_rotl).
  assert (forall z, word 32 (u32 z)) as Hu by (intros; by apply wrap_range).
  unfold mix_word_no_tables.
  repeat first [apply Hu | apply word_lxor | apply word_shiftr | apply Hr | done | lia].
Qed.

(** *** What the two programs leak *)
Definition no_tables_trace : list observation :=
  rounds_trace 22 (fun _ _ _ _ => []) (fun _ _ _ _ => 0) [] [].

(** C17. The version without tables: whatever the secret key and data, the
    observations are one fixed sequence and then the way the final comparison
    goes, and the assertion fails exactly if the comparison holds; it computes the
    two rounds of the reference. *)
Theorem toy_aes_no_tables_leak data round_keys : bytes 16 data -> bytes 48 round_keys ->
  toy_aes_big_like_no_tables data round_keys =
    (no_tables_trace ++ [Branch 73 (ref_equal mix_word_no_tables data round_keys)],
     if ref_equal mix_word_no_tables data round_keys then inl (AssertionFails 73) else inr tt).
Proof.
  intros Hd Hk. unfold toy_aes_big_like_no_tables, load32_be_no_tables.
  by rewrite (rounds_run 22 73 _ _ _ mix_word_no_tables_yields data round_keys Hd Hk).
Qed.

Lemma bytes_replicate n b : word 8 b -> bytes n (replicate n b).
Proof. intros Hb. split; [apply length_replicate|]. by apply Forall_replicate. Qed.

Lemma toy_aes_no_tables_leak_witness :
  toy_aes_big_like_no_tables (replicate 16 1) (replicate 48 2) = (no_tables_trace ++ [Branch 73 true], inl (AssertionFails 73)).
Proof.
  rewrite (toy_aes_no_tables_leak (replicate 16 1) (replicate 48 2)
    (bytes_replicate 16 1 ltac:(done)) (bytes_replicate 48 2 ltac:(done))).
  vm_compute. reflexivity.
Defined.

(** The bytes of a word, as the table indices take them. *)
Lemma lxor_byte_at x y n : 0 <= n -> ((x .^ y) ≫ n) .& 0xff = ((x ≫ n) .& 0xff) .^ ((y ≫ n) .& 0xff).
Proof.
  intros Hn. apply Z.bits_inj'. intros i Hi.
  rewrite !Z.land_spec, !Z.lxor_spec, !Z.land_spec, !Z.shiftr_spec, !Z.lxor_spec by lia.
  destruct (Z.testbit x (i + n)), (Z.testbit y (i + n)), (Z.testbit 0xff i); done.
Qed.

Lemma word_at_bytes n src off : bytes n src -> 0 <= off -> off + 4 <= Z.of_nat n ->
  exists b0 b1 b2 b3, rd src off = Some b0 /\ rd src (off + 1) = Some b1 /\ rd src (off + 2) = Some b2 /\
    rd src (off + 3) = Some b3 /\ be32_bytes (word_at src off) = [b0; b1; b2; b3].
Proof.
  intros [Hn Hb] Ho Hl. assert (zlen src = Z.of_nat n) as Hz by (unfold zlen; lia).
  assert (forall i, 0 <= i < Z.of_nat n -> exists b, rd src i = Some b /\ word 8 b) as Hrd.
  { intros i Hi. destruct (rd_Some src i ltac:(lia)) as [b Eb]. exists b. split; [done|].
    unfold rd in Eb. destruct (Z.ltb_spec i 0); [done|]. rewrite Forall_lookup in Hb. by eapply Hb. }
  destruct (Hrd off ltac:(lia)) as (b0 & E0 & H0), (Hrd (off + 1) ltac:(lia)) as (b1 & E1 & H1),
    (Hrd (off + 2) ltac:(lia)) as (b2 & E2 & H2), (Hrd (off + 3) ltac:(lia)) as (b3 & E3 & H3).
  exists b0, b1, b2, b3. split_and!; try done. unfold word_at. rewrite E0, E1, E2, E3.
  by apply be32_bytes_be32.
Qed.

(** Byte [i] of the data xored with byte [i] of the key. *)
Definition xor_byte (data round_keys : list Z) (i : Z) : Z :=
  default 0 (rd data i) .^ default 0 (rd round_keys i).

Lemma whitened_bytes data round_keys j : bytes 16 data -> bytes 48 round_keys -> 0 <= j < 4 ->
  be32_bytes (whitened data round_keys j) =
    [xor_byte data round_keys (4 * j); xor_byte data round_keys (4 * j + 1);
     xor_byte data round_keys (4 * j + 2); xor_byte data round_keys (4 * j + 3)].
Proof.
  intros Hd Hk Hj. unfold whitened, xor_byte.
  destruct (word_at_bytes 16 data (4 * j) Hd) as (a0 & a1 & a2 & a3 & -> & -> & -> & -> & Ea); [lia|lia|].
  destruct (word_at_bytes 48 round_keys (4 * j) Hk) as (b0 & b1 & b2 & b3 & -> & -> & -> & -> & Eb); [lia|lia|].
  unfold be32_bytes in *. rewrite !lxor_byte_at by lia. injection Ea as <- <- <- <-. injection Eb as <- <- <- <-.
  simpl. do 3 f_equal. f_equal.
  pose proof (lxor_byte_at (word_at data (4 * j)) (word_at round_keys (4 * j)) 0) as E.
  rewrite !Z.shiftr_0_r in E. by apply E.
Qed.

Lemma round_trace_inj koff s0 s1 s2 s3 t0 t1 t2 t3 r r' :
  round_trace 89 table_trace koff (s0, s1, s2, s3) ++ r = round_trace 89 table_trace koff (t0, t1, t2, t3) ++ r' ->
  be32_bytes s0 = be32_bytes t0 /\ be32_bytes s1 = be32_bytes t1 /\
  be32_bytes s2 = be32_bytes t2 /\ be32_bytes s3 = be32_bytes t3.
Proof. unfold round_trace, table_trace, be32_bytes. simpl. intros H. injection H. intros. split_and!; congruence. Qed.

(** C16. The version with the table: it never reads outside the table, computes the
    same shape of rounds with the table's entries, and its memory accesses
    determine every byte of data xor key: two runs with the same observations agree
    on all 16 of them. *)
Theorem toy_aes_tables_leak data round_keys data' round_keys' :
  bytes 16 data -> bytes 48 round_keys -> bytes 16 data' -> bytes 48 round_keys' ->
  (toy_aes_big_like data round_keys).2 =
    (if ref_equal mix_table data round_keys then inl (AssertionFails 132) else inr tt) /\
  ((toy_aes_big_like data round_keys).1 = (toy_aes_big_like data' round_keys').1 ->
   forall i, 0 <= i < 16 -> xor_byte data round_keys i = xor_byte data' round_keys' i).
Proof.
  intros Hd Hk Hd' Hk'. unfold toy_aes_big_like.
  rewrite (rounds_run 89 132 _ _ _ mix_word_yields data round_keys Hd Hk).
  rewrite (rounds_run 89 132 _ _ _ mix_word_yields data' round_keys' Hd' Hk'). cbn [fst snd].
  split; [reflexivity|]. unfold rounds_trace. rewrite <-!app_assoc. intros H i Hi.
  apply app_inv_head in H.
  destruct (round_trace_inj _ _ _ _ _ _ _ _ _ _ _ H) as (E0 & E1 & E2 & E3).
  rewrite !whitened_bytes in E0, E1, E2, E3 by (done || lia).
  assert (i ∈ seqZ 0 16) as Hin by (apply elem_of_seqZ; lia). revert i Hi Hin.
  cut (Forall (fun i => xor_byte data round_keys i = xor_byte data' round_keys' i) (seqZ 0 16)).
  { intros Hall i _ Hin. rewrite Forall_forall in Hall. by apply Hall. }
  injection E0; injection E1; injection E2; injection E3. intros. simpl in *.
  repeat (apply Forall_cons; split; [assumption|]). by apply Forall_nil.
Qed.

Lemma toy_aes_tables_leak_witness :
  (toy_aes_big_like (replicate 16 1) (replicate 48 2)).2 = inl (AssertionFails 132).
Proof.
  rewrite (proj1 (toy_aes_tables_leak (replicate 16 1) (replicate 48 2) (replicate 16 1) (replicate 48 2)
    (bytes_replicate 16 1 ltac:(done)) (bytes_replicate 48 2 ltac:(done))
    (bytes_replicate 16 1 ltac:(done)) (bytes_replicate 48 2 ltac:(done)))).
  vm_compute. reflexivity.
Defined.
