(* ===== verification/BitLength.v ===== *)
(** * The bit-length demo: [examples/is_bit_set.c] and [is_bit_set_no_sc.c].

    OpenSSL's branch-free word length, the length of a number in an array of
    words, and the test of its top bit, against [Z.log2] and [Z.testbit]; and what
    the two programs leak. *)
From S2P Require Import Prelude Arrays Bytes Leakage.
Local Open Scope Z_scope.
Local Open Scope word_scope.
Local Open Scope leaky_scope.

Definition BN_BITS2 : Z := 32.
Definition BN_MASK2 : Z := 0xffffffff.

(** [n] is an [int], converted to [size_t] by [sizeof]; [a[i] >> j] is on [int]. *)
Definition isBitSet (a : list Z) (n : Z) : leaky Z :=
  let i := s32 (u64 n / (4 * 8)) in
  let j := s32 (u64 n mod (4 * 8)) in
  w <- access 14 a i ;;
  value ((w ≫ j) .& 1).

(** One of the five steps: is there a bit above the lowest [k]? *)
Definition num_bits_step (k : Z) (s : Z * Z) : Z * Z :=
  let '(l, bits) := s in
  let x := l ≫ k in
  let mask := u32 (0 - x) .& BN_MASK2 in
  let mask := u32 (0 - (mask ≫ (BN_BITS2 - 1))) in
  let bits := s32 (bits + (k .& mask)) in
  (l .^ ((x .^ l) .& mask), bits).

Definition BN_num_bits_word_mimic (l : Z) : Z :=
  let bits := if negb (l =? 0) then 1 else 0 in
  (num_bits_step 1 (num_bits_step 2 (num_bits_step 4 (num_bits_step 8 (num_bits_step 16 (l, bits)))))).2.

(** The scan for the top word, from [i] down. *)
Fixpoint top_word (fuel : nat) (a : list Z) (i : Z) : leaky Z :=
  nonneg <- branch 71 (0 <=? i) ;;
  if negb nonneg then value i else
  match fuel with
  | O => ends (OutOfBounds 71)
  | S fuel =>
      w <- access 71 a i ;;
      zero <- branch 71 (w =? 0) ;;
      if zero then top_word fuel a (i - 1) else value i
  end.

Definition bitLen_openSSL_style (a : list Z) (size : Z) : leaky Z :=
  i <- top_word (Z.to_nat size) a (size - 1) ;;
  neg <- branch 75 (i <? 0) ;;
  if neg then value 0 else
  w <- access 78 a i ;;
  value (s32 (s32 (i * BN_BITS2) + BN_num_bits_word_mimic (u32 w))).

(** [x[0] |= 0x80000000]. *)
Definition set_low_top_bit (line : Z) (x : list Z) : leaky (list Z) :=
  w <- access line x 0 ;; store line x 0 (s32 (u32 w .| 0x80000000)).

Definition is_bit_set_main (input : list Z) : leaky Z :=
  input <- set_low_top_bit 88 input ;;
  len <- bitLen_openSSL_style input 2 ;;
  b <- isBitSet input (s32 (len - 1)) ;;
  _taken <- branch 94 (negb (b =? 0)) ;;
  value 0.

(** [is_bit_set_no_sc.c] has the functions of [is_bit_set.c], line by line. *)
Definition isBitSet_no_sc : list Z -> Z -> leaky Z := isBitSet.
Definition BN_num_bits_word_mimic_no_sc : Z -> Z := BN_num_bits_word_mimic.
Definition bitLen_openSSL_style_no_sc : list Z -> Z -> leaky Z := bitLen_openSSL_style.

Definition is_bit_set_no_sc_main (in1 in2 : list Z) : leaky Z :=
  in1 <- set_low_top_bit 89 in1 ;;
  in2 <- set_low_top_bit 90 in2 ;;
  len1 <- bitLen_openSSL_style_no_sc in1 2 ;;
  len2 <- bitLen_openSSL_style_no_sc in2 2 ;;
  b1 <- isBitSet_no_sc in1 (s32 (len1 - 1)) ;;
  b2 <- isBitSet_no_sc in2 (s32 (len2 - 1)) ;;
  _taken <- branch 97 (b1 =? b2) ;;
  value 0.

(** ** Lengths *)
Definition num_bits (v : Z) : Z := if v =? 0 then 0 else Z.log2 v + 1.

Lemma num_bits_step_spec k l bits : 0 < k <= 16 -> 0 <= l < 2 ^ (2 * k) -> 0 <= bits <= 64 ->
  num_bits_step k (l, bits) = if l <? 2 ^ k then (l, bits) else (l ≫ k, bits + k).
Proof.
  intros Hk Hl Hb. unfold num_bits_step. cbv zeta.
  assert (0 < 2 ^ k) as Hp by (apply Z.pow_pos_nonneg; lia).
  assert (2 ^ (2 * k) = 2 ^ k * 2 ^ k) as E2 by (rewrite <-Z.pow_add_r by lia; f_equal; lia).
  assert (2 ^ k <= 2 ^ 16) as Hk16 by (apply Z.pow_le_mono_r; lia).
  assert (0 <= l ≫ k < 2 ^ k) as Hx.
  { rewrite Z.shiftr_div_pow2 by lia. split; [apply Z.div_pos; lia|]. apply Z.div_lt_upper_bound; lia. }
  set (x := l ≫ k) in *.
  assert (u32 (0 - ((u32 (0 - x) .& BN_MASK2) ≫ (BN_BITS2 - 1))) = if l <? 2 ^ k then 0 else BN_MASK2) as ->.
  { change BN_MASK2 with (2 ^ 32 - 1). rewrite land_mask, wrap_wrap by lia.
    change (BN_BITS2 - 1) with (32 - 1). rewrite shiftr_top by (try apply wrap_range; lia).
    destruct (Z.ltb_spec l (2 ^ k)) as [Hlt|Hge].
    - assert (x = 0) as -> by (subst x; rewrite Z.shiftr_div_pow2 by lia; apply Z.div_small; lia). done.
    - assert (1 <= x) as Hx1.
      { subst x. rewrite Z.shiftr_div_pow2 by lia. apply Z.div_le_lower_bound; lia. }
      assert (u32 (0 - x) = 2 ^ 32 - x) as ->.
      { unfold wrap. rewrite <-(Z.mod_add _ 1) by lia. rewrite Z.mod_small; lia. }
      replace (2 ^ (32 - 1) <=? 2 ^ 32 - x) with true by lia. done. }
  destruct (Z.ltb_spec l (2 ^ k)) as [Hlt|Hge].
  - by rewrite !Z.land_0_r, Z.lxor_0_r, Z.add_0_r, sgn_small by (unfold sword; lia).
  - change BN_MASK2 with (2 ^ 32 - 1). rewrite !land_mask by lia.
    assert (word 32 l) as Hlw by (unfold word; nia). assert (word 32 x) as Hxw by (unfold word; lia).
    rewrite (wrap_small 32 k), (wrap_small 32 (x .^ l)) by (first [apply word_lxor; [lia|done..] | unfold word; lia]).
    rewrite sgn_small by (unfold sword; lia). f_equal.
    by rewrite (Z.lxor_comm x l), lxor_cancel_l.
Qed.

(** A step keeps the number of bits above the found ones. *)
Lemma num_bits_step_log k l bits : 0 < k <= 16 -> 0 <= l < 2 ^ (2 * k) -> 0 <= bits <= 64 ->
  exists l', num_bits_step k (l, bits) = (l', bits + Z.log2 l - Z.log2 l') /\ 0 <= l' < 2 ^ k /\
    (l' = 0 <-> l = 0) /\ 0 <= Z.log2 l - Z.log2 l' <= k.
Proof.
  intros Hk Hl Hb. rewrite num_bits_step_spec by done.
  assert (0 < 2 ^ k) as Hp by (apply Z.pow_pos_nonneg; lia).
  assert (2 ^ (2 * k) = 2 ^ k * 2 ^ k) as E2 by (rewrite <-Z.pow_add_r by lia; f_equal; lia).
  destruct (Z.ltb_spec l (2 ^ k)) as [Hlt|Hge].
  - exists l. split_and!; [f_equal; lia|lia..].
  - assert (k <= Z.log2 l) as Hlog by (apply Z.log2_le_pow2; lia).
    assert (Z.log2 (l ≫ k) = Z.log2 l - k) as Es by (rewrite Z.log2_shiftr by lia; lia).
    assert (0 < l ≫ k < 2 ^ k) as Hx.
    { rewrite Z.shiftr_div_pow2 by lia. split; [apply Z.div_str_pos; lia|apply Z.div_lt_upper_bound; lia]. }
    exists (l ≫ k). rewrite Es. split_and!; [f_equal; lia|lia..].
Qed.

Lemma BN_num_bits_word_mimic_num_bits l : word 32 l -> BN_num_bits_word_mimic l = num_bits l.
Proof.
  intros Hl. unfold word in Hl. unfold BN_num_bits_word_mimic, num_bits.
  assert (0 <= (if negb (l =? 0) then 1 else 0) <= 1) as Hb by (destruct (l =? 0); simpl; lia).
  set (b := if negb (l =? 0) then 1 else 0) in *.
  destruct (num_bits_step_log 16 l b) as (l1 & -> & H1 & Z1 & D1); [lia..|].
  destruct (num_bits_step_log 8 l1 (b + Z.log2 l - Z.log2 l1)) as (l2 & -> & H2 & Z2 & D2); [lia..|].
  destruct (num_bits_step_log 4 l2 (b + Z.log2 l - Z.log2 l1 + Z.log2 l1 - Z.log2 l2))
    as (l3 & -> & H3 & Z3 & D3); [lia..|].
  edestruct (num_bits_step_log 2 l3) as (l4 & -> & H4 & Z4 & D4); [lia..|].
  edestruct (num_bits_step_log 1 l4) as (l5 & -> & H5 & Z5 & D5); [lia..|]. simpl.
  assert (Z.log2 l5 = 0) as -> by (destruct (decide (l5 = 0)) as [->|]; [done|by replace l5 with 1 by lia]).
  subst b. destruct (Z.eqb_spec l 0) as [->|Hne]; simpl; lia.
Qed.

(** ** The number in the array, least word first *)
Fixpoint number (a : list Z) : Z :=
  match a with [] => 0 | w :: a => u32 w + 2 ^ 32 * number a end.

Lemma number_range a : 0 <= number a < 2 ^ (32 * zlen a).
Proof.
  induction a as [|w a IH]; [done|]. simpl number.
  assert (zlen (w :: a) = zlen a + 1) as -> by (unfold zlen; simpl; lia).
  rewrite Z.mul_add_distr_l, Z.pow_add_r by (pose proof (zlen_nonneg a); lia).
  pose proof (wrap_range 32 w) as Hw. unfold word in Hw.
  rewrite Z.mul_1_r. nia.
Qed.

Lemma number_app a b : number (a ++ b) = number a + 2 ^ (32 * zlen a) * number b.
Proof.
  induction a as [|w a IH]; simpl; [unfold zlen; simpl; lia|]. rewrite IH.
  assert (zlen (w :: a) = zlen a + 1) as -> by (unfold zlen; simpl; lia).
  rewrite (Z.mul_add_distr_l 32), Z.pow_add_r by (pose proof (zlen_nonneg a); lia). lia.
Qed.

Lemma number_snoc a w : number (a ++ [w]) = number a + 2 ^ (32 * zlen a) * u32 w.
Proof. rewrite number_app. simpl. lia. Qed.

Lemma testbit_number a n w : 0 <= n -> rd a (n / 32) = Some w ->
  Z.testbit (number a) n = Z.testbit w (n mod 32).
Proof.
  revert n. induction a as [|x a IH]; intros n Hn Hw; [unfold rd in Hw; by destruct (_ <? 0)|].
  simpl. pose proof (wrap_range 32 x ltac:(lia)) as Hx.
  replace (u32 x + 2 ^ 32 * number a) with ((number a ≪ 32) .| u32 x) by (rewrite lor_shiftl by (done || lia); lia).
  rewrite Z.lor_spec, Z.shiftl_spec, testbit_wrap by lia. destruct (Z.ltb_spec n 32) as [Hlt|Hge].
  - rewrite Z.testbit_neg_r, Z.mod_small by lia. rewrite Z.div_small in Hw by lia. unfold rd in Hw. simpl in Hw. by simplify_eq.
  - rewrite orb_false_r, IH.
    + f_equal. replace n with (n - 32 + 1 * 32) at 2 by lia. by rewrite Z.mod_add.
    + lia.
    + rewrite <-Hw. replace n with (n - 32 + 1 * 32) at 2 by lia. rewrite Z.div_add by lia.
      change (x :: a) with ([x] ++ a). rewrite rd_app_r; unfold zlen; simpl; [f_equal; lia|].
      pose proof (Z.div_pos (n - 32) 32). lia.
Qed.

(** ** The functions *)
Definition int_array (a : list Z) : Prop := Forall (sword 32) a.

Lemma u32_zero w : sword 32 w -> (u32 w =? 0) = (w =? 0).
Proof.
  unfold sword, wrap. intros Hw. destruct (Z.eqb_spec w 0) as [->|Hne]; [done|].
  apply Z.eqb_neq. intros H. apply Z.mod_divide in H as [q Hq]; lia.
Qed.

Lemma isBitSet_spec a n : int_array a -> 32 * zlen a <= 2 ^ 31 -> 0 <= n < 32 * zlen a ->
  isBitSet a n = ([Access 14 (n / 32)], inr (Z.b2z (Z.testbit (number a) n))).
Proof.
  intros Ha Hl Hn. unfold isBitSet. change (4 * 8) with 32.
  rewrite (wrap_small 64 n) by (unfold word; lia).
  pose proof (Z.mod_pos_bound n 32). assert (0 <= n / 32 < zlen a) as Hi.
  { split; [apply Z.div_pos; lia|]. apply Z.div_lt_upper_bound; lia. }
  rewrite !sgn_small by (unfold sword; lia).
  destruct (rd_Some a (n / 32) Hi) as [w Ew]. unfold access. rewrite Ew. simpl. do 2 f_equal.
  rewrite (testbit_number a n w) by (done || lia).
  change 1 with (Z.ones 1). rewrite Z.land_ones by lia. rewrite Z.shiftr_div_pow2 by lia.
  by rewrite Z.testbit_spec' by lia.
Qed.

(** Before the lowest word. *)
Lemma isBitSet_before a : isBitSet a (-1) = ([Access 14 (-1)], inl (OutOfBounds 14)).
Proof. done. Qed.

Lemma top_word_spec fuel a i : -1 <= i < zlen a -> i < Z.of_nat fuel ->
  exists t i', top_word fuel a i = (t, inr i') /\ -1 <= i' <= i /\
    (forall j, i' < j <= i -> rd a j = Some 0) /\ (0 <= i' -> exists w, rd a i' = Some w /\ w <> 0).
Proof.
  revert i. induction fuel as [|fuel IH]; intros i Hi Hf; cbn [top_word];
    (destruct (decide (i = -1)) as [->|Hne];
      [exists [Branch 71 false], (-1); split_and!; (done || lia)|]); [lia|].
  replace (0 <=? i) with true by lia. simpl.
  destruct (rd_Some a i ltac:(lia)) as [w Ew]. unfold access. rewrite Ew. simpl.
  destruct (Z.eqb_spec w 0) as [->|Hw]; simpl.
  - destruct (IH (i - 1) ltac:(lia) ltac:(lia)) as (t & i' & -> & Hi' & Hz & Hnz).
    eexists _, i'. split_and!; [done|lia|lia| |done].
    intros j Hj. destruct (decide (j = i)) as [->|]; [done|]. apply Hz. lia.
  - eexists _, i. split_and!; [done|lia|lia|intros; lia|]. intros _. by exists w.
Qed.

Lemma number_zeros a : (forall j, 0 <= j < zlen a -> rd a j = Some 0) -> number a = 0.
Proof.
  induction a as [|w a IH]; intros Hz; [done|].
  assert (w = 0) as -> by (pose proof (Hz 0) as H0; unfold zlen in H0; simpl in H0; injection H0; [done|lia]).
  simpl. rewrite IH; [done|]. intros j Hj.
  specialize (Hz (j + 1)). unfold zlen in *. simpl in Hz. rewrite <-Hz by lia.
  change (0 :: a) with ([0] ++ a). rewrite rd_app_r; unfold zlen; simpl; [f_equal; lia|lia].
Qed.

Lemma number_top a i w : 0 <= i -> rd a i = Some w -> (forall j, i < j < zlen a -> rd a j = Some 0) ->
  number a = number (take (Z.to_nat i) a) + 2 ^ (32 * i) * u32 w /\
  0 <= number (take (Z.to_nat i) a) < 2 ^ (32 * i).
Proof.
  intros Hi Ew Hz. pose proof (rd_range _ _ _ Ew) as Hr.
  assert (a !! Z.to_nat i = Some w) as El by (unfold rd in Ew; destruct (Z.ltb_spec i 0); [lia|done]).
  assert (zlen (take (Z.to_nat i) a) = i) as Hl by (rewrite zlen_take; lia).
  split; [|rewrite <-Hl at 3; apply number_range].
  rewrite <-(take_drop_middle a (Z.to_nat i) w El) at 1. rewrite number_app, Hl. simpl.
  rewrite (number_zeros (drop (S (Z.to_nat i)) a)); [by rewrite Z.mul_0_r, Z.add_0_r|].
  intros j Hj. rewrite zlen_drop in Hj.
  rewrite <-(Hz (i + 1 + j)) by lia. unfold rd.
  destruct (Z.ltb_spec j 0), (Z.ltb_spec (i + 1 + j) 0); try lia. rewrite lookup_drop. f_equal. lia.
Qed.

Lemma num_bits_shift lo hi k : 0 <= k -> 0 <= lo < 2 ^ k -> 0 < hi ->
  num_bits (lo + 2 ^ k * hi) = k + num_bits hi.
Proof.
  intros Hk Hlo Hhi. unfold num_bits. replace (hi =? 0) with false by lia.
  replace (lo + 2 ^ k * hi =? 0) with false by nia. rewrite Z.add_assoc.
  f_equal. apply Z.log2_unique; [pose proof (Z.log2_nonneg hi); lia|].
  pose proof (Z.log2_spec hi Hhi) as [H1 H2]. pose proof (Z.log2_nonneg hi).
  rewrite <-Z.add_succ_r, !Z.pow_add_r by lia. nia.
Qed.

Lemma bitLen_spec a : int_array a -> zlen a <= 2 ^ 20 ->
  exists t, bitLen_openSSL_style a (zlen a) = (t, inr (num_bits (number a))).
Proof.
  intros Ha Hl. unfold bitLen_openSSL_style. pose proof (zlen_nonneg a).
  destruct (top_word_spec (Z.to_nat (zlen a)) a (zlen a - 1)) as (t & i & -> & Hi & Hz & Hw); [lia|lia|].
  simpl. destruct (Z.ltb_spec i 0) as [Hneg|Hpos]; simpl.
  - rewrite number_zeros; [by eexists|]. intros j Hj. apply Hz. lia.
  - destruct (Hw Hpos) as (w & Ew & Hnz). unfold access. rewrite Ew. simpl. eexists. do 2 f_equal.
    destruct (number_top a i w Hpos Ew) as [-> Hlo]; [intros; apply Hz; lia|].
    assert (sword 32 w) as Hsw.
    { unfold int_array in Ha. rewrite Forall_lookup in Ha. unfold rd in Ew. destruct (i <? 0); [done|]. by eapply Ha. }
    pose proof (u32_zero w Hsw) as Hu0. pose proof (wrap_range 32 w ltac:(lia)) as Hu. unfold word in Hu.
    assert (0 < u32 w) as Hu1 by lia.
    rewrite num_bits_shift by lia. rewrite BN_num_bits_word_mimic_num_bits by done.
    assert (0 <= num_bits (u32 w) <= 32) as Hnb.
    { unfold num_bits. replace (u32 w =? 0) with false by lia. pose proof (Z.log2_nonneg (u32 w)).
      assert (Z.log2 (u32 w) < 32) by (apply (proj1 (Z.log2_lt_pow2 (u32 w) 32 Hu1)); lia). lia. }
    unfold BN_BITS2. rewrite (sgn_small 32 (i * 32)), sgn_small by (unfold sword; lia). lia.
Qed.

(** C18. [BN_num_bits_word_mimic], which has no branch on its argument, is the
    number of significant bits of every 32-bit word; and [bitLen_openSSL_style] is
    the number of significant bits of the number in an array of up to 2^20 words of
    any contents, 0 for zero, with no access outside the array. *)
Theorem bit_length_correct a : int_array a -> zlen a <= 2 ^ 20 ->
  (forall l, word 32 l -> BN_num_bits_word_mimic l = num_bits l) /\
  (bitLen_openSSL_style a (zlen a)).2 = inr (num_bits (number a)).
Proof.
  intros Ha Hl. split; [apply BN_num_bits_word_mimic_num_bits|].
  by destruct (bitLen_spec a Ha Hl) as [t ->].
Qed.

Lemma bit_length_correct_witness : (bitLen_openSSL_style [7; 1024; 0] 3).2 = inr (num_bits (7 + 2 ^ 32 * 1024)).
Proof.
  refine (proj2 (bit_length_correct [7; 1024; 0] _ _)); [|unfold zlen; simpl; lia].
  repeat (apply Forall_cons; split; [unfold sword; lia|]). by apply Forall_nil.
Defined.

Lemma int_pair x y : sword 32 x -> sword 32 y -> int_array [x; y].
Proof. intros. by repeat (apply Forall_cons; split); [..|apply Forall_nil]. Qed.

(** ** The programs *)
Definition scan_trace (high_is_zero : bool) : list observation :=
  [Branch 71 true; Access 71 1; Branch 71 high_is_zero] ++
  (if high_is_zero then [Branch 71 true; Access 71 0; Branch 71 false] else []) ++
  [Branch 75 false; Access 78 (if high_is_zero then 0 else 1)].

Lemma set_low_top_bit_spec line x0 x1 : sword 32 x0 -> exists x,
  set_low_top_bit line [x0; x1] = ([Access line 0; Access line 0], inr [x; x1]) /\ sword 32 x /\ x <> 0.
Proof.
  intros Hx. exists (s32 (u32 x0 .| 2 ^ 31)). split; [done|].
  assert (word 32 (u32 x0 .| 2 ^ 31)) as Hw by (apply word_lor; [lia|apply wrap_range; lia|unfold word; lia]).
  assert (2 ^ 31 <= u32 x0 .| 2 ^ 31) as Hge.
  { pose proof (testbit_top 32 _ ltac:(lia) Hw) as Ht. rewrite Z.lor_spec in Ht. change (32 - 1) with 31 in Ht.
    rewrite Z.pow2_bits_true, orb_true_r in Ht by lia. lia. }
  unfold word in Hw. assert (s32 (u32 x0 .| 2 ^ 31) = (u32 x0 .| 2 ^ 31) - 2 ^ 32) as ->.
  { unfold sgn. rewrite <-(Z.mod_add _ (-1)) by lia. rewrite Z.mod_small; lia. }
  unfold sword. lia.
Qed.

Lemma pair_length x x1 : sword 32 x -> sword 32 x1 -> x <> 0 ->
  bitLen_openSSL_style [x; x1] 2 = (scan_trace (x1 =? 0), inr (num_bits (number [x; x1]))).
Proof.
  intros Hx Hx1 Hnz.
  destruct (bitLen_spec [x; x1]) as [t E]; [by apply int_pair|unfold zlen; simpl; lia|].
  change (zlen [x; x1]) with 2 in E. rewrite E. f_equal. apply (f_equal fst) in E. simpl in E. subst t.
  unfold bitLen_openSSL_style, scan_trace. simpl.
  destruct (Z.eqb_spec x1 0) as [->|]; simpl; [|done].
  by destruct (Z.eqb_spec x 0).
Qed.

(** The bit the program tests is the top one, so it is set. *)
Lemma pair_top_bit x x1 : sword 32 x -> sword 32 x1 -> x <> 0 ->
  isBitSet [x; x1] (s32 (num_bits (number [x; x1]) - 1)) =
    ([Access 14 (if x1 =? 0 then 0 else 1)], inr 1).
Proof.
  intros Hx Hx1 Hnz.
  pose proof (wrap_range 32 x ltac:(lia)) as Hw. pose proof (wrap_range 32 x1 ltac:(lia)) as Hw1.
  unfold word in Hw, Hw1. pose proof (u32_zero x Hx) as Hz. pose proof (u32_zero x1 Hx1) as Hz1.
  set (v := number [x; x1]). assert (v = u32 x + 2 ^ 32 * u32 x1) as Ev by (subst v; simpl; lia).
  assert (0 < v) as Hv by lia. unfold num_bits. replace (v =? 0) with false by lia.
  replace (Z.log2 v + 1 - 1) with (Z.log2 v) by lia.
  assert (0 <= Z.log2 v < 64) as Hlog.
  { split; [apply Z.log2_nonneg|]. apply Z.log2_lt_pow2; [done|]. rewrite Ev. lia. }
  rewrite sgn_small by (unfold sword; lia).
  rewrite isBitSet_spec; [|by apply int_pair|unfold zlen; simpl; lia|unfold zlen; simpl; lia].
  fold v. rewrite Z.bit_log2 by done. do 3 f_equal.
  destruct (Z.eqb_spec x1 0) as [->|Hne].
  - assert (Z.log2 v < 32) by (apply Z.log2_lt_pow2; [done|]; rewrite Ev; change (u32 0) with 0; lia).
    apply Z.div_small. lia.
  - assert (32 <= Z.log2 v) by (apply Z.log2_le_pow2; [done|]; rewrite Ev; lia).
    symmetry. apply Z.div_unique with (Z.log2 v - 32); lia.
Qed.

Definition main_trace (high_is_zero : bool) : list observation :=
  [Access 88 0; Access 88 0] ++ scan_trace high_is_zero ++
  [Access 14 (if high_is_zero then 0 else 1); Branch 94 true].

(** C19. Both programs test the top bit of a number they have made non-zero: the
    access is inside the array, the bit is set, and the final branch (of the second
    program: the comparison of two such bits) always goes the same way.  What
    [is_bit_set] leaks of its two secret words is exactly whether the upper one is
    zero, through the scan for the top word. *)
Theorem is_bit_set_leak x0 x1 y0 y1 : int_array [x0; x1] -> int_array [y0; y1] ->
  is_bit_set_main [x0; x1] = (main_trace (x1 =? 0), inr 0) /\
  ((is_bit_set_main [x0; x1]).1 = (is_bit_set_main [y0; y1]).1 <-> (x1 = 0 <-> y1 = 0)) /\
  (exists t, is_bit_set_no_sc_main [x0; x1] [y0; y1] = (t ++ [Branch 97 true], inr 0)).
Proof.
  intros Hx Hy. apply Forall_cons in Hx as [Hx0 [Hx1 _]%Forall_cons]. apply Forall_cons in Hy as [Hy0 [Hy1 _]%Forall_cons].
  assert (forall z0 z1, sword 32 z0 -> sword 32 z1 -> is_bit_set_main [z0; z1] = (main_trace (z1 =? 0), inr 0)) as Hm.
  { intros z0 z1 H0 H1. unfold is_bit_set_main.
    destruct (set_low_top_bit_spec 88 z0 z1 H0) as (z & -> & Hz & Hnz). simpl.
    rewrite pair_length by done. simpl. rewrite pair_top_bit by done. done. }
  rewrite !Hm by done. split_and!; [done| |].
  - simpl. destruct (Z.eqb_spec x1 0), (Z.eqb_spec y1 0); split; done || naive_solver.
  - unfold is_bit_set_no_sc_main, bitLen_openSSL_style_no_sc, isBitSet_no_sc.
    destruct (set_low_top_bit_spec 89 x0 x1 Hx0) as (x & -> & Hxs & Hxnz).
    destruct (set_low_top_bit_spec 90 y0 y1 Hy0) as (y & -> & Hys & Hynz). simpl.
    rewrite !pair_length by done. simpl. rewrite !pair_top_bit by done. simpl.
    eexists (Access 89 0 :: Access 89 0 :: Access 90 0 :: Access 90 0 :: scan_trace (x1 =? 0) ++
      scan_trace (y1 =? 0) ++ [Access 14 (if x1 =? 0 then 0 else 1); Access 14 (if y1 =? 0 then 0 else 1)]).
    by destruct (x1 =? 0), (y1 =? 0).
Qed.

Lemma is_bit_set_leak_witness :
  is_bit_set_main [5; 0] = (main_trace true, inr 0) /\
  (is_bit_set_main [5; 0]).1 <> (is_bit_set_main [5; -3]).1.
Proof.
  assert (int_array [5; 0]) as H1 by (apply int_pair; unfold sword; lia).
  assert (int_array [5; -3]) as H2 by (apply int_pair; unfold sword; lia).
  destruct (is_bit_set_leak 5 0 5 (-3) H1 H2) as (Hm & Hiff & _). split; [exact Hm|].
  intros E. apply Hiff in E. destruct E as [E _]. by specialize (E eq_refl).
Defined.
