(* ===== verification/Toys.v ===== *)
(** * The small examples: [examples/], [memory/], [test-binsec/] and the
      constrained case of [testing-concrete/].

    One part per program.  Programs with secrets leak (file Leakage); signed
    arithmetic is checked, an overflow being undefined. *)
From S2P Require Import Prelude Arrays Leakage.
Local Open Scope Z_scope.
Local Open Scope word_scope.
Local Open Scope leaky_scope.

(** Signed 32-bit results; an overflow ends the run. *)
Definition int_op (line : Z) (z : Z) : leaky Z :=
  if (- 2 ^ 31 <=? z) && (z <? 2 ^ 31) then value z else ends (OutOfBounds line).

Lemma int_op_value line z : sword 32 z -> int_op line z = value z.
Proof.
  unfold sword, int_op. intros H. replace ((- 2 ^ 31 <=? z) && (z <? 2 ^ 31)) with true by lia. done.
Qed.
Lemma int_op_overflow line z : ~ sword 32 z -> int_op line z = ends (OutOfBounds line).
Proof.
  unfold sword, int_op. intros H. replace ((- 2 ^ 31 <=? z) && (z <? 2 ^ 31)) with false by lia. done.
Qed.

#[export] Instance observation_eq_dec : EqDecision observation.
Proof. solve_decision. Defined.







Lemma land3 x : x .& 0x03 = x mod 4.
Proof. change 0x03 with (Z.ones 2). by rewrite Z.land_ones by lia. Qed.




(** ** [abacus_missed_secret_access.c] *)
Definition lookup_table : list Z := seqZ 0 64.

(** The result is what is stored in [sink]. *)
Definition missed_secret_access (secret : Z) : leaky Z :=
  let index := u8 (secret .& 63) in
  access 30 lookup_table index.

Lemma missed_secret_access_run secret : word 16 secret ->
  missed_secret_access secret = ([Access 30 (secret mod 64)], inr (secret mod 64)).
Proof.
  intros Hs. unfold missed_secret_access. change 63 with (2 ^ 6 - 1). rewrite land_mask by lia.
  unfold wrap at 2. change (2 ^ 6) with 64. pose proof (Z.mod_pos_bound secret 64).
  rewrite wrap_small by (unfold word; lia). unfold access. f_equal.
  unfold rd, lookup_table. replace (secret mod 64 <? 0) with false by lia.
  rewrite (proj2 (lookup_seqZ 0 64 _ (secret mod 64))); [done|lia].
Qed.

(** ** [abacus_map_at_repro.c] *)
Definition map_at_step (s : Z * Z) : Z * Z :=
  let '(a, b) := s in let a := u32 (a + b) in let b := u32 (a + b) in (a, b).

(** The value of [output]: 24 lines of two additions. *)
Definition map_at_repro (secret : Z) : Z :=
  let a := secret in
  let b := u32 (secret + 1) in
  (Nat.iter 24 map_at_step (a, b)).2.

Fixpoint fib (n : nat) : Z * Z := match n with O => (0, 1) | S n => let '(x, y) := fib n in (y, x + y) end.

Lemma map_at_steps n secret : Nat.iter n map_at_step (u32 secret, u32 (secret + 1)) =
  let '(x, y) := fib (2 * n) in (u32 (y * secret + x), u32 ((x + y) * secret + y)).
Proof.
  induction n as [|n IH]; simpl Nat.iter.
  - simpl. do 2 f_equal; lia.
  - rewrite IH. replace (2 * S n)%nat with (S (S (2 * n))) by lia. cbn [fib].
    destruct (fib (2 * n)) as [x y]. unfold map_at_step.
    rewrite wrap_add_l, !wrap_add_r, wrap_add_l. do 2 f_equal; lia.
Qed.

Lemma map_at_repro_fib secret : word 8 secret ->
  map_at_repro secret = u32 (12586269025 * secret + 7778742049).
Proof.
  intros Hs. unfold map_at_repro.
  pose proof (map_at_steps 24 secret) as H. rewrite (wrap_small 32 secret) in H by (unfold word in *; lia).
  rewrite H. by replace (fib (2 * 24)) with (4807526976, 7778742049) by (vm_compute; reflexivity).
Qed.

(** ** [cf_favored_branch_maze_cross_tool.c] *)
Definition maze_step (secret : list Z) (round acc : Z) : leaky Z :=
  byte <- access 32 secret (round .& 7) ;;
  let acc := u64 (u64 (acc * 33) + byte + round) in
  value (acc .^ (acc ≫ 7)).

Definition favored_branch_maze (secret : list Z) : leaky Z :=
  acc <- lfor 0 192 (maze_step secret) 1 ;;
  even <- branch 37 ((acc .& 1) =? 0) ;;
  if even then ends (AssertionFails 38) else value 0.

(** ** [cf_symbolic_mod_chain_branch.c] *)
Definition mod_step (modulus round : Z) (s : Z * Z) : leaky (Z * Z) :=
  let '(result, base) := s in
  if modulus =? 0 then ends (OutOfBounds 32) else
  let result := u64 (u64 (u64 (result * base) + round) + 1) mod modulus in
  let base := u64 (u64 (base * base) + 3) mod modulus in
  value (result, base).

Definition mod_chain (secret0 secret1 : Z) : leaky Z :=
  let modulus := secret1 .| 1 in
  s <- lfor 0 4 (mod_step modulus) (1, secret0) ;;
  odd <- branch 36 (negb ((s.1 .& 1) =? 0)) ;;
  if odd then ends (AssertionFails 37) else value 0.

(** ** [toy_selfcomp_arc4_like.c] *)
Definition arc4_step (key : list Z) (i : Z) (s : list Z * Z) : leaky (list Z * Z) :=
  let '(state, j) := s in
  si <- access 30 state i ;;
  ki <- access 30 key (i .& 7) ;;
  let j := u8 ((j + si + ki) .& 15) in
  tmp <- access 31 state i ;;
  sj <- access 32 state j ;;
  state <- store 32 state i sj ;;
  state <- store 33 state j tmp ;;
  value (state, j).

Definition arc4_like (key : list Z) : leaky Z :=
  s <- lfor 0 16 (arc4_step key) (seqZ 0 16, 0) ;;
  s0 <- access 36 s.1 0 ;;
  value (s0 .& 1).

Lemma rd_lookup {A} (l : list A) i : 0 <= i -> rd l i = l !! Z.to_nat i.
Proof. intros. unfold rd. by destruct (Z.ltb_spec i 0); [lia|]. Qed.

Lemma land7 x : x .& 7 = x mod 8.
Proof. change 7 with (Z.ones 3). by rewrite Z.land_ones by lia. Qed.
Lemma land1 x : x .& 1 = x mod 2.
Proof. change 1 with (Z.ones 1) at 1. by rewrite Z.land_ones by lia. Qed.

Lemma access_in {A} line (l : list A) i : 0 <= i < zlen l -> exists x, access line l i = ([Access line i], inr x) /\ x ∈ l.
Proof.
  intros Hi. destruct (rd_Some l i Hi) as [x Ex]. exists x. unfold access. rewrite Ex. split; [done|].
  rewrite rd_lookup in Ex by lia. by eapply list_elem_of_lookup_2.
Qed.

Lemma store_in {A} line (l : list A) i x : 0 <= i < zlen l ->
  store line l i x = ([Access line i], inr (<[Z.to_nat i := x]> l)).
Proof. intros Hi. unfold store. by rewrite wr_Some. Qed.

(** The state is a permutation of 0..15 and [j] an index. *)
Definition arc4_ok (i : Z) (s : list Z * Z) : Prop := s.1 ≡ₚ seqZ 0 16 /\ 0 <= s.2 < 16.


Lemma arc4_step_ok key i s : zlen key = 8 -> 0 <= i < 16 -> arc4_ok i s ->
  exists j s', arc4_step key i s =
    ([Access 30 i; Access 30 (i mod 8); Access 31 i; Access 32 j; Access 32 i; Access 33 j], inr s') /\
    s'.2 = j /\ arc4_ok (i + 1) s'.
Proof.
  intros Hk Hi [Hp Hj]. destruct s as [state j]. simpl in Hp, Hj. unfold arc4_step.
  assert (zlen state = 16) as Hl by (unfold zlen; rewrite Hp, length_seqZ; lia).
  destruct (access_in 30 state i ltac:(lia)) as (si & -> & _). rewrite land7.
  pose proof (Z.mod_pos_bound i 8).
  destruct (access_in 30 key (i mod 8) ltac:(lia)) as (ki & -> & _). simpl.
  set (j' := u8 ((j + si + ki) .& 15)).
  assert (0 <= j' < 16) as Hj'.
  { subst j'. change 15 with (2 ^ 4 - 1). rewrite land_mask by lia.
    pose proof (Z.mod_pos_bound (j + si + ki) (2 ^ 4)). rewrite wrap_small; unfold wrap, word; lia. }
  destruct (rd_Some state i ltac:(lia)) as [tmp Et], (rd_Some state j' ltac:(lia)) as [sj Ej].
  unfold access. rewrite Et. simpl. rewrite Ej. simpl.
  unfold store. rewrite !wr_Some by (rewrite ?zlen_insert; lia). simpl.
  eexists j', _. split; [reflexivity|]. split; [done|]. split; [|done]. simpl.
  rewrite rd_lookup in Et, Ej by lia. by rewrite Permutation_insert_swap.
Qed.

(** The ARC4-like toy with any 8-byte key: all accesses are in bounds, the
    state is a permutation of 0..15 after every iteration and [j] an index, and the
    program returns the lowest bit of a state entry. *)
Lemma arc4_like_permutation key : zlen key = 8 ->
  (forall n, 0 <= n <= 16 -> exists t state j,
     lfor 0 n (arc4_step key) (seqZ 0 16, 0) = (t, inr (state, j)) /\ state ≡ₚ seqZ 0 16 /\ 0 <= j < 16) /\
  exists r, (arc4_like key).2 = inr r /\ (r = 0 \/ r = 1).
Proof.
  intros Hk.
  assert (forall n, 0 <= n <= 16 -> exists t state j,
    lfor 0 n (arc4_step key) (seqZ 0 16, 0) = (t, inr (state, j)) /\ state ≡ₚ seqZ 0 16 /\ 0 <= j < 16) as H.
  { intros n Hn. destruct (lfor_inv arc4_ok 0 n (arc4_step key) (seqZ 0 16, 0)) as (t & [state j] & E & [Hp Hj]);
      [lia|by split; [|simpl; lia]| |by exists t, state, j].
    intros i s Hi Hs. destruct (arc4_step_ok key i s Hk ltac:(lia) Hs) as (j & s' & E & _ & Hs'). eauto. }
  split; [done|]. destruct (H 16 ltac:(lia)) as (t & state & j & E & Hp & _).
  unfold arc4_like. rewrite E. cbn [andthen fst].
  destruct (access_in 36 state 0) as (s0 & -> & _).
  { unfold zlen. rewrite Hp, length_seqZ. lia. }
  simpl. eexists. split; [done|]. rewrite land1. pose proof (Z.mod_pos_bound s0 2). lia.
Qed.

(** The maze: the accesses are public and in bounds, one branch leaks, and the
    assertion fails exactly if it is taken. *)
Lemma favored_branch_maze_run secret : zlen secret = 8 -> Forall (word 8) secret ->
  exists acc, word 64 acc /\
    favored_branch_maze secret =
      ((seqZ 0 192 ≫= fun round => [Access 32 (round mod 8)]) ++ [Branch 37 (acc mod 2 =? 0)],
       if acc mod 2 =? 0 then inl (AssertionFails 38) else inr 0).
Proof.
  intros Hl Hs.
  destruct (lfor_trace (fun _ acc => word 64 acc) (fun round => [Access 32 (round mod 8)]) 0 192
    (maze_step secret) 1) as (acc & E & Hacc); [lia|unfold word; lia| |].
  - intros i acc Hi Hacc. unfold maze_step. rewrite land7. pose proof (Z.mod_pos_bound i 8).
    destruct (access_in 32 secret (i mod 8)) as (b & -> & _); [lia|]. simpl. eexists. split; [done|].
    set (x := u64 _). assert (word 64 x) by (apply wrap_range; lia).
    apply word_lxor; [lia|done|]. by apply word_shiftr.
  - exists acc. split; [done|]. unfold favored_branch_maze. rewrite E. rewrite Z.sub_0_r. simpl. rewrite land1.
    by destruct (acc mod 2 =? 0).
Qed.

(** The chain: the modulus is odd, so never zero, and the result stays below it. *)
Lemma mod_chain_run secret0 secret1 : word 64 secret0 -> word 64 secret1 ->
  exists result, 0 <= result < Z.max 2 (secret1 .| 1) /\
    mod_chain secret0 secret1 = ([Branch 36 (negb (result mod 2 =? 0))],
      if result mod 2 =? 0 then inr 0 else inl (AssertionFails 37)).
Proof.
  intros H0 H1. unfold mod_chain. set (modulus := secret1 .| 1).
  assert (word 64 modulus) as Hm by (apply word_lor; [lia|done|unfold word; lia]).
  assert (0 < modulus) as Hpos.
  { assert (Z.testbit modulus 0 = true) as Hb by (unfold modulus; rewrite Z.lor_spec; apply orb_true_r).
    unfold word in Hm. destruct (decide (modulus = 0)) as [E|]; [|lia]. by rewrite E in Hb. }
  destruct (lfor_trace (fun _ (s : Z * Z) => 0 <= s.1 < Z.max 2 modulus) (fun _ => []) 0 4
    (mod_step modulus) (1, secret0)) as ([result base] & E & Hr); [lia|simpl; lia| |].
  - intros i [r b] Hi Hr. unfold mod_step. replace (modulus =? 0) with false by lia.
    eexists. split; [reflexivity|]. simpl.
    pose proof (Z.mod_pos_bound (u64 (u64 (u64 (r * b) + i) + 1)) modulus). lia.
  - exists result. split; [done|]. rewrite E. change (seqZ 0 (4 - 0) ≫= fun _ => []) with (@nil observation).
    simpl. rewrite land1. by destruct (result mod 2 =? 0).
Qed.

(** ** [example.c] *)
Definition example (pub sec : Z) : leaky unit :=
  b <- branch 9 (0 <? sec) ;;
  if b : bool then
    b <- branch 11 (pub <? sec) ;;
    if b : bool then
      _b <- branch 13 (pub <? sec) ;; value tt
    else
      sec <- int_op 18 (sec + 1) ;;
      _b <- branch 19 (pub <? sec) ;; value tt
  else value tt.

(** The increment overflows for one pair of inputs only; line 13 is always taken. *)
Lemma example_run pub sec : sword 32 pub -> sword 32 sec ->
  example pub sec =
    if sec <=? 0 then ([Branch 9 false], inr tt)
    else if pub <? sec then ([Branch 9 true; Branch 11 true; Branch 13 true], inr tt)
    else if sec =? 2 ^ 31 - 1 then ([Branch 9 true; Branch 11 false], inl (OutOfBounds 18))
    else ([Branch 9 true; Branch 11 false; Branch 19 (sec =? pub)], inr tt).
Proof.
  unfold sword. intros Hp Hs. unfold example. replace (0 <? sec) with (negb (sec <=? 0)) by lia.
  destruct (Z.leb_spec sec 0); simpl; [done|]. destruct (Z.ltb_spec pub sec) as [Hlt|Hge]; simpl.
  { by replace (pub <? sec) with true by lia. }
  destruct (Z.eqb_spec sec (2 ^ 31 - 1)) as [->|Hne].
  - by rewrite int_op_overflow by (unfold sword; lia).
  - rewrite int_op_value by (unfold sword; lia). simpl. by replace (pub <? sec + 1) with (sec =? pub) by lia.
Qed.

(** ** [min_missing_dbg_shift_repro.c] *)
Definition missing_dbg (argc : Z) : leaky Z :=
  let table := replicate 8 0 in
  let xstride := 1 ≪ (argc .& 1) in
  acc <- lfor 0 xstride (fun j acc =>
    x <- access 25 table j ;;
    let acc := acc .^ x in
    y <- access 26 table (j + 3 * xstride) ;;
    value (acc .^ y)) 0 ;;
  value (s32 acc).

Lemma missing_dbg_zero argc : (missing_dbg argc).2 = inr 0.
Proof.
  unfold missing_dbg. rewrite land1.
  destruct (Z.eq_dec (argc mod 2) 0) as [->|H]; [done|].
  pose proof (Z.mod_pos_bound argc 2). by replace (argc mod 2) with 1 by lia.
Qed.

(** ** [memory_1.c] and [memory_1_binsec.c] *)
Definition memory_1 (a : list Z) (sec : Z) : leaky Z :=
  let sec := sec .& 3 in
  b <- branch 12 (negb ((sec .& 1) =? 0)) ;;
  if b : bool then
    a <- store 14 a (sec .& 1) 1 ;;
    a <- store 15 a (sec .& 2) 1 ;;
    _a <- store 16 a sec 1 ;; value 0
  else value 0.

(** The same with [exit] for [return]. *)
Definition memory_1_binsec (a : list Z) (sec : Z) : leaky Z :=
  let sec := sec .& 3 in
  b <- branch 11 (negb ((sec .& 1) =? 0)) ;;
  if b : bool then
    a <- store 13 a (sec .& 1) 1 ;;
    a <- store 14 a (sec .& 2) 1 ;;
    _a <- store 15 a sec 1 ;; ends (Exits 0)
  else ends (Exits 0).

(** The first store is at a constant index once the branch is taken; the other two
    tell 1 from 3. *)
Lemma memory_1_run a sec : zlen a = 4 -> memory_1 a sec =
  (if sec mod 2 =? 0 then [Branch 12 false]
   else [Branch 12 true; Access 14 1; Access 15 (sec mod 4 - 1); Access 16 (sec mod 4)], inr 0).
Proof.
  intros Ha. unfold memory_1. rewrite land3.
  assert (sec mod 4 mod 2 = sec mod 2) as Em by (apply Z.mod_mod_divide; by exists 2).
  rewrite land1, Em. pose proof (Z.mod_pos_bound sec 4 ltac:(lia)). pose proof (Z.mod_pos_bound sec 2 ltac:(lia)).
  destruct (Z.eqb_spec (sec mod 2) 0) as [E|E]; [done|].
  assert (sec mod 2 = 1) as E1 by lia. rewrite E1 in Em |- *.
  assert (sec mod 4 .& 2 = sec mod 4 - 1) as ->.
  { assert (sec mod 4 = 0 \/ sec mod 4 = 1 \/ sec mod 4 = 2 \/ sec mod 4 = 3) as [H4|[H4|[H4|H4]]] by lia;
      rewrite H4 in Em |- *; done. }
  assert (1 <= sec mod 4) by (destruct (decide (sec mod 4 = 0)) as [H4|]; [by rewrite H4 in Em|lia]).
  cbn [branch negb andthen].
  rewrite store_in by lia. cbn [andthen]. rewrite store_in by (rewrite zlen_insert; lia). cbn [andthen].
  rewrite store_in by (rewrite !zlen_insert; lia). done.
Qed.

(** ** [test-binsec/test.c] *)

(** [block]: what [malloc] returned, 10 words of any contents, or NULL. *)
Definition test_binsec (block : option (list Z)) (sec : list Z) : leaky Z :=
  match block with
  | None => ends (OutOfBounds 22)
  | Some ptr =>
      ptr <- lfor 0 2 (fun i ptr => x <- access 22 sec i ;; store 22 ptr i x) ptr ;;
      let ptr := replicate (length ptr) 0 in
      ends (AssertionFails 28)
  end.

Lemma test_binsec_run block sec : zlen sec = 2 -> (forall l, block = Some l -> zlen l = 10) ->
  (test_binsec block sec).2 = match block with None => inl (OutOfBounds 22) | Some _ => inl (AssertionFails 28) end.
Proof.
  intros Hs Hb. destruct block as [l|]; [|done]. specialize (Hb l eq_refl). unfold test_binsec.
  destruct (lfor_inv (fun _ p => zlen p = 10) 0 2 (fun i ptr => x <- access 22 sec i ;; store 22 ptr i x) l)
    as (t & p & -> & _); [lia|done| |done].
  intros i p Hi Hp. destruct (access_in 22 sec i ltac:(lia)) as (x & -> & _). simpl.
  unfold store. rewrite wr_Some by lia. eexists _, _. split; [done|]. by rewrite zlen_insert.
Qed.

(** ** [testing-concrete/constrained-cases/target_true_test000003.c] *)
Definition foo (x y : Z) : leaky Z :=
  b <- branch 16 (0 <? x) ;;
  if b : bool then value y else int_op 19 (- y).

Definition test_branch (pub secret : Z) : leaky Z :=
  ret1 <- foo pub secret ;;
  ret2 <- foo secret pub ;;
  int_op 28 (ret1 + ret2).

(** [None] if the assumption fails. *)
Definition target_true_main (pub secret : Z) : option (leaky Z) :=
  if pub =? 2147483647 then Some (_r <- test_branch pub secret ;; value 0) else None.

(** Under the assumption of the case, the sum overflows for every secret but two. *)
Lemma test_branch_overflows secret : sword 32 secret ->
  test_branch 2147483647 secret =
    ([Branch 16 true; Branch 16 (0 <? secret)],
     if decide (secret = 0 \/ secret = -1) then inr (secret - 2147483647) else inl (OutOfBounds 28)).
Proof.
  unfold sword. intros Hs. unfold test_branch, foo. simpl. destruct (Z.ltb_spec 0 secret); simpl.
  - rewrite int_op_overflow by (unfold sword; lia). by rewrite decide_False by lia.
  - destruct (decide _) as [H1|H1].
    + rewrite int_op_value by (unfold sword; lia). done.
    + by rewrite int_op_overflow by (unfold sword; lia).
Qed.
