(* ===== verification/Slicing.v ===== *)
(** * The slicing tests: [slicing-tests/test1.c] to [test7.c] and their slices.

    Each test is a function with Frama-C slicing annotations and a [main]; its
    slice is the C code Frama-C printed for it.  An execution is observed through
    the criteria of the annotations: that a point is reached, which way the kept
    statement went and what it left in [y], and the value of the kept expression.
    [None] is a signed overflow. *)
From S2P Require Import Prelude.
Local Open Scope Z_scope.

(** [slice_preserve_ctrl], [slice_preserve_stmt] and [slice_preserve_expr]; an
    expression may be a variable that was never assigned. *)
Inductive criterion := Ctrl | Stmt (taken : bool) (y : Z) | Expr (v : option Z).

Definition int (z : Z) : option Z := if (- 2 ^ 31 <=? z) && (z <? 2 ^ 31) then Some z else None.

(** What a call shows at its annotations, and its result. *)
Definition run : Type := option (list criterion * Z).

(** ** The tests *)
Definition test1_compute (x y : Z) : run :=
  z ← int (2 * x);
  '(y, branch) ← (if 0 <? y then Some (y, 1) else y ← int (- y); Some (y, -1));
  w ← int (3 * x);
  Some ([Expr (Some branch)], y).

Definition test2_compute (x y : Z) : run :=
  z ← int (2 * x);
  y ← (if 0 <? y then Some y else int (- y));
  w ← int (3 * x);
  Some ([Ctrl], y).

Definition test3_compute (x y : Z) : run :=
  z ← int (2 * x);
  '(t, y) ← (if 0 <? y then Some ([Ctrl], y) else y ← int (- y); Some ([], y));
  w ← int (3 * x);
  Some (t, y).

Definition test4_compute (x y : Z) : run :=
  z ← int (2 * x);
  '(y, branch) ← (if 0 <? y then Some (y, 1) else y ← int (- y); Some (y, -1));
  w ← int (3 * x);
  Some ([Ctrl; Expr (Some branch)], y).

Definition test5_compute (x y : Z) : run :=
  z ← int (2 * x);
  let taken := 0 <? y in
  '(y, branch) ← (if taken then Some (y, 1) else y ← int (- y); Some (y, -1));
  w ← int (3 * x);
  Some ([Ctrl; Stmt taken y; Expr (Some branch)], y).

Definition test6_compute (x y : Z) : run :=
  z ← int (2 * x);
  y ← int (y + 1);
  let taken := 0 <? y in
  y ← (if taken then Some y else int (- y));
  w ← int (3 * x);
  Some ([Ctrl; Stmt taken y], y).

Definition test7_compute (x y : Z) : run :=
  if 0 <? x then
    y ← int (y + 1);
    let taken := 0 <? y in
    y ← (if taken then Some y else int (- y));
    Some ([Ctrl; Stmt taken y], y)
  else
    r ← int (- x);
    Some ([], r).

(** The mains. *)
Definition test1_main : run := test1_compute 3 5.
Definition test2_main : run := test2_compute 3 5.
Definition test3_main : run := test3_compute 3 5.
Definition test4_main : run := test4_compute 3 5.
Definition test5_main : run := test5_compute 3 (-5).
Definition test6_main : run := test6_compute 3 (-5).
(** [interval] is [Frama_C_interval(-10, 10)], called for [x] and then for [y]. *)
Definition test7_main (interval : nat -> Z) : run := test7_compute (interval 0%nat) (interval 1%nat).

(** ** Their slices, which return nothing *)
Definition slice : Type := option (list criterion).

Definition test1_compute_slice_1 : slice := let branch := 1 in Some [Expr (Some branch)].
Definition test2_compute_slice_1 : slice := Some [Ctrl].
Definition test3_compute_slice_1 : slice := Some [Ctrl].
Definition test4_compute_slice_1 : slice := let branch := 1 in Some [Ctrl; Expr (Some branch)].

Definition test5_compute_slice_1 (y : Z) : slice :=
  let taken := 0 <? y in
  '(y, branch) ← (if negb taken then y ← int (- y); Some (y, Some (-1)) else Some (y, None));
  Some [Ctrl; Stmt taken y; Expr branch].

Definition test6_compute_slice_1 (y : Z) : slice :=
  y ← int (y + 1);
  let taken := 0 <? y in
  y ← (if negb taken then int (- y) else Some y);
  Some [Ctrl; Stmt taken y].

Definition test7_compute_slice_1 (x y : Z) : slice :=
  if 0 <? x then
    y ← int (y + 1);
    let taken := 0 <? y in
    y ← (if taken then Some y else int (- y));
    Some [Ctrl; Stmt taken y]
  else Some [].

Definition test1_sliced_main : slice := test1_compute_slice_1.
Definition test2_sliced_main : slice := test2_compute_slice_1.
Definition test3_sliced_main : slice := test3_compute_slice_1.
Definition test4_sliced_main : slice := test4_compute_slice_1.
Definition test5_sliced_main : slice := test5_compute_slice_1 (-5).
Definition test6_sliced_main : slice := test6_compute_slice_1 (-5).
Definition test7_sliced_main (interval : nat -> Z) : slice :=
  test7_compute_slice_1 (interval 0%nat) (interval 1%nat).

(** ** Faithfulness *)
Definition observed (r : run) : slice := fst <$> r.

(** The values of a C [int]. *)
Definition fits (z : Z) : Prop := - 2 ^ 31 <= z < 2 ^ 31.

Lemma int_fits z : fits z -> int z = Some z.
Proof. unfold fits, int. intros. by replace ((- 2 ^ 31 <=? z) && (z <? 2 ^ 31)) with true by lia. Qed.

Lemma int_overflow z : ~ fits z -> int z = None.
Proof. unfold fits, int. intros. by replace ((- 2 ^ 31 <=? z) && (z <? 2 ^ 31)) with false by lia. Qed.

(** [int] by cases. *)
Lemma int_cases z : fits z /\ int z = Some z \/ ~ fits z /\ int z = None.
Proof.
  assert (fits z \/ ~ fits z) as [H|H] by (unfold fits; lia); [left|right]; (split; [done|]);
    [by apply int_fits|by apply int_overflow].
Qed.

Ltac run_slices :=
  unfold observed; simpl;
  repeat (match goal with
    | |- context [int ?z] => destruct (int_cases z) as [[? ->]|[? ->]]
    | |- context [0 <? ?y] => destruct (Z.ltb_spec 0 y) end; simpl);
  unfold fits in *.

(** Both sides of an equivalence are decided: the runs are computed. *)
Ltac compare_slices := run_slices; split; congruence || (intros; lia).

(** C20. Every slice shows at its criteria what the original program shows, for
    the calls its [main] makes (of [test7], for every value the intervals may
    give).  For all other C [int] arguments it is settled when they agree (an execution
    with a signed overflow shows nothing).  The slices of tests 1, 3 and 4 are those of a
    positive [y]: they agree exactly if [y] is positive and [3 * x], which they dropped,
    does not overflow.  That of test 2 agrees exactly if neither [3 * x] nor [- y]
    overflows.  That of test 5 leaves [branch] unassigned for a positive [y]: it agrees
    exactly if [y] is not positive and [3 * x] does not overflow, or both overflow in [- y].
    That of test 6 agrees exactly if [3 * x] does not overflow, or both overflow in [y + 1].
    That of test 7 agrees exactly if [x] is not the least [int], whose negation it dropped. *)
Theorem slices_preserve_criteria x y : fits x -> fits y ->
  (observed test1_main = test1_sliced_main /\ observed test2_main = test2_sliced_main /\
   observed test3_main = test3_sliced_main /\ observed test4_main = test4_sliced_main /\
   observed test5_main = test5_sliced_main /\ observed test6_main = test6_sliced_main /\
   forall interval, (forall n, -10 <= interval n <= 10) ->
     observed (test7_main interval) = test7_sliced_main interval) /\
  (observed (test1_compute x y) = test1_compute_slice_1 <-> 0 < y /\ fits (3 * x)) /\
  (observed (test2_compute x y) = test2_compute_slice_1 <-> fits (- y) /\ fits (3 * x)) /\
  (observed (test3_compute x y) = test3_compute_slice_1 <-> 0 < y /\ fits (3 * x)) /\
  (observed (test4_compute x y) = test4_compute_slice_1 <-> 0 < y /\ fits (3 * x)) /\
  (observed (test5_compute x y) = test5_compute_slice_1 y <-> y <= 0 /\ (fits (3 * x) \/ ~ fits (- y))) /\
  (observed (test6_compute x y) = test6_compute_slice_1 y <-> fits (3 * x) \/ ~ fits (y + 1)) /\
  (observed (test7_compute x y) = test7_compute_slice_1 x y <-> fits (- x)).
Proof.
  intros Hx Hy. unfold fits in Hx, Hy.
  assert (forall x y, observed (test7_compute x y) = test7_compute_slice_1 x y <-> 0 < x \/ fits (- x)) as H7.
  { intros a b. unfold test7_compute, test7_compute_slice_1. compare_slices. }
  split_and!; try done.
  - intros interval Hi. apply H7. right. unfold fits. specialize (Hi 0%nat). lia.
  - unfold test1_compute, test1_compute_slice_1. compare_slices.
  - unfold test2_compute, test2_compute_slice_1. compare_slices.
  - unfold test3_compute, test3_compute_slice_1. compare_slices.
  - unfold test4_compute, test4_compute_slice_1. compare_slices.
  - unfold test5_compute, test5_compute_slice_1. compare_slices.
  - unfold test6_compute, test6_compute_slice_1. compare_slices.
  - rewrite H7. unfold fits. lia.
Qed.

Lemma slices_preserve_criteria_witness :
  observed test5_main = test5_sliced_main /\ observed (test5_compute 3 5) <> test5_compute_slice_1 5 /\
  observed (test2_compute (2 ^ 30) 5) <> test2_compute_slice_1.
Proof.
  destruct (slices_preserve_criteria 3 5) as ((_ & _ & _ & _ & H & _) & _ & _ & _ & _ & H5 & _);
    [unfold fits; lia|unfold fits; lia|].
  destruct (slices_preserve_criteria (2 ^ 30) 5) as (_ & _ & H2 & _); [unfold fits; lia|unfold fits; lia|].
  split; [exact H|]. split; intros E; [apply H5 in E|apply H2 in E]; unfold fits in E; lia.
Defined.
