(* ===== verification/BranchTracker.v ===== *)
(** * The branch tracker: [testing-symbolic/].

    The two bounded branch histories, the instrumented test function and the two
    harnesses that compare the histories of two runs. *)
From S2P Require Import Prelude Arrays.
Local Open Scope Z_scope.

Definition MAX_BRANCH_VISITS : Z := 8.

(** The global variables. *)
Record tracker := mk_tracker {
  program_run : Z; branch_history_1 : list Z; branch_history_2 : list Z;
  branch_index_1 : Z; branch_index_2 : Z }.

Definition initial_tracker : tracker := mk_tracker 0 (replicate 8 0) (replicate 8 0) 0 0.

(** [None]: an access outside an array. *)
Definition reset_branch_history (g : tracker) : option tracker :=
  h ← for_range 0 MAX_BRANCH_VISITS (fun i '(h1, h2) =>
    h1 ← wr h1 i (-1); h2 ← wr h2 i (-1); Some (h1, h2)) (branch_history_1 g, branch_history_2 g);
  Some (mk_tracker (program_run g) h.1 h.2 0 0).

Definition record_branch_hit (value : Z) (g : tracker) : option tracker :=
  if (program_run g =? 1) && (branch_index_1 g <? MAX_BRANCH_VISITS) then
    h ← wr (branch_history_1 g) (branch_index_1 g) value;
    Some (mk_tracker (program_run g) h (branch_history_2 g) (branch_index_1 g + 1) (branch_index_2 g))
  else if (program_run g =? 2) && (branch_index_2 g <? MAX_BRANCH_VISITS) then
    h ← wr (branch_history_2 g) (branch_index_2 g) value;
    Some (mk_tracker (program_run g) (branch_history_1 g) h (branch_index_1 g) (branch_index_2 g + 1))
  else Some g.

(** The loop of [branch_histories_equal] from index [i], with [n] left. *)
Fixpoint histories_equal_from (n : nat) (i : Z) (g : tracker) : option Z :=
  match n with
  | O => Some 1
  | S n =>
      x ← rd (branch_history_1 g) i; y ← rd (branch_history_2 g) i;
      if negb (x =? y) then Some 0 else histories_equal_from n (i + 1) g
  end.
Definition branch_histories_equal (g : tracker) : option Z :=
  histories_equal_from (Z.to_nat MAX_BRANCH_VISITS) 0 g.

Definition set_run (r : Z) (g : tracker) : tracker :=
  mk_tracker r (branch_history_1 g) (branch_history_2 g) (branch_index_1 g) (branch_index_2 g).

(** ** [test1.c] *)
Definition int (z : Z) : option Z := if (- 2 ^ 31 <=? z) && (z <? 2 ^ 31) then Some z else None.

(** [None] also for a signed overflow. *)
Definition test_branch (pub secret : Z) (g : tracker) : option (tracker * Z) :=
  if 0 <? secret then
    g ← record_branch_hit 1 g; ret ← int (pub + 1); Some (g, ret)
  else
    g ← record_branch_hit 0 g; ret ← int (pub - 1); Some (g, ret).

Inductive verdict := AssumptionFails | AssertionFails | Returns (status : Z).

Definition test1_main (pub secret1 secret2 : Z) (g : tracker) : option verdict :=
  if secret1 =? secret2 then Some AssumptionFails else
  g ← reset_branch_history g;
  r ← test_branch pub secret1 (set_run 1 g);
  r ← test_branch pub secret2 (set_run 2 r.1);
  e ← branch_histories_equal r.1;
  Some (if e =? 0 then AssertionFails else Returns 0).

(** ** [mbedtls_driver.c] *)

(** [mbedtls_mpi]; [p] is [None] for NULL. *)
Record mpi := mk_mpi { sign : Z; limbs : Z; p : option (list Z) }.

Definition LIMB_COUNT : Z := 2.

(** [malloc_result] is the block, of any contents, or NULL. *)
Definition mpi_init_concrete (malloc_result : option (list Z)) (val : Z) : option mpi :=
  b ← malloc_result;
  b ← for_range 0 LIMB_COUNT (fun i b => wr b i (u64 (val + i))) b;
  Some (mk_mpi 1 LIMB_COUNT (Some b)).

(** [symbolic] are the words KLEE chose; [None] also if an assumption fails. *)
Definition mpi_init_symbolic_limited (malloc_result : option (list Z)) (symbolic : list Z) : option mpi :=
  b ← malloc_result;
  b ← blit b 0 symbolic;
  b ← for_range 0 LIMB_COUNT (fun i b => w ← rd b i; if w <=? 0xffff then Some b else None) b;
  Some (mk_mpi 1 LIMB_COUNT (Some b)).

Fixpoint record_branch_hits (values : list Z) (g : tracker) : option tracker :=
  match values with [] => Some g | v :: values => g ← record_branch_hit v g; record_branch_hits values g end.

Section driver.
(** [mbedtls_mpi_exp_mod] is library code: for the base, exponent, modulus and
    cached constant, on the memory [W] it works on (its result [X] included), the
    branch decisions it reports. *)
Context {W : Type}.
Variable (mbedtls_mpi_exp_mod : mpi -> mpi -> mpi -> mpi -> W -> W * list Z).
(** What [malloc] returns for the five blocks. *)
Variable (malloc : nat -> option (list Z)).

Definition mbedtls_driver_main (e1 e2 : list Z) (w : W) (g : tracker) : option verdict :=
  A ← mpi_init_concrete (malloc 0) 0x42;
  N ← mpi_init_concrete (malloc 1) 0x1337;
  prec_RR ← mpi_init_concrete (malloc 2) 0xBEEF;
  E1 ← mpi_init_symbolic_limited (malloc 3) e1;
  E2 ← mpi_init_symbolic_limited (malloc 4) e2;
  g ← reset_branch_history g;
  let '(w, hits) := mbedtls_mpi_exp_mod A E1 N prec_RR w in
  g ← record_branch_hits hits (set_run 1 g);
  let '(w, hits) := mbedtls_mpi_exp_mod A E2 N prec_RR w in
  g ← record_branch_hits hits (set_run 2 g);
  e ← branch_histories_equal g;
  Some (if e =? 0 then AssertionFails else Returns 0).
End driver.

(** ** The histories *)

(** A history holds the first eight hits, then -1. *)
Definition padded (hits : list Z) : list Z := take 8 (hits ++ replicate 8 (-1)).

Record represents (hits1 hits2 : list Z) (g : tracker) : Prop := {
  repr_1 : branch_history_1 g = padded hits1;
  repr_2 : branch_history_2 g = padded hits2;
  repr_index_1 : branch_index_1 g = Z.of_nat (Nat.min 8 (length hits1));
  repr_index_2 : branch_index_2 g = Z.of_nat (Nat.min 8 (length hits2)) }.

Lemma zlen_padded hits : zlen (padded hits) = 8.
Proof. unfold zlen, padded. rewrite length_take, length_app, length_replicate. lia. Qed.

Lemma padded_snoc_short hits v : (length hits < 8)%nat ->
  padded (hits ++ [v]) = <[length hits := v]> (padded hits).
Proof.
  intros Hl. unfold padded. apply list_eq. intros i.
  destruct (decide (i = length hits)) as [->|Hne].
  - rewrite list_lookup_insert_eq.
    2: { rewrite length_take, length_app, length_replicate. lia. }
    rewrite lookup_take_lt by lia. rewrite <-app_assoc, lookup_app_r by lia. by rewrite Nat.sub_diag.
  - rewrite list_lookup_insert_ne by done. destruct (decide (i < 8)%nat).
    2: { by rewrite !lookup_take_ge by lia. }
    rewrite !lookup_take_lt, <-app_assoc by lia.
    destruct (decide (i < length hits)%nat).
    + by rewrite !lookup_app_l by lia.
    + rewrite !(lookup_app_r hits), (lookup_app_r [v]) by (simpl; lia).
      by rewrite !lookup_replicate_2 by (simpl; lia).
Qed.

Lemma padded_snoc_long hits v : (8 <= length hits)%nat -> padded (hits ++ [v]) = padded hits.
Proof. intros Hl. unfold padded. rewrite <-app_assoc. by rewrite !take_app_le by lia. Qed.

Lemma padded_eq hits hits' : Forall (fun v => v <> -1) hits -> Forall (fun v => v <> -1) hits' ->
  padded hits = padded hits' <-> take 8 hits = take 8 hits'.
Proof.
  intros Hf Hf'. split.
  - intros E. apply list_eq. intros i. destruct (decide (i < 8)%nat) as [Hi|Hi];
      [|by rewrite !lookup_take_ge by lia].
    rewrite !lookup_take_lt by done. apply (f_equal (.!! i)) in E. unfold padded in E.
    rewrite !lookup_take_lt in E by done.
    assert (forall hs hs' : list Z, Forall (fun v => v <> -1) hs -> (length hs' <= i < length hs)%nat ->
      (hs ++ replicate 8 (-1)) !! i = (hs' ++ replicate 8 (-1)) !! i -> False) as Hbad.
    { intros hs hs' Hhs Hl E'. rewrite lookup_app_l, lookup_app_r in E' by lia.
      rewrite lookup_replicate_2 in E' by lia. rewrite Forall_lookup in Hhs. by apply (Hhs _ _ E'). }
    destruct (decide (i < length hits)%nat), (decide (i < length hits')%nat).
    + by rewrite !lookup_app_l in E by lia.
    + exfalso. by apply (Hbad hits hits' Hf); [lia|].
    + exfalso. symmetry in E. by apply (Hbad hits' hits Hf'); [lia|].
    + by rewrite !lookup_ge_None_2 by lia.
  - intros E. unfold padded. rewrite !take_app, E.
    assert (Nat.min 8 (length hits) = Nat.min 8 (length hits')) as El
      by (rewrite <-!length_take; by rewrite E).
    f_equal. f_equal. lia.
Qed.

Lemma reset_represents g : zlen (branch_history_1 g) = 8 -> zlen (branch_history_2 g) = 8 ->
  exists g', reset_branch_history g = Some g' /\ represents [] [] g'.
Proof.
  intros H1 H2. destruct g as [r h1 h2 i1 i2]. simpl in *. unfold zlen in *.
  do 8 (destruct h1 as [|? h1]; [done|]). do 8 (destruct h2 as [|? h2]; [done|]).
  destruct h1; [|simpl in *; lia]. destruct h2; [|simpl in *; lia]. by eexists.
Qed.

Lemma hit_represents_1 v g hits1 hits2 : program_run g = 1 -> represents hits1 hits2 g ->
  exists g', record_branch_hit v g = Some g' /\ program_run g' = 1 /\ represents (hits1 ++ [v]) hits2 g'.
Proof.
  intros Hr [R1 R2 I1 I2]. unfold record_branch_hit, MAX_BRANCH_VISITS. rewrite Hr, I1. cbn [Z.eqb Pos.eqb andb].
  destruct (Z.ltb_spec (Z.of_nat (Nat.min 8 (length hits1))) 8) as [Hl|Hl].
  - rewrite R1, wr_Some by (rewrite zlen_padded; lia). eexists. split; [done|]. split; [done|].
    split; cbn [branch_history_1 branch_history_2 branch_index_1 branch_index_2]; try done.
    + rewrite padded_snoc_short by lia. f_equal. lia.
    + rewrite length_app. cbn [length]. lia.
  - eexists. split; [done|]. split; [done|]. split; try done.
    + by rewrite padded_snoc_long by lia.
    + rewrite length_app. cbn [length]. lia.
Qed.

Lemma hit_represents_2 v g hits1 hits2 : program_run g = 2 -> represents hits1 hits2 g ->
  exists g', record_branch_hit v g = Some g' /\ program_run g' = 2 /\ represents hits1 (hits2 ++ [v]) g'.
Proof.
  intros Hr [R1 R2 I1 I2]. unfold record_branch_hit, MAX_BRANCH_VISITS. rewrite Hr, I2. cbn [Z.eqb Pos.eqb andb].
  destruct (Z.ltb_spec (Z.of_nat (Nat.min 8 (length hits2))) 8) as [Hl|Hl].
  - rewrite R2, wr_Some by (rewrite zlen_padded; lia). eexists. split; [done|]. split; [done|].
    split; cbn [branch_history_1 branch_history_2 branch_index_1 branch_index_2]; try done.
    + rewrite padded_snoc_short by lia. f_equal. lia.
    + rewrite length_app. cbn [length]. lia.
  - eexists. split; [done|]. split; [done|]. split; try done.
    + by rewrite padded_snoc_long by lia.
    + rewrite length_app. cbn [length]. lia.
Qed.

Lemma hits_represent_1 vs g hits1 hits2 : program_run g = 1 -> represents hits1 hits2 g ->
  exists g', record_branch_hits vs g = Some g' /\ program_run g' = 1 /\ represents (hits1 ++ vs) hits2 g'.
Proof.
  revert g hits1. induction vs as [|v vs IH]; intros g hits1 Hr Hg; [exists g; by rewrite app_nil_r|].
  simpl. destruct (hit_represents_1 v g _ _ Hr Hg) as (g1 & -> & Hr1 & Hg1). simpl.
  destruct (IH _ _ Hr1 Hg1) as (g' & -> & Hr' & Hg'). exists g'. by rewrite <-app_assoc in Hg'.
Qed.
Lemma hits_represent_2 vs g hits1 hits2 : program_run g = 2 -> represents hits1 hits2 g ->
  exists g', record_branch_hits vs g = Some g' /\ program_run g' = 2 /\ represents hits1 (hits2 ++ vs) g'.
Proof.
  revert g hits2. induction vs as [|v vs IH]; intros g hits2 Hr Hg; [exists g; by rewrite app_nil_r|].
  simpl. destruct (hit_represents_2 v g _ _ Hr Hg) as (g1 & -> & Hr1 & Hg1). simpl.
  destruct (IH _ _ Hr1 Hg1) as (g' & -> & Hr' & Hg'). exists g'. by rewrite <-app_assoc in Hg'.
Qed.

Lemma histories_equal_from_spec n i g : 0 <= i -> i + Z.of_nat n = 8 ->
  zlen (branch_history_1 g) = 8 -> zlen (branch_history_2 g) = 8 ->
  histories_equal_from n i g =
    Some (if decide (drop (Z.to_nat i) (branch_history_1 g) = drop (Z.to_nat i) (branch_history_2 g)) then 1 else 0).
Proof.
  revert i. induction n as [|n IH]; intros i Hi Hn H1 H2; cbn [histories_equal_from].
  - rewrite !drop_ge by (unfold zlen in *; lia). by rewrite decide_True.
  - destruct (rd_Some (branch_history_1 g) i ltac:(lia)) as [x Ex], (rd_Some (branch_history_2 g) i ltac:(lia)) as [y Ey].
    rewrite Ex, Ey. simpl. unfold rd in Ex, Ey. destruct (Z.ltb_spec i 0); [lia|].
    rewrite (drop_S _ _ _ Ex), (drop_S _ _ _ Ey).
    destruct (Z.eqb_spec x y) as [->|Hne]; simpl.
    + rewrite IH by lia. replace (Z.to_nat (i + 1)) with (S (Z.to_nat i)) by lia. repeat case_decide; congruence.
    + rewrite decide_False by congruence. done.
Qed.

Lemma branch_histories_equal_spec hits1 hits2 g : represents hits1 hits2 g ->
  branch_histories_equal g = Some (if decide (padded hits1 = padded hits2) then 1 else 0).
Proof.
  intros [R1 R2 I1 I2]. unfold branch_histories_equal.
  rewrite histories_equal_from_spec by (rewrite ?R1, ?R2, ?zlen_padded; done). 
  by rewrite R1, R2.
Qed.

Definition hit (v : Z) : Prop := v = 0 \/ v = 1.
Lemma hits_not_padding vs : Forall hit vs -> Forall (fun v => v <> -1) vs.
Proof. intros H. eapply Forall_impl; [exact H|]. intros v [-> | ->]; done. Qed.

(** The two runs of a harness: reset, record, record, compare. *)
Definition two_runs (hits1 hits2 : list Z) (g : tracker) : option Z :=
  g ← reset_branch_history g;
  g ← record_branch_hits hits1 (set_run 1 g);
  g ← record_branch_hits hits2 (set_run 2 g);
  branch_histories_equal g.

Lemma two_runs_spec hits1 hits2 g : zlen (branch_history_1 g) = 8 -> zlen (branch_history_2 g) = 8 ->
  Forall hit hits1 -> Forall hit hits2 ->
  two_runs hits1 hits2 g = Some (if decide (take 8 hits1 = take 8 hits2) then 1 else 0).
Proof.
  intros H1 H2 Hh1 Hh2. unfold two_runs.
  destruct (reset_represents g H1 H2) as (g0 & -> & [R1 R2 I1 I2]). simpl.
  destruct (hits_represent_1 hits1 (set_run 1 g0) [] []) as (g1 & -> & _ & [S1 S2 J1 J2]); [done|by split|]. simpl.
  destruct (hits_represent_2 hits2 (set_run 2 g1) hits1 []) as (g2 & -> & _ & Hg2); [done|by split|]. simpl.
  rewrite (branch_histories_equal_spec _ _ _ Hg2). simpl.
  pose proof (padded_eq hits1 hits2 (hits_not_padding _ Hh1) (hits_not_padding _ Hh2)) as Hp.
  repeat case_decide; tauto.
Qed.

(** Two limbs with successive values, whatever [malloc] left in them. *)
Definition concrete_mpi (val : Z) : mpi := mk_mpi 1 2 (Some [val; val + 1]).

Lemma mpi_init_concrete_some b val : zlen b = 2 -> 0 <= val < 2 ^ 63 ->
  mpi_init_concrete (Some b) val = Some (concrete_mpi val).
Proof.
  intros Hb Hv. unfold zlen in Hb.
  destruct b as [|x [|y [|]]]; simpl in Hb; try lia. unfold mpi_init_concrete, concrete_mpi. simpl.
  unfold for_range, wr. simpl. rewrite Z.add_0_r, !wrap_small by (unfold word; lia). done.
Qed.

Lemma mpi_init_symbolic_some b w0 w1 : zlen b = 2 -> 0 <= w0 <= 0xffff -> 0 <= w1 <= 0xffff ->
  mpi_init_symbolic_limited (Some b) [w0; w1] = Some (mk_mpi 1 2 (Some [w0; w1])).
Proof.
  intros Hb H0 H1. unfold zlen in Hb.
  destruct b as [|x [|y [|]]]; simpl in Hb; try lia. unfold mpi_init_symbolic_limited. simpl.
  unfold for_range, rd. simpl. replace (w0 <=? 65535) with true by lia. simpl.
  by replace (w1 <=? 65535) with true by lia.
Qed.

(** The decision and the result of the test function. *)
Definition decision (secret : Z) : Z := if 0 <? secret then 1 else 0.
Definition overflows (pub secret : Z) : bool := if 0 <? secret then pub =? 2 ^ 31 - 1 else pub =? - 2 ^ 31.

Lemma decision_hit s : hit (decision s).
Proof. unfold decision, hit. destruct (0 <? s); auto. Qed.

Lemma test_branch_spec pub s g g' : sword 32 pub -> record_branch_hit (decision s) g = Some g' ->
  if overflows pub s then test_branch pub s g = None
  else exists ret, test_branch pub s g = Some (g', ret).
Proof.
  unfold sword, decision, overflows, test_branch, int. intros Hp Hg.
  destruct (0 <? s); rewrite Hg; simpl.
  - destruct (Z.eqb_spec pub (2 ^ 31 - 1)) as [->|]; [done|].
    replace ((- 2 ^ 31 <=? pub + 1) && (pub + 1 <? 2 ^ 31)) with true by lia. by eexists.
  - destruct (Z.eqb_spec pub (- 2 ^ 31)) as [->|]; [done|].
    replace ((- 2 ^ 31 <=? pub - 1) && (pub - 1 <? 2 ^ 31)) with true by lia. by eexists.
Qed.

Lemma test1_main_spec pub s1 s2 g : zlen (branch_history_1 g) = 8 -> zlen (branch_history_2 g) = 8 ->
  sword 32 pub -> s1 <> s2 -> test1_main pub s1 s2 g =
    if overflows pub s1 || overflows pub s2 then None
    else Some (if eqb (0 <? s1) (0 <? s2) then Returns 0 else AssertionFails).
Proof.
  intros H1 H2 Hp Hne. unfold test1_main. rewrite (proj2 (Z.eqb_neq s1 s2) Hne).
  destruct (reset_represents g H1 H2) as (g0 & -> & [R1 R2 I1 I2]). cbn [mbind option_bind].
  destruct (hit_represents_1 (decision s1) (set_run 1 g0) [] []) as (g1 & E1 & _ & [S1 S2 J1 J2]); [done|by split|].
  pose proof (test_branch_spec pub s1 _ _ Hp E1) as T1.
  destruct (overflows pub s1); [by rewrite T1|]. destruct T1 as [r1 ->]. cbn [mbind option_bind fst].
  destruct (hit_represents_2 (decision s2) (set_run 2 g1) [decision s1] []) as (g2 & E2 & _ & Hg2); [done|by split|].
  pose proof (test_branch_spec pub s2 _ _ Hp E2) as T2.
  destruct (overflows pub s2); [by rewrite T2|]. destruct T2 as [r2 ->]. cbn [mbind option_bind fst orb].
  rewrite (branch_histories_equal_spec _ _ _ Hg2). cbn [mbind option_bind].
  unfold decision. by destruct (0 <? s1), (0 <? s2).
Qed.

(** C14. The tracker and its two harnesses, from globals of the declared sizes.
    Reset, recording of any two sequences of branch decisions in the two runs and
    comparison never leave the arrays, and the histories compare equal exactly if
    the first eight decisions of the runs agree (later ones are dropped).  So the
    assertion of [test1] fails exactly if one secret is positive and the other is
    not, unless the result overflows (then the run is undefined); and the assertion
    of the mbedtls driver, whatever the exponentiation does, fails exactly if the
    first eight branch decisions it reports for the two exponents differ. *)
Theorem branch_tracker_verdicts g : zlen (branch_history_1 g) = 8 -> zlen (branch_history_2 g) = 8 ->
  (forall hits1 hits2, Forall hit hits1 -> Forall hit hits2 ->
     two_runs hits1 hits2 g = Some (if decide (take 8 hits1 = take 8 hits2) then 1 else 0)) /\
  (forall pub secret1 secret2, sword 32 pub -> secret1 <> secret2 ->
     test1_main pub secret1 secret2 g =
       if overflows pub secret1 || overflows pub secret2 then None
       else Some (if eqb (0 <? secret1) (0 <? secret2) then Returns 0 else AssertionFails)) /\
  (forall W exp_mod malloc u0 u1 v0 v1 (w : W), (forall n, exists b, malloc n = Some b /\ zlen b = 2) ->
     0 <= u0 <= 0xffff -> 0 <= u1 <= 0xffff -> 0 <= v0 <= 0xffff -> 0 <= v1 <= 0xffff ->
     (forall a e m c w, Forall hit (exp_mod a e m c w).2) ->
     mbedtls_driver_main exp_mod malloc [u0; u1] [v0; v1] w g =
       let a := concrete_mpi 0x42 in let m := concrete_mpi 0x1337 in let c := concrete_mpi 0xBEEF in
       let r1 := exp_mod a (mk_mpi 1 2 (Some [u0; u1])) m c w in
       let r2 := exp_mod a (mk_mpi 1 2 (Some [v0; v1])) m c r1.1 in
       Some (if decide (take 8 r1.2 = take 8 r2.2) then Returns 0 else AssertionFails)).
Proof.
  intros H1 H2. split_and!.
  - intros. by apply two_runs_spec.
  - intros. by apply test1_main_spec.
  - intros W exp_mod malloc u0 u1 v0 v1 w Hm Hu0 Hu1 Hv0 Hv1 Hh.
    destruct (Hm 0%nat) as (b0 & E0 & L0), (Hm 1%nat) as (b1 & E1 & L1), (Hm 2%nat) as (b2 & E2 & L2),
      (Hm 3%nat) as (b3 & E3 & L3), (Hm 4%nat) as (b4 & E4 & L4).
    unfold mbedtls_driver_main. rewrite E0, E1, E2, E3, E4, !mpi_init_concrete_some by done.
    set (a := concrete_mpi 0x42). set (m := concrete_mpi 0x1337). set (c := concrete_mpi 0xBEEF).
    rewrite !mpi_init_symbolic_some by done. cbn [mbind option_bind]. cbv zeta.
    set (r1 := exp_mod a (mk_mpi 1 2 (Some [u0; u1])) m c w).
    assert (Forall hit r1.2) as Hr1 by apply Hh. destruct r1 as [w1 hits1]. cbn [fst snd] in *.
    set (r2 := exp_mod a (mk_mpi 1 2 (Some [v0; v1])) m c w1).
    assert (Forall hit r2.2) as Hr2 by apply Hh. destruct r2 as [w2 hits2]. cbn [fst snd] in *.
    pose proof (two_runs_spec hits1 hits2 g H1 H2 Hr1 Hr2) as Ht. unfold two_runs in Ht.
    destruct (reset_branch_history g) as [g0|]; [|done]. cbn [mbind option_bind] in *.
    destruct (record_branch_hits hits1 (set_run 1 g0)) as [g1|]; [|done]. cbn [mbind option_bind] in *.
    destruct (record_branch_hits hits2 (set_run 2 g1)) as [g2|]; [|done]. cbn [mbind option_bind] in *.
    rewrite Ht. cbn [mbind option_bind]. by case_decide.
Qed.

(** An exponentiation that reports whether the lowest limb of the exponent is odd. *)
Definition report_parity (a e m c : mpi) (w : unit) : unit * list Z :=
  (tt, [match p e with Some (l :: _) => l mod 2 | _ => 0 end]).

Lemma report_parity_hit a e m c w : Forall hit (report_parity a e m c w).2.
Proof.
  apply Forall_singleton. destruct (p e) as [[|l ls]|]; try by left.
  pose proof (Z.mod_pos_bound l 2). unfold hit. lia.
Qed.

Lemma branch_tracker_verdicts_witness :
  test1_main 0 5 (-5) initial_tracker = Some AssertionFails /\
  two_runs (replicate 8 1 ++ [0]) (replicate 8 1 ++ [1]) initial_tracker = Some 1 /\
  mbedtls_driver_main report_parity (fun _ => Some [7; 7]) [3; 0] [4; 0] tt initial_tracker = Some AssertionFails.
Proof.
  destruct (branch_tracker_verdicts initial_tracker eq_refl eq_refl) as (Ht & H1 & Hd). split_and!.
  - rewrite H1 by (done || unfold sword; lia). done.
  - rewrite Ht; [done|..]; repeat (apply Forall_cons; split; [by (left + right)|]); by apply Forall_nil.
  - rewrite (Hd unit report_parity) by first [done | lia | intros; by eexists | intros; apply report_parity_hit]. done.
Defined.
