(* ===== verification/ReplayTrace.v ===== *)
(** * The Pin replay tracer: [pin-tracer/replay_trace.cpp].

    What the tool writes for an execution: the analysis calls it inserts for an
    instruction, the lines they print, and the log of a run.  What Pin reports of an
    instruction (operands, effective addresses, predicate) is data. *)
From Stdlib Require Import Ascii.
From S2P Require Import Prelude.
Local Open Scope char_scope.
Local Open Scope Z_scope.

Abbreviation text := (list ascii).

(** [std::showbase << std::hex]: no base for zero. *)
Definition hex_digit (d : Z) : ascii :=
  nth (Z.to_nat d) ["0"; "1"; "2"; "3"; "4"; "5"; "6"; "7"; "8"; "9"; "a"; "b"; "c"; "d"; "e"; "f"] "0".

Fixpoint hex_digits (fuel : nat) (z : Z) (acc : text) : text :=
  match fuel with
  | O => acc
  | S fuel => if z =? 0 then acc else hex_digits fuel (z / 16) (hex_digit (z mod 16) :: acc)
  end.

Definition hex (z : Z) : text := if z =? 0 then ["0"] else ["0"; "x"] ++ hex_digits 16 z [].

Definition newline : ascii := "010".

Definition record_instruction (ip : Z) : text := ["I"; " "] ++ hex ip ++ [newline].
Definition record_read (ip address : Z) : text := ["R"; " "] ++ hex ip ++ [" "] ++ hex address ++ [newline].
Definition record_write (ip address : Z) : text := ["W"; " "] ++ hex ip ++ [" "] ++ hex address ++ [newline].

(** ** Instrumentation *)

(** An instruction: its memory operands, each read, written or both. *)
Record INS := mk_INS { operands : list (bool * bool) }.
Definition INS_MemoryOperandCount (ins : INS) : nat := length (operands ins).
Definition INS_MemoryOperandIsRead (ins : INS) (i : nat) : bool := default false (fst <$> operands ins !! i).
Definition INS_MemoryOperandIsWritten (ins : INS) (i : nat) : bool := default false (snd <$> operands ins !! i).

(** An inserted call: the analysis routine with the operand it gets, and whether it
    is subject to the predicate of the instruction. *)
Inductive routine := RecordInstruction | RecordRead (operand_index : nat) | RecordWrite (operand_index : nat).
Record inserted := mk_inserted { predicated : bool; calls : routine }.

Fixpoint instrument_operands (ins : INS) (n : nat) (operand_index : nat) : list inserted :=
  match n with
  | O => []
  | S n =>
      (if INS_MemoryOperandIsRead ins operand_index then [mk_inserted true (RecordRead operand_index)] else []) ++
      (if INS_MemoryOperandIsWritten ins operand_index then [mk_inserted true (RecordWrite operand_index)] else []) ++
      instrument_operands ins n (S operand_index)
  end.

Definition instrument_instruction (ins : INS) : list inserted :=
  mk_inserted false RecordInstruction :: instrument_operands ins (INS_MemoryOperandCount ins) 0.

(** ** Execution *)

(** One executed instruction: its address, whether its predicate holds, and the
    effective address of each memory operand. *)
Record execution := mk_execution { instruction : INS; ip : Z; executing : bool; ea : nat -> Z }.

Definition run_call (x : execution) (c : inserted) : text :=
  if predicated c && negb (executing x) then [] else
  match calls c with
  | RecordInstruction => record_instruction (ip x)
  | RecordRead i => record_read (ip x) (ea x i)
  | RecordWrite i => record_write (ip x) (ea x i)
  end.

Definition run_instruction (x : execution) : text := instrument_instruction (instruction x) ≫= run_call x.

(** The trace stream: whether it is open, and what the file holds once flushed. *)
Record trace_stream := mk_stream { is_open : bool; buffered : text; file : text }.

Definition open_stream (ok : bool) : trace_stream := mk_stream ok [] [].
Definition write_stream (t : text) (s : trace_stream) : trace_stream :=
  mk_stream (is_open s) (buffered s ++ t) (file s).
Definition finish (s : trace_stream) : trace_stream := mk_stream false [] (file s ++ buffered s).

(** [main] either returns a status, or starts the program, which runs to its end
    and leaves the trace file. *)
Inductive outcome := ExitStatus (status : Z) (message : bool) | ProgramRan (trace : trace_stream).

Definition main (pin_init_fails open_ok : bool) (program : list execution) : outcome :=
  if pin_init_fails then ExitStatus 1 false else
  let s := open_stream open_ok in
  if negb (is_open s) then ExitStatus 1 true else
  ProgramRan (finish (foldl (fun s x => write_stream (run_instruction x) s) s program)).

(** ** The log as data *)
Inductive event := Instruction (ip : Z) | Read (ip address : Z) | Write (ip address : Z).

Definition operand_events (x : execution) (i : nat) (o : bool * bool) : list event :=
  (if o.1 then [Read (ip x) (ea x i)] else []) ++ (if o.2 then [Write (ip x) (ea x i)] else []).

(** What an executed instruction is logged as. *)
Definition execution_events (x : execution) : list event :=
  Instruction (ip x) ::
  if executing x then concat (imap (operand_events x) (operands (instruction x))) else [].

Definition print_event (e : event) : text :=
  match e with
  | Instruction ip => record_instruction ip
  | Read ip a => record_read ip a
  | Write ip a => record_write ip a
  end.

(** Reading a log back. *)
Definition digit_value (c : ascii) : option Z :=
  let n := Z.of_nat (nat_of_ascii c) in
  if (48 <=? n) && (n <=? 57) then Some (n - 48)
  else if (97 <=? n) && (n <=? 102) then Some (n - 87) else None.

Fixpoint parse_digits (t : text) (z : Z) : Z * text :=
  match t with
  | c :: t' => match digit_value c with Some d => parse_digits t' (16 * z + d) | None => (z, t) end
  | [] => (z, [])
  end.

Definition parse_number (t : text) : option (Z * text) :=
  match t with
  | "0" :: "x" :: t => Some (parse_digits t 0)
  | "0" :: t => Some (0, t)
  | _ => None
  end.

Definition expect (c : ascii) (t : text) : option text :=
  match t with c' :: t => if Ascii.eqb c c' then Some t else None | [] => None end.

Definition parse_event (t : text) : option (event * text) :=
  match t with
  | "I" :: " " :: t =>
      '(ip, t) ← parse_number t; t ← expect newline t; Some (Instruction ip, t)
  | "R" :: " " :: t =>
      '(ip, t) ← parse_number t; t ← expect " " t;
      '(a, t) ← parse_number t; t ← expect newline t; Some (Read ip a, t)
  | "W" :: " " :: t =>
      '(ip, t) ← parse_number t; t ← expect " " t;
      '(a, t) ← parse_number t; t ← expect newline t; Some (Write ip a, t)
  | _ => None
  end.

Fixpoint parse_log (fuel : nat) (t : text) : option (list event) :=
  match t with
  | [] => Some []
  | _ =>
      match fuel with
      | O => None
      | S fuel => '(e, t) ← parse_event t; es ← parse_log fuel t; Some (e :: es)
      end
  end.

Example log_example : let x := mk_execution (mk_INS [(true, true); (true, false)]) 0x401136 true (fun i => Z.of_nat i * 255) in
  parse_log 4 (run_instruction x) =
    Some [Instruction 0x401136; Read 0x401136 0; Write 0x401136 0; Read 0x401136 0xff].
Proof. vm_compute. reflexivity. Qed.

(** ** Round trip *)
Lemma digit_value_hex d : 0 <= d < 16 -> digit_value (hex_digit d) = Some d.
Proof.
  intros Hd. assert (d ∈ seqZ 0 16) as Hin by (apply elem_of_seqZ; lia). revert Hin.
  assert (Forall (fun d => digit_value (hex_digit d) = Some d) (seqZ 0 16)) as H
    by (apply (bool_decide_unpack _); vm_compute; exact I).
  rewrite Forall_forall in H. apply H.
Qed.

(** Not a digit: what may follow a number. *)
Definition stops (t : text) : Prop := match t with c :: _ => digit_value c = None | [] => True end.

Lemma parse_digits_stop t z : stops t -> parse_digits t z = (z, t).
Proof. destruct t as [|c t]; [done|]. simpl. by intros ->. Qed.

Lemma hex_digits_app fuel z acc : hex_digits fuel z acc = hex_digits fuel z [] ++ acc.
Proof.
  revert z acc. induction fuel as [|fuel IH]; intros z acc; simpl; [done|].
  destruct (z =? 0); [done|]. rewrite IH, (IH _ [_]), <-app_assoc. done.
Qed.

Lemma parse_hex_digits fuel z t : 0 <= z < 16 ^ Z.of_nat fuel ->
  parse_digits (hex_digits fuel z [] ++ t) 0 = parse_digits t z.
Proof.
  revert z t. induction fuel as [|fuel IH]; intros z t Hz.
  - simpl in Hz. by replace z with 0 by lia.
  - cbn [hex_digits]. destruct (Z.eqb_spec z 0) as [->|Hne]; [done|].
    rewrite hex_digits_app, <-app_assoc, IH.
    + cbn [app parse_digits]. rewrite digit_value_hex by (apply Z.mod_pos_bound; lia).
      f_equal. rewrite (Z.div_mod z 16) at 3 by lia. lia.
    + rewrite Nat2Z.inj_succ, Z.pow_succ_r in Hz by lia.
      split; [apply Z.div_pos; lia|apply Z.div_lt_upper_bound; lia].
Qed.

Lemma parse_hex z t : word 64 z -> stops t -> (forall t', t <> "x" :: t') -> parse_number (hex z ++ t) = Some (z, t).
Proof.
  intros Hz Ht Hx. unfold hex, word in *. destruct (Z.eqb_spec z 0) as [->|Hne].
  - cbn. destruct t as [|c t]; [done|].
    destruct (Ascii.ascii_dec c "x") as [->|Hc]; [by destruct (Hx t)|].
    by destruct c as [[] [] [] [] [] [] [] []].
  - rewrite <-app_assoc. change (parse_number (["0"; "x"] ++ hex_digits 16 z [] ++ t))
      with (Some (parse_digits (hex_digits 16 z [] ++ t) 0)).
    rewrite parse_hex_digits by lia. by rewrite parse_digits_stop.
Qed.

Definition event_ok (e : event) : Prop :=
  match e with Instruction ip => word 64 ip | Read ip a | Write ip a => word 64 ip /\ word 64 a end.

Lemma parse_print_event e t : event_ok e -> parse_event (print_event e ++ t) = Some (e, t).
Proof.
  assert (forall z u, word 64 z -> parse_number (hex z ++ newline :: u) = Some (z, newline :: u)) as Hn
    by (intros; by apply parse_hex).
  assert (forall z u, word 64 z -> parse_number (hex z ++ " " :: u) = Some (z, " " :: u)) as Hs
    by (intros; by apply parse_hex).
  destruct e as [i|i a|i a]; cbn [event_ok print_event];
    unfold record_instruction, record_read, record_write; rewrite <-?app_assoc; cbn [app parse_event].
  - intros Hi. by rewrite Hn.
  - intros [Hi Ha]. rewrite Hs by done. cbn. by rewrite Hn.
  - intros [Hi Ha]. rewrite Hs by done. cbn. by rewrite Hn.
Qed.

Lemma print_event_nonempty e : print_event e <> [].
Proof. by destruct e. Qed.

Lemma parse_print_log es : Forall event_ok es -> parse_log (length es) (es ≫= print_event) = Some es.
Proof.
  induction 1 as [|e es He Hes IH]; [done|].
  cbn [mbind list_bind length parse_log]. destruct (print_event e ++ (es ≫= print_event)) eqn:E.
  - apply app_eq_nil in E as [E _]. by destruct (print_event_nonempty e).
  - rewrite <-E, parse_print_event by done. cbn [mbind option_bind]. by rewrite IH.
Qed.

(** ** The tool logs what is executed *)
Lemma instrument_operands_log x os n : (forall k o, os !! k = Some o -> operands (instruction x) !! (n + k)%nat = Some o) ->
  instrument_operands (instruction x) (length os) n ≫= run_call x =
    (if executing x then concat (imap (fun k => operand_events x (n + k)%nat) os) else []) ≫= print_event.
Proof.
  revert n. induction os as [|[r w] os IH]; intros n Hos; [by destruct (executing x)|].
  assert (operands (instruction x) !! n = Some (r, w)) as Ho by (rewrite <-(Nat.add_0_r n); by apply Hos).
  cbn [length instrument_operands]. unfold INS_MemoryOperandIsRead, INS_MemoryOperandIsWritten.
  rewrite Ho. simpl. rewrite !bind_app, IH.
  2: { intros k o Hk. rewrite Nat.add_succ_comm. by apply Hos. }
  unfold operand_events at 2. destruct (executing x) eqn:Ex; simpl.
  - rewrite !bind_app, Nat.add_0_r. unfold run_call. rewrite Ex.
    rewrite (imap_ext (fun k => operand_events x (S n + k)%nat) ((fun k => operand_events x (n + k)%nat) ∘ S)).
    + destruct r, w; simpl; rewrite ?Ex; simpl; rewrite ?app_nil_r, <-?app_assoc; do 3 (simpl; rewrite <-?app_assoc); done.
    + intros k o _. simpl. by rewrite Nat.add_succ_r.
  - unfold run_call. destruct r, w; simpl; rewrite ?Ex; done.
Qed.

Lemma run_instruction_events x : run_instruction x = execution_events x ≫= print_event.
Proof.
  unfold run_instruction, instrument_instruction, execution_events, INS_MemoryOperandCount.
  cbn [mbind list_bind]. f_equal.
  change (list_bind _ _ (run_call x) ?l) with (l ≫= run_call x).
  rewrite (instrument_operands_log x (operands (instruction x)) 0) by done. done.
Qed.

Definition execution_ok (x : execution) : Prop := word 64 (ip x) /\ forall i, word 64 (ea x i).

Lemma execution_events_ok x : execution_ok x -> Forall event_ok (execution_events x).
Proof.
  intros [Hi Ha]. unfold execution_events. apply Forall_cons. split; [done|].
  destruct (executing x); [|by apply Forall_nil]. apply Forall_concat, Forall_lookup.
  intros k es. rewrite list_lookup_imap. intros ([r w] & _ & ->)%fmap_Some. unfold operand_events.
  apply Forall_app. split; [destruct r|destruct w]; simpl; (apply Forall_nil || apply Forall_singleton); done.
Qed.

Lemma run_writes program s :
  foldl (fun s x => write_stream (run_instruction x) s) s program =
    mk_stream (is_open s) (buffered s ++ (program ≫= run_instruction)) (file s).
Proof.
  revert s. induction program as [|x program IH]; intros s; simpl; [by destruct s; rewrite app_nil_r|].
  rewrite IH. simpl. by rewrite <-app_assoc.
Qed.

(** C13. Whatever program runs under the tracer, the file is closed at the end and
    holds a log that can be read back to exactly this list, in this order: for every
    executed instruction its address, and then, unless its predicate is false, for
    every memory operand in turn a read and a write event with the effective
    address, as far as the operand is read and written.  (Zero prints without the
    [0x] base, and still reads back.)  Before that, the tool returns 1 if Pin cannot
    be initialised, and returns 1 with a message if the file cannot be opened. *)
Theorem replay_log_roundtrip program : Forall execution_ok program ->
  exists log, main false true program = ProgramRan (mk_stream false [] log) /\
    parse_log (length (program ≫= execution_events)) log = Some (program ≫= execution_events) /\
    (forall open_ok, main true open_ok program = ExitStatus 1 false) /\
    main false false program = ExitStatus 1 true.
Proof.
  intros Hp. exists (program ≫= run_instruction). split_and!; [|..|done|done].
  - unfold main. simpl. by rewrite run_writes.
  - assert (program ≫= run_instruction = (program ≫= execution_events) ≫= print_event) as ->.
    { clear Hp. induction program as [|x program IH]; [done|].
      by rewrite !bind_cons, bind_app, run_instruction_events, IH. }
    apply parse_print_log. induction Hp as [|x program Hx Hp IH]; [by apply Forall_nil|].
    rewrite bind_cons. apply Forall_app. split; [by apply execution_events_ok|done].
Qed.

Lemma replay_log_roundtrip_witness :
  let x := mk_execution (mk_INS [(true, true)]) 0x401136 true (fun _ => 0) in
  exists log, main false true [x] = ProgramRan (mk_stream false [] log) /\
    parse_log 3 log = Some [Instruction 0x401136; Read 0x401136 0; Write 0x401136 0].
Proof.
  destruct (replay_log_roundtrip [mk_execution (mk_INS [(true, true)]) 0x401136 true (fun _ => 0)])
    as (log & Hm & Hp & _).
  - apply Forall_singleton. split; intros; unfold word; simpl; lia.
  - exists log. split; [exact Hm|exact Hp].
Defined.
