(* ===== verification/ConstantTime.v ===== *)
(** * Constant-time masks: [benchmarks/openssl_almeida/constant_time_locl.h].

    [unsigned int] is a 32-bit word, [unsigned char] an 8-bit word and [int] a
    signed 32-bit integer.  A mask is all ones for true and zero for false. *)
From S2P Require Import Prelude.
Local Open Scope Z_scope.
Local Open Scope word_scope.

Definition constant_time_msb (a : Z) : Z := u32 (0 - (a ≫ (4 * 8 - 1))).

Definition constant_time_lt (a b : Z) : Z :=
  constant_time_msb (a .^ ((a .^ b) .| (u32 (a - b) .^ b))).

Definition constant_time_lt_8 (a b : Z) : Z := u8 (constant_time_lt a b).

Definition constant_time_ge (a b : Z) : Z := wnot 32 (constant_time_lt a b).

Definition constant_time_ge_8 (a b : Z) : Z := u8 (constant_time_ge a b).

Definition constant_time_is_zero (a : Z) : Z :=
  constant_time_msb (wnot 32 a .& u32 (a - 1)).

Definition constant_time_is_zero_8 (a : Z) : Z := u8 (constant_time_is_zero a).

Definition constant_time_eq (a b : Z) : Z := constant_time_is_zero (a .^ b).

Definition constant_time_eq_8 (a b : Z) : Z := u8 (constant_time_eq a b).

Definition constant_time_eq_int (a b : Z) : Z := constant_time_eq (u32 a) (u32 b).

Definition constant_time_eq_int_8 (a b : Z) : Z :=
  constant_time_eq_8 (u32 a) (u32 b).

Definition constant_time_select (mask a b : Z) : Z :=
  (mask .& a) .| (wnot 32 mask .& b).

(** The [unsigned char] arguments are promoted before the call. *)
Definition constant_time_select_8 (mask a b : Z) : Z :=
  u8 (constant_time_select mask a b).

Definition constant_time_select_int (mask a b : Z) : Z :=
  s32 (constant_time_select mask (u32 a) (u32 b)).

(** ** Specification *)

(** The mask of a truth value, at width [w]. *)
Definition mask (w : Z) (b : bool) : Z := if b then 2 ^ w - 1 else 0.

Section masks.
Implicit Types (a b x y : Z) (c : bool).

Lemma word_mask w c : 0 <= w -> word w (mask w c).
Proof. intros. unfold word, mask. destruct c; lia. Qed.

Lemma u8_mask c : u8 (mask 32 c) = mask 8 c.
Proof. by destruct c. Qed.

Lemma wnot_mask w c : 0 <= w -> wnot w (mask w c) = mask w (negb c).
Proof. intros. destruct c; [by apply wnot_ones|by apply wnot_zero]. Qed.

Lemma land_mask_word w c x : 0 <= w -> word w x -> mask w c .& x = if c then x else 0.
Proof. intros. destruct c; [by apply land_ones_word|apply Z.land_0_l]. Qed.

Lemma land_masks w c c' : 0 <= w -> mask w c .& mask w c' = mask w (c && c').
Proof.
  intros. rewrite land_mask_word by (try done; by apply word_mask). by destruct c, c'.
Qed.

Lemma msb_spec a : word 32 a -> constant_time_msb a = mask 32 (2 ^ 31 <=? a).
Proof.
  intros Ha. unfold constant_time_msb. change (4 * 8 - 1) with (32 - 1).
  rewrite (shiftr_top 32) by word_range. change (2 ^ (32 - 1)) with (2 ^ 31).
  by destruct (2 ^ 31 <=? a).
Qed.

Lemma lt_spec a b : word 32 a -> word 32 b ->
  constant_time_lt a b = mask 32 (a <? b).
Proof.
  intros Ha Hb. unfold constant_time_lt. rewrite msb_spec by word_range. f_equal.
  rewrite <-(testbit_top 32) by word_range.
  rewrite !Z.lxor_spec, Z.lor_spec, !Z.lxor_spec, !(testbit_top 32) by word_range.
  unfold wrap, word in *. destruct (Z.ltb_spec a b).
  all: destruct (Z.leb_spec (2 ^ (32 - 1)) a), (Z.leb_spec (2 ^ (32 - 1)) b),
    (Z.leb_spec (2 ^ (32 - 1)) ((a - b) mod 2 ^ 32)); simpl; try done; exfalso.
  all: Z.to_euclidean_division_equations; lia.
Qed.

Lemma ge_spec a b : word 32 a -> word 32 b ->
  constant_time_ge a b = mask 32 (b <=? a).
Proof.
  intros. unfold constant_time_ge. rewrite lt_spec, wnot_mask by done.
  by rewrite Z.leb_antisym.
Qed.

(** [~a & (a - 1)] has its top bit set exactly at zero. *)
Lemma is_zero_spec a : word 32 a -> constant_time_is_zero a = mask 32 (a =? 0).
Proof.
  intros Ha. unfold constant_time_is_zero. rewrite msb_spec by word_range. f_equal.
  rewrite <-(testbit_top 32), Z.land_spec by word_range.
  rewrite !(testbit_top 32) by word_range.
  unfold wnot, wrap, word, Z.lnot in *. destruct (Z.eqb_spec a 0).
  { subst. done. }
  destruct (Z.leb_spec (2 ^ (32 - 1)) (Z.pred (- a) mod 2 ^ 32)),
    (Z.leb_spec (2 ^ (32 - 1)) ((a - 1) mod 2 ^ 32)); simpl; try done; exfalso.
  Z.to_euclidean_division_equations; lia.
Qed.

Lemma eq_spec a b : word 32 a -> word 32 b ->
  constant_time_eq a b = mask 32 (a =? b).
Proof.
  intros. unfold constant_time_eq. rewrite is_zero_spec by word_range. f_equal.
  apply eq_bool_prop_intro. rewrite !Is_true_true, !Z.eqb_eq. apply Z.lxor_eq_0_iff.
Qed.

Lemma lt_8_spec a b : word 32 a -> word 32 b ->
  constant_time_lt_8 a b = mask 8 (a <? b).
Proof. intros. unfold constant_time_lt_8. by rewrite lt_spec, u8_mask. Qed.
Lemma ge_8_spec a b : word 32 a -> word 32 b ->
  constant_time_ge_8 a b = mask 8 (b <=? a).
Proof. intros. unfold constant_time_ge_8. by rewrite ge_spec, u8_mask. Qed.
Lemma is_zero_8_spec a : word 32 a -> constant_time_is_zero_8 a = mask 8 (a =? 0).
Proof. intros. unfold constant_time_is_zero_8. by rewrite is_zero_spec, u8_mask. Qed.
Lemma eq_8_spec a b : word 32 a -> word 32 b ->
  constant_time_eq_8 a b = mask 8 (a =? b).
Proof. intros. unfold constant_time_eq_8. by rewrite eq_spec, u8_mask. Qed.

Lemma select_spec c x y : word 32 x -> word 32 y ->
  constant_time_select (mask 32 c) x y = if c then x else y.
Proof.
  intros. unfold constant_time_select. rewrite wnot_mask by done.
  rewrite !land_mask_word by done. destruct c; simpl; [apply Z.lor_0_r|done].
Qed.

(** [unsigned char] masks are zero-extended, so [~mask] keeps high ones; the
    final truncation removes what they select. *)
Lemma select_8_spec c x y : word 8 x -> word 8 y ->
  constant_time_select_8 (mask 8 c) x y = if c then x else y.
Proof.
  intros Hx Hy. unfold constant_time_select_8, constant_time_select.
  rewrite land_mask_word by done. destruct c; unfold mask.
  - replace (wnot 32 (2 ^ 8 - 1) .& y) with 0.
    { rewrite Z.lor_0_r. by apply wrap_small. }
    symmetry. apply Z.bits_inj'. intros i Hi. rewrite Z.land_spec, Z.bits_0.
    destruct (Z.ltb_spec i 8); [|by rewrite (word_testbit 8 y), andb_false_r].
    unfold wnot. rewrite testbit_wrap, Z.lnot_spec by lia.
    change (2 ^ 8 - 1) with (Z.ones 8). rewrite Z.ones_spec_low by lia.
    by rewrite andb_false_r.
  - rewrite Z.lor_0_l, wnot_zero, land_ones_word by (try done; by eapply word_mono).
    by apply wrap_small.
Qed.

Lemma s32_u32 x : sword 32 x -> s32 (u32 x) = x.
Proof.
  unfold sgn, sword, wrap. intros. rewrite Zplus_mod_idemp_l, Z.mod_small; lia.
Qed.
Lemma eqb_u32 a b : sword 32 a -> sword 32 b -> (u32 a =? u32 b) = (a =? b).
Proof.
  intros Ha Hb. apply eq_bool_prop_intro. rewrite !Is_true_true, !Z.eqb_eq.
  split; [|by intros ->]. intros E. by rewrite <-(s32_u32 a), <-(s32_u32 b), E.
Qed.
End masks.

Create Rewrite HintDb ct.
#[global] Hint Rewrite lt_spec ge_spec is_zero_spec eq_spec lt_8_spec ge_8_spec
  is_zero_8_spec eq_8_spec using word_range : ct.
#[export] Hint Resolve word_mask : word.

(** Replace every constant-time comparison by the mask of the comparison. *)
Ltac ct := autorewrite with ct.

(** ** Properties *)

(** Selecting with a mask of the library is the conditional. *)
Lemma select_is_conditional c a b x y :
  word 32 a -> word 32 b -> word 8 x -> word 8 y ->
  constant_time_select (mask 32 c) a b = (if c then a else b) /\
  constant_time_select_8 (mask 8 c) x y = (if c then x else y).
Proof. intros. split; [by apply select_spec|by apply select_8_spec]. Qed.

Lemma signed_variants c i j : sword 32 i -> sword 32 j ->
  constant_time_select_int (mask 32 c) i j = (if c then i else j) /\
  constant_time_eq_int i j = mask 32 (i =? j) /\
  constant_time_eq_int_8 i j = mask 8 (i =? j).
Proof.
  intros Hi Hj. unfold constant_time_select_int, constant_time_eq_int, constant_time_eq_int_8.
  rewrite select_spec, eq_spec, eq_8_spec by word_range. rewrite !eqb_u32 by done.
  split; [|done]. destruct c; by apply s32_u32.
Qed.

(** C22. The comparison functions return, for all [unsigned int] arguments, the
    all-ones mask when the comparison holds and zero otherwise, including when
    the subtractions they use wrap around; their [_8] variants return the
    [unsigned char] mask.  Selecting with such a mask is the conditional: for the
    unsigned, [unsigned char] and signed variants, [select(mask(c), x, y)] is
    [c ? x : y], and the signed equality test compares the signed values. *)
Theorem constant_time_correct a b c x y :
  word 32 a -> word 32 b -> word 8 x -> word 8 y ->
  (constant_time_lt a b = mask 32 (a <? b) /\
   constant_time_ge a b = mask 32 (b <=? a) /\
   constant_time_eq a b = mask 32 (a =? b) /\
   constant_time_is_zero a = mask 32 (a =? 0)) /\
  (constant_time_lt_8 a b = mask 8 (a <? b) /\
   constant_time_ge_8 a b = mask 8 (b <=? a) /\
   constant_time_eq_8 a b = mask 8 (a =? b) /\
   constant_time_is_zero_8 a = mask 8 (a =? 0)) /\
  (constant_time_select (mask 32 c) a b = (if c then a else b) /\
   constant_time_select_8 (mask 8 c) x y = (if c then x else y)) /\
  (forall i j, sword 32 i -> sword 32 j ->
     constant_time_select_int (mask 32 c) i j = (if c then i else j) /\
     constant_time_eq_int i j = mask 32 (i =? j) /\
     constant_time_eq_int_8 i j = mask 8 (i =? j)).
Proof.
  intros. split; [by ct|]. split; [by ct|]. split; [by apply select_is_conditional|].
  intros. by apply signed_variants.
Qed.

Lemma constant_time_correct_witness :
  constant_time_lt 3 (2 ^ 32 - 1) = mask 32 (3 <? 2 ^ 32 - 1) /\
  constant_time_select_8 (mask 8 true) 200 7 = 200.
Proof.
  destruct (constant_time_correct 3 (2 ^ 32 - 1) true 200 7) as ([Hlt _] & _ & [_ Hs] & _); [unfold word; lia..|].
  exact (conj Hlt Hs).
Defined.
