(* ===== verification/CbcPadding.v ===== *)
(** * Removal of CBC padding: [benchmarks/openssl_almeida/
    {ssl3_cbc_remove_padding,tls1_cbc_remove_padding_patch,
    tls1_cbc_remove_padding_lucky13}.c].

    The three functions read the padding-length byte at the end of a decrypted
    record and shorten the record.  The first two are the constant-time code of
    the Lucky 13 patch, the third is the branching code it replaced. *)
From S2P Require Import Prelude Arrays ConstantTime.
Local Open Scope Z_scope.
Local Open Scope word_scope.

(** [rec->data] and [rec->input] point into buffers, so they are offsets:
    [rec->data[i]] is [rec_buf[rec_data + i]]. *)
Record SSL3_RECORD := mk_record {
  rec_length : Z; rec_buf : list Z; rec_data : Z; rec_type : Z; rec_input : Z }.

Record SSL3_STATE := mk_s3 { s3_flags : Z; read_sequence : list Z }.

(** [expand] records whether the pointer is non-null; the cipher's flags are
    those of [s->enc_read_ctx->cipher]. *)
Record SSL := mk_ssl {
  expand : bool; options : Z; cipher_flags : Z; slicing_cheat : Z }.

Definition SSL_OP_TLS_BLOCK_PADDING_BUG : Z := 0x00000200.
Definition TLS1_FLAGS_TLS_PADDING_BUG : Z := 0x0008.
Definition EVP_CIPH_FLAG_AEAD_CIPHER : Z := 0x200000.

Definition SSL_USE_EXPLICIT_IV (s : SSL) : bool := negb (slicing_cheat s .& 1 =? 0).

#[global] Instance SSL3_RECORD_eq_dec : EqDecision SSL3_RECORD.
Proof. solve_decision. Defined.
#[global] Instance SSL3_STATE_eq_dec : EqDecision SSL3_STATE.
Proof. solve_decision. Defined.

(** [rec->data[i]]. *)
Definition rec_byte (rec : SSL3_RECORD) (i : Z) : option Z := rd (rec_buf rec) (rec_data rec + i).

(** [rec->length -= n]. *)
Definition rec_shrink (n : Z) (rec : SSL3_RECORD) : SSL3_RECORD :=
  mk_record (u32 (rec_length rec - n)) (rec_buf rec) (rec_data rec) (rec_type rec)
    (rec_input rec).

(** [rec->data += n; rec->input += n; rec->length -= n]. *)
Definition rec_skip (n : Z) (rec : SSL3_RECORD) : SSL3_RECORD :=
  mk_record (u32 (rec_length rec - n)) (rec_buf rec) (rec_data rec + n) (rec_type rec)
    (rec_input rec + n).

(** [rec->type |= n << 8], an [int] updated with an [unsigned] value. *)
Definition rec_set_type (n : Z) (rec : SSL3_RECORD) : SSL3_RECORD :=
  mk_record (rec_length rec) (rec_buf rec) (rec_data rec)
    (s32 (u32 (rec_type rec) .| u32 (n ≪ 8))) (rec_input rec).

(** ** SSLv3 *)
Definition ssl3_cbc_remove_padding (rec : SSL3_RECORD) (block_size mac_size : Z)
    : option (Z * SSL3_RECORD) :=
  let overhead := u32 (1 + mac_size) in
  if rec_length rec <? overhead then Some (0, rec) else
  padding_length ← rec_byte rec (u32 (rec_length rec - 1));
  let good := constant_time_ge (rec_length rec) (u32 (padding_length + overhead)) in
  let good := good .& constant_time_ge block_size (u32 (padding_length + 1)) in
  let padding_length := good .& u32 (padding_length + 1) in
  let rec := rec_set_type padding_length (rec_shrink padding_length rec) in
  Some (constant_time_select_int good 1 (-1), rec).

(** ** TLS, patched *)

(** [x |= a[i] ^ b[i]] over [len] bytes. *)
Definition CRYPTO_memcmp (in_a in_b : list Z) (len : Z) : option Z :=
  for_range 0 len (fun i x =>
    a ← rd in_a i; b ← rd in_b i; Some (u8 (x .| (a .^ b)))) 0.

(** The padding-bug workaround: the new flags and padding length. *)
Definition padding_bug_check (s : SSL) (s3 : SSL3_STATE) (padding_length : Z)
    : option (SSL3_STATE * Z) :=
  if negb (options s .& SSL_OP_TLS_BLOCK_PADDING_BUG =? 0) && negb (expand s) then
    c ← CRYPTO_memcmp (read_sequence s3) (replicate 8 0) 8;
    let s3 := if (c =? 0) && (padding_length .& 1 =? 0)
      then mk_s3 (s3_flags s3 .| TLS1_FLAGS_TLS_PADDING_BUG) (read_sequence s3) else s3 in
    Some (s3, if negb (s3_flags s3 .& TLS1_FLAGS_TLS_PADDING_BUG =? 0) && (0 <? padding_length)
              then u32 (padding_length - 1) else padding_length)
  else Some (s3, padding_length).

(** The constant-time comparison of the last [to_check] bytes. *)
Definition check_padding (rec : SSL3_RECORD) (padding_length to_check good : Z) : option Z :=
  for_range 0 to_check (fun i good =>
    let mask := constant_time_ge_8 padding_length i in
    b ← rec_byte rec (u32 (rec_length rec - 1 - i));
    Some (good .& wnot 32 (mask .& (padding_length .^ b)))) good.

(** From the read of the padding length on, once the explicit IV is skipped. *)
Definition tls1_strip_padding (s : SSL) (s3 : SSL3_STATE) (rec : SSL3_RECORD) (overhead : Z)
    : option (Z * SSL3_RECORD * SSL3_STATE) :=
  padding_length ← rec_byte rec (u32 (rec_length rec - 1));
  '(s3, padding_length) ← padding_bug_check s s3 padding_length;
  if negb (cipher_flags s .& EVP_CIPH_FLAG_AEAD_CIPHER =? 0)
  then Some (1, rec_shrink (u32 (padding_length + 1)) rec, s3) else
  let good := constant_time_ge (rec_length rec) (u32 (overhead + padding_length)) in
  let to_check := if u32 (rec_length rec - 1) <? 255 then u32 (rec_length rec - 1) else 255 in
  good ← check_padding rec padding_length to_check good;
  let good := constant_time_eq 0xff (good .& 0xff) in
  let padding_length := good .& u32 (padding_length + 1) in
  let rec := rec_set_type padding_length (rec_shrink padding_length rec) in
  Some (constant_time_select_int good 1 (-1), rec, s3).

Definition tls1_cbc_remove_padding (s : SSL) (s3 : SSL3_STATE) (rec : SSL3_RECORD)
    (block_size mac_size : Z) : option (Z * SSL3_RECORD * SSL3_STATE) :=
  let overhead := u32 (1 + mac_size) in
  if SSL_USE_EXPLICIT_IV s then
    if rec_length rec <? u32 (overhead + block_size) then Some (0, rec, s3)
    else tls1_strip_padding s s3 (rec_skip block_size rec) overhead
  else if rec_length rec <? overhead then Some (0, rec, s3)
  else tls1_strip_padding s s3 rec overhead.

(** ** TLS, before the patch *)

(** [for (j = l - i; j < l; j++) if (rec->data[j] != ii) return -1;] *)
Fixpoint all_equal_from (n : nat) (rec : SSL3_RECORD) (j ii : Z) : option bool :=
  match n with
  | O => Some true
  | S n => b ← rec_byte rec j; if b =? ii then all_equal_from n rec (j + 1) ii else Some false
  end.

Definition tls1_cbc_remove_padding_lucky13 (s : SSL) (s3 : SSL3_STATE) (rec : SSL3_RECORD)
    (bs mac_size : Z) : option (Z * SSL3_RECORD * SSL3_STATE) :=
  let l := s32 (rec_length rec) in
  ii ← rec_byte rec (l - 1);
  let i := ii + 1 in
  '(s3, i) ← (if negb (options s .& SSL_OP_TLS_BLOCK_PADDING_BUG =? 0) then
    seq ← slice (read_sequence s3) 0 8;
    let s3 := if bool_decide (seq = replicate 8 0) && (ii .& 1 =? 0)
      then mk_s3 (s3_flags s3 .| TLS1_FLAGS_TLS_PADDING_BUG) (read_sequence s3) else s3 in
    Some (s3, if negb (s3_flags s3 .& TLS1_FLAGS_TLS_PADDING_BUG =? 0) then i - 1 else i)
    else Some (s3, i));
  if u32 (s32 (rec_length rec)) <? u32 (i + bs) then Some (-1, rec, s3) else
  ok ← all_equal_from (Z.to_nat i) rec (l - i) ii;
  if negb ok then Some (-1, rec, s3) else
  Some (1, rec_skip bs (rec_shrink i rec), s3).

(** ** Reference semantics

    What the constant-time functions compute, written with branches. *)

(** The record and its buffer are consistent: [rec_length] bytes are readable
    from [rec_data] on. *)
Definition wf_record (rec : SSL3_RECORD) : Prop :=
  word 32 (rec_length rec) /\ Forall (word 8) (rec_buf rec) /\
  0 <= rec_data rec /\ rec_data rec + rec_length rec <= zlen (rec_buf rec) /\
  sword 32 (rec_type rec).

(** The padding and its length byte are removed, and their length recorded. *)
Definition strip (p : Z) (rec : SSL3_RECORD) : SSL3_RECORD :=
  rec_set_type (p + 1) (rec_shrink (p + 1) rec).

(** The last [n] bytes of the record are all [p]. *)
Definition tail_is (rec : SSL3_RECORD) (p n : Z) : bool :=
  forallb (fun k => bool_decide (rec_byte rec (rec_length rec - 1 - k) = Some p)) (seqZ 0 n).

Definition ssl3_remove_padding_ref (rec : SSL3_RECORD) (block_size mac_size : Z)
    : option (Z * SSL3_RECORD) :=
  if rec_length rec <? 1 + mac_size then Some (0, rec) else
  p ← rec_byte rec (rec_length rec - 1);
  if (p + 1 + mac_size <=? rec_length rec) && (p + 1 <=? block_size)
  then Some (1, strip p rec) else Some (-1, rec).

Section lemmas.
Implicit Types (rec : SSL3_RECORD) (p n i good x : Z) (c : bool).

Lemma rec_byte_word rec i b : wf_record rec -> rec_byte rec i = Some b -> word 8 b.
Proof.
  intros (_ & Hb & _) E. unfold rec_byte, rd in E.
  destruct (_ <? _); [done|]. by eapply Forall_lookup_1.
Qed.

Lemma rec_byte_wf rec i : wf_record rec -> 0 <= i < rec_length rec ->
  exists b, rec_byte rec i = Some b /\ word 8 b.
Proof.
  intros (_ & Hb & Hd & Hl & _) Hi. unfold rec_byte.
  destruct (rd_Some (rec_buf rec) (rec_data rec + i)) as [b E]; [lia|].
  exists b. split; [done|]. unfold rd in E.
  destruct (_ <? _); [done|]. by eapply Forall_lookup_1.
Qed.

Lemma rec_shrink_0 rec : wf_record rec -> rec_shrink 0 rec = rec.
Proof.
  intros (Hl & _). destruct rec; unfold rec_shrink; simpl in *.
  by rewrite Z.sub_0_r, wrap_small.
Qed.
Lemma rec_set_type_0 rec : sword 32 (rec_type rec) -> rec_set_type 0 rec = rec.
Proof.
  intros. destruct rec; unfold rec_set_type; simpl in *.
  by rewrite Z.lor_0_r, s32_u32.
Qed.

(** The common tail of the constant-time functions. *)
Lemma strip_mask rec p c : wf_record rec -> word 8 p ->
  let n := mask 32 c .& u32 (p + 1) in
  rec_set_type n (rec_shrink n rec) = if c then strip p rec else rec.
Proof.
  intros Hrec Hp n. unfold n. rewrite land_mask_word by word_range.
  rewrite wrap_small by (unfold word in *; lia). destruct c; [done|].
  rewrite rec_shrink_0 by done. apply rec_set_type_0. apply Hrec.
Qed.
Lemma select_status c : constant_time_select_int (mask 32 c) 1 (-1) = if c then 1 else -1.
Proof.
  unfold constant_time_select_int. rewrite select_spec by word_range. by destruct c.
Qed.

(** Clearing the bits of a byte keeps the low byte full only if it was zero. *)
Lemma low_byte_clear good x : word 8 x ->
  ((good .& wnot 32 x) .& 0xff =? 0xff) = (good .& 0xff =? 0xff) && (x =? 0).
Proof.
  intros Hx. change 0xff with (Z.ones 8). apply eq_bool_prop_intro.
  rewrite andb_True, !Is_true_true, !Z.eqb_eq. split.
  - intros E.
    assert (forall i, 0 <= i < 8 -> Z.testbit good i = true /\ Z.testbit x i = false) as H.
    { intros i Hi. apply (f_equal (fun z => Z.testbit z i)) in E.
      rewrite !Z.land_spec, Z.ones_spec_low in E by lia. unfold wnot in E.
      rewrite testbit_wrap, Z.lnot_spec in E by lia.
      destruct (i <? 32), (Z.testbit good i), (Z.testbit x i); by try done. }
    split; apply Z.bits_inj'; intros i Hi; destruct (Z.ltb_spec i 8).
    + rewrite Z.land_spec, Z.ones_spec_low by lia. by destruct (H i) as [-> _].
    + by rewrite Z.land_spec, Z.ones_spec_high, andb_false_r by lia.
    + rewrite Z.bits_0. apply H. lia.
    + by rewrite Z.bits_0, (word_testbit 8 x).
  - intros [E ->]. rewrite wnot_zero by lia. change (2 ^ 32 - 1) with (Z.ones 32).
    rewrite <-Z.land_assoc. by change (Z.ones 32 .& Z.ones 8) with (Z.ones 8).
Qed.

Lemma seqZ_snoc n : 0 <= n -> seqZ 0 (n + 1) = seqZ 0 n ++ [n].
Proof. intros. by rewrite seqZ_app, Z.add_0_l by lia. Qed.
End lemmas.

(** C23. The constant-time SSLv3 padding removal computes the branching
    reference: it refuses a record shorter than the MAC and a length byte, and
    otherwise strips the [p + 1] padding bytes exactly when they fit in the
    record beside the MAC and in one cipher block, leaving the record unchanged
    (and returning -1) when they do not; for every block size and MAC sizes below
    2^31. *)
Theorem ssl3_cbc_remove_padding_correct rec block_size mac_size :
  wf_record rec -> word 32 block_size -> 0 <= mac_size < 2 ^ 31 ->
  ssl3_cbc_remove_padding rec block_size mac_size
  = ssl3_remove_padding_ref rec block_size mac_size.
Proof.
  intros Hrec Hbs Hmac. unfold ssl3_cbc_remove_padding, ssl3_remove_padding_ref.
  rewrite (wrap_small 32 (1 + mac_size)) by (unfold word; lia).
  destruct (Z.ltb_spec (rec_length rec) (1 + mac_size)); [done|].
  assert (word 32 (rec_length rec)) as Hl by apply Hrec.
  rewrite (wrap_small 32 (rec_length rec - 1)) by (unfold word in *; lia).
  destruct (rec_byte_wf rec (rec_length rec - 1)) as (p & -> & Hp); [done|lia|]. simpl.
  rewrite !ge_spec, land_masks by word_range. rewrite strip_mask, select_status by done.
  rewrite !wrap_small by (unfold word in *; lia).
  replace (p + (1 + mac_size)) with (p + 1 + mac_size) by lia. by destruct (_ && _).
Qed.

(** The record the SSLv3 theorem is exercised on: 8 bytes of data, 3 of padding
    and the length byte. *)
Definition sample_record : SSL3_RECORD :=
  mk_record 12 [1; 2; 3; 4; 5; 6; 7; 8; 9; 9; 9; 3] 0 23 0.

Lemma sample_record_wf : wf_record sample_record.
Proof.
  unfold wf_record, sample_record, word, sword, zlen; simpl.
  repeat split; try lia. repeat constructor; lia.
Qed.

Lemma ssl3_cbc_remove_padding_correct_witness :
  ssl3_cbc_remove_padding sample_record 8 4
  = Some (1, mk_record 8 (rec_buf sample_record) 0 (23 + 4 * 256) 0).
Proof.
  rewrite (ssl3_cbc_remove_padding_correct sample_record 8 4).
  - reflexivity.
  - exact sample_record_wf.
  - vm_compute. by split.
  - lia.
Defined.

(** ** TLS: reference and correctness *)

(** The sequence number is eight bytes. *)
Definition wf_state (s3 : SSL3_STATE) : Prop :=
  zlen (read_sequence s3) = 8 /\ Forall (word 8) (read_sequence s3).

(** The padding-bug workaround, on the bits of the flags: with option bit 9 and without
    compression, an even padding length in the first record (sequence number zero) sets
    flag bit 3, and with the flag set a padding length counts one less, if there is one. *)
Definition workaround_ref (s : SSL) (s3 : SSL3_STATE) (p : Z) : SSL3_STATE * Z :=
  if Z.testbit (options s) 9 && negb (expand s) then
    let first := forallb (Z.eqb 0) (read_sequence s3) in
    let flags := if first && Z.even p then Z.setbit (s3_flags s3) 3 else s3_flags s3 in
    (mk_s3 flags (read_sequence s3), if Z.testbit flags 3 then Z.max 0 (p - 1) else p)
  else (s3, p).

(** An AEAD cipher is bit 21 of its flags. *)
Definition tls1_strip_ref (s : SSL) (s3 : SSL3_STATE) (rec : SSL3_RECORD) (mac_size : Z)
    : option (Z * SSL3_RECORD * SSL3_STATE) :=
  last ← rec_byte rec (rec_length rec - 1);
  let '(s3, p) := workaround_ref s s3 last in
  if Z.testbit (cipher_flags s) 21 then Some (1, rec_shrink (p + 1) rec, s3) else
  if (p + 1 + mac_size <=? rec_length rec) &&
     tail_is rec p (Z.min (p + 1) (Z.min 255 (rec_length rec - 1)))
  then Some (1, strip p rec, s3) else Some (-1, rec, s3).

Definition tls1_remove_padding_ref (s : SSL) (s3 : SSL3_STATE) (rec : SSL3_RECORD)
    (block_size mac_size : Z) : option (Z * SSL3_RECORD * SSL3_STATE) :=
  let iv := if SSL_USE_EXPLICIT_IV s then block_size else 0 in
  if rec_length rec <? 1 + mac_size + iv then Some (0, rec, s3)
  else tls1_strip_ref s s3 (rec_skip iv rec) mac_size.

Section tls1_lemmas.
Implicit Types (rec : SSL3_RECORD) (p n i good x : Z) (c : bool).

Lemma rec_skip_wf n rec : wf_record rec -> 0 <= n <= rec_length rec -> wf_record (rec_skip n rec).
Proof.
  intros (Hl & Hb & Hd & Hz & Ht) Hn. unfold wf_record, rec_skip; simpl.
  rewrite wrap_small by (unfold word in *; lia).
  unfold word in *. repeat split; try done; try lia.
  all: destruct Ht; lia.
Qed.
Lemma rec_skip_0 rec : wf_record rec -> rec_skip 0 rec = rec.
Proof.
  intros (Hl & _). destruct rec; unfold rec_skip; simpl in *.
  by rewrite Z.sub_0_r, !Z.add_0_r, wrap_small.
Qed.
Lemma rec_skip_length n rec : wf_record rec -> 0 <= n <= rec_length rec ->
  rec_length (rec_skip n rec) = rec_length rec - n.
Proof. intros (Hl & _) ?. simpl. apply wrap_small. unfold word in *. lia. Qed.

(** The byte check for one index. *)
Lemma masked_diff p i b : word 8 p -> word 8 b -> 0 <= i < 2 ^ 32 ->
  let x := constant_time_ge_8 p i .& (p .^ b) in
  word 8 x /\ (x =? 0) = (p <? i) || (b =? p).
Proof.
  intros Hp Hb Hi x.
  assert (x = if i <=? p then p .^ b else 0) as ->.
  { unfold x. rewrite ge_8_spec by (try done; by eapply word_mono).
    apply land_mask_word; word_range. }
  rewrite Z.ltb_antisym. destruct (i <=? p); simpl; [|by split; [word_range|]].
  split; [word_range|]. apply eq_bool_prop_intro.
  rewrite !Is_true_true, !Z.eqb_eq, Z.lxor_eq_0_iff. done.
Qed.

Lemma check_padding_spec rec p n good : wf_record rec -> word 8 p ->
  0 <= n <= 255 -> n <= rec_length rec - 1 ->
  exists good', check_padding rec p n good = Some good' /\
    (good' .& 0xff =? 0xff) = (good .& 0xff =? 0xff) && tail_is rec p (Z.min (p + 1) n).
Proof.
  intros Hrec Hp Hn Hl. unfold check_padding.
  apply (for_range_inv (fun i g => (g .& 0xff =? 0xff) =
    (good .& 0xff =? 0xff) && tail_is rec p (Z.min (p + 1) i))); [lia| |].
  - replace (tail_is _ _ _) with true; [by rewrite andb_true_r|].
    unfold tail_is, word in *. by replace (Z.min (p + 1) 0) with 0 by lia.
  - intros i g Hi IH. assert (word 32 (rec_length rec)) as Hw by apply Hrec.
    rewrite (wrap_small 32 (rec_length rec - 1 - i)) by (unfold word in *; lia).
    destruct (rec_byte_wf rec (rec_length rec - 1 - i)) as (b & E & Hb); [done|lia|].
    rewrite E. simpl. eexists. split; [done|].
    destruct (masked_diff p i b) as [Hx Hx0]; [done|done|lia|].
    rewrite low_byte_clear, IH, Hx0, <-andb_assoc by done. f_equal.
    destruct (Z.ltb_spec p i); simpl.
    { rewrite andb_true_r. f_equal. lia. }
    replace (Z.min (p + 1) (i + 1)) with (i + 1) by lia.
    replace (Z.min (p + 1) i) with i by lia.
    unfold tail_is. rewrite seqZ_snoc, forallb_app by lia. simpl. rewrite andb_true_r.
    f_equal. rewrite E. apply eq_bool_prop_intro.
    rewrite bool_decide_spec, Is_true_true, Z.eqb_eq. split; congruence.
Qed.

(** The comparison of a sequence number with zero. *)
Lemma CRYPTO_memcmp_zero a : zlen a = 8 -> Forall (word 8) a ->
  exists x, CRYPTO_memcmp a (replicate 8 0) 8 = Some x /\ (x =? 0) = forallb (Z.eqb 0) a.
Proof.
  unfold zlen. intros Ha Hw. do 8 (destruct a as [|? a]; [done|]). destruct a; [|simpl in Ha; lia].
  rewrite !Forall_cons in Hw. destruct_and! Hw.
  eexists. split; [unfold CRYPTO_memcmp; simpl; reflexivity|].
  rewrite !Z.lxor_0_r, Z.lor_0_l. rewrite !wrap_small by word_range.
  apply eq_bool_prop_intro. rewrite Is_true_true, Z.eqb_eq, !Z.lor_eq_0_iff. cbn [forallb].
  rewrite !andb_True, !Is_true_true, !Z.eqb_eq. naive_solver.
Qed.

Lemma flag_testbit x k : 0 <= k -> (x .& 2 ^ k =? 0) = negb (Z.testbit x k).
Proof.
  intros Hk. assert (x .& 2 ^ k = if Z.testbit x k then 2 ^ k else 0) as ->.
  { apply Z.bits_inj'. intros i Hi. rewrite Z.land_spec, Z.pow2_bits_eqb by done.
    destruct (Z.eqb_spec k i) as [->|Hne]; [|rewrite andb_false_r; symmetry].
    - destruct (Z.testbit x i); by rewrite ?Z.pow2_bits_true, ?Z.bits_0.
    - destruct (Z.testbit x k); [by apply Z.pow2_bits_false|by rewrite Z.bits_0]. }
  destruct (Z.testbit x k); [|done]. apply Z.eqb_neq. apply Z.pow_nonzero; lia.
Qed.

Lemma option_bug s : (options s .& SSL_OP_TLS_BLOCK_PADDING_BUG =? 0) = negb (Z.testbit (options s) 9).
Proof. by apply (flag_testbit _ 9). Qed.
Lemma flag_bug s3 : (s3_flags s3 .& TLS1_FLAGS_TLS_PADDING_BUG =? 0) = negb (Z.testbit (s3_flags s3) 3).
Proof. by apply (flag_testbit _ 3). Qed.
Lemma flag_aead s : (cipher_flags s .& EVP_CIPH_FLAG_AEAD_CIPHER =? 0) = negb (Z.testbit (cipher_flags s) 21).
Proof. by apply (flag_testbit _ 21). Qed.

(** The parity test of the code. *)
Lemma low_bit_even p : (p .& 1 =? 0) = Z.even p.
Proof. change 1 with (2 ^ 0). rewrite flag_testbit, Z.bit0_odd, <-Z.negb_even by done. by destruct (Z.even p). Qed.

Lemma flags_or flags : flags .| TLS1_FLAGS_TLS_PADDING_BUG = Z.setbit flags 3.
Proof. done. Qed.

(** The code applies the workaround. *)
Lemma padding_bug_check_spec s s3 p : word 8 p -> wf_state s3 ->
  padding_bug_check s s3 p = Some (workaround_ref s s3 p).
Proof.
  intros Hp [Hl Hb]. unfold padding_bug_check, workaround_ref. rewrite option_bug, negb_involutive.
  destruct (_ && negb _); [|done].
  destruct (CRYPTO_memcmp_zero _ Hl Hb) as (c & -> & Hc). simpl. rewrite Hc, low_bit_even. clear Hc.
  assert (forall s3', (if negb (s3_flags s3' .& TLS1_FLAGS_TLS_PADDING_BUG =? 0) && (0 <? p) then u32 (p - 1) else p) =
    if Z.testbit (s3_flags s3') 3 then Z.max 0 (p - 1) else p) as E.
  { intros s3'. rewrite flag_bug, negb_involutive. unfold word in *.
    destruct (Z.testbit _ _), (Z.ltb_spec 0 p); simpl; try rewrite wrap_small by (unfold word; lia); lia. }
  rewrite E, flags_or. destruct (_ && Z.even p); simpl; [done|]. by destruct s3.
Qed.

Lemma workaround_ref_byte s s3 p : word 8 p -> word 8 (workaround_ref s s3 p).2.
Proof. unfold workaround_ref, word. intros. destruct (_ && negb _); simpl; [case_match|]; lia. Qed.

Lemma tls1_strip_padding_spec s s3 rec mac_size :
  wf_record rec -> 0 <= mac_size < 2 ^ 16 -> 1 + mac_size <= rec_length rec ->
  wf_state s3 ->
  tls1_strip_padding s s3 rec (1 + mac_size) = tls1_strip_ref s s3 rec mac_size.
Proof.
  intros Hrec Hmac Hlen Hs3. unfold tls1_strip_padding, tls1_strip_ref.
  assert (word 32 (rec_length rec)) as Hl by apply Hrec.
  rewrite (wrap_small 32 (rec_length rec - 1)) by (unfold word in *; lia).
  destruct (rec_byte_wf rec (rec_length rec - 1)) as (p0 & -> & Hp0); [done|lia|]. cbn [mbind option_bind].
  rewrite padding_bug_check_spec by done. pose proof (workaround_ref_byte s s3 p0 Hp0) as Hp.
  destruct (workaround_ref s s3 p0) as [s3' p]. cbn [mbind option_bind snd] in *. rewrite flag_aead, negb_involutive.
  destruct (Z.testbit (cipher_flags s) 21); [by rewrite (wrap_small 32 (p + 1)) by (unfold word in *; lia)|].
  replace (if rec_length rec - 1 <? 255 then rec_length rec - 1 else 255)
    with (Z.min 255 (rec_length rec - 1)) by (destruct (Z.ltb_spec (rec_length rec - 1) 255); lia).
  edestruct (check_padding_spec rec p (Z.min 255 (rec_length rec - 1)))
    as (good & -> & Hgood); [done|done|lia|lia|]. simpl.
  assert (word 32 (good .& 0xff)) by (apply word_land_r; unfold word; lia).
  rewrite eq_spec by word_range. rewrite Z.eqb_sym, Hgood, ge_spec by word_range.
  rewrite (wrap_small 32 (1 + mac_size + p)) by (unfold word in *; lia).
  replace (1 + mac_size + p) with (p + 1 + mac_size) by lia.
  replace ((mask 32 _ .& 255 =? 255)) with (p + 1 + mac_size <=? rec_length rec)
    by (by destruct (_ <=? _)).
  rewrite select_status, strip_mask by done. clear Hgood. by destruct (_ && _).
Qed.

Lemma tls1_remove_padding_eq s s3 rec block_size mac_size :
  wf_record rec -> 0 <= block_size < 2 ^ 16 -> 0 <= mac_size < 2 ^ 16 -> wf_state s3 ->
  tls1_cbc_remove_padding s s3 rec block_size mac_size
  = tls1_remove_padding_ref s s3 rec block_size mac_size.
Proof.
  intros Hrec Hbs Hmac Hs3. unfold tls1_cbc_remove_padding, tls1_remove_padding_ref.
  rewrite (wrap_small 32 (1 + mac_size)) by (unfold word; lia).
  rewrite (wrap_small 32 (1 + mac_size + block_size)) by (unfold word; lia).
  destruct (SSL_USE_EXPLICIT_IV s).
  - destruct (Z.ltb_spec (rec_length rec) (1 + mac_size + block_size)); [done|].
    apply tls1_strip_padding_spec; try done; [apply rec_skip_wf|rewrite rec_skip_length];
      by try lia.
  - rewrite Z.add_0_r, rec_skip_0 by done.
    destruct (Z.ltb_spec (rec_length rec) (1 + mac_size)); [done|].
    by apply tls1_strip_padding_spec.
Qed.
End tls1_lemmas.

(** C24. The patched constant-time TLS padding removal computes the branching
    reference, for block and MAC sizes below 2^16: the explicit IV is skipped (a
    record too short for it, the MAC and the length byte is refused unchanged); the
    padding-bug workaround is applied as [workaround_ref] states it, on single bits: with
    its option and without compression, an even padding length in the first record
    sets the flag, and under the flag a positive padding length counts one less; AEAD
    records are only shortened; and otherwise the padding is stripped exactly when it
    fits beside the MAC and its bytes, at most 255 of them, all carry the padding
    length so corrected. *)
Theorem tls1_cbc_remove_padding_correct s s3 rec block_size mac_size :
  wf_record rec -> 0 <= block_size < 2 ^ 16 -> 0 <= mac_size < 2 ^ 16 -> wf_state s3 ->
  tls1_cbc_remove_padding s s3 rec block_size mac_size
  = tls1_remove_padding_ref s s3 rec block_size mac_size.
Proof. apply tls1_remove_padding_eq. Qed.

(** A connection with explicit IVs and no bug workaround. *)
Definition sample_ssl : SSL := mk_ssl false 0 0 1.
Definition sample_s3 : SSL3_STATE := mk_s3 0 (replicate 8 0).

Lemma sample_state_wf : wf_state sample_s3.
Proof. split; [done|]. by repeat constructor; unfold word. Qed.

(** A record of a 4-byte IV, 5 bytes of data and MAC, and 2 bytes of padding. *)
Definition iv_record : SSL3_RECORD := mk_record 12 [7; 7; 7; 7; 1; 2; 3; 4; 5; 2; 2; 2] 0 23 0.

Lemma iv_record_wf : wf_record iv_record.
Proof.
  unfold wf_record, iv_record, word, sword, zlen; simpl.
  repeat split; try lia. repeat constructor; lia.
Qed.

Lemma tls1_cbc_remove_padding_correct_witness :
  tls1_cbc_remove_padding sample_ssl sample_s3 iv_record 4 2
  = Some (1, mk_record 5 (rec_buf iv_record) 4 (23 + 3 * 256) 4, sample_s3) /\
  tls1_cbc_remove_padding (mk_ssl false 0x200 0 1) sample_s3 iv_record 4 2
  = Some (-1, mk_record 8 (rec_buf iv_record) 4 23 4, mk_s3 8 (replicate 8 0)) /\
  tls1_cbc_remove_padding (mk_ssl false 0x200 0x200000 1) sample_s3 iv_record 4 2
  = Some (1, mk_record 6 (rec_buf iv_record) 4 23 4, mk_s3 8 (replicate 8 0)).
Proof.
  rewrite !(fun s => tls1_cbc_remove_padding_correct s sample_s3 iv_record 4 2 iv_record_wf
    ltac:(lia) ltac:(lia) sample_state_wf).
  split_and!; reflexivity.
Defined.

(** ** The patch against the code it replaced *)
Section patch.
Implicit Types (rec : SSL3_RECORD) (p n i : Z).

Lemma all_equal_from_spec (n : nat) rec p : wf_record rec -> Z.of_nat n <= rec_length rec ->
  all_equal_from n rec (rec_length rec - Z.of_nat n) p = Some (tail_is rec p (Z.of_nat n)).
Proof.
  intros Hrec. induction n as [|n IH]; intros Hn; [done|]. simpl.
  destruct (rec_byte_wf rec (rec_length rec - Z.of_nat (S n))) as (b & E & _); [done|lia|].
  rewrite E. simpl. unfold tail_is.
  replace (Z.of_nat (S n)) with (Z.of_nat n + 1) in * by lia.
  rewrite seqZ_snoc, forallb_app by lia. simpl. rewrite andb_true_r.
  replace (rec_length rec - 1 - Z.of_nat n) with (rec_length rec - (Z.of_nat n + 1)) by lia.
  rewrite E. replace (bool_decide (Some b = Some p)) with (b =? p).
  2: { apply eq_bool_prop_intro. rewrite bool_decide_spec, Is_true_true, Z.eqb_eq.
       split; congruence. }
  destruct (b =? p); [|by rewrite andb_false_r]. rewrite andb_true_r.
  replace (rec_length rec - (Z.of_nat n + 1) + 1) with (rec_length rec - Z.of_nat n) by lia.
  apply IH. lia.
Qed.

Lemma tail_is_ext rec rec' p n :
  (forall k, rec_byte rec (rec_length rec - 1 - k) = rec_byte rec' (rec_length rec' - 1 - k)) ->
  tail_is rec p n = tail_is rec' p n.
Proof.
  intros H. unfold tail_is. induction (seqZ 0 n) as [|k l IH]; simpl; [done|]. by rewrite H, IH.
Qed.

Lemma tail_is_skip rec p n m : wf_record rec -> 0 <= m <= rec_length rec ->
  tail_is (rec_skip m rec) p n = tail_is rec p n.
Proof.
  intros Hrec Hm. apply tail_is_ext. intros k. rewrite rec_skip_length by done.
  unfold rec_byte, rec_skip; simpl. f_equal. lia.
Qed.

Lemma rec_byte_skip_last rec m :
  rec_byte (rec_skip m rec) (rec_length rec - m - 1) = rec_byte rec (rec_length rec - 1).
Proof. unfold rec_byte, rec_skip; simpl. f_equal. lia. Qed.

Lemma strip_skip rec p m : wf_record rec -> 0 <= m -> 0 <= p + 1 -> p + 1 + m <= rec_length rec ->
  strip p (rec_skip m rec) = rec_set_type (p + 1) (rec_skip m (rec_shrink (p + 1) rec)).
Proof.
  intros Hrec ???. unfold strip, rec_shrink, rec_skip; simpl. f_equal. f_equal.
  rewrite !wrap_sub_l. f_equal. lia.
Qed.

(** The byte the patched code looks at first after the workaround. *)
Lemma tail_is_last rec p n q :
  0 < n -> rec_byte rec (rec_length rec - 1) = Some q -> tail_is rec p n = true -> p = q.
Proof.
  intros Hn E H. unfold tail_is in H. rewrite forallb_forall in H.
  specialize (H 0). rewrite Z.sub_0_r, E, bool_decide_eq_true in H.
  apply Some_inj. symmetry. apply H. apply list_elem_of_In, elem_of_seqZ. lia.
Qed.

Lemma s32_length rec : wf_record rec -> rec_length rec < 2 ^ 31 ->
  s32 (rec_length rec) = rec_length rec.
Proof. intros [Hl _] ?. unfold sgn, word in *. rewrite Z.mod_small; lia. Qed.

End patch.

(** What both versions of TLS padding removal are compared on: a record with an explicit
    IV, long enough for it, the MAC and the length byte, whose length byte is [p], and a
    cipher that is not AEAD. *)
Record comparable (s : SSL) (s3 : SSL3_STATE) (rec : SSL3_RECORD) (bs mac_size p : Z) : Prop := {
  cmp_record : wf_record rec;
  cmp_length : 1 + mac_size + bs <= rec_length rec < 2 ^ 31;
  cmp_block : 0 <= bs < 2 ^ 16;
  cmp_mac : 1 <= mac_size < 2 ^ 16;
  cmp_state : wf_state s3;
  cmp_iv : SSL_USE_EXPLICIT_IV s = true;
  cmp_aead : cipher_flags s .& EVP_CIPH_FLAG_AEAD_CIPHER = 0;
  cmp_padding : rec_byte rec (rec_length rec - 1) = Some p }.

Section comparable.
Context (s : SSL) (s3 : SSL3_STATE) (rec : SSL3_RECORD) (bs mac_size p : Z).
Hypothesis Hcmp : comparable s s3 rec bs mac_size p.

Lemma cmp_byte : word 8 p.
Proof. eapply rec_byte_word; [apply (cmp_record _ _ _ _ _ _ Hcmp)|apply (cmp_padding _ _ _ _ _ _ Hcmp)]. Qed.

(** The patched function, with [q] the length byte after the workaround. *)
Lemma patched_result (s3' := (workaround_ref s s3 p).1) (q := (workaround_ref s s3 p).2) :
  tls1_cbc_remove_padding s s3 rec bs mac_size =
    if (q + 1 + mac_size + bs <=? rec_length rec) && tail_is rec q (Z.min (q + 1) 255)
    then Some (1, rec_set_type (q + 1) (rec_skip bs (rec_shrink (q + 1) rec)), s3')
    else Some (-1, rec_skip bs rec, s3').
Proof.
  destruct Hcmp as [Hrec Hlen Hbs Hmac Hst Hiv Haead Hp]. pose proof cmp_byte as Hp8.
  rewrite tls1_remove_padding_eq by (done || lia). unfold tls1_remove_padding_ref, tls1_strip_ref.
  rewrite Hiv. destruct (Z.ltb_spec (rec_length rec) (1 + mac_size + bs)); [lia|].
  rewrite rec_skip_length, rec_byte_skip_last, Hp by (done || lia). cbn [mbind option_bind].
  apply Z.eqb_eq in Haead. rewrite flag_aead in Haead. apply negb_true_iff in Haead. rewrite Haead.
  pose proof (workaround_ref_byte s s3 p Hp8) as Hq. subst s3' q. destruct (workaround_ref s s3 p) as [s3' q]. simpl in *.
  unfold word in Hq.
  destruct (Z.leb_spec (q + 1 + mac_size) (rec_length rec - bs)), (Z.leb_spec (q + 1 + mac_size + bs) (rec_length rec));
    try lia; [|done]. cbn [andb].
  replace (Z.min (q + 1) (Z.min 255 (rec_length rec - bs - 1))) with (Z.min (q + 1) 255) by lia.
  rewrite tail_is_skip, strip_skip by (done || lia). done.
Qed.

(** The function before the patch compares [i] bytes: the length byte counts unless
    the workaround's flag is set. *)
Lemma replaced_result : exists s3',
  tls1_cbc_remove_padding_lucky13 s s3 rec bs mac_size =
    (let i := if Z.testbit (options s) 9 && Z.testbit (s3_flags s3') 3 then p else p + 1 in
    if (i + bs <=? rec_length rec) && tail_is rec p i
    then Some (1, rec_skip bs (rec_shrink i rec), s3') else Some (-1, rec, s3')) /\
  (Z.testbit (options s) 9 = false -> s3' = s3) /\
  (Z.testbit (s3_flags s3) 3 = true -> Z.testbit (s3_flags s3') 3 = true).
Proof.
  destruct Hcmp as [Hrec Hlen Hbs Hmac [Hst _] Hiv Haead Hp]. pose proof cmp_byte as Hp8.
  assert (forall i, 0 <= i <= 256 -> forall s3' : SSL3_STATE,
    (if u32 (s32 (rec_length rec)) <? u32 (i + bs) then Some (-1, rec, s3') else
     ok ← all_equal_from (Z.to_nat i) rec (rec_length rec - i) p;
     if negb ok then Some (-1, rec, s3') else Some (1, rec_skip bs (rec_shrink i rec), s3')) =
    if (i + bs <=? rec_length rec) && tail_is rec p i
    then Some (1, rec_skip bs (rec_shrink i rec), s3') else Some (-1, rec, s3')) as Htail.
  { intros i Hi s3'. rewrite s32_length by (done || lia). rewrite !wrap_small by (unfold word; lia).
    destruct (Z.ltb_spec (rec_length rec) (i + bs)), (Z.leb_spec (i + bs) (rec_length rec)); try lia; [done|].
    replace (rec_length rec - i) with (rec_length rec - Z.of_nat (Z.to_nat i)) by lia.
    rewrite all_equal_from_spec, Z2Nat.id by (done || lia). simpl. by destruct (tail_is _ _ _). }
  unfold word in Hp8. unfold tls1_cbc_remove_padding_lucky13. rewrite s32_length by (done || lia).
  rewrite s32_length in Htail by (done || lia). rewrite Hp. cbn [mbind option_bind]. rewrite option_bug, negb_involutive.
  destruct (Z.testbit (options s) 9); cbn [mbind option_bind andb].
  - rewrite slice_Some by lia. cbn [mbind option_bind]. set (t := if _ && _ then _ else s3).
    assert (Z.testbit (s3_flags s3) 3 = true -> Z.testbit (s3_flags t) 3 = true) as Hk.
    { intros Hf. subst t. destruct (_ && _); [|done]. cbn [s3_flags]. by rewrite Z.lor_spec, Hf. }
    clearbody t. exists t. split_and!; [|done|done]. rewrite flag_bug, negb_involutive.
    destruct (Z.testbit (s3_flags t) 3); [replace (p + 1 - 1) with p by lia|]; rewrite Htail; done || lia.
  - exists s3. split_and!; [|done|done]. by rewrite Htail by lia.
Qed.

(** Under the flag the length byte counts one less. *)
Lemma workaround_under_flag : Z.testbit (options s) 9 = true -> expand s = false ->
  Z.testbit (s3_flags s3) 3 = true -> 0 < p -> (workaround_ref s s3 p).2 = p - 1.
Proof.
  intros Ho He Hf Hp. unfold workaround_ref. rewrite Ho, He. cbn [andb negb snd].
  destruct (_ && _); [rewrite Z.setbit_eq by done|rewrite Hf]; lia.
Qed.

(** Under the flag a length byte differs from the length it is compared with. *)
Lemma corrected_length_fails m : 0 < m -> 0 < p -> tail_is rec (p - 1) m = false.
Proof.
  intros Hm Hp0. destruct (tail_is rec (p - 1) m) eqn:E; [|done].
  apply tail_is_last with (q := p) in E; [lia|done|apply (cmp_padding _ _ _ _ _ _ Hcmp)].
Qed.
End comparable.

(** A record whose 256 last bytes are padding, with [b] as the first of them
    and one byte of MAC in front. *)
Definition long_record (b : Z) : SSL3_RECORD :=
  mk_record 257 (42 :: b :: replicate 255 255) 0 23 0.

Definition bug_ssl : SSL := mk_ssl false SSL_OP_TLS_BLOCK_PADDING_BUG 0 1.
Definition bug_s3 : SSL3_STATE := mk_s3 TLS1_FLAGS_TLS_PADDING_BUG (replicate 8 1).

(** C25. The patched function against the branching one it replaced, on a record with an
    explicit IV, long enough for it, the MAC and the length byte [p], and a cipher that is
    not AEAD.  Without the workaround's option the old function accepts exactly if the
    padding and the IV fit and all [p + 1] last bytes are [p]; the patched one also asks
    for room for the MAC, and compares at most the last 255 bytes, so not the first of 256.
    When both accept, the records differ only in the length the patch stores in [type];
    on rejecting, the old function leaves the record as it was, the patched one has skipped
    the IV.  With the option and the flag set, uncompressed and [0 < p], the patched
    function rejects every such record, since it compares the length byte with itself
    less one, while the old one accepts exactly those whose last [p] bytes are [p] and
    fit beside the IV. *)
Theorem tls1_patch_compared s s3 rec bs mac_size p : comparable s s3 rec bs mac_size p ->
  (options s .& SSL_OP_TLS_BLOCK_PADDING_BUG = 0 ->
    tls1_cbc_remove_padding_lucky13 s s3 rec bs mac_size
    = (if (p + 1 + bs <=? rec_length rec) && tail_is rec p (p + 1)
       then Some (1, rec_skip bs (rec_shrink (p + 1) rec), s3) else Some (-1, rec, s3)) /\
    tls1_cbc_remove_padding s s3 rec bs mac_size
    = (if (p + 1 + mac_size + bs <=? rec_length rec) && tail_is rec p (Z.min (p + 1) 255)
       then Some (1, rec_set_type (p + 1) (rec_skip bs (rec_shrink (p + 1) rec)), s3)
       else Some (-1, rec_skip bs rec, s3))) /\
  (options s .& SSL_OP_TLS_BLOCK_PADDING_BUG <> 0 -> expand s = false ->
   s3_flags s3 .& TLS1_FLAGS_TLS_PADDING_BUG <> 0 -> 0 < p ->
    (exists s3', tls1_cbc_remove_padding s s3 rec bs mac_size = Some (-1, rec_skip bs rec, s3')) /\
    (exists s3', tls1_cbc_remove_padding_lucky13 s s3 rec bs mac_size
     = if (p + bs <=? rec_length rec) && tail_is rec p p
       then Some (1, rec_skip bs (rec_shrink p rec), s3') else Some (-1, rec, s3'))).
Proof.
  intros Hcmp. rewrite patched_result with (p := p) by done.
  destruct (replaced_result _ _ _ _ _ _ Hcmp) as (s3' & -> & Hs3' & Hk).
  rewrite <-!Z.eqb_neq, <-Z.eqb_eq, option_bug, flag_bug, negb_true_iff, !negb_false_iff. split.
  - intros Ho. rewrite Hs3' by done. unfold workaround_ref. by rewrite Ho.
  - intros Ho He Hf Hp. rewrite Ho, Hk by done. split; [|by exists s3'].
    rewrite workaround_under_flag, (corrected_length_fails _ _ _ _ _ _ Hcmp) by (done || lia).
    rewrite andb_false_r. by eexists.
Qed.

Lemma bug_state_wf : wf_state bug_s3.
Proof. split; [done|]. by repeat constructor; unfold word. Qed.

Lemma iv_record_comparable s s3 : wf_state s3 -> SSL_USE_EXPLICIT_IV s = true ->
  cipher_flags s .& EVP_CIPH_FLAG_AEAD_CIPHER = 0 -> comparable s s3 iv_record 4 2 2.
Proof. intros. split; [exact iv_record_wf|by cbn|lia|lia|done..]. Qed.

Lemma long_record_comparable b : word 8 b -> comparable sample_ssl sample_s3 (long_record b) 0 1 255.
Proof.
  intros Hb. split; [|by cbn|lia|lia|exact sample_state_wf|done..].
  unfold wf_record, long_record, zlen, sword; simpl. split_and!; try (unfold word; lia).
  apply Forall_cons; split; [unfold word; lia|]. apply Forall_cons; split; [done|].
  by repeat constructor; unfold word.
Qed.

Lemma tls1_patch_compared_witness :
  tls1_cbc_remove_padding sample_ssl sample_s3 iv_record 4 2
  = Some (1, rec_set_type 3 (rec_skip 4 (rec_shrink 3 iv_record)), sample_s3) /\
  (tls1_cbc_remove_padding_lucky13 sample_ssl sample_s3 (long_record 7) 0 1 = Some (-1, long_record 7, sample_s3) /\
   exists rec', tls1_cbc_remove_padding sample_ssl sample_s3 (long_record 7) 0 1 = Some (1, rec', sample_s3)) /\
  (exists s3', tls1_cbc_remove_padding bug_ssl bug_s3 iv_record 4 2 = Some (-1, rec_skip 4 iv_record, s3')) /\
  (exists rec' s3', tls1_cbc_remove_padding_lucky13 bug_ssl bug_s3 iv_record 4 2 = Some (1, rec', s3')).
Proof.
  destruct (tls1_patch_compared sample_ssl sample_s3 iv_record 4 2 2) as [Hagree _];
    [apply iv_record_comparable; [exact sample_state_wf|done|done]|].
  destruct (tls1_patch_compared sample_ssl sample_s3 (long_record 7) 0 1 255) as [Hlong _];
    [by apply long_record_comparable|].
  destruct (tls1_patch_compared bug_ssl bug_s3 iv_record 4 2 2) as (_ & Hbug);
    [apply iv_record_comparable; [exact bug_state_wf|done|done]|].
  destruct (Hlong eq_refl) as [-> ->]. split; [by apply Hagree|]. split; [split; [reflexivity|by eexists]|].
  destruct Hbug as [Hr (s3' & ->)]; [done|done|done|lia|]. split; [exact Hr|]. by eexists _, s3'.
Defined.
