(* ===== verification/CbcCopyMac.v ===== *)
(** * Extraction of the MAC of a CBC record:
    [benchmarks/openssl_almeida/ssl3_cbc_copy_mac.c].

    The position of the MAC depends on the secret padding length.  The function
    accumulates the MAC in a rotating buffer while it scans a window of public
    size, then undoes the rotation with a quadratic number of masked writes.
    The build does not define [CBC_MAC_ROTATE_IN_PLACE]. *)
From S2P Require Import Prelude Arrays ConstantTime CbcPadding.
Local Open Scope Z_scope.
Local Open Scope word_scope.

Definition EVP_MAX_MD_SIZE : Z := 64.

(** [j &= constant_time_lt(j, md_size)] after the increment of [j]. *)
Definition wrap_index (j md_size : Z) : Z :=
  let j := u32 (j + 1) in j .& constant_time_lt j md_size.

(** The scan: [rotated_mac[j++] |= b & mac_started & ~mac_ended]. *)
Definition scan_mac (rec : SSL3_RECORD) (md_size mac_start mac_end scan_start orig_len : Z)
    : option (list Z * Z) :=
  for_range scan_start orig_len (fun i '(rotated_mac, j) =>
    let mac_started := constant_time_ge_8 i mac_start in
    let mac_ended := constant_time_ge_8 i mac_end in
    b ← rec_byte rec i;
    r ← rd rotated_mac j;
    rotated_mac ← wr rotated_mac j (u8 (r .| (b .& mac_started .& wnot 32 mac_ended)));
    Some (rotated_mac, wrap_index j md_size)) (replicate (Z.to_nat md_size) 0, 0).

(** The inner loop of the rotation: [out[j] |= rotated_mac[i] & (j == rotate_offset)]. *)
Definition place_byte (x md_size rotate_offset : Z) (out : list Z) : option (list Z) :=
  for_range 0 md_size (fun j out =>
    o ← rd out j; wr out j (u8 (o .| (x .& constant_time_eq_8 j rotate_offset)))) out.

Definition unrotate (rotated_mac : list Z) (md_size rotate_offset : Z) (out : list Z)
    : option (list Z * Z) :=
  for_range 0 md_size (fun i '(out, rotate_offset) =>
    x ← rd rotated_mac i;
    out ← place_byte x md_size rotate_offset out;
    Some (out, wrap_index rotate_offset md_size)) (out, rotate_offset).

(** [rotated_mac] has [EVP_MAX_MD_SIZE] bytes, of which the first [md_size] are
    set; [out] is the buffer the caller passes; [%] needs [md_size] non-zero. *)
Definition ssl3_cbc_copy_mac (out : list Z) (rec : SSL3_RECORD) (md_size orig_len : Z)
    : option (list Z) :=
  if (EVP_MAX_MD_SIZE <? md_size) || (md_size =? 0) then None else
  let mac_end := rec_length rec in
  let mac_start := u32 (mac_end - md_size) in
  let scan_start := if u32 (md_size + 255 + 1) <? orig_len
    then u32 (orig_len - u32 (md_size + 255 + 1)) else 0 in
  let div_spoiler := u32 ((md_size ≫ 1) ≪ ((4 - 1) * 8)) in
  let rotate_offset := u32 (u32 (div_spoiler + mac_start) - scan_start) mod md_size in
  '(rotated_mac, _) ← scan_mac rec md_size mac_start mac_end scan_start orig_len;
  out ← blit out 0 (replicate (Z.to_nat md_size) 0);
  let rotate_offset := u32 (md_size - rotate_offset) in
  let rotate_offset := rotate_offset .& constant_time_lt rotate_offset md_size in
  '(out, _) ← unrotate rotated_mac md_size rotate_offset out;
  Some out.

(** Copy what is at the position the lengths give. *)
Definition copy_mac_ref (out : list Z) (rec : SSL3_RECORD) (md_size : Z) : option (list Z) :=
  mac ← slice (rec_buf rec) (rec_data rec + rec_length rec - md_size) md_size;
  blit out 0 mac.

Section copy_mac.
Implicit Types (i j k n x : Z) (f : Z -> Z).

Lemma wrap_index_spec j n : 0 <= j < n -> n < 2 ^ 31 -> wrap_index j n = (j + 1) mod n.
Proof.
  intros. unfold wrap_index. rewrite wrap_small by (unfold word; lia).
  rewrite lt_spec, Z.land_comm, land_mask_word by (unfold word; lia).
  destruct (Z.ltb_spec (j + 1) n); [by rewrite Z.mod_small by lia|].
  replace (j + 1) with n by lia. by rewrite Z_mod_same_full.
Qed.

Lemma masked_or y x (c : bool) : word 8 x -> word 8 y ->
  u8 (y .| (x .& mask 8 c)) = if c then y .| x else y.
Proof.
  intros. rewrite Z.land_comm, land_mask_word by (done || lia).
  destruct c; [|rewrite Z.lor_0_r]; apply wrap_small; word_range.
Qed.

(** [b & started & ~ended], with [~] on a zero-extended byte. *)
Lemma window_mask x (c c' : bool) : word 8 x ->
  x .& mask 8 c .& wnot 32 (mask 8 c') = x .& mask 8 (c && negb c').
Proof.
  intros Hx. rewrite <-Z.land_assoc. destruct c; [|by rewrite !Z.land_0_l].
  destruct c'; [by change (mask 8 true .& wnot 32 (mask 8 true)) with 0|].
  by change (mask 8 true .& wnot 32 (mask 8 false)) with (mask 8 true).
Qed.

(** Rotation by [r] is injective on residues. *)
Lemma mod_shift_inj n r j k : 0 <= j < n -> 0 <= k < n ->
  (j - r) mod n = (k - r) mod n -> j = k.
Proof.
  intros Hj Hk E. apply (f_equal (fun z => (z + r) mod n)) in E.
  rewrite !Zplus_mod_idemp_l in E. replace (j - r + r) with j in E by lia.
  replace (k - r + r) with k in E by lia. by rewrite !Z.mod_small in E by lia.
Qed.

(** The byte of the MAC at offset [t]. *)
Definition mac_byte (rec : SSL3_RECORD) (mac_start t : Z) : Z :=
  default 0 (rec_byte rec (mac_start + t)).

Lemma mac_byte_word rec mac_start t : wf_record rec -> word 8 (mac_byte rec mac_start t).
Proof.
  intros Hrec. unfold mac_byte. destruct (rec_byte _ _) as [b|] eqn:E; [|by split].
  by eapply rec_byte_word.
Qed.

Section scan.
Context (rec : SSL3_RECORD) (n ms ss orig_len : Z).
Hypothesis Hrec : wf_record rec.
Hypothesis Hbuf : rec_data rec + orig_len <= zlen (rec_buf rec).
Hypothesis Hn : 0 < n <= 64.
Hypothesis Hss : 0 <= ss <= ms.
Hypothesis Hend : ms + n <= orig_len.
Hypothesis Horig : orig_len < 2 ^ 31.

(** The contents of the rotating buffer before byte [i]. *)
Let seen i k := if ms + (k - (ms - ss)) mod n <? i then mac_byte rec ms ((k - (ms - ss)) mod n) else 0.

Lemma seen_step i k : 0 <= k < n -> ss <= i ->
  seen (i + 1) k = if (k =? (i - ss) mod n) && (ms <=? i) && (i <? ms + n)
    then seen i k .| mac_byte rec ms (i - ms) else seen i k.
Proof using Hn Hss.
  intros Hk Hi. unfold seen. pose proof (Z.mod_pos_bound (k - (ms - ss)) n ltac:(lia)).
  assert ((k =? (i - ss) mod n) && (ms <=? i) && (i <? ms + n)
    = (ms + (k - (ms - ss)) mod n =? i)) as ->.
  { apply eq_bool_prop_intro. rewrite !andb_True, !Is_true_true, !Z.eqb_eq, Z.leb_le, Z.ltb_lt.
    split.
    - intros [[-> ?] ?]. rewrite Zminus_mod_idemp_l.
      replace (i - ss - (ms - ss)) with (i - ms) by lia. rewrite Z.mod_small; lia.
    - intros E. split; [split; [|lia]|lia]. apply (mod_shift_inj n (ms - ss)); [done| |].
      + apply Z.mod_pos_bound. lia.
      + rewrite Zminus_mod_idemp_l. replace (i - ss - (ms - ss)) with (i - ms) by lia.
        rewrite (Z.mod_small (i - ms)); lia. }
  destruct (Z.eqb_spec (ms + (k - (ms - ss)) mod n) i) as [E|].
  - destruct (Z.ltb_spec (ms + (k - (ms - ss)) mod n) i); [lia|].
    destruct (Z.ltb_spec (ms + (k - (ms - ss)) mod n) (i + 1)); [|lia].
    rewrite Z.lor_0_l. f_equal. lia.
  - destruct (Z.ltb_spec (ms + (k - (ms - ss)) mod n) i),
      (Z.ltb_spec (ms + (k - (ms - ss)) mod n) (i + 1)); by try lia.
Qed.

Lemma seen_word i k : word 8 (seen i k).
Proof using Hrec. unfold seen. destruct (_ <? _); [by apply mac_byte_word|by split]. Qed.

Lemma scan_mac_spec :
  exists j, scan_mac rec n ms (ms + n) ss orig_len
    = Some (tab n (fun k => mac_byte rec ms ((k - (ms - ss)) mod n)), j).
Proof.
  unfold scan_mac. edestruct (for_range_inv (fun i s => s = (tab n (seen i), (i - ss) mod n)))
    as (s & E & Hs); [| | |rewrite E, Hs].
  - lia.
  - f_equal; [|by rewrite Z.sub_diag].
    rewrite replicate_tab. apply tab_ext. intros k Hk. unfold seen.
    pose proof (Z.mod_pos_bound (k - (ms - ss)) n ltac:(lia)).
    destruct (Z.ltb_spec (ms + (k - (ms - ss)) mod n) ss); lia.
  - intros i s Hi ->. assert (0 <= (i - ss) mod n < n) as Hj by (apply Z.mod_pos_bound; lia).
    eexists. split; [|reflexivity].
    destruct (rd_Some (rec_buf rec) (rec_data rec + i)) as [b Eb]; [destruct Hrec; lia|].
    fold (rec_byte rec i) in Eb. rewrite Eb. simpl.
    rewrite rd_tab by done. simpl. rewrite wr_tab by done. simpl.
    assert (word 8 b) by (by eapply rec_byte_word).
    rewrite !ge_8_spec, window_mask, masked_or by first [done | apply seen_word | unfold word; lia].
    rewrite wrap_index_spec, Zplus_mod_idemp_l by lia.
    do 2 f_equal; [|f_equal; lia]. apply tab_ext. intros k Hk. rewrite seen_step by lia.
    rewrite Z.ltb_antisym.
    destruct (Z.eqb_spec k ((i - ss) mod n)) as [->|]; [|done]. simpl.
    unfold mac_byte. replace (ms + (i - ms)) with i by lia. by rewrite Eb.
  - eexists. do 2 f_equal. apply tab_ext. intros k Hk. unfold seen.
    pose proof (Z.mod_pos_bound (k - (ms - ss)) n ltac:(lia)).
    destruct (Z.ltb_spec (ms + (k - (ms - ss)) mod n) orig_len); lia.
Qed.
End scan.

Lemma place_byte_spec x n off f l : 0 <= n -> word 8 x -> (forall k, word 8 (f k)) ->
  word 32 off -> n < 2 ^ 32 ->
  place_byte x n off (tab n f ++ l)
  = Some (tab n (fun k => if k =? off then f k .| x else f k) ++ l).
Proof.
  intros Hn Hx Hf Hoff Hn32. unfold place_byte.
  edestruct (for_range_inv (fun j o =>
    o = tab n (fun k => if (k =? off) && (k <? j) then f k .| x else f k) ++ l))
    as (s & E & Hs); [| | |rewrite E, Hs].
  - done.
  - f_equal. apply tab_ext. intros k Hk. destruct (Z.ltb_spec k 0); [lia|].
    by rewrite andb_false_r.
  - intros j s Hj ->. eexists. split; [|reflexivity].
    rewrite rd_tab_app by done. simpl. rewrite wr_tab_app by done.
    do 2 f_equal. apply tab_ext. intros k Hk.
    rewrite eq_8_spec by (done || unfold word; lia).
    replace (j <? j) with false by (symmetry; apply Z.ltb_irrefl). rewrite andb_false_r.
    rewrite masked_or by done. destruct (Z.eqb_spec k j) as [->|].
    + destruct (Z.ltb_spec j (j + 1)); [|lia]. by rewrite andb_true_r.
    + by destruct (Z.ltb_spec k j), (Z.ltb_spec k (j + 1)); try lia.
  - do 2 f_equal. apply tab_ext. intros k Hk. destruct (Z.ltb_spec k n); [|lia].
    by rewrite andb_true_r.
Qed.

(** Unrotating by [r] a buffer that holds [g] rotated by [r]. *)
Lemma unrotate_spec n r (g : Z -> Z) l : 0 < n < 2 ^ 31 -> (forall k, word 8 (g k)) ->
  exists off, unrotate (tab n (fun k => g ((k - r) mod n))) n ((0 - r) mod n)
    (tab n (fun _ => 0) ++ l) = Some (tab n g ++ l, off).
Proof.
  intros Hn Hg. unfold unrotate.
  edestruct (for_range_inv (fun i s => s =
    (tab n (fun t => if (t + r) mod n <? i then g t else 0) ++ l, (i - r) mod n)))
    as (s & E & Hs); [| | |rewrite E, Hs].
  - lia.
  - f_equal. f_equal. apply tab_ext. intros t Ht.
    pose proof (Z.mod_pos_bound (t + r) n ltac:(lia)). by destruct (Z.ltb_spec ((t + r) mod n) 0); [lia|].
  - intros i s Hi ->. assert (0 <= (i - r) mod n < n) as Hj by (apply Z.mod_pos_bound; lia).
    eexists. split; [|reflexivity]. rewrite rd_tab by done. simpl.
    rewrite place_byte_spec; [|lia|done| |unfold word; lia|lia].
    2: { intros k. destruct (_ <? _); [done|by split]. }
    simpl. rewrite wrap_index_spec, Zplus_mod_idemp_l by lia.
    do 2 f_equal; [|f_equal; lia]. f_equal. apply tab_ext. intros t Ht.
    destruct (Z.eqb_spec t ((i - r) mod n)) as [->|Hne].
    + rewrite Zplus_mod_idemp_l. replace (i - r + r) with i by lia.
      rewrite Z.mod_small by lia. destruct (Z.ltb_spec i i), (Z.ltb_spec i (i + 1)); by try lia.
    + assert ((t + r) mod n <> i).
      { intros <-. apply Hne. rewrite Zminus_mod_idemp_l. replace (t + r - r) with t by lia.
        by rewrite Z.mod_small by lia. }
      destruct (Z.ltb_spec ((t + r) mod n) i), (Z.ltb_spec ((t + r) mod n) (i + 1)); by try lia.
  - eexists. do 3 f_equal. apply tab_ext. intros t Ht.
    pose proof (Z.mod_pos_bound (t + r) n ltac:(lia)). destruct (Z.ltb_spec ((t + r) mod n) n); lia.
Qed.

(** The spoiler is a multiple of an even [md_size]: the offset is the distance
    from the start of the scan. *)
Lemma rotate_offset_spec n ms ss : 0 < n <= 64 -> Z.even n = true -> 0 <= ss <= ms ->
  ms < 2 ^ 31 ->
  u32 (u32 (u32 ((n ≫ 1) ≪ ((4 - 1) * 8)) + ms) - ss) mod n = (ms - ss) mod n.
Proof.
  intros Hn [q Hq]%Z.even_spec Hss Hms. rewrite Z.shiftr_div_pow2, Z.shiftl_mul_pow2 by lia.
  change (2 ^ 1) with 2. change (2 ^ ((4 - 1) * 8)) with 16777216.
  assert (n / 2 = q) as -> by (rewrite Hq, Z.mul_comm; by apply Z.div_mul).
  rewrite (wrap_small 32 (q * 16777216)) by (unfold word; lia).
  rewrite (wrap_small 32 (q * 16777216 + ms)) by (unfold word; lia).
  rewrite wrap_small by (unfold word; lia).
  replace (q * 16777216 + ms - ss) with (ms - ss + 8388608 * n) by lia.
  apply Z_mod_plus_full.
Qed.

Lemma neg_offset_spec r n : 0 < n <= 64 ->
  u32 (n - r mod n) .& constant_time_lt (u32 (n - r mod n)) n = (0 - r) mod n.
Proof.
  intros Hn. pose proof (Z.mod_pos_bound r n ltac:(lia)).
  rewrite wrap_small by (unfold word; lia).
  rewrite lt_spec, Z.land_comm, land_mask_word by (unfold word; lia).
  rewrite <-Zminus_mod_idemp_r. destruct (Z.ltb_spec (n - r mod n) n).
  - rewrite <-(Z_mod_plus_full (0 - r mod n) 1 n), (Z.mod_small (_ + _)); lia.
  - by replace (r mod n) with 0 by lia.
Qed.

Lemma scan_start_spec n len orig_len : 0 < n <= 64 -> n <= len <= orig_len ->
  orig_len < 2 ^ 31 -> orig_len - len <= 256 ->
  0 <= (if u32 (n + 255 + 1) <? orig_len then u32 (orig_len - u32 (n + 255 + 1)) else 0)
    <= len - n.
Proof.
  intros. rewrite (wrap_small 32 (n + 255 + 1)) by (unfold word; lia).
  destruct (Z.ltb_spec (n + 255 + 1) orig_len); [|lia].
  rewrite wrap_small by (unfold word; lia). lia.
Qed.
End copy_mac.

(** C26. For an even MAC size up to 64 and a record whose end lies in the
    256-byte window before [orig_len], the masked scan and the quadratic
    rotation copy exactly the last [md_size] bytes of the record to the front
    of [out]: every access is in bounds, and the rest of [out] is unchanged. *)
Theorem ssl3_cbc_copy_mac_correct out rec md_size orig_len :
  wf_record rec -> rec_data rec + orig_len <= zlen (rec_buf rec) ->
  0 < md_size <= 64 -> Z.even md_size = true -> md_size <= zlen out ->
  md_size <= rec_length rec <= orig_len -> orig_len < 2 ^ 31 ->
  orig_len - rec_length rec <= 256 ->
  ssl3_cbc_copy_mac out rec md_size orig_len = copy_mac_ref out rec md_size.
Proof.
  intros Hrec Hbuf Hn Heven Hout Hlen Horig Hwin. unfold ssl3_cbc_copy_mac, copy_mac_ref.
  assert (0 <= rec_data rec) by apply Hrec.
  replace (EVP_MAX_MD_SIZE <? md_size) with false by (symmetry; apply Z.ltb_ge; unfold EVP_MAX_MD_SIZE; lia).
  destruct (Z.eqb_spec md_size 0); [lia|]. cbn [orb]. cbv zeta.
  pose proof (scan_start_spec md_size (rec_length rec) orig_len Hn Hlen Horig Hwin) as Hss.
  set (ss := if _ <? _ then _ else _) in *. clearbody ss.
  rewrite (wrap_small 32 (rec_length rec - md_size)) by (unfold word; lia).
  rewrite rotate_offset_spec, neg_offset_spec by lia || done.
  destruct (scan_mac_spec rec md_size (rec_length rec - md_size) ss orig_len) as [j E]; [done|lia..|].
  replace (rec_length rec - md_size + md_size) with (rec_length rec) in E by lia.
  rewrite E. cbn [mbind option_bind].
  rewrite replicate_tab, blit_0 by (rewrite zlen_tab; lia). cbn [mbind option_bind].
  edestruct (unrotate_spec md_size (rec_length rec - md_size - ss)
    (mac_byte rec (rec_length rec - md_size))) as [off ->]; [lia| |].
  { intros. by apply mac_byte_word. }
  cbn [mbind option_bind].
  rewrite (slice_tab _ _ _ 0) by lia. cbn [mbind option_bind].
  rewrite blit_0 by (rewrite zlen_tab; lia). do 2 f_equal.
  - apply tab_ext. intros k Hk. unfold mac_byte, rec_byte. do 2 f_equal. lia.
  - f_equal. unfold tab. by rewrite !length_fmap.
Qed.

(** A 4-byte MAC at the end of an 8-byte record stripped of 4 bytes of padding. *)
Lemma ssl3_cbc_copy_mac_correct_witness :
  let rec := mk_record 8 [1; 2; 3; 4; 50; 60; 70; 80; 3; 3; 3; 3] 0 23 0 in
  ssl3_cbc_copy_mac [0; 0; 0; 0; 9] rec 4 12 = Some [50; 60; 70; 80; 9].
Proof.
  intros rec. rewrite (ssl3_cbc_copy_mac_correct [0; 0; 0; 0; 9] rec 4 12);
    [reflexivity| |vm_compute; discriminate|lia|reflexivity|vm_compute; discriminate
     |vm_compute; split; discriminate|lia|vm_compute; discriminate].
  unfold wf_record, rec, word, sword, zlen; simpl.
  repeat split; try lia. repeat constructor; lia.
Defined.
