(* ===== verification/MdHash.v ===== *)
(** * The 32-bit message digest template:
    [benchmarks/openssl_almeida/md32_common.h].

    The header is a template over macros ([HASH_CTX], [HASH_BLOCK_DATA_ORDER],
    [HASH_MAKE_STRING], the byte order); here it is a development over the class
    [MD32].  The theorems state that the streaming interface computes the
    Merkle-Damgard hash of the concatenation of its inputs. *)
From S2P Require Import Prelude Arrays.
Local Open Scope Z_scope.
Local Open Scope word_scope.

(** What an algorithm supplies: its chaining state, the block function on one
    block, the serialisation of the state, and [DATA_ORDER_IS_BIG_ENDIAN]. *)
Class MD32 := {
  hstate : Type;
  hash_block : hstate -> list Z -> hstate;
  hash_make_string : hstate -> list Z;
  data_order_is_big_endian : bool }.

Definition HASH_CBLOCK : Z := 64.

(** [HOST_c2l] and [HOST_l2c] for both byte orders. *)
Definition HOST_l2c (big : bool) (l : Z) : list Z :=
  if big then [(l ≫ 24) .& 0xff; (l ≫ 16) .& 0xff; (l ≫ 8) .& 0xff; l .& 0xff]
  else [l .& 0xff; (l ≫ 8) .& 0xff; (l ≫ 16) .& 0xff; (l ≫ 24) .& 0xff].

Definition HOST_c2l (big : bool) (b0 b1 b2 b3 : Z) : Z :=
  if big then (b0 ≪ 24) .| (b1 ≪ 16) .| (b2 ≪ 8) .| b3
  else b0 .| (b1 ≪ 8) .| (b2 ≪ 16) .| (b3 ≪ 24).

Section md32.
Context `{MD32}.
Implicit Types (h : hstate) (m d p : list Z) (k n len : Z).

Record HASH_CTX := mk_ctx {
  ctx_h : hstate; ctx_Nl : Z; ctx_Nh : Z; ctx_data : list Z; ctx_num : Z }.

(** [HASH_BLOCK_DATA_ORDER(c, p, num)]: the loop decrements before it tests,
    so [num] is positive. *)
Definition HASH_BLOCK_DATA_ORDER h p (num : Z) : option hstate :=
  if num =? 0 then None else
  for_range 0 num (fun i h =>
    b ← slice p (HASH_CBLOCK * i) HASH_CBLOCK; Some (hash_block h b)) h.

(** The end of [HASH_UPDATE]: whole blocks, then the rest is buffered.  [off]
    is how far [data] has advanced. *)
Definition hash_update_bulk (c : HASH_CTX) d (off len : Z) : option HASH_CTX :=
  let n := len / HASH_CBLOCK in
  h ← (if 0 <? n then
         p ← slice d off (n * HASH_CBLOCK); HASH_BLOCK_DATA_ORDER (ctx_h c) p n
       else Some (ctx_h c));
  let off := if 0 <? n then off + n * HASH_CBLOCK else off in
  let len := if 0 <? n then len - n * HASH_CBLOCK else len in
  if negb (len =? 0) then
    s ← slice d off len;
    p ← blit (ctx_data c) 0 s;
    Some (mk_ctx h (ctx_Nl c) (ctx_Nh c) p (u32 len))
  else Some (mk_ctx h (ctx_Nl c) (ctx_Nh c) (ctx_data c) (ctx_num c)).

Definition HASH_UPDATE (c : HASH_CTX) d (len : Z) : option HASH_CTX :=
  if len =? 0 then Some c else
  let l := (u32 (ctx_Nl c + u32 (u32 len ≪ 3))) .& 0xffffffff in
  let Nh := if l <? ctx_Nl c then u32 (ctx_Nh c + 1) else ctx_Nh c in
  let Nh := u32 (Nh + u32 (len ≫ 29)) in
  let n := ctx_num c in
  if negb (n =? 0) then
    if (HASH_CBLOCK <=? len) || (HASH_CBLOCK <=? u64 (len + n)) then
      s ← slice d 0 (HASH_CBLOCK - n);
      p ← blit (ctx_data c) n s;
      h ← HASH_BLOCK_DATA_ORDER (ctx_h c) p 1;
      hash_update_bulk (mk_ctx h l Nh (replicate 64 0) 0) d
        (HASH_CBLOCK - n) (len - (HASH_CBLOCK - n))
    else
      s ← slice d 0 len;
      p ← blit (ctx_data c) n s;
      Some (mk_ctx (ctx_h c) l Nh p (u32 (n + u32 len)))
  else hash_update_bulk (mk_ctx (ctx_h c) l Nh (ctx_data c) n) d 0 len.

Definition HASH_TRANSFORM h d : option hstate := HASH_BLOCK_DATA_ORDER h d 1.

Definition HASH_FINAL (c : HASH_CTX) : option (list Z * HASH_CTX) :=
  p ← wr (ctx_data c) (ctx_num c) 0x80;
  let n := ctx_num c + 1 in
  '(h, p, n) ← (if HASH_CBLOCK - 8 <? n then
      p ← blit p n (replicate (Z.to_nat (HASH_CBLOCK - n)) 0);
      h ← HASH_BLOCK_DATA_ORDER (ctx_h c) p 1;
      Some (h, p, 0)
    else Some (ctx_h c, p, n));
  p ← blit p n (replicate (Z.to_nat (HASH_CBLOCK - 8 - n)) 0);
  p ← blit p (HASH_CBLOCK - 8)
    (if data_order_is_big_endian
     then HOST_l2c true (ctx_Nh c) ++ HOST_l2c true (ctx_Nl c)
     else HOST_l2c false (ctx_Nl c) ++ HOST_l2c false (ctx_Nh c));
  h ← HASH_BLOCK_DATA_ORDER h p 1;
  Some (hash_make_string h, mk_ctx h (ctx_Nl c) (ctx_Nh c) (replicate 64 0) 0).

(** ** Specification *)

(** The chaining value after the first [k] blocks of [m]. *)
Fixpoint hash_blocks (k : nat) h m : hstate :=
  match k with
  | O => h
  | S k => hash_blocks k (hash_block h (take 64 m)) (drop 64 m)
  end.

(** The 8 bytes of a bit count. *)
Definition count_bytes (bits : Z) : list Z :=
  if data_order_is_big_endian
  then HOST_l2c true (bits ≫ 32) ++ HOST_l2c true (u32 bits)
  else HOST_l2c false (u32 bits) ++ HOST_l2c false (bits ≫ 32).

(** Merkle-Damgard strengthening of a message of [n] bytes, [n mod 64] of which
    are in its last, incomplete block. *)
Definition md_padding (n : Z) : list Z :=
  0x80 :: replicate (Z.to_nat ((55 - n) mod 64)) 0 ++ count_bytes (u64 (8 * n)).

Definition md_hash h m : list Z :=
  let pm := m ++ md_padding (zlen m) in
  hash_make_string (hash_blocks (length pm / 64) h pm).

(** The context holds the message [m]: whole blocks are hashed, the rest is
    buffered, and the counters hold the bit count modulo [2^64]. *)
Definition holds (h0 : hstate) (c : HASH_CTX) m : Prop :=
  exists (k : nat) full tail,
    m = full ++ tail /\ length full = (64 * k)%nat /\ ctx_h c = hash_blocks k h0 full /\
    zlen tail < 64 /\ ctx_num c = zlen tail /\
    (exists rest, ctx_data c = tail ++ rest) /\ zlen (ctx_data c) = 64 /\
    word 32 (ctx_Nl c) /\ word 32 (ctx_Nh c) /\
    ctx_Nl c + 2 ^ 32 * ctx_Nh c = u64 (8 * zlen m).

Lemma hash_blocks_app (k l : nat) h a b : length a = (64 * k)%nat ->
  hash_blocks (k + l) h (a ++ b) = hash_blocks l (hash_blocks k h a) b.
Proof.
  revert h a. induction k as [|k IH]; intros h a Ha.
  - destruct a; [done|simpl in Ha; lia].
  - cbn [hash_blocks Nat.add]. rewrite take_app_le, drop_app_le by lia.
    apply IH. rewrite length_drop. lia.
Qed.

Lemma hash_blocks_ext (k : nat) h a b : (64 * k <= length a)%nat ->
  hash_blocks k h (a ++ b) = hash_blocks k h a.
Proof.
  revert h a. induction k as [|k IH]; intros h a Ha; [done|]. cbn [hash_blocks].
  rewrite take_app_le, drop_app_le by lia. apply IH. rewrite length_drop. lia.
Qed.

Lemma hash_blocks_S (k : nat) h m :
  hash_blocks (S k) h m = hash_block (hash_blocks k h m) (take 64 (drop (64 * k) m)).
Proof.
  revert h m. induction k as [|k IH]; intros h m; [by rewrite drop_0|].
  change (hash_blocks (S (S k)) h m) with (hash_blocks (S k) (hash_block h (take 64 m)) (drop 64 m)).
  rewrite IH. cbn [hash_blocks]. rewrite drop_drop. do 3 f_equal. lia.
Qed.

Lemma iter_blocks (n : nat) (i : nat) h p : (64 * (i + n) <= length p)%nat ->
  iter_from n (Z.of_nat i) (fun i h =>
    b ← slice p (HASH_CBLOCK * i) HASH_CBLOCK; Some (hash_block h b)) h
  = Some (hash_blocks n h (drop (64 * i) p)).
Proof.
  revert i h. induction n as [|n IH]; intros i h Hp; [done|].
  cbn [iter_from hash_blocks]. unfold HASH_CBLOCK in *.
  rewrite slice_Some by (unfold zlen; lia). cbn [mbind option_bind].
  replace (Z.of_nat i + 1) with (Z.of_nat (S i)) by lia. rewrite IH by lia.
  rewrite drop_drop. do 3 f_equal; [|lia].
  do 2 f_equal. lia.
Qed.

Lemma block_data_order_spec h p (n : Z) : 0 < n -> 64 * n <= zlen p ->
  HASH_BLOCK_DATA_ORDER h p n = Some (hash_blocks (Z.to_nat n) h p).
Proof.
  intros Hn Hp. unfold HASH_BLOCK_DATA_ORDER, for_range.
  destruct (Z.eqb_spec n 0); [lia|]. unfold zlen in Hp.
  rewrite Z.sub_0_r, (iter_blocks _ 0) by lia. by rewrite drop_0.
Qed.
End md32.

(** ** The bit counter *)

Lemma wrap_pair a b : word 32 a -> a + 2 ^ 32 * wrap 32 b = wrap 64 (a + 2 ^ 32 * b).
Proof.
  unfold word, wrap. intros Ha. change (2 ^ 64) with (2 ^ 32 * 2 ^ 32).
  rewrite Z.rem_mul_r by lia.
  rewrite (Z.mul_comm (2 ^ 32) b), Z_mod_plus_full, Z.div_add, (Z.div_small a), (Z.mod_small a) by lia.
  by rewrite Z.add_0_l.
Qed.

(** Adding [len] bytes to a two-word bit count: the carry is detected by the
    wrap-around of the low word. *)
Lemma bit_count_add Nl Nh n len :
  word 32 Nl -> word 32 Nh -> 0 <= len -> Nl + 2 ^ 32 * Nh = u64 (8 * n) ->
  let l := (u32 (Nl + u32 (u32 len ≪ 3))) .& 0xffffffff in
  let Nh' := u32 ((if l <? Nl then u32 (Nh + 1) else Nh) + u32 (len ≫ 29)) in
  word 32 l /\ word 32 Nh' /\ l + 2 ^ 32 * Nh' = u64 (8 * (n + len)).
Proof.
  intros Hl Hh Hlen Hn. set (lo := u32 (8 * len)).
  assert (u32 (u32 len ≪ 3) = lo) as ->.
  { rewrite Z.shiftl_mul_pow2 by lia. rewrite wrap_mul_l. unfold lo. f_equal. lia. }
  rewrite (Z.shiftr_div_pow2 len) by lia. assert (word 32 lo) as Hlo by (apply wrap_range; lia).
  assert (8 * len = lo + 2 ^ 32 * (len / 2 ^ 29)) as Hdec.
  { unfold lo, wrap. Z.to_euclidean_division_equations. lia. }
  change 0xffffffff with (Z.ones 32). rewrite Z.land_ones by lia.
  fold (wrap 32 (u32 (Nl + lo))). rewrite wrap_wrap. intros l Nh'.
  assert (l = Nl + lo - (if l <? Nl then 2 ^ 32 else 0)) as El.
  { unfold l, wrap, word in *. destruct (Z.ltb_spec ((Nl + lo) mod 2 ^ 32) Nl);
      Z.to_euclidean_division_equations; lia. }
  assert (word 32 l) as Hwl by (apply wrap_range; lia).
  split; [done|]. split; [apply wrap_range; lia|].
  unfold Nh'. rewrite wrap_add_r.
  replace (u32 _) with (u32 (Nh + (if l <? Nl then 1 else 0) + len / 2 ^ 29)).
  2: { destruct (l <? Nl); [by rewrite wrap_add_l|by rewrite Z.add_0_r]. }
  rewrite wrap_pair by done.
  replace (8 * (n + len)) with (8 * n + 8 * len) by lia.
  rewrite <-(wrap_add_l 64 (8 * n)), <-Hn, Hdec, El at 1. f_equal.
  destruct (l <? Nl); lia.
Qed.

Section streaming.
Context `{MD32}.
Implicit Types (h : hstate) (m d p : list Z) (len : Z).

Lemma hash_update_bulk_spec c d off len :
  0 <= off -> 0 <= len -> off + len <= zlen d -> ctx_num c = 0 -> zlen (ctx_data c) = 64 ->
  exists (k : nat) full tail rest,
    take (Z.to_nat len) (drop (Z.to_nat off) d) = full ++ tail /\
    length full = (64 * k)%nat /\ zlen tail < 64 /\ zlen (tail ++ rest) = 64 /\
    hash_update_bulk c d off len = Some (mk_ctx (hash_blocks k (ctx_h c) full)
      (ctx_Nl c) (ctx_Nh c) (tail ++ rest) (zlen tail)).
Proof.
  intros Hoff Hlen Hd Hnum Hdata. unfold hash_update_bulk, HASH_CBLOCK.
  set (s := take _ (drop _ d)). set (q := len / 64).
  assert (0 <= q /\ 64 * q <= len < 64 * q + 64) as Hq
    by (unfold q; Z.to_euclidean_division_equations; lia).
  assert (zlen s = len) as Hs by (unfold s; zlen_lia).
  exists (Z.to_nat q), (take (Z.to_nat (64 * q)) s), (drop (Z.to_nat (64 * q)) s).
  assert ((if 0 <? q then off + q * 64 else off) = off + 64 * q) as ->
    by (destruct (Z.ltb_spec 0 q); lia).
  assert ((if 0 <? q then len - q * 64 else len) = len - 64 * q) as ->
    by (destruct (Z.ltb_spec 0 q); lia).
  assert ((if 0 <? q then p ← slice d off (q * 64); HASH_BLOCK_DATA_ORDER (ctx_h c) p q
           else Some (ctx_h c))
    = Some (hash_blocks (Z.to_nat q) (ctx_h c) (take (Z.to_nat (64 * q)) s))) as ->.
  { destruct (Z.ltb_spec 0 q); [|by replace q with 0 by lia].
    rewrite slice_Some by lia. cbn [mbind option_bind].
    rewrite block_data_order_spec by (zlen_lia).
    do 2 f_equal. unfold s. rewrite take_take. f_equal. lia. }
  cbn [mbind option_bind]. assert (zlen (drop (Z.to_nat (64 * q)) s) = len - 64 * q) as Ht by zlen_lia.
  destruct (Z.eqb_spec (len - 64 * q) 0) as [E|]; cbn [negb].
  - exists (ctx_data c). rewrite take_drop.
    destruct (drop (Z.to_nat (64 * q)) s) as [|x l] eqn:Ed;
      [|unfold zlen in Ht; simpl in Ht; lia].
    split_and!; try done; [unfold zlen in *; rewrite length_take; lia|].
    by rewrite Hnum.
  - exists (drop (length (drop (Z.to_nat (64 * q)) s)) (ctx_data c)).
    rewrite take_drop. rewrite slice_Some by lia. cbn [mbind option_bind].
    replace (take _ (drop _ d)) with (drop (Z.to_nat (64 * q)) s).
    2: { unfold s. rewrite skipn_firstn_comm, drop_drop. f_equal; [lia|f_equal; lia]. }
    rewrite blit_0 by lia. cbn [mbind option_bind].
    split_and!; try done; [unfold zlen in *; rewrite length_take; lia|lia|unfold zlen in *; rewrite length_app, !length_drop in *; lia|].
    rewrite wrap_small by (unfold word; lia). by rewrite Ht.
Qed.

(** Whole blocks hashed so far, and the rest of [d] from [off] on. *)
Lemma hash_update_bulk_holds h0 (k : nat) full l Nh data d off :
  length full = (64 * k)%nat -> 0 <= off <= zlen d -> zlen data = 64 -> word 32 l -> word 32 Nh ->
  l + 2 ^ 32 * Nh = u64 (8 * zlen (full ++ drop (Z.to_nat off) d)) ->
  exists c', hash_update_bulk (mk_ctx (hash_blocks k h0 full) l Nh data 0) d off (zlen d - off) = Some c' /\
    holds h0 c' (full ++ drop (Z.to_nat off) d).
Proof.
  intros Hfull Hoff Hdata Hl Hh Hcount.
  destruct (hash_update_bulk_spec (mk_ctx (hash_blocks k h0 full) l Nh data 0) d off (zlen d - off))
    as (k' & full' & tail & rest & Ed & Hk & Ht & Hz & ->); [lia..|done|done|].
  eexists. split; [done|]. rewrite take_ge in Ed by (unfold zlen in *; rewrite length_drop; lia).
  exists (k + k')%nat, (full ++ full'), tail. split_and!; simpl; try done.
  - by rewrite Ed, app_assoc.
  - rewrite length_app. lia.
  - by rewrite hash_blocks_app by done.
  - by exists rest.
Qed.

Lemma hash_update_holds h0 c m d : holds h0 c m -> zlen d < 2 ^ 64 ->
  exists c', HASH_UPDATE c d (zlen d) = Some c' /\ holds h0 c' (m ++ d).
Proof.
  intros (k & full & tail & -> & Hfull & Hh & Htail & Hnum & [rest Hrest] & Hdata & Hl & Hnh & Hcount) Hd.
  pose proof (zlen_nonneg d). unfold HASH_UPDATE. destruct (Z.eqb_spec (zlen d) 0) as [E|].
  { exists c. destruct d; [|unfold zlen in E; simpl in E; lia]. split; [done|].
    rewrite app_nil_r. exists k, full, tail. split_and!; eauto. }
  destruct (bit_count_add (ctx_Nl c) (ctx_Nh c) (zlen (full ++ tail)) (zlen d))
    as (Hl' & Hnh' & Hcount'); [done..|]. rewrite <-zlen_app in Hcount'.
  set (l := u32 _ .& _) in *. set (Nh' := u32 (_ + u32 (zlen d ≫ 29))) in *. clearbody l Nh'.
  rewrite Hnum. pose proof (zlen_nonneg tail).
  destruct (Z.eqb_spec (zlen tail) 0) as [E|]; cbn [negb].
  { destruct tail; [|unfold zlen in E; simpl in E; lia]. rewrite app_nil_r in *. rewrite Hh.
    pose proof (hash_update_bulk_holds h0 k full l Nh' (ctx_data c) d 0) as Hb. rewrite drop_0, Z.sub_0_r in Hb.
    apply Hb; done || lia. }
  unfold HASH_CBLOCK. rewrite Hrest in *. rewrite zlen_app in Hdata.
  assert ((64 <=? zlen d) || (64 <=? u64 (zlen d + zlen tail)) = (64 <=? zlen d + zlen tail)) as ->.
  { destruct (Z.leb_spec 64 (zlen d)); simpl; [symmetry; apply Z.leb_le; lia|].
    by rewrite wrap_small by (unfold word; lia). }
  destruct (Z.leb_spec 64 (zlen d + zlen tail)).
  - rewrite slice_0 by lia. cbn [mbind option_bind].
    rewrite blit_app by (zlen_lia || done). cbn [mbind option_bind].
    assert (zlen (take (Z.to_nat (64 - zlen tail)) d) = 64 - zlen tail) as Hs by zlen_lia.
    rewrite (drop_ge rest), app_nil_r by (unfold zlen in *; lia).
    rewrite block_data_order_spec by (rewrite ?zlen_app; lia). cbn [mbind option_bind].
    set (first := take _ d) in *. rewrite Hh.
    change (Z.to_nat 1) with 1%nat. rewrite <-hash_blocks_app by done.
    assert ((full ++ tail) ++ d = (full ++ tail ++ first) ++ drop (Z.to_nat (64 - zlen tail)) d) as Em
      by (unfold first; by rewrite <-!app_assoc, take_drop).
    rewrite Em. apply hash_update_bulk_holds; [rewrite !length_app; unfold zlen in *; lia|lia|done..|].
    by rewrite <-Em.
  - rewrite slice_0 by lia. cbn [mbind option_bind].
    rewrite take_ge by (unfold zlen; lia).
    rewrite blit_app by (lia || done). cbn [mbind option_bind]. eexists. split; [done|].
    exists k, full, (tail ++ d). split_and!; simpl; try done.
    + by rewrite app_assoc.
    + rewrite zlen_app. lia.
    + rewrite (wrap_small 32 (zlen d)) by (unfold word; lia).
      rewrite wrap_small by (unfold word; lia). rewrite zlen_app. lia.
    + eexists. by rewrite <-app_assoc.
    + rewrite !zlen_app. unfold zlen in *. rewrite length_drop. lia.
Qed.

Lemma zlen_HOST_l2c b x : zlen (HOST_l2c b x) = 4.
Proof. by destruct b. Qed.

Lemma count_bytes_ctx Nl Nh : word 32 Nl -> word 32 Nh ->
  count_bytes (Nl + 2 ^ 32 * Nh)
  = (if data_order_is_big_endian then HOST_l2c true Nh ++ HOST_l2c true Nl
     else HOST_l2c false Nl ++ HOST_l2c false Nh).
Proof.
  intros. unfold count_bytes.
  assert ((Nl + 2 ^ 32 * Nh) ≫ 32 = Nh) as ->.
  { rewrite Z.shiftr_div_pow2 by lia. unfold word in *. Z.to_euclidean_division_equations; lia. }
  assert (u32 (Nl + 2 ^ 32 * Nh) = Nl) as ->.
  { unfold wrap. rewrite (Z.mul_comm (2 ^ 32)), Z_mod_plus_full. by apply Z.mod_small. }
  done.
Qed.

Lemma zlen_count_bytes bits : zlen (count_bytes bits) = 8.
Proof. unfold count_bytes. by destruct data_order_is_big_endian. Qed.

(** The last block: zeros up to the count. *)
Lemma finish_block a rest cnt : zlen (a ++ rest) = 64 -> zlen a <= 56 -> zlen cnt = 8 ->
  (p ← blit (a ++ rest) (zlen a) (replicate (Z.to_nat (56 - zlen a)) 0); blit p 56 cnt)
  = Some (a ++ replicate (Z.to_nat (56 - zlen a)) 0 ++ cnt).
Proof.
  intros Hz Ha Hc. rewrite zlen_app in Hz.
  rewrite blit_app by (rewrite ?zlen_replicate; lia). cbn [mbind option_bind].
  rewrite app_assoc, blit_app.
  - rewrite drop_ge, app_nil_r; [by rewrite app_assoc|].
    unfold zlen in *. rewrite length_drop, length_replicate. lia.
  - rewrite zlen_app, zlen_replicate. lia.
  - unfold zlen in *. rewrite length_drop, length_replicate. lia.
Qed.

(** The hash of a message whose padded form has [k] whole blocks. *)
Lemma md_hash_blocks h0 m (k : nat) : length (m ++ md_padding (zlen m)) = (64 * k)%nat ->
  md_hash h0 m = hash_make_string (hash_blocks k h0 (m ++ md_padding (zlen m))).
Proof. intros E. unfold md_hash. by rewrite E, Nat.mul_comm, Nat.div_mul by lia. Qed.

Lemma zlen_md_padding n : zlen (md_padding n) = 9 + (55 - n) mod 64.
Proof.
  unfold md_padding. pose proof (Z.mod_pos_bound (55 - n) 64 ltac:(lia)).
  change (0x80 :: ?l) with ([0x80] ++ l).
  rewrite !zlen_app, zlen_replicate, zlen_count_bytes. unfold zlen; simpl. lia.
Qed.

(** The padded end of a message, after [k] hashed blocks. *)
Lemma md_hash_tail h0 (k j : nat) full tail : length full = (64 * k)%nat ->
  let p := (tail ++ [0x80]) ++ replicate (Z.to_nat ((55 - zlen tail) mod 64)) 0 ++
    count_bytes (u64 (8 * zlen (full ++ tail))) in
  length p = (64 * j)%nat ->
  md_hash h0 (full ++ tail) = hash_make_string (hash_blocks j (hash_blocks k h0 full) p).
Proof.
  intros Hfull p Hp.
  assert (tail ++ md_padding (zlen (full ++ tail)) = p) as Ep.
  { unfold p, md_padding. rewrite <-app_assoc. cbn [app]. do 4 f_equal. rewrite zlen_app.
    replace (55 - (zlen full + zlen tail)) with (55 - zlen tail + (- Z.of_nat k) * 64) by (unfold zlen; lia).
    by rewrite Z_mod_plus_full. }
  rewrite (md_hash_blocks _ _ (k + j)); rewrite <-app_assoc, Ep.
  - by rewrite hash_blocks_app by done.
  - rewrite length_app. lia.
Qed.

Lemma hash_final_holds h0 c m : holds h0 c m ->
  exists c', HASH_FINAL c = Some (md_hash h0 m, c').
Proof.
  intros (k & full & tail & -> & Hfull & Hh & Htail & Hnum & [rest Hrest] & Hdata & Hl & Hnh & Hcount).
  unfold HASH_FINAL, HASH_CBLOCK. rewrite Hrest, Hnum in *. pose proof (zlen_nonneg tail).
  rewrite zlen_app in Hdata. destruct rest as [|x rest]; [unfold zlen in *; simpl in *; lia|].
  rewrite wr_app by done. cbn [mbind option_bind].
  rewrite <-(count_bytes_ctx _ _ Hl Hnh), Hcount.
  assert (zlen rest = 63 - zlen tail) as Hr by (unfold zlen in *; simpl in *; lia).
  pose proof (fun j => md_hash_tail h0 k j full tail Hfull) as Hmd. cbv zeta in Hmd. rewrite <-Hh in Hmd.
  replace (tail ++ 0x80 :: rest) with ((tail ++ [0x80]) ++ rest) by (by rewrite <-app_assoc).
  assert (zlen (tail ++ [0x80]) = zlen tail + 1) as Ht1 by (by rewrite zlen_app).
  rewrite <-Ht1. set (cnt := count_bytes _) in *.
  assert (zlen cnt = 8) as Hc by apply zlen_count_bytes.
  set (a := tail ++ [0x80]) in *. clearbody cnt a.
  change (64 - 8) with 56. destruct (Z.ltb_spec 56 (zlen a)).
  - rewrite blit_app by (rewrite ?zlen_replicate; lia). cbn [mbind option_bind].
    rewrite (drop_ge rest), app_nil_r by (rewrite length_replicate; unfold zlen in *; lia).
    set (p1 := a ++ _).
    assert (zlen p1 = 64) as Hp1 by (unfold p1; rewrite zlen_app, zlen_replicate; lia).
    rewrite block_data_order_spec by lia. cbn [mbind option_bind].
    pose proof (finish_block [] p1 cnt Hp1 ltac:(done) Hc) as E.
    change (zlen (@nil Z)) with 0 in E. cbn [app] in E.
    destruct (blit p1 0 _) as [p2|]; [|done]. cbn [mbind option_bind] in *. rewrite E.
    cbn [mbind option_bind].
    rewrite block_data_order_spec by (rewrite ?zlen_app, ?zlen_replicate; lia).
    cbn [mbind option_bind]. eexists. do 2 f_equal. symmetry.
    replace ((55 - zlen tail) mod 64) with ((64 - zlen a) + 56) in Hmd
      by (Z.to_euclidean_division_equations; lia).
    rewrite Z2Nat.inj_add, replicate_add, <-!app_assoc, (app_assoc a) in Hmd by lia.
    fold p1 in Hmd. rewrite (Hmd (1 + 1)%nat), hash_blocks_app; [done|unfold zlen in *; lia|].
    rewrite !length_app, length_replicate. unfold zlen in *. lia.
  - pose proof (finish_block a rest cnt ltac:(rewrite zlen_app; lia) ltac:(lia) Hc) as E.
    cbn [mbind option_bind] in *.
    destruct (blit (a ++ rest) _ _) as [p2|]; [|done]. cbn [mbind option_bind] in *. rewrite E.
    cbn [mbind option_bind].
    rewrite block_data_order_spec by (rewrite ?zlen_app, ?zlen_replicate; lia).
    cbn [mbind option_bind]. eexists. do 2 f_equal. symmetry.
    rewrite Z.mod_small in Hmd by lia. replace (55 - zlen tail) with (56 - zlen a) in Hmd by lia.
    apply Hmd. rewrite !length_app, length_replicate. unfold zlen in *. lia.
Qed.

Lemma holds_init h0 : holds h0 (mk_ctx h0 0 0 (replicate 64 0) 0) [].
Proof. exists O, [], []. split_and!; try done. by eexists. Qed.
End streaming.
