(* ===== verification/Sha1.v ===== *)
(** * SHA-1: the block function of
    [benchmarks/openssl_almeida/ssl3_cbc_digest_record.c].

    The code keeps the sixteen live words of the message schedule in a circular
    array of local variables and renames its six working variables from round to
    round instead of moving them.  The reference is FIPS 180-4: an 80-word
    schedule, five working variables and the unsimplified round functions. *)
From S2P Require Import Prelude Arrays MdHash.
Local Open Scope Z_scope.
Local Open Scope word_scope.

Record SHA := mk_sha { h0 : Z; h1 : Z; h2 : Z; h3 : Z; h4 : Z }.

#[global] Instance SHA_eq_dec : EqDecision SHA.
Proof. solve_decision. Defined.

Definition INIT_DATA : SHA := mk_sha 0x67452301 0xefcdab89 0x98badcfe 0x10325476 0xc3d2e1f0.

Definition K_00_19 : Z := 0x5a827999.
Definition K_20_39 : Z := 0x6ed9eba1.
Definition K_40_59 : Z := 0x8f1bbcdc.
Definition K_60_79 : Z := 0xca62c1d6.

Definition ROTATE (a n : Z) : Z := u32 (a ≪ n) .| ((a .& 0xffffffff) ≫ (32 - n)).

Definition F_00_19 (b c d : Z) : Z := ((c .^ d) .& b) .^ d.
Definition F_20_39 (b c d : Z) : Z := b .^ c .^ d.
Definition F_40_59 (b c d : Z) : Z := (b .& c) .| ((b .| c) .& d).
Definition F_60_79 (b c d : Z) : Z := F_20_39 b c d.

(** The working variables in the order the round macros take them. *)
Definition regs : Type := (Z * Z * Z * Z * Z * Z)%type.

Definition Xupdate (ia ib ic id : Z) : Z := ROTATE (ia .^ ib .^ ic .^ id) 1.

Definition BODY_00_15 (r : regs) (xi : Z) : regs :=
  let '(a, b, c, d, e, _) := r in
  (a, ROTATE b 30, c, d, e, u32 (xi + e + K_00_19 + ROTATE a 5 + F_00_19 b c d)).

(** From round 16 on the macros also return the new schedule word. *)
Definition BODY_16_19 (r : regs) (xa xb xc xd : Z) : regs * Z :=
  let '(a, b, c, d, e, _) := r in
  let f := Xupdate xa xb xc xd in
  ((a, ROTATE b 30, c, d, e, u32 (f + (e + K_00_19 + ROTATE a 5 + F_00_19 b c d))), f).

Definition BODY_20_31 (r : regs) (xa xb xc xd : Z) : regs * Z :=
  let '(a, b, c, d, e, _) := r in
  let f := Xupdate xa xb xc xd in
  ((a, ROTATE b 30, c, d, e, u32 (f + (e + K_20_39 + ROTATE a 5 + F_20_39 b c d))), f).

Definition BODY_32_39 (r : regs) (xa xb xc xd : Z) : regs * Z := BODY_20_31 r xa xb xc xd.

Definition BODY_40_59 (r : regs) (xa xb xc xd : Z) : regs * Z :=
  let '(a, b, c, d, e, _) := r in
  let f := Xupdate xa xb xc xd in
  ((a, ROTATE b 30, c, d, e, u32 (f + (e + K_40_59 + ROTATE a 5 + F_40_59 b c d))), f).

Definition BODY_60_79 (r : regs) (xa xb xc xd : Z) : regs * Z :=
  let '(a, b, c, d, e, _) := r in
  let xa := Xupdate xa xb xc xd in
  ((a, ROTATE b 30, c, d, e, u32 (xa + e + K_60_79 + ROTATE a 5 + F_60_79 b c d)), xa).

(** The next call passes the variables shifted by one: [A,B,C,D,E,T], then
    [T,A,B,C,D,E], and so on. *)
Definition next_names (r : regs) : regs := let '(a, b, c, d, e, f) := r in (f, a, b, c, d, e).

(** Call [i] of the 80, on [X(i)], [X(i + 2)], [X(i + 8)], [X(i + 13)] modulo 16. *)
Definition sha1_round (i : Z) (st : regs * list Z) : regs * list Z :=
  let '(r, X) := st in
  if i <? 16 then (next_names (BODY_00_15 r (get X i)), X) else
  let body := if i <? 20 then BODY_16_19 else if i <? 32 then BODY_20_31
    else if i <? 40 then BODY_32_39 else if i <? 60 then BODY_40_59 else BODY_60_79 in
  let '(r, x) := body r (get X (i mod 16)) (get X ((i + 2) mod 16)) (get X ((i + 8) mod 16))
    (get X ((i + 13) mod 16)) in
  (next_names r, set X (i mod 16) x).

(** [HOST_c2l(data, l)], an assignment to an [unsigned int]. *)
Definition load_word (p : list Z) (i : Z) : Z :=
  u32 (HOST_c2l true (get p (4 * i)) (get p (4 * i + 1)) (get p (4 * i + 2)) (get p (4 * i + 3))).

(** One iteration of the loop of [sha1_block_data_order]. *)
Definition sha1_block (s : SHA) (p : list Z) : SHA :=
  let r : regs := (h0 s, h1 s, h2 s, h3 s, h4 s, 0) in
  let '((E, T, A, B, C, D), _) := loop 0 80 sha1_round (r, tab 16 (load_word p)) in
  mk_sha (u32 (h0 s + E) .& 0xffffffff) (u32 (h1 s + T) .& 0xffffffff)
    (u32 (h2 s + A) .& 0xffffffff) (u32 (h3 s + B) .& 0xffffffff) (u32 (h4 s + C) .& 0xffffffff).

Definition HASH_MAKE_STRING (s : SHA) : list Z :=
  HOST_l2c true (h0 s) ++ HOST_l2c true (h1 s) ++ HOST_l2c true (h2 s) ++
  HOST_l2c true (h3 s) ++ HOST_l2c true (h4 s).

#[global] Instance SHA1 : MD32 := {|
  hstate := SHA; hash_block := sha1_block; hash_make_string := HASH_MAKE_STRING;
  data_order_is_big_endian := true |}.

Definition SHA1_Init : HASH_CTX := mk_ctx INIT_DATA 0 0 (replicate 64 0) 0.
Definition SHA1_Update : HASH_CTX -> list Z -> Z -> option HASH_CTX := HASH_UPDATE.
Definition SHA1_Final : HASH_CTX -> option (list Z * HASH_CTX) := HASH_FINAL.
Definition SHA1_Transform : SHA -> list Z -> option SHA := HASH_TRANSFORM.

Example sha1_abc :
  (c ← SHA1_Update SHA1_Init [97; 98; 99] 3; r ← SHA1_Final c; Some r.1)
  = Some [0xa9; 0x99; 0x3e; 0x36; 0x47; 0x06; 0x81; 0x6a; 0xba; 0x3e;
          0x25; 0x71; 0x78; 0x50; 0xc2; 0x6c; 0x9c; 0xd0; 0xd8; 0x9d].
Proof. vm_compute. reflexivity. Qed.

(** ** FIPS 180-4 *)

(** The message schedule, extended by [n] words. *)
Fixpoint fips_extend (n : nat) (w : list Z) : list Z :=
  match n with
  | O => w
  | S n =>
      let t := zlen w in
      fips_extend n (w ++ [rotl 32
        (get w (t - 3) .^ get w (t - 8) .^ get w (t - 14) .^ get w (t - 16)) 1])
  end.
Definition fips_schedule (p : list Z) : list Z := fips_extend 64 (tab 16 (load_word p)).

Definition fips_f (t x y z : Z) : Z :=
  if t <? 20 then (x .& y) .^ (wnot 32 x .& z)
  else if t <? 40 then x .^ y .^ z
  else if t <? 60 then (x .& y) .^ (x .& z) .^ (y .& z)
  else x .^ y .^ z.

Definition fips_K (t : Z) : Z :=
  if t <? 20 then 0x5a827999 else if t <? 40 then 0x6ed9eba1
  else if t <? 60 then 0x8f1bbcdc else 0xca62c1d6.

Definition fips_round (W : list Z) (t : Z) (v : Z * Z * Z * Z * Z) : Z * Z * Z * Z * Z :=
  let '(a, b, c, d, e) := v in
  (u32 (rotl 32 a 5 + fips_f t b c d + e + fips_K t + get W t), a, rotl 32 b 30, c, d).

Definition fips_block (s : SHA) (p : list Z) : SHA :=
  let '(a, b, c, d, e) :=
    loop 0 80 (fips_round (fips_schedule p)) (h0 s, h1 s, h2 s, h3 s, h4 s) in
  mk_sha (u32 (h0 s + a)) (u32 (h1 s + b)) (u32 (h2 s + c)) (u32 (h3 s + d)) (u32 (h4 s + e)).

Section fips.
Implicit Types (a b c d x i k t n : Z) (w p : list Z).

Lemma ROTATE_rotl a n : word 32 a -> ROTATE a n = rotl 32 a n.
Proof.
  intros Ha. unfold ROTATE, rotl. change 0xffffffff with (2 ^ 32 - 1).
  by rewrite land_mask, (wrap_small 32 a) by (done || lia).
Qed.

Lemma F_00_19_ch b c d : word 32 b -> word 32 c -> word 32 d ->
  F_00_19 b c d = (b .& c) .^ (wnot 32 b .& d).
Proof.
  intros Hb Hc Hd. unfold F_00_19, wnot. apply Z.bits_inj'. intros i Hi.
  rewrite !Z.lxor_spec, !Z.land_spec, testbit_wrap, Z.lxor_spec, Z.lnot_spec by lia.
  destruct (Z.ltb_spec i 32); [|rewrite !(word_testbit 32) by done; done].
  by destruct (Z.testbit b i), (Z.testbit c i), (Z.testbit d i).
Qed.

Lemma F_40_59_maj b c d : F_40_59 b c d = (b .& c) .^ (b .& d) .^ (c .& d).
Proof.
  unfold F_40_59. apply Z.bits_inj'. intros i Hi.
  rewrite !Z.lor_spec, !Z.lxor_spec, !Z.land_spec, Z.lor_spec.
  by destruct (Z.testbit b i), (Z.testbit c i), (Z.testbit d i).
Qed.

(** *** The schedule *)
Lemma fips_extend_get (n0 : nat) w i : 0 <= i < zlen w -> get (fips_extend n0 w) i = get w i.
Proof.
  revert w. induction n0 as [|n0 IH]; intros w Hi; [done|]. cbn [fips_extend].
  rewrite IH by (rewrite zlen_app; change (zlen [_]) with 1; lia). by apply get_app_l.
Qed.

Lemma fips_extend_word (n0 : nat) w i :
  (forall j, word 32 (get w j)) -> word 32 (get (fips_extend n0 w) i).
Proof.
  revert w. induction n0 as [|n0 IH]; intros w Hw; [done|]. cbn [fips_extend]. apply IH.
  intros j. destruct (Z.ltb_spec j (zlen w)).
  - destruct (Z.leb_spec 0 j); [by rewrite get_app_l by lia|].
    unfold get. replace (Z.to_nat j) with (Z.to_nat 0) by lia. fold (get (w ++ [rotl 32
      (get w (zlen w - 3) .^ get w (zlen w - 8) .^ get w (zlen w - 14) .^ get w (zlen w - 16)) 1]) 0).
    destruct w; [unfold get; simpl; word_range|]. apply (Hw 0).
  - rewrite get_app_r by lia. unfold get at 1. destruct (Z.to_nat (j - zlen w)) as [|[|?]]; simpl;
      try (unfold word; lia). apply word_rotl; [lia|]. repeat apply word_lxor; auto; lia.
Qed.

Lemma fips_extend_rec (n0 : nat) w t : 16 <= zlen w -> zlen w <= t < zlen w + Z.of_nat n0 ->
  get (fips_extend n0 w) t = rotl 32 (get (fips_extend n0 w) (t - 3)
    .^ get (fips_extend n0 w) (t - 8) .^ get (fips_extend n0 w) (t - 14)
    .^ get (fips_extend n0 w) (t - 16)) 1.
Proof.
  revert w. induction n0 as [|n0 IH]; intros w Hw Ht; [lia|]. cbn [fips_extend].
  assert (zlen (w ++ [rotl 32 (get w (zlen w - 3) .^ get w (zlen w - 8) .^ get w (zlen w - 14)
    .^ get w (zlen w - 16)) 1]) = zlen w + 1) as Hz by (by rewrite zlen_app).
  destruct (Z.eqb_spec t (zlen w)) as [->|]; [|apply IH; lia].
  rewrite !fips_extend_get by lia. rewrite !(get_app_l _ _ (zlen w - _)) by lia.
  by rewrite get_app_r, Z.sub_diag by lia.
Qed.

Lemma load_word_word p i : word 32 (load_word p i).
Proof. apply wrap_range. lia. Qed.

Lemma words_tab n (f : Z -> Z) j : (forall k, word 32 (f k)) -> word 32 (get (tab n f) j).
Proof.
  intros Hf. unfold get, tab. destruct (decide (Z.to_nat j < length (f <$> seqZ 0 n))%nat) as [Hl|].
  - rewrite (nth_indep _ 0 (f 0)) by done. rewrite (map_nth f). apply Hf.
  - rewrite nth_overflow by lia. unfold word; lia.
Qed.

Lemma schedule_word p i : word 32 (get (fips_schedule p) i).
Proof. unfold fips_schedule. apply fips_extend_word. intros. apply words_tab, load_word_word. Qed.
Lemma schedule_rec p t : 16 <= t < 80 ->
  get (fips_schedule p) t = rotl 32 (get (fips_schedule p) (t - 3)
    .^ get (fips_schedule p) (t - 8) .^ get (fips_schedule p) (t - 14)
    .^ get (fips_schedule p) (t - 16)) 1.
Proof.
  intros. unfold fips_schedule. apply (fips_extend_rec 64); rewrite zlen_tab; lia.
Qed.
Lemma schedule_start p t : 0 <= t < 16 -> get (fips_schedule p) t = load_word p t.
Proof.
  intros. unfold fips_schedule. rewrite fips_extend_get by (rewrite zlen_tab; lia).
  by apply get_tab.
Qed.
End fips.

#[local] Opaque fips_schedule.

Section block.
Context (p : list Z).
Let W := fips_schedule p.
Implicit Types (a b c d e f x i k t : Z).

(** The round of the schedule whose word slot [k] holds before round [i]. *)
Definition slot_round i k : Z := if i <? 16 then k else i - 16 + (k - i) mod 16.

Lemma lxor_rev4 a b c d : a .^ b .^ c .^ d = d .^ c .^ b .^ a.
Proof.
  rewrite (Z.lxor_comm _ d), (Z.lxor_comm _ c), (Z.lxor_comm a b). by rewrite !Z.lxor_assoc.
Qed.

Lemma slot_read i j : 16 <= i -> 0 <= j < 16 -> slot_round i ((i + j) mod 16) = i - 16 + j.
Proof.
  intros. unfold slot_round. destruct (Z.ltb_spec i 16); [lia|].
  rewrite Zminus_mod_idemp_l. replace (i + j - i) with j by lia. rewrite Z.mod_small; lia.
Qed.

Lemma slot_step i k : 16 <= i -> 0 <= k < 16 ->
  slot_round (i + 1) k = if k =? i mod 16 then i else slot_round i k.
Proof.
  intros. unfold slot_round. destruct (Z.ltb_spec i 16), (Z.ltb_spec (i + 1) 16); try lia.
  destruct (Z.eqb_spec k (i mod 16)); Z.to_euclidean_division_equations; lia.
Qed.

Lemma slot_16 i k : 0 <= i < 16 -> 0 <= k < 16 -> slot_round (i + 1) k = slot_round i k.
Proof.
  intros. unfold slot_round. destruct (Z.ltb_spec i 16), (Z.ltb_spec (i + 1) 16); try lia.
  Z.to_euclidean_division_equations; lia.
Qed.

Definition related i (st : regs * list Z) (v : Z * Z * Z * Z * Z) : Prop :=
  let '(a, b, c, d, e) := v in
  (exists f, st.1 = (a, b, c, d, e, f)) /\
  st.2 = tab 16 (fun k => get W (slot_round i k)) /\
  word 32 a /\ word 32 b /\ word 32 c /\ word 32 d /\ word 32 e.

Lemma related_next i a b c d e x y X :
  word 32 a -> word 32 b -> word 32 c -> word 32 d -> word 32 e ->
  word 32 x -> X = tab 16 (fun k => get W (slot_round (i + 1) k)) -> x = y ->
  related (i + 1) (next_names (a, ROTATE b 30, c, d, e, x), X) (y, a, rotl 32 b 30, c, d).
Proof.
  intros Ha Hb Hc Hd He Hx HX <-. simpl. rewrite ROTATE_rotl by done.
  split; [by eexists|]. split; [done|]. split_and!; try done. apply word_rotl; [lia|done].
Qed.

(** The word that [Xupdate] computes in round [i], and the array it leaves. *)
Lemma Xupdate_word i X : 16 <= i < 80 -> X = tab 16 (fun k => get W (slot_round i k)) ->
  Xupdate (get X (i mod 16)) (get X ((i + 2) mod 16)) (get X ((i + 8) mod 16))
    (get X ((i + 13) mod 16)) = get W i /\
  set X (i mod 16) (get W i) = tab 16 (fun k => get W (slot_round (i + 1) k)).
Proof.
  intros Hi ->. pose proof (fun j => Z.mod_pos_bound j 16 ltac:(lia)) as Hm. split.
  - rewrite <-(Z.add_0_r i) at 1. rewrite !get_tab, !slot_read by (done || lia).
    unfold Xupdate. rewrite ROTATE_rotl.
    2: { do 3 (apply word_lxor; [lia| |apply schedule_word]). apply schedule_word. }
    unfold W at 5. rewrite (schedule_rec p i) by done. fold W. f_equal.
    replace (i - 16 + 0) with (i - 16) by lia. replace (i - 16 + 2) with (i - 14) by lia.
    replace (i - 16 + 8) with (i - 8) by lia. replace (i - 16 + 13) with (i - 3) by lia.
    apply lxor_rev4.
  - rewrite set_tab by done. apply tab_ext. intros k Hk. rewrite slot_step by lia.
    by destruct (k =? i mod 16).
Qed.

(** From round 16 on, the macro of the phase computes the FIPS round. *)
Lemma body_phase i a b c d e f x xa xb xc xd :
  word 32 a -> word 32 b -> word 32 c -> word 32 d -> Xupdate xa xb xc xd = x ->
  (if i <? 20 then BODY_16_19 else if i <? 32 then BODY_20_31
   else if i <? 40 then BODY_32_39 else if i <? 60 then BODY_40_59 else BODY_60_79)
    (a, b, c, d, e, f) xa xb xc xd
  = ((a, ROTATE b 30, c, d, e, u32 (rotl 32 a 5 + fips_f i b c d + e + fips_K i + x)), x).
Proof.
  intros Ha Hb Hc Hd Hx. unfold fips_f, fips_K.
  unfold BODY_32_39, BODY_16_19, BODY_20_31, BODY_40_59, BODY_60_79. rewrite <-ROTATE_rotl by done.
  destruct (Z.ltb_spec i 20), (Z.ltb_spec i 32), (Z.ltb_spec i 40), (Z.ltb_spec i 60);
    try (exfalso; lia); cbv zeta; rewrite Hx; do 3 f_equal;
    rewrite ?F_00_19_ch, ?F_40_59_maj by done;
    unfold F_60_79, F_20_39, K_00_19, K_20_39, K_40_59, K_60_79; lia.
Qed.

Lemma sha1_round_related i st v : 0 <= i < 80 -> related i st v ->
  related (i + 1) (sha1_round i st) (fips_round W i v).
Proof.
  intros Hi. destruct st as [r X], v as [[[[a b] c] d] e].
  intros ([f Hr] & HX & Ha & Hb & Hc & Hd & He). simpl in Hr, HX. rewrite Hr.
  unfold sha1_round, fips_round, fips_f, fips_K. destruct (Z.ltb_spec i 16).
  - destruct (Z.ltb_spec i 20); [|lia]. unfold BODY_00_15.
    apply related_next; try done; [apply wrap_range; lia| |].
    + rewrite HX. apply tab_ext. intros k Hk. by rewrite slot_16 by lia.
    + rewrite F_00_19_ch, ROTATE_rotl by done. unfold K_00_19. f_equal.
      rewrite HX, get_tab by lia. unfold slot_round. destruct (Z.ltb_spec i 16); lia.
  - destruct (Xupdate_word i X) as [Hx Hset]; [lia|done|].
    rewrite (body_phase i a b c d e f (get W i)) by done. rewrite Hset.
    apply related_next; [assumption..|apply wrap_range; lia|reflexivity|].
    reflexivity.
Qed.
End block.

(** The state of a context between blocks. *)
Definition sha_word (s : SHA) : Prop :=
  word 32 (h0 s) /\ word 32 (h1 s) /\ word 32 (h2 s) /\ word 32 (h3 s) /\ word 32 (h4 s).

Lemma sha1_block_eq s p : sha_word s -> sha1_block s p = fips_block s p.
Proof.
  intros (? & ? & ? & ? & ?). unfold sha1_block, fips_block.
  assert (related p 80
    (loop 0 80 sha1_round ((h0 s, h1 s, h2 s, h3 s, h4 s, 0), tab 16 (load_word p)))
    (loop 0 80 (fips_round (fips_schedule p)) (h0 s, h1 s, h2 s, h3 s, h4 s))) as Hr.
  { apply loop_rel; [lia| |intros; by apply sha1_round_related].
    split; [by eexists|]. split; [|done]. apply tab_ext. intros k Hk. simpl.
    by rewrite schedule_start. }
  destruct (loop _ _ sha1_round _) as [r X], (loop _ _ (fips_round _) _) as [[[[a b] c] d] e].
  destruct Hr as [[f Hr] _]. simpl in Hr. subst r. change 0xffffffff with (2 ^ 32 - 1).
  by rewrite !land_mask, !wrap_wrap.
Qed.

Lemma fips_block_word s p : sha_word (fips_block s p).
Proof.
  unfold fips_block. destruct (loop _ _ _ _) as [[[[a b] c] d] e].
  split_and!; apply wrap_range; lia.
Qed.

(** SHA-1 of a message, with the standard block function. *)
Fixpoint fips_blocks (k : nat) (s : SHA) (m : list Z) : SHA :=
  match k with
  | O => s
  | S k => fips_blocks k (fips_block s (take 64 m)) (drop 64 m)
  end.

Definition fips_sha1 (m : list Z) : list Z :=
  let pm := m ++ md_padding (zlen m) in
  HASH_MAKE_STRING (fips_blocks (length pm / 64) INIT_DATA pm).

Lemma hash_blocks_fips k s m : sha_word s ->
  hash_blocks k s m = fips_blocks k s m /\ sha_word (fips_blocks k s m).
Proof.
  revert s m. induction k as [|k IH]; intros s m Hs; [done|].
  cbn [hash_blocks fips_blocks hash_block SHA1]. rewrite sha1_block_eq by done.
  apply IH, fips_block_word.
Qed.

Lemma INIT_DATA_word : sha_word INIT_DATA.
Proof. unfold sha_word, word; simpl. lia. Qed.

Lemma md_hash_fips m : md_hash INIT_DATA m = fips_sha1 m.
Proof.
  unfold md_hash, fips_sha1.
  by rewrite (proj1 (hash_blocks_fips _ _ _ INIT_DATA_word)).
Qed.

(** Successive calls of [SHA1_Update]. *)
Fixpoint sha1_updates (c : HASH_CTX) (ds : list (list Z)) : option HASH_CTX :=
  match ds with
  | [] => Some c
  | d :: ds => c ← SHA1_Update c d (zlen d); sha1_updates c ds
  end.

Lemma sha1_updates_holds c m ds : holds INIT_DATA c m -> Forall (fun d => zlen d < 2 ^ 64) ds ->
  exists c', sha1_updates c ds = Some c' /\ holds INIT_DATA c' (m ++ concat ds).
Proof.
  intros Hc Hds. revert c m Hc. induction Hds as [|d ds Hd Hds IH]; intros c m Hc.
  - exists c. by rewrite app_nil_r.
  - destruct (hash_update_holds _ _ _ d Hc Hd) as (c1 & E & H1).
    destruct (IH _ _ H1) as (c' & E' & H').
    exists c'. cbn [sha1_updates concat]. unfold SHA1_Update. rewrite E, app_assoc. done.
Qed.

(** C27. The unrolled block function, with its circular schedule, renamed
    variables and simplified round functions, computes the SHA-1 compression
    function of FIPS 180-4 on every block and every chaining value. *)
Theorem sha1_block_is_fips s p : sha_word s -> sha1_block s p = fips_block s p.
Proof. apply sha1_block_eq. Qed.

Lemma sha1_block_is_fips_witness :
  sha1_block INIT_DATA (replicate 64 7) = fips_block INIT_DATA (replicate 64 7) /\
  h0 (fips_block INIT_DATA (replicate 64 7)) <> h0 INIT_DATA.
Proof.
  split; [apply (sha1_block_is_fips INIT_DATA (replicate 64 7) INIT_DATA_word)|].
  vm_compute. discriminate.
Defined.

(** C28. Initialising, updating with any sequence of buffers and finalising
    succeeds, with every access in bounds, and returns the SHA-1 of the
    concatenation of the buffers: how the input is cut into calls does not
    matter. *)
Theorem sha1_streaming_is_fips ds : Forall (fun d => zlen d < 2 ^ 64) ds ->
  exists c, (c ← sha1_updates SHA1_Init ds; SHA1_Final c) = Some (fips_sha1 (concat ds), c).
Proof.
  intros Hds. destruct (sha1_updates_holds SHA1_Init [] ds (holds_init _) Hds) as (c & -> & Hc).
  destruct (hash_final_holds _ _ _ Hc) as [c' E]. exists c'.
  cbn [mbind option_bind]. unfold SHA1_Final. by rewrite E, md_hash_fips.
Qed.

(** 70 bytes in pieces of 3, 64 and 3: the second call completes a block. *)
Lemma sha1_streaming_is_fips_witness :
  exists c, (c ← sha1_updates SHA1_Init [[1; 2; 3]; replicate 64 5; [6; 7; 8]]; SHA1_Final c)
    = Some (fips_sha1 ([1; 2; 3] ++ replicate 64 5 ++ [6; 7; 8]), c).
Proof.
  apply (sha1_streaming_is_fips [[1; 2; 3]; replicate 64 5; [6; 7; 8]]).
  repeat constructor.
Defined.
