(* ===== verification/CbcDigest.v ===== *)
(** * The MAC of a CBC record in constant time: [ssl3_cbc_digest_record] of
    [benchmarks/openssl_almeida/ssl3_cbc_digest_record.c].

    The function hashes the blocks that no padding can affect in the ordinary
    way, then builds a fixed number of final blocks byte by byte with masks and
    keeps the digest of the block that holds the message length.  The digest is
    SHA-1, the only branch the file compiles.  The [EVP_*] functions the outer
    hash goes through are stubs in the file, so the model records their calls. *)
From S2P Require Import Prelude Arrays ConstantTime CbcCopyMac MdHash Sha1.
Local Open Scope Z_scope.
Local Open Scope word_scope.

Definition MAX_HASH_BLOCK_SIZE : Z := 128.
Definition md_size : Z := 20.
Definition md_block_size : Z := 64.
Definition md_length_size : Z := 8.
Definition sslv3_pad_length : Z := 40.

(** The calls of the digest interface for the outer hash. *)
Inductive evp_call :=
  | DigestInit
  | DigestUpdate (data : list Z)
  | DigestFinal.

(** [md_transform(md_state.c, p + off)]. *)
Definition md_transform (s : SHA) (p : list Z) (off : Z) : option SHA :=
  b ← slice p off md_block_size; SHA1_Transform s b.

(** [tls1_sha1_final_raw]: the serialised state, with [l2n] big-endian. *)
Definition tls1_sha1_final_raw (s : SHA) (md_out : list Z) : option (list Z) :=
  blit md_out 0 (HOST_l2c true (h0 s) ++ HOST_l2c true (h1 s) ++ HOST_l2c true (h2 s) ++
    HOST_l2c true (h3 s) ++ HOST_l2c true (h4 s)).

(** [for (i = 0; i < md_block_size; i++) hmac_pad[i] ^= v]. *)
Definition xor_pad (v : Z) (hmac_pad : list Z) : option (list Z) :=
  for_range 0 md_block_size (fun i p => x ← rd p i; wr p i (u8 (x .^ v))) hmac_pad.

(** The public lengths, derived from the arguments. *)
Record geometry := mk_geometry {
  header_length : Z; variance_blocks : Z; num_starting_blocks : Z; start_k : Z;
  data_len : Z; c : Z; index_a : Z; index_b : Z; mac_end_offset : Z }.

Definition digest_geometry (data_plus_mac_size data_plus_mac_plus_padding_size
    mac_secret_length : Z) (is_sslv3 : bool) : geometry :=
  let header_length := if is_sslv3
    then u32 (u32 (u32 (mac_secret_length + sslv3_pad_length) + 8 + 1) + 2) else 13 in
  let variance_blocks := if is_sslv3 then 2 else 6 in
  let len := u32 (data_plus_mac_plus_padding_size + header_length) in
  let max_mac_bytes := u32 (len - md_size - 1) in
  let num_blocks := u32 (max_mac_bytes + 1 + md_length_size + md_block_size - 1) / md_block_size in
  let mac_end_offset := u32 (data_plus_mac_size + header_length - md_size) in
  let c := mac_end_offset mod md_block_size in
  let index_a := mac_end_offset / md_block_size in
  let index_b := u32 (mac_end_offset + md_length_size) / md_block_size in
  let num_starting_blocks := if variance_blocks + (if is_sslv3 then 1 else 0) <? num_blocks
    then num_blocks - variance_blocks else 0 in
  mk_geometry header_length variance_blocks num_starting_blocks
    (u32 (md_block_size * num_starting_blocks)) data_plus_mac_plus_padding_size
    c index_a index_b mac_end_offset.

(** The blocks hashed in the ordinary way when [k > 0]; [None] in the second
    component is the early [return] of the SSLv3 sanity check. *)
Definition hash_starting_blocks (g : geometry) (header data : list Z) (is_sslv3 : bool)
    (md_state : SHA) : option (option SHA) :=
  if negb (0 <? start_k g) then Some (Some md_state) else
  if is_sslv3 then
    if header_length g <=? md_block_size then Some None else
    let overhang := u32 (header_length g - md_block_size) in
    s ← md_transform md_state header 0;
    a ← slice header md_block_size overhang;
    first_block ← blit (replicate 128 0) 0 a;
    b ← slice data 0 (u32 (md_block_size - overhang));
    first_block ← blit first_block overhang b;
    s ← md_transform s first_block 0;
    s ← for_range 1 (u32 (start_k g / md_block_size - 1)) (fun i s =>
          md_transform s data (md_block_size * i - overhang)) s;
    Some (Some s)
  else
    a ← slice header 0 13;
    first_block ← blit (replicate 128 0) 0 a;
    b ← slice data 0 (md_block_size - 13);
    first_block ← blit first_block 13 b;
    s ← md_transform md_state first_block 0;
    s ← for_range 1 (start_k g / md_block_size) (fun i s =>
          md_transform s data (md_block_size * i - 13)) s;
    Some (Some s).

(** Byte [j] of final block [i], at offset [k] of header and data. *)
Definition final_byte (g : geometry) (header data length_bytes : list Z) (i j k : Z) : option Z :=
  let is_block_a := constant_time_eq_8 i (index_a g) in
  let is_block_b := constant_time_eq_8 i (index_b g) in
  b ← (if k <? header_length g then rd header k
       else if k <? u64 (data_len g + header_length g) then rd data (u32 (k - header_length g))
       else Some 0);
  let is_past_c := is_block_a .& constant_time_ge_8 j (c g) in
  let is_past_cp1 := is_block_a .& constant_time_ge_8 j (u32 (c g + 1)) in
  let b := constant_time_select_8 is_past_c 0x80 b in
  let b := b .& wnot 32 is_past_cp1 in
  let b := b .& (wnot 32 is_block_b .| is_block_a) in
  if md_block_size - md_length_size <=? j then
    l ← rd length_bytes (j - (md_block_size - md_length_size));
    Some (constant_time_select_8 is_block_b l b)
  else Some b.

Definition final_block (g : geometry) (header data length_bytes : list Z) (i k : Z)
    : option (list Z * Z) :=
  for_range 0 md_block_size (fun j '(block, k) =>
    b ← final_byte g header data length_bytes i j k;
    block ← wr block j b;
    Some (block, u32 (k + 1))) (replicate 128 0, k).

Definition accumulate (g : geometry) (i : Z) (block mac_out : list Z) : option (list Z) :=
  let is_block_b := constant_time_eq_8 i (index_b g) in
  for_range 0 md_size (fun j mac_out =>
    m ← rd mac_out j; b ← rd block j; wr mac_out j (u8 (m .| (b .& is_block_b)))) mac_out.

Definition final_blocks (g : geometry) (header data length_bytes : list Z) (md_state : SHA)
    : option (SHA * Z * list Z) :=
  for_range (num_starting_blocks g) (num_starting_blocks g + variance_blocks g + 1)
    (fun i '(md_state, k, mac_out) =>
      '(block, k) ← final_block g header data length_bytes i k;
      md_state ← md_transform md_state block 0;
      block ← tls1_sha1_final_raw md_state block;
      mac_out ← accumulate g i block mac_out;
      Some (md_state, k, mac_out)) (md_state, start_k g, replicate 64 0).

Definition length_bytes_of (bits : Z) : list Z :=
  [0; 0; 0; 0; u8 (bits ≫ 24); u8 (bits ≫ 16); u8 (bits ≫ 8); u8 bits].

(** The inner digest and the calls of the outer one; [None] as the result is
    the early return. *)
Definition ssl3_cbc_digest_record (header data : list Z)
    (data_plus_mac_size data_plus_mac_plus_padding_size : Z)
    (mac_secret : list Z) (mac_secret_length : Z) (is_sslv3 : bool)
    : option (option (list evp_call)) :=
  let g := digest_geometry data_plus_mac_size data_plus_mac_plus_padding_size
    mac_secret_length is_sslv3 in
  let bits := u32 (8 * mac_end_offset g) in
  '(md_state, hmac_pad, bits) ← (if is_sslv3 then Some (INIT_DATA, replicate 128 0, bits) else
      key ← slice mac_secret 0 mac_secret_length;
      hmac_pad ← blit (replicate 128 0) 0 key;
      hmac_pad ← xor_pad 0x36 hmac_pad;
      s ← md_transform INIT_DATA hmac_pad 0;
      Some (s, hmac_pad, u32 (bits + 8 * md_block_size)));
  let length_bytes := length_bytes_of bits in
  started ← hash_starting_blocks g header data is_sslv3 md_state;
  match started with
  | None => Some None
  | Some md_state =>
      '(_, _, mac_out) ← final_blocks g header data length_bytes md_state;
      digest ← slice mac_out 0 md_size;
      if is_sslv3 then
        hmac_pad ← blit hmac_pad 0 (replicate (Z.to_nat sslv3_pad_length) 0x5c);
        key ← slice mac_secret 0 mac_secret_length;
        pad ← slice hmac_pad 0 sslv3_pad_length;
        Some (Some [DigestInit; DigestUpdate key; DigestUpdate pad; DigestUpdate digest; DigestFinal])
      else
        hmac_pad ← xor_pad 0x6a hmac_pad;
        pad ← slice hmac_pad 0 md_block_size;
        Some (Some [DigestInit; DigestUpdate pad; DigestUpdate digest; DigestFinal])
  end.

(** ** Specification *)

(** A key as a block, masked: the HMAC [ipad] and [opad] blocks. *)
Definition masked_key (v : Z) (key : list Z) : list Z :=
  (fun x => x .^ v) <$> (key ++ replicate (64 - length key) 0).

(** The calls that compute HMAC-SHA1 of [m]. *)
Definition hmac_sha1_calls (key m : list Z) : list evp_call :=
  [DigestInit; DigestUpdate (masked_key 0x5c key);
   DigestUpdate (fips_sha1 (masked_key 0x36 key ++ m)); DigestFinal].

(** The calls that compute the SSLv3 MAC, whose inner message starts with the
    secret and the first pad. *)
Definition sslv3_mac_calls (key m : list Z) : list evp_call :=
  [DigestInit; DigestUpdate key; DigestUpdate (replicate 40 0x5c);
   DigestUpdate (fips_sha1 m); DigestFinal].

Example digest_small :
  let header := [0;0;0;0;0;0;0;0;23;3;1;0;5] in
  let data := [104;101;108;108;111] ++ replicate 20 9 ++ [6;6;6;6;6;6;6] in
  ssl3_cbc_digest_record header data 25 32 [1;2;3] 3 false
  = Some (Some (hmac_sha1_calls [1;2;3] (header ++ [104;101;108;108;111]))).
Proof. vm_compute. reflexivity. Qed.

#[local] Opaque sha1_block.

(** ** Correctness *)

(** What the code relies on about the lengths: the message of [len] bytes ends
    inside the record, in the blocks treated in constant time. *)
Record geometry_ok (g : geometry) (header data : list Z) (len : Z) : Prop := {
  ok_header : header_length g = zlen header;
  ok_data : 0 <= data_len g <= zlen data;
  ok_c : c g = len mod 64;
  ok_a : index_a g = len / 64;
  ok_b : index_b g = (len + 8) / 64;
  ok_len : 0 <= len <= zlen header + data_len g;
  ok_small : zlen header + data_len g < 2 ^ 24;
  ok_start : 0 <= num_starting_blocks g <= index_a g;
  ok_end : index_b g <= num_starting_blocks g + variance_blocks g;
  ok_variance : 0 <= variance_blocks g <= 6;
  ok_k : start_k g = 64 * num_starting_blocks g }.

Section final.
Context (g : geometry) (header data : list Z) (len n : Z).
Hypothesis Hg : geometry_ok g header data len.
Hypothesis Hheader : Forall (word 8) header.
Hypothesis Hdata : Forall (word 8) data.
(** [n] is [len] and the bytes of the HMAC key block before it. *)
Hypothesis Hn : 0 <= n < 2 ^ 28 /\ (n - len) mod 64 = 0.
Implicit Types (i j k q : Z).

Let m := take (Z.to_nat len) (header ++ data).
Let P := m ++ md_padding n.
Let lb := length_bytes_of (8 * n).

Lemma zlen_m : zlen m = len.
Proof using Hg.
  destruct Hg. unfold m. rewrite zlen_take, zlen_app. lia.
Qed.

Lemma count_bytes_lb : count_bytes (u64 (8 * n)) = lb.
Proof using Hn.
  destruct Hn as [Hr _]. unfold count_bytes, lb, length_bytes_of. cbn [data_order_is_big_endian SHA1].
  rewrite (wrap_small 64) by (unfold word; lia). rewrite wrap_small by (unfold word; lia).
  rewrite (Z.shiftr_div_pow2 _ 32), Z.div_small by lia. cbn [HOST_l2c app].
  change 0xff with (2 ^ 8 - 1). by rewrite !land_mask by lia.
Qed.

Lemma zlen_P : zlen P = 64 * (index_b g + 1).
Proof using Hg Hn.
  unfold P. rewrite zlen_app, zlen_m, zlen_md_padding. destruct Hg as [_ _ _ _ -> ? _ _ _ _ _].
  destruct Hn as [_ E]. Z.to_euclidean_division_equations. lia.
Qed.

Lemma rd_P q : 0 <= q < 64 * (index_b g + 1) ->
  rd P q = if q <? len then rd (header ++ data) q else if q =? len then Some 0x80
    else if q <? 64 * index_b g + 56 then Some 0 else rd lb (q - (64 * index_b g + 56)).
Proof using Hg Hn.
  intros Hq. pose proof zlen_P as HP. unfold P in *. pose proof zlen_m as Hm.
  destruct (Z.ltb_spec q len).
  - rewrite rd_app_l by lia. unfold m, rd. destruct (Z.ltb_spec q 0); [lia|].
    apply lookup_take_lt. lia.
  - rewrite rd_app_r, Hm by lia. unfold md_padding in *.
    change (0x80 :: ?l) with ([0x80] ++ l) in *. rewrite count_bytes_lb in *.
    rewrite !zlen_app, zlen_replicate, Hm in HP. change (zlen lb) with 8 in HP.
    change (zlen [0x80]) with 1 in HP.
    set (z := (55 - n) mod 64) in *. assert (0 <= z) by (apply Z.mod_pos_bound; lia).
    destruct (Z.eqb_spec q len) as [->|]; [by rewrite Z.sub_diag|].
    rewrite rd_app_r by (change (zlen [0x80]) with 1; lia). change (zlen [0x80]) with 1.
    destruct (Z.ltb_spec q (64 * index_b g + 56)).
    + rewrite rd_app_l by (rewrite zlen_replicate; lia). apply rd_replicate. lia.
    + rewrite rd_app_r by (rewrite zlen_replicate; lia). rewrite zlen_replicate. f_equal. lia.
Qed.

Lemma P_word q b : rd P q = Some b -> word 8 b.
Proof using Hheader Hdata Hn Hg.
  intros E. pose proof (rd_range _ _ _ E) as Hq. rewrite zlen_P in Hq.
  rewrite rd_P in E by done.
  destruct (_ <? _).
  { unfold rd in E. destruct (_ <? 0); [done|]. eapply Forall_lookup_1; [|exact E].
    by apply Forall_app. }
  destruct (_ =? _); [simplify_eq; unfold word; lia|].
  destruct (_ <? _); [simplify_eq; unfold word; lia|].
  unfold rd in E. destruct (_ <? 0); [done|]. eapply Forall_lookup_1; [|exact E].
  unfold lb, length_bytes_of. repeat constructor; try (unfold word; lia); apply wrap_range; lia.
Qed.

(** The byte of header, data and the zeros after them. *)
Definition raw_byte q : Z := default 0 (rd (header ++ take (Z.to_nat (data_len g)) data) q).

Lemma raw_byte_spec q : 0 <= q < 2 ^ 30 ->
  (if q <? header_length g then rd header q
   else if q <? u64 (data_len g + header_length g) then rd data (u32 (q - header_length g))
   else Some 0) = Some (raw_byte q).
Proof using Hg.
  intros Hq. destruct Hg. unfold raw_byte. rewrite ok_header0.
  pose proof (zlen_nonneg header). rewrite (wrap_small 64) by (unfold word; lia).
  destruct (Z.ltb_spec q (zlen header)).
  - rewrite rd_app_l by done. destruct (rd_Some header q) as [? ->]; [lia|done].
  - rewrite rd_app_r, wrap_small by (first [done | unfold word; lia]).
    destruct (Z.ltb_spec q (data_len g + zlen header)).
    + unfold rd. destruct (Z.ltb_spec (q - zlen header) 0); [lia|].
      rewrite lookup_take_lt by lia. destruct (rd_Some data (q - zlen header)) as [v E]; [lia|].
      unfold rd in E. destruct (Z.ltb_spec (q - zlen header) 0); [lia|]. by rewrite E.
    + unfold rd. destruct (Z.ltb_spec (q - zlen header) 0); [lia|].
      rewrite lookup_take_ge by lia. done.
Qed.

Lemma raw_byte_word q : word 8 (raw_byte q).
Proof using Hheader Hdata.
  unfold raw_byte. destruct (rd _ q) as [b|] eqn:E; [|unfold word; simpl; lia].
  unfold rd in E. destruct (_ <? 0); [done|]. eapply Forall_lookup_1; [|exact E].
  apply Forall_app. split; [done|by apply Forall_take].
Qed.

(** *** One byte *)
Lemma past_mask (x : bool) b : word 8 b ->
  b .& wnot 32 (mask 8 x) = if x then 0 else b.
Proof.
  intros Hb. destruct x; [|by rewrite wnot_zero, Z.land_comm, land_ones_word
    by (lia || (eapply word_mono; [done|lia]))].
  apply Z.bits_inj'. intros i Hi. rewrite Z.land_spec, Z.bits_0.
  destruct (Z.ltb_spec i 8); [|by rewrite (word_testbit 8 b)].
  unfold wnot, mask. rewrite testbit_wrap, Z.lnot_spec by lia.
  change (2 ^ 8 - 1) with (Z.ones 8). by rewrite Z.ones_spec_low, !andb_false_r by lia.
Qed.

Lemma keep_mask (x y : bool) b : word 8 b ->
  b .& (wnot 32 (mask 8 x) .| mask 8 y) = if negb x || y then b else 0.
Proof.
  intros Hb. rewrite Z.land_lor_distr_r, past_mask, Z.land_comm, land_mask_word by (done || lia).
  destruct x, y; simpl; by rewrite ?Z.lor_0_l, ?Z.lor_0_r, ?Z.lor_diag.
Qed.

Lemma final_byte_eq i j k : 0 <= i < 2 ^ 24 -> 0 <= j < 64 -> 0 <= k < 2 ^ 30 ->
  final_byte g header data lb i j k =
    if (i =? index_b g) && (56 <=? j) then rd lb (j - 56)
    else Some (if (i =? index_a g) && (c g + 1 <=? j) then 0
               else if negb (negb (i =? index_b g) || (i =? index_a g)) then 0
               else if (i =? index_a g) && (c g <=? j) then 0x80 else raw_byte k).
Proof using Hg Hheader Hdata.
  intros Hi Hj Hk. unfold final_byte. rewrite raw_byte_spec by done. cbn [mbind option_bind].
  pose proof (raw_byte_word k) as Hr. destruct Hg. 
  assert (0 <= c g < 64) as Hc by (rewrite ok_c0; apply Z.mod_pos_bound; lia).
  assert (0 <= index_a g < 2 ^ 20 /\ 0 <= index_b g < 2 ^ 20) as [Ha Hb0]
    by (rewrite ok_a0, ok_b0; Z.to_euclidean_division_equations; lia).
  rewrite (wrap_small 32 (c g + 1)) by (unfold word; lia).
  rewrite !eq_8_spec, !ge_8_spec by (unfold word; lia).
  rewrite !land_masks by lia. rewrite select_8_spec by (first [done | unfold word; lia]).
  set (b := if (i =? index_a g) && (c g <=? j) then 0x80 else raw_byte k).
  assert (word 8 b) as Hb by (unfold b; destruct ((i =? index_a g) && (c g <=? j)); [unfold word; lia|done]).
  rewrite past_mask by done. set (b' := if _ && (c g + 1 <=? j) then 0 else b).
  assert (word 8 b') as Hb' by (unfold b'; destruct ((i =? index_a g) && (c g + 1 <=? j)); [unfold word; lia|done]).
  rewrite keep_mask by done. change (md_block_size - md_length_size) with 56.
  assert ((if negb (i =? index_b g) || (i =? index_a g) then b' else 0)
    = (if (i =? index_a g) && (c g + 1 <=? j) then 0
       else if negb (negb (i =? index_b g) || (i =? index_a g)) then 0 else b)) as E.
  { unfold b'. by destruct ((i =? index_a g) && (c g + 1 <=? j)), (negb (i =? index_b g) || (i =? index_a g)). }
  rewrite E. set (b2 := if _ && (c g + 1 <=? j) then 0 else _).
  destruct (Z.leb_spec 56 j); [|by rewrite andb_false_r].
  destruct (rd_Some lb (j - 56)) as [l El]; [change (zlen lb) with 8; lia|]. rewrite El.
  cbn [mbind option_bind]. rewrite select_8_spec.
  - rewrite andb_true_r. by destruct (i =? index_b g).
  - unfold rd in El. destruct (_ <? 0); [done|]. eapply Forall_lookup_1; [|exact El].
    unfold lb, length_bytes_of. repeat constructor; try (unfold word; lia); apply wrap_range; lia.
  - unfold b2. destruct ((i =? index_a g) && (c g + 1 <=? j)); [unfold word; lia|].
    destruct (negb (negb (i =? index_b g) || (i =? index_a g))); [unfold word; lia|done].
Qed.

Lemma final_byte_P i j : 0 <= i <= index_b g -> 0 <= j < 64 ->
  final_byte g header data lb i j (64 * i + j) = rd P (64 * i + j).
Proof using Hg Hheader Hdata Hn.
  intros Hi Hj. pose proof Hg as []. 
  assert (index_b g < 2 ^ 20) by (rewrite ok_b0; Z.to_euclidean_division_equations; lia).
  rewrite final_byte_eq, rd_P by lia.
  assert (0 <= c g < 64 /\ len = 64 * index_a g + c g) as [Hc Hlen].
  { rewrite ok_c0, ok_a0. Z.to_euclidean_division_equations; lia. }
  assert (index_b g = if c g <? 56 then index_a g else index_a g + 1) as Hb.
  { rewrite ok_b0. destruct (Z.ltb_spec (c g) 56); Z.to_euclidean_division_equations; lia. }
  assert (64 * i + j < len -> Some (raw_byte (64 * i + j)) = rd (header ++ data) (64 * i + j)) as Hraw.
  { intros Hlt. unfold raw_byte. pose proof (zlen_nonneg header).
    destruct (Z.ltb_spec (64 * i + j) (zlen header)).
    - rewrite !rd_app_l by done. destruct (rd_Some header (64 * i + j)) as [? ->]; [lia|done].
    - rewrite !rd_app_r by done. unfold rd. destruct (Z.ltb_spec (64 * i + j - zlen header) 0); [lia|].
      rewrite lookup_take_lt by lia.
      destruct (lookup_lt_is_Some_2 data (Z.to_nat (64 * i + j - zlen header))) as [v ->]; [unfold zlen in *; lia|done]. }
  destruct (Z.eqb_spec i (index_b g)) as [Ei|]; destruct (Z.eqb_spec i (index_a g)) as [Ea|];
    destruct (Z.leb_spec 56 j), (Z.leb_spec (c g + 1) j), (Z.leb_spec (c g) j); cbn [andb orb negb];
    destruct (Z.ltb_spec (64 * i + j) len), (Z.eqb_spec (64 * i + j) len),
      (Z.ltb_spec (64 * i + j) (64 * index_b g + 56)), (Z.ltb_spec (c g) 56);
    try lia; try (by apply Hraw; lia); try reflexivity; try (f_equal; lia).
Qed.

(** *** One block *)
Lemma final_byte_total i j k : 0 <= i < 2 ^ 24 -> 0 <= j < 64 -> 0 <= k < 2 ^ 30 ->
  final_byte g header data lb i j k = Some (default 0 (final_byte g header data lb i j k)).
Proof using Hg Hheader Hdata.
  intros Hi Hj Hk. rewrite !final_byte_eq by done. destruct (_ && _) eqn:E; [|done].
  apply andb_true_iff in E as [_ E%Z.leb_le].
  destruct (rd_Some lb (j - 56)) as [l El]; [change (zlen lb) with 8; lia|by rewrite El].
Qed.

Lemma final_block_eq i k : 0 <= i < 2 ^ 24 -> 0 <= k < 2 ^ 29 ->
  final_block g header data lb i k =
    Some (tab 64 (fun j => default 0 (final_byte g header data lb i j (k + j)))
          ++ replicate 64 0, k + 64).
Proof using Hg Hheader Hdata.
  intros Hi Hk. unfold final_block.
  edestruct (for_range_inv (fun j s => s = (tab 64 (fun t => if t <? j
    then default 0 (final_byte g header data lb i t (k + t)) else 0) ++ replicate 64 0, k + j)))
    as (s & E & Hs); [| | |rewrite E, Hs].
  - done.
  - by rewrite Z.add_0_r.
  - intros j s Hj ->. change md_block_size with 64 in Hj. eexists. split; [|reflexivity].
    rewrite final_byte_total by lia. cbn [mbind option_bind]. rewrite wr_tab_app by done.
    cbn [mbind option_bind]. rewrite wrap_small by (unfold word; lia). do 2 f_equal; [|lia].
    f_equal. apply tab_ext. intros t Ht.
    destruct (Z.eqb_spec t j) as [->|]; [by destruct (Z.ltb_spec j (j + 1)); [|lia]|].
    by destruct (Z.ltb_spec t j), (Z.ltb_spec t (j + 1)); try lia.
  - reflexivity.
Qed.

Lemma final_block_P i : 0 <= i <= index_b g -> index_b g < 2 ^ 20 ->
  final_block g header data lb i (64 * i)
  = Some (take 64 (drop (64 * Z.to_nat i) P) ++ replicate 64 0, 64 * (i + 1)).
Proof using Hg Hheader Hdata Hn.
  intros Hi Hb. rewrite final_block_eq by lia. do 2 f_equal; [|lia]. f_equal.
  pose proof zlen_P as HP.
  pose proof (slice_Some P (64 * i) 64 ltac:(lia) ltac:(lia) ltac:(lia)) as E.
  rewrite (slice_tab _ _ _ 0) in E by lia. apply (inj Some) in E.
  replace (64 * Z.to_nat i)%nat with (Z.to_nat (64 * i)) by lia.
  change 64%nat with (Z.to_nat 64). rewrite <-E. apply tab_ext. intros t Ht.
  by rewrite final_byte_P by lia.
Qed.

Lemma md_transform_app s (b r : list Z) : zlen b = 64 ->
  md_transform s (b ++ r) 0 = Some (hash_blocks 1 s b).
Proof.
  intros Hb. pose proof (zlen_nonneg r). unfold md_transform, md_block_size.
  rewrite slice_0 by (rewrite zlen_app; lia). cbn [mbind option_bind].
  replace (Z.to_nat 64) with (length b) by (unfold zlen in Hb; lia). rewrite take_app_length.
  unfold SHA1_Transform, HASH_TRANSFORM. by rewrite block_data_order_spec by lia.
Qed.

Lemma hash_blocks_one s l : zlen l = 64 -> hash_blocks 1 s l = sha1_block s l.
Proof. intros Hl. cbn [hash_blocks hash_block SHA1]. rewrite take_ge; [done|unfold zlen in Hl; lia]. Qed.

Lemma zlen_make_string s : zlen (HASH_MAKE_STRING s) = 20.
Proof. done. Qed.
Lemma make_string_word s : Forall (word 8) (HASH_MAKE_STRING s).
Proof.
  unfold HASH_MAKE_STRING, HOST_l2c. simpl.
  repeat (apply Forall_cons; split; [apply word_land_r; unfold word; lia|]). by constructor.
Qed.

Lemma accumulate_spec i f (y r z : list Z) : 0 <= i < 2 ^ 24 -> word 32 (index_b g) ->
  (forall t, word 8 (f t)) -> zlen y = 20 -> Forall (word 8) y ->
  accumulate g i (y ++ r) (tab 20 f ++ z)
  = Some (tab 20 (fun t => if i =? index_b g then f t .| get y t else f t) ++ z).
Proof.
  intros Hi Hib Hf Hy Hyw. unfold accumulate. rewrite eq_8_spec by (first [done|unfold word; lia]).
  edestruct (for_range_inv (fun j o => o = tab 20 (fun t => if (i =? index_b g) && (t <? j)
    then f t .| get y t else f t) ++ z)) as (s & E & Hs); [| | |rewrite E, Hs].
  - done.
  - f_equal. apply tab_ext. intros t Ht. destruct (Z.ltb_spec t 0); [lia|]. by rewrite andb_false_r.
  - intros j s Hj ->. change md_size with 20 in Hj. eexists. split; [|reflexivity].
    rewrite rd_tab_app, rd_app_l by lia. destruct (rd_Some y j) as [b Eb]; [lia|].
    rewrite Eb. cbn [mbind option_bind]. rewrite wr_tab_app by done. do 2 f_equal.
    apply tab_ext. intros t Ht. destruct (Z.ltb_spec j j); [lia|]. rewrite andb_false_r.
    assert (word 8 b) as Hb.
    { unfold rd in Eb. destruct (_ <? 0); [done|]. by eapply Forall_lookup_1. }
    rewrite masked_or by done. destruct (Z.eqb_spec t j) as [->|].
    + destruct (Z.ltb_spec j (j + 1)); [|lia]. rewrite andb_true_r.
      by rewrite (get_rd y j b) by (done || lia).
    + by destruct (Z.ltb_spec t j), (Z.ltb_spec t (j + 1)); try lia.
  - do 2 f_equal. apply tab_ext. intros t Ht. destruct (Z.ltb_spec t md_size); [|unfold md_size in *; lia].
    by rewrite andb_true_r.
Qed.

(** *** All blocks *)
Lemma drop_64 (k : nat) s l : 64 * Z.of_nat k + 64 <= zlen l ->
  hash_blocks (S k) s l = hash_blocks 1 (hash_blocks k s l) (take 64 (drop (64 * k) l)).
Proof.
  intros Hl. rewrite hash_blocks_S, hash_blocks_one; [done|].
  unfold zlen in *. rewrite length_take, length_drop. lia.
Qed.

Lemma final_blocks_spec (s0 : SHA) :
  let digest := HASH_MAKE_STRING (hash_blocks (Z.to_nat (index_b g + 1)) s0 P) in
  exists s k, final_blocks g header data lb (hash_blocks (Z.to_nat (num_starting_blocks g)) s0 P)
    = Some (s, k, digest ++ replicate 44 0).
Proof using Hg Hheader Hdata Hn.
  intros digest. unfold final_blocks. pose proof Hg as [].
  assert (0 <= index_b g < 2 ^ 20 /\ index_a g <= index_b g) as [Hb Hab]
    by (rewrite ok_a0, ok_b0; Z.to_euclidean_division_equations; lia).
  edestruct (for_range_inv (fun i (st : SHA * Z * list Z) => exists s : SHA, st = (s, 64 * i,
    tab 20 (fun t => if index_b g <? i then get digest t else 0) ++ replicate 44 0) /\
    (i <= index_b g + 1 -> s = @hash_blocks SHA1 (Z.to_nat i) s0 P)))
    as (st & E & s & Hst & _); [| | |rewrite E, Hst].
  - lia.
  - eexists. split; [|done]. rewrite ok_k0. do 2 f_equal.
    destruct (Z.ltb_spec (index_b g) (num_starting_blocks g)); [lia|done].
  - intros i st Hi (s & -> & Hs).
    assert (exists blk, final_block g header data lb i (64 * i) = Some (blk ++ replicate 64 0, 64 * (i + 1)) /\
      zlen blk = 64 /\ (i <= index_b g -> blk = take 64 (drop (64 * Z.to_nat i) P))) as (blk & Eb & Hblk & HbP).
    { destruct (Z.leb_spec i (index_b g)).
      - eexists. rewrite final_block_P by lia. split_and!; [done| |done].
        pose proof zlen_P. unfold zlen in *. rewrite length_take, length_drop. lia.
      - eexists. rewrite final_block_eq by lia. split_and!; [do 2 f_equal; lia|by apply zlen_tab|lia]. }
    rewrite Eb. cbn [mbind option_bind]. rewrite md_transform_app by done. cbn [mbind option_bind].
    unfold tls1_sha1_final_raw. fold (HASH_MAKE_STRING (hash_blocks 1 s blk)).
    rewrite blit_0 by (rewrite zlen_make_string, zlen_app; pose proof (zlen_nonneg (replicate 64 0)); lia).
    cbn [mbind option_bind].
    rewrite accumulate_spec; [|lia|unfold word; lia| |done|apply make_string_word].
    2: { intros t. destruct (_ <? _); [|unfold word; lia]. unfold get.
         destruct (nth_in_or_default (Z.to_nat t) digest 0) as [Hin| ->]; [|unfold word; lia].
         eapply Forall_forall; [apply make_string_word|]. apply list_elem_of_In. exact Hin. }
    eexists. split; [reflexivity|]. eexists. split; [f_equal|].
    + f_equal. apply tab_ext. intros t Ht. destruct (Z.eqb_spec i (index_b g)) as [->|].
      * destruct (Z.ltb_spec (index_b g) (index_b g)), (Z.ltb_spec (index_b g) (index_b g + 1)); try lia.
        rewrite Z.lor_0_l. unfold digest. f_equal. f_equal.
        rewrite Hs, HbP by lia. replace (Z.to_nat (index_b g + 1)) with (S (Z.to_nat (index_b g))) by lia.
        rewrite (drop_64 (Z.to_nat (index_b g))); [done|]. rewrite zlen_P. lia.
      * by destruct (Z.ltb_spec (index_b g) i), (Z.ltb_spec (index_b g) (i + 1)); try lia.
    + intros Hle. rewrite Hs, HbP by lia. replace (Z.to_nat (i + 1)) with (S (Z.to_nat i)) by lia.
      rewrite (drop_64 (Z.to_nat i)); [done|]. rewrite zlen_P. lia.
  - eexists _, _. do 3 f_equal. rewrite <-(tab_get 20 digest) by done. apply tab_ext.
    intros t Ht. destruct (Z.ltb_spec (index_b g) (num_starting_blocks g + variance_blocks g + 1)); [done|lia].
Qed.
End final.

(** ** The starting blocks *)
#[local] Opaque hash_blocks.

Section start.
Context (header data : list Z).
Let hd := header ++ data.

(** Block [i] of header and data, once it lies within the data. *)
Lemma slice_in_data i : zlen header <= 64 * i -> 64 * i + 64 <= zlen hd ->
  slice data (64 * i - zlen header) 64 = Some (take 64 (drop (64 * Z.to_nat i) hd)).
Proof.
  intros Hi Hl. unfold hd in *. rewrite zlen_app in Hl. pose proof (zlen_nonneg header).
  rewrite slice_Some by lia. rewrite drop_app_ge by (unfold zlen in *; lia).
  do 3 f_equal. unfold zlen in *. lia.
Qed.

Lemma md_transform_slice s p off b : slice p off 64 = Some b ->
  md_transform s p off = Some (hash_blocks 1 s b).
Proof.
  intros E. assert (zlen b = 64) as Hb.
  { unfold slice in E. destruct (_ && _) eqn:Hc in E; [|done]. simplify_eq.
    rewrite !andb_true_iff, !Z.leb_le in Hc. unfold zlen in *.
    rewrite length_take, length_drop. lia. }
  unfold md_transform, md_block_size. rewrite E. cbn [mbind option_bind].
  unfold SHA1_Transform, HASH_TRANSFORM. rewrite block_data_order_spec by lia.
  done.
Qed.

(** Whole blocks of the data, from block [i0] of header and data on. *)
Lemma hash_data_blocks i0 cnt o s s0 : zlen header <= 64 * i0 -> 0 <= cnt -> 1 <= i0 ->
  64 * (i0 + cnt) <= zlen hd -> o = zlen header - 64 * (i0 - 1) ->
  s = hash_blocks (Z.to_nat i0) s0 hd ->
  for_range 1 (1 + cnt) (fun i s => md_transform s data (md_block_size * i - o)) s
  = Some (hash_blocks (Z.to_nat (i0 + cnt)) s0 hd).
Proof.
  intros Hi Hc Hi0 Hl -> ->.
  edestruct (for_range_inv (fun i s => s = @hash_blocks SHA1 (Z.to_nat (i0 + (i - 1))) s0 hd))
    as (s & E & Hs); [| | |rewrite E, Hs].
  - lia.
  - do 2 f_equal. lia.
  - intros i s Hr ->. eexists. split; [|reflexivity].
    replace (md_block_size * i - (zlen header - 64 * (i0 - 1)))
      with (64 * (i0 + (i - 1)) - zlen header) by (unfold md_block_size; lia).
    erewrite md_transform_slice by (apply slice_in_data; lia).
    replace (i0 + (i + 1 - 1)) with (Z.succ (i0 + (i - 1))) by lia.
    rewrite Z2Nat.inj_succ by lia. rewrite <-drop_64; [done|lia].
  - do 2 f_equal. lia.
Qed.

Lemma hash_blocks_take (k : nat) s l : hash_blocks k s (take (64 * k) l) = hash_blocks k s l.
Proof.
  destruct (decide (64 * k <= length l)%nat) as [Hk|]; [|by rewrite take_ge by lia].
  rewrite <-(take_drop (64 * k) l) at 2. rewrite hash_blocks_ext; [done|].
  rewrite length_take. lia.
Qed.

Lemma hash_starting_tls g s0 : zlen header = 13 ->
  0 <= num_starting_blocks g < 2 ^ 20 -> start_k g = 64 * num_starting_blocks g ->
  64 * num_starting_blocks g <= zlen hd ->
  hash_starting_blocks g header data false s0
  = Some (Some (hash_blocks (Z.to_nat (num_starting_blocks g)) s0 hd)).
Proof.
  intros Hh Hn Hk Hl. unfold hash_starting_blocks. rewrite Hk.
  assert (zlen hd = 13 + zlen data) as Hd by (unfold hd; rewrite zlen_app; lia).
  destruct (Z.ltb_spec 0 (64 * num_starting_blocks g)); cbn [negb].
  2: { by replace (num_starting_blocks g) with 0 by lia. }
  rewrite (slice_0 header) by lia. rewrite (take_ge header) by (unfold zlen in Hh; lia).
  cbn [mbind option_bind]. rewrite blit_0 by (rewrite zlen_replicate; lia). cbn [mbind option_bind].
  rewrite slice_0 by (unfold md_block_size; lia). cbn [mbind option_bind].
  rewrite blit_app; [|done|].
  2: { rewrite zlen_take, zlen_drop, zlen_replicate. unfold zlen, md_block_size in *. lia. }
  cbn [mbind option_bind]. rewrite app_assoc, md_transform_app.
  2: { rewrite zlen_app, zlen_take. unfold md_block_size. lia. }
  cbn [mbind option_bind].
  replace (64 * num_starting_blocks g / md_block_size) with (1 + (num_starting_blocks g - 1))
    by (unfold md_block_size; Z.to_euclidean_division_equations; lia).
  rewrite (hash_data_blocks 1 (num_starting_blocks g - 1) 13 _ s0); try lia.
  - cbn [mbind option_bind]. do 3 f_equal. lia.
  - rewrite <-(hash_blocks_take (Z.to_nat 1) s0 hd). f_equal. unfold hd.
    rewrite take_app_ge by (unfold zlen in *; lia). do 2 f_equal. unfold zlen, md_block_size in *. lia.
Qed.

Lemma hash_starting_ssl3 g s0 : header_length g = zlen header -> 64 < zlen header <= 128 ->
  0 <= num_starting_blocks g < 2 ^ 20 -> num_starting_blocks g <> 1 ->
  start_k g = 64 * num_starting_blocks g -> 64 * num_starting_blocks g <= zlen hd ->
  hash_starting_blocks g header data true s0
  = Some (Some (hash_blocks (Z.to_nat (num_starting_blocks g)) s0 hd)).
Proof.
  intros HH Hh Hn Hn1 Hk Hl. unfold hash_starting_blocks. rewrite Hk, HH.
  assert (zlen hd = zlen header + zlen data) as Hd by (unfold hd; by rewrite zlen_app).
  destruct (Z.ltb_spec 0 (64 * num_starting_blocks g)); cbn [negb].
  2: { by replace (num_starting_blocks g) with 0 by lia. }
  destruct (Z.leb_spec (zlen header) md_block_size) as [Hc|_]; [unfold md_block_size in Hc; lia|].
  rewrite (wrap_small 32 (zlen header - md_block_size)) by (unfold word, md_block_size; lia).
  rewrite (wrap_small 32 (md_block_size - _)) by (unfold word, md_block_size; lia).
  replace (64 * num_starting_blocks g / md_block_size) with (num_starting_blocks g)
    by (unfold md_block_size; Z.to_euclidean_division_equations; lia).
  rewrite (wrap_small 32 (num_starting_blocks g - 1)) by (unfold word; lia).
  erewrite md_transform_slice by (apply slice_0; lia). cbn [mbind option_bind].
  rewrite (slice_Some header) by (unfold md_block_size; lia). cbn [mbind option_bind].
  rewrite (take_ge (drop _ header))
    by (unfold zlen, md_block_size in *; rewrite length_drop; lia).
  assert (zlen (drop (Z.to_nat md_block_size) header) = zlen header - 64) as Ho
    by (rewrite zlen_drop; unfold md_block_size; lia).
  rewrite blit_0 by (rewrite zlen_replicate; lia). cbn [mbind option_bind].
  rewrite slice_0 by (unfold md_block_size; lia). cbn [mbind option_bind].
  rewrite blit_app; [|rewrite Ho; unfold md_block_size; lia|].
  2: { rewrite zlen_take, zlen_drop, zlen_replicate. unfold zlen, md_block_size in *. lia. }
  cbn [mbind option_bind]. rewrite app_assoc, md_transform_app.
  2: { rewrite zlen_app, zlen_take, Ho. unfold md_block_size. lia. }
  cbn [mbind option_bind].
  replace (num_starting_blocks g - 1) with (1 + (num_starting_blocks g - 2)) by lia.
  rewrite (hash_data_blocks 2 (num_starting_blocks g - 2) (zlen header - md_block_size) _ s0);
    try (unfold md_block_size; lia).
  - cbn [mbind option_bind]. do 3 f_equal. lia.
  - change (Z.to_nat 2) with 2%nat. rewrite (drop_64 1 s0 hd) by lia.
    rewrite <-(hash_blocks_take 1 s0 hd).
    assert (take (64 * 1) hd = take (Z.to_nat 64) header) as ->
      by (unfold hd; by rewrite take_app_le by (unfold zlen in *; lia)).
    apply (f_equal (hash_blocks 1 _)). unfold hd.
    rewrite drop_app_le by (unfold zlen in *; lia).
    rewrite take_app_ge by (rewrite ?length_drop; unfold zlen in *; lia).
    rewrite length_drop. do 2 f_equal. unfold zlen, md_block_size in *. lia.
Qed.
End start.

(** ** Keys *)
Lemma xor_pad_spec v l r : zlen l = 64 -> Forall (word 8) l -> word 8 v ->
  xor_pad v (l ++ r) = Some (((fun x => x .^ v) <$> l) ++ r).
Proof.
  intros Hl Hw Hv. unfold xor_pad, md_block_size. rewrite <-(tab_get 64 l) by done.
  edestruct (for_range_inv (fun j o => o = tab 64 (fun t => if t <? j then get l t .^ v else get l t) ++ r))
    as (s & E & Hs); [| | |rewrite E, Hs].
  - done.
  - reflexivity.
  - intros j s Hj ->. eexists. split; [|reflexivity].
    rewrite rd_tab_app by done. cbn [mbind option_bind]. rewrite wr_tab_app by done.
    do 2 f_equal. apply tab_ext. intros t Ht. destruct (Z.ltb_spec j j); [lia|].
    assert (word 8 (get l j)).
    { destruct (rd_Some l j) as [b Eb]; [lia|]. rewrite (get_rd l j b) by (done || lia).
      unfold rd in Eb. destruct (_ <? 0); [done|]. by eapply Forall_lookup_1. }
    rewrite wrap_small by word_range. destruct (Z.eqb_spec t j) as [->|].
    + by destruct (Z.ltb_spec j (j + 1)); [|lia].
    + by destruct (Z.ltb_spec t j), (Z.ltb_spec t (j + 1)); try lia.
  - reflexivity.
Qed.

Section keys.
Context (key : list Z).
Hypothesis Hlen : zlen key <= 64.
Hypothesis Hkey : Forall (word 8) key.

Lemma padded_key_ok : let k := key ++ replicate (64 - length key) 0 in
  zlen k = 64 /\ Forall (word 8) k.
Proof using Hlen Hkey.
  split; [unfold zlen in *; rewrite length_app, length_replicate; lia|].
  apply Forall_app. split; [done|]. apply Forall_replicate. unfold word; lia.
Qed.

Lemma masked_key_ok v : word 8 v ->
  zlen (masked_key v key) = 64 /\ Forall (word 8) (masked_key v key).
Proof using Hlen Hkey.
  intros Hv. destruct padded_key_ok as [Hz Hw]. unfold masked_key. split.
  - unfold zlen in *. by rewrite length_fmap.
  - apply Forall_fmap. eapply Forall_impl; [exact Hw|]. intros x Hx. simpl. word_range.
Qed.

Lemma blit_key : blit (replicate 128 0) 0 key
  = Some ((key ++ replicate (64 - length key) 0) ++ replicate 64 0).
Proof using Hlen.
  rewrite blit_0 by (rewrite zlen_replicate; lia). f_equal. rewrite <-app_assoc. f_equal.
  rewrite drop_replicate, <-replicate_add. f_equal. unfold zlen in Hlen. lia.
Qed.

Lemma xor_pads r :
  xor_pad 0x36 ((key ++ replicate (64 - length key) 0) ++ r) = Some (masked_key 0x36 key ++ r) /\
  xor_pad 0x6a (masked_key 0x36 key ++ r) = Some (masked_key 0x5c key ++ r).
Proof using Hlen Hkey.
  destruct padded_key_ok as [Hz Hw]. split; [apply xor_pad_spec; (done || unfold word; lia)|].
  destruct (masked_key_ok 0x36) as [Hz' Hw']; [unfold word; lia|].
  rewrite xor_pad_spec by (done || unfold word; lia). do 2 f_equal. unfold masked_key.
  rewrite <-list_fmap_compose. apply list_fmap_ext. intros k x _. simpl.
  by rewrite Z.lxor_assoc.
Qed.
End keys.

(** ** The lengths *)
Section geometry.
Context (dpm dpmp msl : Z) (header data : list Z).
Hypothesis Hdpm : 20 <= dpm <= dpmp.
Hypothesis Hdpmp : dpmp < 2 ^ 20.
Hypothesis Hdata : dpmp <= zlen data.

Lemma digest_geometry_tls : zlen header = 13 -> dpmp - dpm <= 256 ->
  geometry_ok (digest_geometry dpm dpmp msl false) header data (dpm - 7).
Proof using Hdpm Hdpmp Hdata.
  intros Hh Hw. unfold digest_geometry, md_size, md_length_size, md_block_size.
  rewrite !(wrap_small 32 (dpmp + 13)), !(wrap_small 32 (dpm + 13 - 20)) by (unfold word; lia).
  replace (dpm + 13 - 20) with (dpm - 7) by lia.
  rewrite !(wrap_small 32 (dpmp + 13 - 20 - 1)) by (unfold word; lia).
  rewrite !(wrap_small 32 (dpmp + _ - _ - _ + _ + _ + _ - _)), !(wrap_small 32 (dpm - 7 + 8))
    by (unfold word; lia).
  set (nb := (dpmp + _ - _ - _ + _ + _ + _ - _) / 64).
  assert (64 * nb <= dpmp + 64 /\ dpmp < 64 * nb) as [Hnb Hnb']
    by (unfold nb; Z.to_euclidean_division_equations; lia).
  assert (64 * ((dpm - 7) / 64) <= dpm - 7 < 64 * ((dpm - 7) / 64) + 64) as Ha
    by (Z.to_euclidean_division_equations; lia).
  assert (64 * ((dpm - 7 + 8) / 64) <= dpm - 7 + 8) as Hb
    by (Z.to_euclidean_division_equations; lia).
  clearbody nb. split; cbn -[Z.div Z.modulo Z.mul Z.add Z.ltb Z.pow wrap]; try done; try lia.
  all: destruct (Z.ltb_spec (6 + 0) nb); try lia.
  all: apply wrap_small; unfold word; lia.
Qed.

Lemma digest_geometry_ssl3 : zlen header = msl + 51 -> 13 < msl <= 77 -> 1 <= dpmp - dpm <= 57 ->
  let g := digest_geometry dpm dpmp msl true in
  geometry_ok g header data (dpm + msl + 31) /\ num_starting_blocks g <> 1.
Proof using Hdpm Hdpmp Hdata.
  intros Hh Hm Hw. unfold digest_geometry, md_size, md_length_size, md_block_size, sslv3_pad_length.
  rewrite (wrap_small 32 (msl + 40)), (wrap_small 32 (msl + 40 + 8 + 1)),
    (wrap_small 32 (msl + 40 + 8 + 1 + 2)) by (unfold word; lia).
  set (H := msl + 40 + 8 + 1 + 2).
  rewrite !(wrap_small 32 (dpmp + H)), !(wrap_small 32 (dpm + H - 20)) by (unfold word, H; lia).
  replace (dpm + H - 20) with (dpm + msl + 31) by (unfold H; lia).
  rewrite !(wrap_small 32 (dpmp + H - 20 - 1)) by (unfold word, H; lia).
  rewrite !(wrap_small 32 (dpmp + _ - _ - _ + _ + _ + _ - _)), !(wrap_small 32 (dpm + msl + 31 + 8))
    by (unfold word, H; lia).
  set (nb := (dpmp + _ - _ - _ + _ + _ + _ - _) / 64).
  assert (64 * nb <= dpmp + H + 51 /\ dpmp + H - 13 < 64 * nb) as [Hnb Hnb']
    by (unfold nb; Z.to_euclidean_division_equations; lia).
  assert (64 * ((dpm + msl + 31) / 64) <= dpm + msl + 31 < 64 * ((dpm + msl + 31) / 64) + 64) as Ha
    by (Z.to_euclidean_division_equations; lia).
  assert (64 * ((dpm + msl + 31 + 8) / 64) <= dpm + msl + 31 + 8) as Hb
    by (Z.to_euclidean_division_equations; lia).
  clearbody nb. unfold H in *.
  split; [split|]; cbn -[Z.div Z.modulo Z.mul Z.add Z.ltb Z.pow wrap]; try done; try lia.
  all: destruct (Z.ltb_spec (2 + 1) nb); try lia.
  all: apply wrap_small; unfold word; lia.
Qed.
End geometry.

(** ** The function *)
Section record.
Context (header data mac_secret : list Z) (dpm dpmp msl : Z).
Hypothesis Hheader : Forall (word 8) header.
Hypothesis Hdata : Forall (word 8) data.
Hypothesis Hsecret : Forall (word 8) mac_secret.
Hypothesis Hdpm : 20 <= dpm <= dpmp.
Hypothesis Hdpmp : dpmp < 2 ^ 20.
Hypothesis Hlen : dpmp <= zlen data.
Hypothesis Hmsl : 0 <= msl <= zlen mac_secret.
Let key := take (Z.to_nat msl) mac_secret.

(** The digest the final blocks leave, from the state after the starting ones. *)
Lemma final_blocks_digest g len n s0 : geometry_ok g header data len ->
  0 <= n < 2 ^ 28 -> (n - len) mod 64 = 0 ->
  let m := take (Z.to_nat len) (header ++ data) in
  exists s k, final_blocks g header data (length_bytes_of (8 * n))
      (hash_blocks (Z.to_nat (num_starting_blocks g)) s0 (header ++ data))
    = Some (s, k, HASH_MAKE_STRING (hash_blocks (Z.to_nat (index_b g + 1)) s0 (m ++ md_padding n))
                    ++ replicate 44 0) /\
    length (m ++ md_padding n) = (64 * Z.to_nat (index_b g + 1))%nat.
Proof using Hheader Hdata.
  intros Hg Hn Hmod m. destruct (final_blocks_spec g header data len n) with (s0 := s0)
    as (s & k & E); [done..|]. exists s, k. pose proof (zlen_P g header data len n Hg (conj Hn Hmod)) as HP.
  split; [|unfold zlen in HP; fold m in HP; lia].
  etransitivity; [|exact E]. f_equal. pose proof Hg as [].
  rewrite <-(hash_blocks_take _ s0 (header ++ data)), <-(hash_blocks_take _ s0 (_ ++ md_padding n)).
  f_equal. assert (64 * index_a g <= len) as Ha by (rewrite ok_a0; Z.to_euclidean_division_equations; lia).
  rewrite (take_app_le (take _ _)), take_take; [f_equal; lia|].
  pose proof (zlen_m g header data len Hg) as Hz. unfold zlen in Hz. lia.
Qed.

Lemma digest_tls : zlen header = 13 -> dpmp - dpm <= 256 -> msl <= 64 ->
  ssl3_cbc_digest_record header data dpm dpmp mac_secret msl false
  = Some (Some (hmac_sha1_calls key (header ++ take (Z.to_nat (dpm - 20)) data))).
Proof using Hheader Hdata Hsecret Hdpm Hdpmp Hlen Hmsl.
  intros Hh Hw Hm64. unfold ssl3_cbc_digest_record.
  pose proof (digest_geometry_tls dpm dpmp msl header data Hdpm Hdpmp Hlen Hh Hw) as Hg.
  assert (mac_end_offset (digest_geometry dpm dpmp msl false) = dpm - 7) as Hend
    by (cbn -[wrap]; rewrite wrap_small by (unfold word; unfold md_size; lia); unfold md_size; lia).
  set (g := digest_geometry dpm dpmp msl false) in *. clearbody g.
  rewrite slice_0 by lia. fold key. cbn [mbind option_bind].
  assert (zlen key <= 64 /\ Forall (word 8) key) as [Hk Hkw].
  { unfold key. split; [rewrite zlen_take; lia|by apply Forall_take]. }
  destruct (xor_pads key Hk Hkw (replicate 64 0)) as [E1 E2].
  destruct (masked_key_ok key Hk Hkw 0x36) as [Hz Hzw]; [unfold word; lia|].
  rewrite blit_key by done. cbn [mbind option_bind]. rewrite E1. cbn [mbind option_bind].
  rewrite md_transform_app by done. cbn [mbind option_bind]. rewrite Hend.
  replace (u32 (u32 (8 * (dpm - 7)) + 8 * md_block_size)) with (8 * (dpm - 7 + 64)).
  2: { rewrite (wrap_small 32 (8 * _)) by (unfold word; lia).
       rewrite wrap_small by (unfold word, md_block_size; lia). unfold md_block_size; lia. }
  pose proof Hg as [].
  rewrite hash_starting_tls; [|done|split; [lia|]|done|].
  2, 3: rewrite ?zlen_app; assert (64 * index_a g <= dpm - 7) by
    (rewrite ok_a0; Z.to_euclidean_division_equations; lia); lia.
  cbn [mbind option_bind].
  destruct (final_blocks_digest g (dpm - 7) (dpm - 7 + 64)
    (@hash_blocks SHA1 1 INIT_DATA (masked_key 0x36 key))) as (s & k & E & Hpad); [done|lia| |].
  { replace (dpm - 7 + 64 - (dpm - 7)) with 64 by lia. done. }
  rewrite E. cbn [mbind option_bind].
  rewrite slice_0 by (rewrite zlen_app, zlen_make_string, zlen_replicate; unfold md_size; lia).
  cbn [mbind option_bind]. change (Z.to_nat md_size) with 20%nat.
  rewrite take_app_ge, Nat.sub_diag, take_0, app_nil_r by done.
  rewrite E2. cbn [mbind option_bind].
  destruct (masked_key_ok key Hk Hkw 0x5c) as [Hz5 _]; [unfold word; lia|].
  rewrite slice_0 by (rewrite zlen_app, Hz5, zlen_replicate; unfold md_block_size; lia).
  cbn [mbind option_bind]. change (Z.to_nat md_block_size) with 64%nat.
  rewrite take_app_le, take_ge by (unfold zlen in Hz5; lia).
  unfold hmac_sha1_calls. do 5 f_equal. f_equal.
  rewrite <-md_hash_fips.
  replace (header ++ take (Z.to_nat (dpm - 20)) data) with (take (Z.to_nat (dpm - 7)) (header ++ data)).
  2: { rewrite take_app_ge by (unfold zlen in *; lia). do 2 f_equal. unfold zlen in *; lia. }
  assert (zlen (masked_key 0x36 key ++ take (Z.to_nat (dpm - 7)) (header ++ data)) = dpm - 7 + 64) as Hzm
    by (rewrite zlen_app, (zlen_m g header data (dpm - 7) Hg), Hz; lia).
  rewrite (md_hash_blocks _ _ (1 + Z.to_nat (index_b g + 1))); rewrite Hzm, <-app_assoc.
  - rewrite hash_blocks_app by (unfold zlen in Hz; lia). done.
  - rewrite length_app, Hpad. unfold zlen in Hz. lia.
Qed.

Lemma digest_ssl3 : zlen header = msl + 51 -> 13 < msl <= 77 -> 1 <= dpmp - dpm <= 57 ->
  ssl3_cbc_digest_record header data dpm dpmp mac_secret msl true
  = Some (Some (sslv3_mac_calls key (header ++ take (Z.to_nat (dpm - 20)) data))).
Proof using Hheader Hdata Hsecret Hdpm Hdpmp Hlen Hmsl.
  intros Hh Hm Hw. unfold ssl3_cbc_digest_record.
  destruct (digest_geometry_ssl3 dpm dpmp msl header data Hdpm Hdpmp Hlen Hh Hm Hw) as [Hg Hn1].
  assert (mac_end_offset (digest_geometry dpm dpmp msl true) = dpm + msl + 31) as Hend.
  { cbn -[wrap]. unfold md_size, sslv3_pad_length.
    rewrite (wrap_small 32 (msl + 40)), (wrap_small 32 (msl + 40 + 8 + 1)),
      (wrap_small 32 (msl + 40 + 8 + 1 + 2)), (wrap_small 32 (dpm + _ - 20)) by (unfold word; lia).
    lia. }
  set (g := digest_geometry dpm dpmp msl true) in *. clearbody g.
  cbn [mbind option_bind]. rewrite Hend, (wrap_small 32 (8 * _)) by (unfold word; lia).
  pose proof Hg as [].
  assert (64 * index_a g <= dpm + msl + 31) as Ha
    by (rewrite ok_a0; Z.to_euclidean_division_equations; lia).
  rewrite hash_starting_ssl3; [|done|lia|lia|done|done|rewrite zlen_app; lia].
  cbn [mbind option_bind].
  destruct (final_blocks_digest g (dpm + msl + 31) (dpm + msl + 31) INIT_DATA)
    as (s & k & E & Hpad); [done|lia|by rewrite Z.sub_diag|].
  rewrite E. cbn [mbind option_bind].
  rewrite (slice_0 (_ ++ _)) by (rewrite zlen_app, zlen_make_string, zlen_replicate; unfold md_size; lia).
  cbn [mbind option_bind]. change (Z.to_nat md_size) with 20%nat.
  rewrite take_app_ge, Nat.sub_diag, take_0, app_nil_r by done.
  rewrite blit_0 by done. cbn [mbind option_bind].
  rewrite (slice_0 mac_secret) by lia. cbn [mbind option_bind].
  rewrite slice_0 by done. cbn [mbind option_bind].
  unfold sslv3_mac_calls. rewrite <-md_hash_fips.
  replace (header ++ take (Z.to_nat (dpm - 20)) data)
    with (take (Z.to_nat (dpm + msl + 31)) (header ++ data)).
  2: { rewrite take_app_ge by (unfold zlen in *; lia). do 2 f_equal. unfold zlen in *; lia. }
  rewrite (md_hash_blocks _ _ (Z.to_nat (index_b g + 1)));
    rewrite (zlen_m g header data (dpm + msl + 31) Hg); done.
Qed.
End record.

(** C29. Whatever the secret length of the padding, the function makes exactly the
    digest calls of the MAC over the header and the data without MAC and padding:
    the masked final blocks compute the inner hash.  For TLS that is HMAC-SHA1, the
    padding having up to 256 bytes; for SSLv3, where the header carries the secret
    and the first pad and is longer than a block, it is the SSLv3 MAC, the record
    having 1 to 57 bytes of padding.  All accesses are in bounds. *)
Theorem ssl3_cbc_digest_record_correct header data mac_secret dpm dpmp msl :
  Forall (word 8) header -> Forall (word 8) data -> Forall (word 8) mac_secret ->
  20 <= dpm <= dpmp -> dpmp < 2 ^ 20 -> dpmp <= zlen data -> 0 <= msl <= zlen mac_secret ->
  (zlen header = 13 -> dpmp - dpm <= 256 -> msl <= 64 ->
    ssl3_cbc_digest_record header data dpm dpmp mac_secret msl false
    = Some (Some (hmac_sha1_calls (take (Z.to_nat msl) mac_secret) (header ++ take (Z.to_nat (dpm - 20)) data)))) /\
  (zlen header = msl + 51 -> 1 <= dpmp - dpm <= 57 -> 13 < msl <= 77 ->
    ssl3_cbc_digest_record header data dpm dpmp mac_secret msl true
    = Some (Some (sslv3_mac_calls (take (Z.to_nat msl) mac_secret) (header ++ take (Z.to_nat (dpm - 20)) data)))).
Proof.
  intros. split; intros; [by apply digest_tls|]. apply digest_ssl3; done || lia.
Qed.

Lemma ssl3_cbc_digest_record_correct_witness :
  let data := replicate 500 7 in
  ssl3_cbc_digest_record (replicate 13 3) data 320 500 [1; 2; 3] 3 false
    = Some (Some (hmac_sha1_calls [1; 2; 3] (replicate 13 3 ++ take 300 data))) /\
  ssl3_cbc_digest_record (replicate 71 3) data 290 300 (replicate 20 9) 20 true
    = Some (Some (sslv3_mac_calls (replicate 20 9) (replicate 71 3 ++ take 270 data))).
Proof.
  intros data. split.
  - apply (ssl3_cbc_digest_record_correct (replicate 13 3) data [1; 2; 3] 320 500 3);
      first [apply Forall_replicate; unfold word; lia
            | repeat constructor; unfold word; lia | vm_compute; intuition discriminate | idtac].
  - apply (ssl3_cbc_digest_record_correct (replicate 71 3) data (replicate 20 9) 290 300 20);
      first [apply Forall_replicate; unfold word; lia | vm_compute; intuition discriminate | idtac].
Defined.
