(* ===== verification/BlockCipher.v ===== *)
(** * Block ciphers: the interface and what follows from it.

    [BlockCipher] is what a cipher promises to the modes of operation: block
    encryption and decryption that preserve well-formed blocks, decryption
    undoing encryption under a well-formed key.  The chaining modes of the
    library code ([_gcry_*_ctr_enc], [_gcry_*_cbc_dec], [_gcry_*_cfb_dec]) are
    modelled once against it. *)
From S2P Require Import Prelude Arrays Bytes.
Local Open Scope Z_scope.
Local Open Scope word_scope.

Lemma Forall_trivial {A} (l : list A) : Forall (fun _ => True) l.
Proof. by apply Forall_true. Qed.

(** ** Rounds *)
Section rounds.
Context {K S : Type} (f g : K -> S -> S) (okk : K -> Prop) (ok : S -> Prop).
Hypothesis f_ok : forall k s, okk k -> ok s -> ok (f k s).
Hypothesis g_f : forall k s, okk k -> ok s -> g k (f k s) = s.

Definition rounds (h : K -> S -> S) (ks : list K) (s : S) : S :=
  foldl (fun s k => h k s) s ks.

Lemma rounds_ok ks s : Forall okk ks -> ok s -> ok (rounds f ks s).
Proof using f_ok.
  unfold rounds. intros Hks. revert s. induction Hks; intros s Hs; [done|]. simpl. auto.
Qed.

(** Running the inverse rounds in the opposite order undoes the rounds. *)
Lemma rounds_inverse ks s : Forall okk ks -> ok s ->
  rounds g (rev ks) (rounds f ks s) = s.
Proof using f_ok g_f.
  unfold rounds. intros Hks. revert s. induction Hks as [|k ks Hk Hks IH]; intros s Hs; [done|].
  simpl. rewrite foldl_app, IH by auto. by apply g_f.
Qed.
End rounds.

(** A counted loop is a sequence of rounds. *)
Lemma loop_rounds {A} (f : Z -> A -> A) n s : loop 0 n f s = rounds f (seqZ 0 n) s.
Proof.
  unfold loop, rounds. rewrite Z.sub_0_r.
  assert (seqZ 0 n = seqZ 0 (Z.of_nat (Z.to_nat n))) as ->.
  { destruct (Z.leb_spec 0 n); [by rewrite Z2Nat.id|]. by rewrite !seqZ_nil by lia. }
  generalize 0 at 1 2. generalize (Z.to_nat n). clear n. intros n.
  revert s. induction n as [|n IH]; intros s i; [done|].
  rewrite seqZ_cons by lia. cbn [loop_from foldl]. rewrite IH. change (Z.succ i) with (i + 1). by replace (Z.pred (Z.of_nat (S n))) with (Z.of_nat n) by lia.
Qed.

Lemma rev_seqZ n : rev (seqZ 0 n) = (fun i => n - i - 1) <$> seqZ 0 n.
Proof.
  destruct (Z.leb_spec 0 n); [|by rewrite !seqZ_nil by lia].
  rewrite <-(Z2Nat.id n) by done. generalize (Z.to_nat n). clear n H. intros n.
  induction n as [|n IH]; [done|].
  rewrite seqZ_S at 1. rewrite rev_app_distr, IH. cbn [rev app].
  rewrite (seqZ_cons 0 (Z.of_nat (S n))) by lia. rewrite fmap_cons. f_equal; [lia|].
  replace (Z.pred (Z.of_nat (S n))) with (Z.of_nat n) by lia.
  rewrite <-(fmap_add_seqZ 1 0), <-list_fmap_compose. apply list_fmap_ext. intros. simpl. lia.
Qed.

(** ** Feistel networks *)
Section feistel.
Context {K : Type} (f : K -> Z -> Z).

Definition feistel (k : K) (s : Z * Z) : Z * Z := let '(l, r) := s in (r, l .^ f k r).
Definition swap (s : Z * Z) : Z * Z := let '(l, r) := s in (r, l).

Lemma feistel_swap k s : feistel k (swap (feistel k s)) = swap s.
Proof. destruct s as [l r]. simpl. by rewrite lxor_cancel_r. Qed.

(** The network run on the swapped output with the subkeys reversed gives
    back the swapped input. *)
Lemma feistel_inverse ks s :
  rounds feistel (rev ks) (swap (rounds feistel ks s)) = swap s.
Proof.
  unfold rounds. revert s. induction ks as [|k ks IH]; intros s; [done|].
  simpl. rewrite foldl_app, IH. simpl. apply feistel_swap.
Qed.

Lemma feistel_words ks s : (forall k r, word 32 r -> word 32 (f k r)) ->
  word 32 s.1 -> word 32 s.2 ->
  word 32 (rounds feistel ks s).1 /\ word 32 (rounds feistel ks s).2.
Proof.
  intros Hf. unfold rounds. revert s. induction ks as [|k ks IH]; intros [l r] Hl Hr; [done|].
  simpl in *. apply IH; simpl; [done|]. apply word_lxor; [lia|done|auto].
Qed.
End feistel.

(** ** The interface *)
Class BlockCipher := {
  bc_key : Type;
  bc_key_ok : bc_key -> Prop;
  bc_size : nat;
  bc_encrypt : bc_key -> list Z -> list Z;
  bc_decrypt : bc_key -> list Z -> list Z;
  bc_encrypt_ok : forall k b, bc_key_ok k -> bytes bc_size b -> bytes bc_size (bc_encrypt k b);
  bc_decrypt_encrypt : forall k b, bc_key_ok k -> bytes bc_size b ->
    bc_decrypt k (bc_encrypt k b) = b }.

(** [buf_xor] of equal-length buffers. *)
Definition buf_xor (a b : list Z) : list Z := zip_with Z.lxor a b.

(** The big-endian increment of a counter: bytes from the last, stopping at the
    first that does not wrap. *)
Fixpoint incr_le (l : list Z) : list Z :=
  match l with
  | [] => []
  | b :: l => let b := u8 (b + 1) in if b =? 0 then b :: incr_le l else b :: l
  end.
Definition ctr_incr (ctr : list Z) : list Z := reverse (incr_le (reverse ctr)).

Section modes.
Context `{BlockCipher}.
Implicit Types (k : bc_key) (blocks : list (list Z)) (iv ctr : list Z).

(** Each mode returns the output blocks and the final chaining value. *)
Fixpoint ctr_enc k ctr blocks : list (list Z) * list Z :=
  match blocks with
  | [] => ([], ctr)
  | b :: blocks =>
      let tmpbuf := bc_encrypt k ctr in
      let '(out, ctr) := ctr_enc k (ctr_incr ctr) blocks in (buf_xor tmpbuf b :: out, ctr)
  end.

Fixpoint cbc_dec k iv blocks : list (list Z) * list Z :=
  match blocks with
  | [] => ([], iv)
  | b :: blocks =>
      let savebuf := bc_decrypt k b in
      let '(out, iv') := cbc_dec k b blocks in (buf_xor savebuf iv :: out, iv')
  end.

Fixpoint cfb_dec k iv blocks : list (list Z) * list Z :=
  match blocks with
  | [] => ([], iv)
  | b :: blocks =>
      let iv := bc_encrypt k iv in
      let '(out, iv') := cfb_dec k b blocks in (buf_xor iv b :: out, iv')
  end.

(** The standard encryptions the decryptions are checked against. *)
Fixpoint cbc_enc k iv blocks : list (list Z) * list Z :=
  match blocks with
  | [] => ([], iv)
  | b :: blocks =>
      let c := bc_encrypt k (buf_xor b iv) in
      let '(out, iv') := cbc_enc k c blocks in (c :: out, iv')
  end.
Fixpoint cfb_enc k iv blocks : list (list Z) * list Z :=
  match blocks with
  | [] => ([], iv)
  | b :: blocks =>
      let c := buf_xor (bc_encrypt k iv) b in
      let '(out, iv') := cfb_enc k c blocks in (c :: out, iv')
  end.
End modes.

Section mode_laws.
Context `{BlockCipher}.
Implicit Types (k : bc_key) (blocks : list (list Z)) (iv ctr a b : list Z).

Lemma buf_xor_bytes n a b : bytes n a -> bytes n b -> bytes n (buf_xor a b).
Proof.
  intros [Ha Hwa] [Hb Hwb]. unfold buf_xor. split.
  - rewrite length_zip_with. lia.
  - apply Forall_lookup_2. intros i x (y & z & -> & Hy & Hz)%lookup_zip_with_Some.
    apply word_lxor; [lia|exact (Forall_lookup_1 _ _ _ _ Hwa Hy)|exact (Forall_lookup_1 _ _ _ _ Hwb Hz)].
Qed.

Lemma buf_xor_cancel_l a b : length a = length b -> buf_xor a (buf_xor a b) = b.
Proof.
  unfold buf_xor. revert b. induction a as [|x a IH]; intros [|y b] Hl; simplify_eq/=; [done|].
  by rewrite lxor_cancel_l, IH by lia.
Qed.
Lemma buf_xor_cancel_r a b : length a = length b -> buf_xor (buf_xor a b) b = a.
Proof.
  unfold buf_xor. revert b. induction a as [|x a IH]; intros [|y b] Hl; simplify_eq/=; [done|].
  by rewrite lxor_cancel_r, IH by lia.
Qed.

(** The value of a little-endian byte list. *)
Fixpoint le_value (l : list Z) : Z :=
  match l with [] => 0 | b :: l => b + 256 * le_value l end.
Definition be_value (l : list Z) : Z := le_value (reverse l).

Lemma incr_le_spec l : Forall (word 8) l ->
  length (incr_le l) = length l /\ Forall (word 8) (incr_le l) /\
  le_value (incr_le l) = (le_value l + 1) mod 2 ^ (8 * Z.of_nat (length l)).
Proof.
  induction 1 as [|b l Hb Hl (IHl & IHw & IHv)]; [done|]. cbn [incr_le].
  assert (0 <= le_value l < 2 ^ (8 * Z.of_nat (length l))) as Hr.
  { clear -Hl. induction Hl as [|b l Hb Hl IH]; [by cbn; lia|]. cbn [le_value length].
    rewrite Nat2Z.inj_succ. replace (8 * Z.succ (Z.of_nat (length l)))
      with (8 + 8 * Z.of_nat (length l)) by lia.
    rewrite Z.pow_add_r by lia. unfold word in Hb. lia. }
  assert (2 ^ (8 * Z.of_nat (length (b :: l))) = 256 * 2 ^ (8 * Z.of_nat (length l))) as Hp.
  { cbn [length]. rewrite Nat2Z.inj_succ. replace (8 * Z.succ (Z.of_nat (length l)))
      with (8 + 8 * Z.of_nat (length l)) by lia. by rewrite Z.pow_add_r by lia. }
  rewrite Hp. unfold word in Hb. destruct (Z.eqb_spec (u8 (b + 1)) 0) as [E|E].
  - assert (b = 255) as -> by (unfold wrap in E; Z.to_euclidean_division_equations; lia).
    cbn [length le_value]. split; [by rewrite IHl|]. split; [by constructor|].
    change (u8 (255 + 1)) with 0. rewrite IHv.
    replace (255 + 256 * le_value l + 1) with (256 * (le_value l + 1)) by lia.
    rewrite Z.mul_mod_distr_l; lia.
  - assert (u8 (b + 1) = b + 1) as ->.
    { apply wrap_small. unfold word. unfold wrap in E.
      destruct (decide (b = 255)) as [->|]; [done|lia]. }
    assert (b <> 255) by (intros ->; done).
    cbn [length le_value]. split; [done|]. split; [constructor; [unfold word; lia|done]|].
    rewrite Z.mod_small; lia.
Qed.

Lemma ctr_incr_spec n ctr : bytes n ctr -> bytes n (ctr_incr ctr) /\
  be_value (ctr_incr ctr) = (be_value ctr + 1) mod 2 ^ (8 * Z.of_nat n).
Proof.
  intros [<- Hw]. unfold ctr_incr, be_value. rewrite reverse_involutive.
  destruct (incr_le_spec (reverse ctr)) as (Hl & Hw' & Hv); [by apply Forall_reverse|].
  rewrite length_reverse in *. split; [split|done].
  - by rewrite length_reverse.
  - by apply Forall_reverse.
Qed.

Lemma ctr_enc_involutive k ctr blocks : bc_key_ok k -> bytes bc_size ctr ->
  Forall (bytes bc_size) blocks ->
  ctr_enc k ctr (ctr_enc k ctr blocks).1 = (blocks, (ctr_enc k ctr blocks).2).
Proof.
  intros Hk Hctr Hbs. revert ctr Hctr. induction Hbs as [|b bs Hb Hbs IH]; intros ctr Hctr; [done|].
  cbn [ctr_enc]. destruct (ctr_incr_spec _ _ Hctr) as [Hi _]. specialize (IH _ Hi).
  destruct (ctr_enc k (ctr_incr ctr) bs) as [out c]. simpl in *. rewrite IH.
  rewrite buf_xor_cancel_l; [done|]. destruct Hb, (bc_encrypt_ok k ctr Hk Hctr). congruence.
Qed.

(** Block [i] is masked with the encryption of [ctr + i]. *)
Lemma ctr_enc_counter k ctr blocks : bytes bc_size ctr ->
  be_value (ctr_enc k ctr blocks).2
  = (be_value ctr + Z.of_nat (length blocks)) mod 2 ^ (8 * Z.of_nat bc_size).
Proof.
  revert ctr. induction blocks as [|b bs IH]; intros ctr Hctr; cbn [ctr_enc].
  - simpl. rewrite Z.add_0_r, Z.mod_small; [done|]. destruct Hctr as [Hl Hw].
    unfold be_value. rewrite <-(length_reverse ctr) in Hl. rewrite <-Hl.
    apply Forall_reverse in Hw. clear -Hw. induction Hw as [|b l Hb Hl IH]; [by cbn; lia|].
    cbn [le_value length]. rewrite Nat2Z.inj_succ.
    replace (8 * Z.succ (Z.of_nat (length l))) with (8 + 8 * Z.of_nat (length l)) by lia.
    rewrite Z.pow_add_r by lia. unfold word in Hb. lia.
  - destruct (ctr_incr_spec _ _ Hctr) as [Hi Hv]. specialize (IH _ Hi).
    destruct (ctr_enc k (ctr_incr ctr) bs) as [out c]. simpl in *. rewrite IH, Hv.
    rewrite Zplus_mod_idemp_l. f_equal. lia.
Qed.

Lemma cbc_dec_enc k iv blocks : bc_key_ok k -> bytes bc_size iv ->
  Forall (bytes bc_size) blocks ->
  cbc_dec k iv (cbc_enc k iv blocks).1 = (blocks, (cbc_enc k iv blocks).2).
Proof.
  intros Hk Hiv Hbs. revert iv Hiv. induction Hbs as [|b bs Hb Hbs IH]; intros iv Hiv; [done|].
  cbn [cbc_enc]. pose proof (buf_xor_bytes _ _ _ Hb Hiv) as Hx.
  specialize (IH _ (bc_encrypt_ok _ _ Hk Hx)).
  destruct (cbc_enc k (bc_encrypt k (buf_xor b iv)) bs) as [out c]. simpl in *. rewrite IH.
  rewrite bc_decrypt_encrypt, buf_xor_cancel_r; [done| |done|done]. destruct Hb, Hiv. congruence.
Qed.

Lemma cfb_dec_enc k iv blocks : bc_key_ok k -> bytes bc_size iv ->
  Forall (bytes bc_size) blocks ->
  cfb_dec k iv (cfb_enc k iv blocks).1 = (blocks, (cfb_enc k iv blocks).2).
Proof.
  intros Hk Hiv Hbs. revert iv Hiv. induction Hbs as [|b bs Hb Hbs IH]; intros iv Hiv; [done|].
  cbn [cfb_enc]. pose proof (bc_encrypt_ok _ _ Hk Hiv) as He.
  specialize (IH _ (buf_xor_bytes _ _ _ He Hb)).
  destruct (cfb_enc k (buf_xor (bc_encrypt k iv) b) bs) as [out c]. simpl in *. rewrite IH.
  rewrite buf_xor_cancel_l; [done|]. destruct Hb, He. congruence.
Qed.

(** The modes keep the number and the shape of the blocks. *)
Lemma cbc_enc_bytes k iv blocks : bc_key_ok k -> bytes bc_size iv -> Forall (bytes bc_size) blocks ->
  length (cbc_enc k iv blocks).1 = length blocks /\ Forall (bytes bc_size) (cbc_enc k iv blocks).1.
Proof.
  intros Hk Hiv Hbs. revert iv Hiv. induction Hbs as [|b bs Hb Hbs IH]; intros iv Hiv; [done|].
  cbn [cbc_enc]. pose proof (bc_encrypt_ok _ _ Hk (buf_xor_bytes _ _ _ Hb Hiv)) as Hc.
  specialize (IH _ Hc). destruct (cbc_enc k _ bs) as [out c]. simpl in *.
  destruct IH as [-> IH]. split; [done|]. by constructor.
Qed.
Lemma cfb_enc_bytes k iv blocks : bc_key_ok k -> bytes bc_size iv -> Forall (bytes bc_size) blocks ->
  length (cfb_enc k iv blocks).1 = length blocks /\ Forall (bytes bc_size) (cfb_enc k iv blocks).1.
Proof.
  intros Hk Hiv Hbs. revert iv Hiv. induction Hbs as [|b bs Hb Hbs IH]; intros iv Hiv; [done|].
  cbn [cfb_enc]. pose proof (buf_xor_bytes _ _ _ (bc_encrypt_ok _ _ Hk Hiv) Hb) as Hc.
  specialize (IH _ Hc). destruct (cfb_enc k _ bs) as [out c]. simpl in *.
  destruct IH as [-> IH]. split; [done|]. by constructor.
Qed.
Lemma ctr_enc_bytes k ctr blocks : bc_key_ok k -> bytes bc_size ctr -> Forall (bytes bc_size) blocks ->
  length (ctr_enc k ctr blocks).1 = length blocks /\ Forall (bytes bc_size) (ctr_enc k ctr blocks).1.
Proof.
  intros Hk Hctr Hbs. revert ctr Hctr. induction Hbs as [|b bs Hb Hbs IH]; intros ctr Hctr; [done|].
  cbn [ctr_enc]. pose proof (buf_xor_bytes _ _ _ (bc_encrypt_ok _ _ Hk Hctr) Hb) as Hc.
  destruct (ctr_incr_spec _ _ Hctr) as [Hi _].
  specialize (IH _ Hi). destruct (ctr_enc k _ bs) as [out c]. simpl in *.
  destruct IH as [-> IH]. split; [done|]. by constructor.
Qed.
End mode_laws.
