(* ===== verification/DesSpec.v ===== *)
(** * The Data Encryption Standard, FIPS 46-3.

    The reference the DES programs are proved against: the tables of the standard, bit 1
    being the leftmost, and the cipher as a Feistel network. *)
From S2P Require Import Prelude Arrays Bytes Linear BlockCipher.
Local Open Scope Z_scope.
Local Open Scope word_scope.

(** ** Tables *)
Definition IP : list Z :=
  [58; 50; 42; 34; 26; 18; 10; 2;
   60; 52; 44; 36; 28; 20; 12; 4;
   62; 54; 46; 38; 30; 22; 14; 6;
   64; 56; 48; 40; 32; 24; 16; 8;
   57; 49; 41; 33; 25; 17; 9; 1;
   59; 51; 43; 35; 27; 19; 11; 3;
   61; 53; 45; 37; 29; 21; 13; 5;
   63; 55; 47; 39; 31; 23; 15; 7].

Definition FP : list Z :=
  [40; 8; 48; 16; 56; 24; 64; 32;
   39; 7; 47; 15; 55; 23; 63; 31;
   38; 6; 46; 14; 54; 22; 62; 30;
   37; 5; 45; 13; 53; 21; 61; 29;
   36; 4; 44; 12; 52; 20; 60; 28;
   35; 3; 43; 11; 51; 19; 59; 27;
   34; 2; 42; 10; 50; 18; 58; 26;
   33; 1; 41; 9; 49; 17; 57; 25].

Definition E : list Z :=
  [32; 1; 2; 3; 4; 5;
   4; 5; 6; 7; 8; 9;
   8; 9; 10; 11; 12; 13;
   12; 13; 14; 15; 16; 17;
   16; 17; 18; 19; 20; 21;
   20; 21; 22; 23; 24; 25;
   24; 25; 26; 27; 28; 29;
   28; 29; 30; 31; 32; 1].

Definition P : list Z :=
  [16; 7; 20; 21; 29; 12; 28; 17;
   1; 15; 23; 26; 5; 18; 31; 10;
   2; 8; 24; 14; 32; 27; 3; 9;
   19; 13; 30; 6; 22; 11; 4; 25].

Definition PC1 : list Z :=
  [57; 49; 41; 33; 25; 17; 9;
   1; 58; 50; 42; 34; 26; 18;
   10; 2; 59; 51; 43; 35; 27;
   19; 11; 3; 60; 52; 44; 36;
   63; 55; 47; 39; 31; 23; 15;
   7; 62; 54; 46; 38; 30; 22;
   14; 6; 61; 53; 45; 37; 29;
   21; 13; 5; 28; 20; 12; 4].

Definition PC2 : list Z :=
  [14; 17; 11; 24; 1; 5;
   3; 28; 15; 6; 21; 10;
   23; 19; 12; 4; 26; 8;
   16; 7; 27; 20; 13; 2;
   41; 52; 31; 37; 47; 55;
   30; 40; 51; 45; 33; 48;
   44; 49; 39; 56; 34; 53;
   46; 42; 50; 36; 29; 32].

Definition SHIFTS : list Z :=
  [1; 1; 2; 2; 2; 2; 2; 2; 1; 2; 2; 2; 2; 2; 2; 1].

Definition SBOX : list (list Z) :=
  [[14; 4; 13; 1; 2; 15; 11; 8; 3; 10; 6; 12; 5; 9; 0; 7;
    0; 15; 7; 4; 14; 2; 13; 1; 10; 6; 12; 11; 9; 5; 3; 8;
    4; 1; 14; 8; 13; 6; 2; 11; 15; 12; 9; 7; 3; 10; 5; 0;
    15; 12; 8; 2; 4; 9; 1; 7; 5; 11; 3; 14; 10; 0; 6; 13];
   [15; 1; 8; 14; 6; 11; 3; 4; 9; 7; 2; 13; 12; 0; 5; 10;
    3; 13; 4; 7; 15; 2; 8; 14; 12; 0; 1; 10; 6; 9; 11; 5;
    0; 14; 7; 11; 10; 4; 13; 1; 5; 8; 12; 6; 9; 3; 2; 15;
    13; 8; 10; 1; 3; 15; 4; 2; 11; 6; 7; 12; 0; 5; 14; 9];
   [10; 0; 9; 14; 6; 3; 15; 5; 1; 13; 12; 7; 11; 4; 2; 8;
    13; 7; 0; 9; 3; 4; 6; 10; 2; 8; 5; 14; 12; 11; 15; 1;
    13; 6; 4; 9; 8; 15; 3; 0; 11; 1; 2; 12; 5; 10; 14; 7;
    1; 10; 13; 0; 6; 9; 8; 7; 4; 15; 14; 3; 11; 5; 2; 12];
   [7; 13; 14; 3; 0; 6; 9; 10; 1; 2; 8; 5; 11; 12; 4; 15;
    13; 8; 11; 5; 6; 15; 0; 3; 4; 7; 2; 12; 1; 10; 14; 9;
    10; 6; 9; 0; 12; 11; 7; 13; 15; 1; 3; 14; 5; 2; 8; 4;
    3; 15; 0; 6; 10; 1; 13; 8; 9; 4; 5; 11; 12; 7; 2; 14];
   [2; 12; 4; 1; 7; 10; 11; 6; 8; 5; 3; 15; 13; 0; 14; 9;
    14; 11; 2; 12; 4; 7; 13; 1; 5; 0; 15; 10; 3; 9; 8; 6;
    4; 2; 1; 11; 10; 13; 7; 8; 15; 9; 12; 5; 6; 3; 0; 14;
    11; 8; 12; 7; 1; 14; 2; 13; 6; 15; 0; 9; 10; 4; 5; 3];
   [12; 1; 10; 15; 9; 2; 6; 8; 0; 13; 3; 4; 14; 7; 5; 11;
    10; 15; 4; 2; 7; 12; 9; 5; 6; 1; 13; 14; 0; 11; 3; 8;
    9; 14; 15; 5; 2; 8; 12; 3; 7; 0; 4; 10; 1; 13; 11; 6;
    4; 3; 2; 12; 9; 5; 15; 10; 11; 14; 1; 7; 6; 0; 8; 13];
   [4; 11; 2; 14; 15; 0; 8; 13; 3; 12; 9; 7; 5; 10; 6; 1;
    13; 0; 11; 7; 4; 9; 1; 10; 14; 3; 5; 12; 2; 15; 8; 6;
    1; 4; 11; 13; 12; 3; 7; 14; 10; 15; 6; 8; 0; 5; 9; 2;
    6; 11; 13; 8; 1; 4; 10; 7; 9; 5; 0; 15; 14; 2; 3; 12];
   [13; 2; 8; 4; 6; 15; 11; 1; 10; 9; 3; 14; 5; 0; 12; 7;
    1; 15; 13; 8; 10; 3; 7; 4; 12; 5; 6; 11; 0; 14; 9; 2;
    7; 11; 4; 1; 9; 12; 14; 2; 0; 6; 10; 13; 15; 3; 5; 8;
    2; 1; 14; 7; 4; 10; 8; 13; 15; 12; 9; 0; 3; 5; 6; 11]].

(** ** The cipher *)

(** The bits of a [w]-bit word that a table selects. *)
Definition permute (w : Z) (table : list Z) (x : Z) : Z :=
  foldl (fun y i => 2 * y + Z.b2z (Z.testbit x (w - i))) 0 table.

(** Two words side by side, the second of [n] bits. *)
Definition join (n x y : Z) : Z := (x ≪ n) .| y.

(** Row and column of a S-box: the outer and the inner bits. *)
Definition sbox (k x : Z) : Z :=
  let row := 2 * (x ≫ 5) + (x .& 1) in
  let column := (x ≫ 1) .& 15 in
  nth (Z.to_nat (16 * row + column)) (nth (Z.to_nat k) SBOX []) 0.

(** The [k]-th group of six bits. *)
Definition chunk (k x : Z) : Z := (x ≫ (42 - 6 * k)) .& 63.

Definition substitute (x : Z) : Z :=
  foldr (fun k y => (sbox k (chunk k x) ≪ (28 - 4 * k)) .| y) 0 (seqZ 0 8).

Definition f (key r : Z) : Z := permute 32 P (substitute (permute 32 E r .^ key)).

(** The block as two halves, before and after. *)
Definition DES (keys : list Z) (block : Z) : Z :=
  let x := permute 64 IP block in
  let '(l, r) := rounds (feistel f) keys (x ≫ 32, wrap 32 x) in
  permute 64 FP (join 32 r l).

(** ** The key schedule *)

(** A half of the key after the first [i] shifts. *)
Definition shifted (i : nat) (x : Z) : Z := foldl (fun x s => rotl 28 x s) x (take i SHIFTS).

Definition subkey (key i : Z) : Z :=
  let cd := permute 64 PC1 key in
  let n := S (Z.to_nat i) in
  permute 56 PC2 (join 28 (shifted n (cd ≫ 28)) (shifted n (wrap 28 cd))).

Definition schedule (key : Z) : list Z := subkey key <$> seqZ 0 16.

Definition des_encrypt (key : Z) : Z -> Z := DES (schedule key).
Definition des_decrypt (key : Z) : Z -> Z := DES (rev (schedule key)).

(** The worked example of the standard's validation tests. *)
Example des_vector : des_encrypt 0x0123456789abcdef 0x0123456789abcde7 = 0xc95744256a5ed31d.
Proof. by vm_compute. Qed.

(** ** Selections of bits *)
Lemma permute_snoc w table i x : permute w (table ++ [i]) x = 2 * permute w table x + Z.b2z (Z.testbit x (w - i)).
Proof. unfold permute. by rewrite foldl_snoc. Qed.

(** Bit [j] from the left is the bit the table names. *)
Lemma testbit_permute w table x j i : table !! j = Some i ->
  Z.testbit (permute w table x) (zlen table - 1 - Z.of_nat j) = Z.testbit x (w - i).
Proof.
  revert j. induction table as [|i' table IH] using rev_ind; [done|]. intros j Hj. rewrite permute_snoc.
  assert (zlen (table ++ [i']) = zlen table + 1) as Ez by (by rewrite zlen_app). rewrite Ez.
  destruct (decide (j = length table)) as [->|Hne].
  - rewrite lookup_app_r, Nat.sub_diag in Hj by lia. injection Hj as <-.
    replace (zlen table + 1 - 1 - Z.of_nat (length table)) with 0 by (unfold zlen; lia).
    apply Z.testbit_0_r.
  - assert (j < length table)%nat by (apply lookup_lt_Some in Hj; rewrite length_app in Hj; simpl in Hj; lia).
    rewrite lookup_app_l in Hj by lia. rewrite <-(IH j Hj).
    replace (zlen table + 1 - 1 - Z.of_nat j) with (Z.succ (zlen table - 1 - Z.of_nat j)) by lia.
    apply Z.testbit_succ_r. unfold zlen. lia.
Qed.

Lemma word_permute w table x : word (zlen table) (permute w table x).
Proof.
  induction table as [|i table IH] using rev_ind; [by unfold word|]. rewrite permute_snoc, zlen_app.
  unfold word in *. change (zlen [i]) with 1. rewrite Z.pow_add_r by (unfold zlen; lia).
  destruct (Z.testbit x (w - i)); simpl; lia.
Qed.

(** Selection commutes with the operations on single bits. *)
Lemma bit_by_bit (op : Z -> Z -> Z) (opb : bool -> bool -> bool) a a' b b' :
  (forall x y i, Z.testbit (op x y) i = opb (Z.testbit x i) (Z.testbit y i)) ->
  2 * op a a' + Z.b2z (opb b b') = op (2 * a + Z.b2z b) (2 * a' + Z.b2z b').
Proof.
  intros Hop. apply Z.bits_inj'. intros i Hi. rewrite Hop. destruct (decide (i = 0)) as [->|]; [by rewrite !Z.testbit_0_r|].
  rewrite <-(Z.succ_pred i), !Z.testbit_succ_r by lia. apply Hop.
Qed.

Lemma permute_bitwise op opb w table x y : op 0 0 = 0 ->
  (forall x y i, Z.testbit (op x y) i = opb (Z.testbit x i) (Z.testbit y i)) ->
  permute w table (op x y) = op (permute w table x) (permute w table y).
Proof.
  intros H0 Hop. induction table as [|i table IH] using rev_ind; [done|].
  by rewrite !permute_snoc, IH, Hop, (bit_by_bit op opb).
Qed.

Lemma permute_lxor w table x y : permute w table (x .^ y) = permute w table x .^ permute w table y.
Proof. apply (permute_bitwise Z.lxor xorb); [done|apply Z.lxor_spec]. Qed.

Lemma permute_lor w table x y : permute w table (x .| y) = permute w table x .| permute w table y.
Proof. apply (permute_bitwise Z.lor orb); [done|apply Z.lor_spec]. Qed.

(** ** The parts of the cipher are linear *)
Section linear.
Context {A : Type} {S : space A}.

Lemma linear_permute w (n m : nat) table g : zlen table = Z.of_nat m -> linear S (word_space n) g ->
  linear S (word_space m) (fun a => permute w table (g a)).
Proof.
  intros Hm Hg. split; [intros a _; simpl; rewrite <-Hm; apply word_permute|].
  intros a b Ha Hb. by rewrite (linear_add Hg), permute_lxor.
Qed.
End linear.

(** ** Joins and halves *)
Lemma join_lxor n x y : 0 <= n -> word n y -> join n x y = (x ≪ n) .^ y.
Proof.
  intros Hn Hy. unfold join. apply Z.bits_inj'. intros i Hi. rewrite Z.lor_spec, Z.lxor_spec, Z.shiftl_spec by done.
  destruct (Z.ltb_spec i n); [by rewrite (Z.testbit_neg_r _ (i - n)) by lia|].
  by rewrite (word_testbit n y i) by (done || lia); destruct (Z.testbit x (i - n)).
Qed.

Lemma word_join p n x y : 0 <= p -> 0 <= n -> word p x -> word n y -> word (p + n) (join n x y).
Proof.
  intros Hp Hn Hx Hy. unfold join. apply word_lor; [lia| |apply (word_mono n); [done|lia]].
  unfold word in *. rewrite Z.shiftl_mul_pow2, Z.pow_add_r by done. nia.
Qed.

Lemma join_halves n x : 0 <= n -> join n (x ≫ n) (wrap n x) = x.
Proof.
  intros Hn. unfold join. apply Z.bits_inj'. intros i Hi. rewrite Z.lor_spec, Z.shiftl_spec, testbit_wrap by done.
  destruct (Z.ltb_spec i n); [by rewrite (Z.testbit_neg_r _ (i - n)) by lia|].
  rewrite Z.shiftr_spec, Z.sub_add by lia. by rewrite orb_false_r.
Qed.

Lemma shiftr_join n x y : 0 <= n -> word n y -> join n x y ≫ n = x.
Proof.
  intros Hn Hy. unfold join. rewrite Z.shiftr_lor, Z.shiftr_shiftl_l, Z.sub_diag, Z.shiftl_0_r by done.
  unfold word in Hy. by rewrite Z.shiftr_div_pow2, Z.div_small, Z.lor_0_r by done.
Qed.

Lemma wrap_join n x y : 0 <= n -> word n y -> wrap n (join n x y) = y.
Proof.
  intros Hn Hy. unfold join. apply Z.bits_inj'. intros i Hi. rewrite testbit_wrap, Z.lor_spec, Z.shiftl_spec by done.
  destruct (Z.ltb_spec i n); [by rewrite (Z.testbit_neg_r _ (i - n)) by lia|]. symmetry. by apply (word_testbit n).
Qed.

Section linear.
Context {A : Type} {S : space A}.

Lemma linear_join (p n : nat) g h : linear S (word_space p) g -> linear S (word_space n) h ->
  linear S (word_space (p + n)) (fun a => join (Z.of_nat n) (g a) (h a)).
Proof.
  intros Hg Hh. split.
  - intros a Ha. simpl. rewrite Nat2Z.inj_add. apply word_join; [lia..|by apply (linear_valid Hg)|by apply (linear_valid Hh)].
  - intros a b Ha Hb. pose proof (linear_valid Hh a Ha) as Hva. pose proof (linear_valid Hh b Hb) as Hvb.
    rewrite (linear_add Hg), (linear_add Hh) by done. simpl in *. rewrite !join_lxor by (done || lia || apply word_lxor; done || lia).
    rewrite Z.shiftl_lxor. apply Z.bits_inj. intros i. rewrite !Z.lxor_spec. btauto.
Qed.

Lemma linear_wrap (n m : nat) g : (n <= m)%nat -> linear S (word_space m) g ->
  linear S (word_space n) (fun a => wrap (Z.of_nat n) (g a)).
Proof.
  intros Hn Hg. split; [intros a _; apply wrap_range; lia|]. intros a b Ha Hb.
  rewrite (linear_add Hg) by done. simpl. apply wrap_lxor. lia.
Qed.

Lemma linear_high (n m : nat) g : linear S (word_space (n + m)) g ->
  linear S (word_space n) (fun a => g a ≫ Z.of_nat m).
Proof.
  intros Hg. apply (linear_resize (n + m)); [|by apply linear_shiftr; [lia|]]. intros a Ha.
  replace (Z.of_nat n) with (Z.of_nat (n + m) - Z.of_nat m) by lia. apply word_shiftr_sub; [lia|by apply (linear_valid Hg)].
Qed.

Lemma linear_shifted i g : linear S (word_space 28) g -> linear S (word_space 28) (fun a => shifted i (g a)).
Proof.
  unfold shifted. intros Hg. assert (Forall (fun s => 0 <= s <= 28) (take i SHIFTS)) as Hs.
  { apply Forall_take. repeat constructor; lia. }
  revert g Hg. induction Hs as [|s l Hs' _ IH]; intros g Hg; [done|]. simpl. by apply IH, (linear_rotl 28).
Qed.
End linear.

Lemma linear_subkey i : linear (word_space 64) (word_space 48) (fun key => subkey key i).
Proof.
  unfold subkey. apply (linear_permute 56 56 48); [done|]. apply (linear_join 28 28).
  - apply linear_shifted, (linear_high 28 28), (linear_permute 64 64 56); [done|apply linear_id].
  - apply linear_shifted, (linear_wrap 28 56); [lia|]. apply (linear_permute 64 64 56); [done|apply linear_id].
Qed.

(** ** Decryption *)
Lemma fp_ip x : word 64 x -> permute 64 FP (permute 64 IP x) = x.
Proof.
  apply (linear_ext (S := word_space 64) (T := word_space 64) (fun x => permute 64 FP (permute 64 IP x)) (fun x => x)).
  - apply (linear_permute 64 64 64); [done|]. apply (linear_permute 64 64 64); [done|apply linear_id].
  - apply linear_id.
  - by vm_compute.
Qed.

Lemma ip_fp x : word 64 x -> permute 64 IP (permute 64 FP x) = x.
Proof.
  apply (linear_ext (S := word_space 64) (T := word_space 64) (fun x => permute 64 IP (permute 64 FP x)) (fun x => x)).
  - apply (linear_permute 64 64 64); [done|]. apply (linear_permute 64 64 64); [done|apply linear_id].
  - apply linear_id.
  - by vm_compute.
Qed.

Lemma word_f key r : word 32 (f key r).
Proof. apply (word_permute 32 P). Qed.

Lemma word_DES ks x : word 64 (DES ks x).
Proof. unfold DES. cbv zeta. destruct (rounds _ _ _). apply (word_permute 64 FP). Qed.

Lemma DES_inverse ks x : word 64 x -> DES (rev ks) (DES ks x) = x.
Proof.
  intros Hx. unfold DES at 2. cbv zeta. set (y := permute 64 IP x).
  assert (word 64 y) as Hy by apply (word_permute 64 IP).
  assert (word 32 (y ≫ 32)) as Hl by (apply (word_shiftr_sub 64 y 32); [lia|done]).
  assert (word 32 (wrap 32 y)) as Hr by by apply wrap_range.
  pose proof (feistel_words f ks (y ≫ 32, wrap 32 y) (fun k r _ => word_f k r) Hl Hr) as Hw.
  destruct (rounds (feistel f) ks (y ≫ 32, wrap 32 y)) as [l r] eqn:E. destruct Hw as [Hwl Hwr]. cbn [fst snd] in *.
  unfold DES. rewrite ip_fp by (by apply (word_join 32 32)). rewrite shiftr_join, wrap_join by done.
  change (r, l) with (swap (l, r)). rewrite <-E, feistel_inverse. cbn [swap].
  rewrite join_halves by done. by apply fp_ip.
Qed.
