(* ===== verification/Cast5.v ===== *)
(** * CAST5: [benchmarks/libg/cast5.c].

    The generic C code of the cipher (the assembly variants are outside the
    repository's C): the three round functions, the key schedule, the key setup
    with its self-test latch, and the bulk modes.  [rol], [buf_get_be32] and
    [buf_put_be32] are the inline functions of libgcrypt's [bithelp.h] and
    [bufhelp.h]. *)
From stdpp Require Import strings.
From S2P Require Import Prelude Arrays Bytes BlockCipher Cast5Tables.
Local Open Scope Z_scope.
Local Open Scope word_scope.

Record CAST5_context := mk_cast5 { Km : list Z; Kr : list Z }.

(** [rol] of [bithelp.h]. *)
Definition rol (x n : Z) : Z := u32 (x ≪ (n .& 31)) .| (x ≫ ((32 - n) .& 31)).

Inductive round_fn := F1 | F2 | F3.

Definition F (fn : round_fn) (D m r : Z) : Z :=
  match fn with
  | F1 =>
      let I := rol (u32 (m + D)) r in
      u32 (u32 ((get s1 (I ≫ 24) .^ get s2 ((I ≫ 16) .& 0xff)) - get s3 ((I ≫ 8) .& 0xff))
           + get s4 (I .& 0xff))
  | F2 =>
      let I := rol (m .^ D) r in
      u32 (u32 (get s1 (I ≫ 24) - get s2 ((I ≫ 16) .& 0xff)) + get s3 ((I ≫ 8) .& 0xff))
        .^ get s4 (I .& 0xff)
  | F3 =>
      let I := rol (u32 (m - D)) r in
      u32 ((u32 (get s1 (I ≫ 24) + get s2 ((I ≫ 16) .& 0xff)) .^ get s3 ((I ≫ 8) .& 0xff))
           - get s4 (I .& 0xff))
  end.

(** [t = l; l = r; r = t ^ Fn(r, Km[i], Kr[i])]. *)
Definition cast_round (c : CAST5_context) (call : round_fn * Z) (s : Z * Z) : Z * Z :=
  let '(l, r) := s in (r, l .^ F call.1 r (get (Km c) call.2) (get (Kr c) call.2)).

(** The calls as the two functions list them. *)
Definition encrypt_calls : list (round_fn * Z) :=
  [(F1, 0); (F2, 1); (F3, 2); (F1, 3); (F2, 4); (F3, 5); (F1, 6); (F2, 7); (F3, 8); (F1, 9); (F2, 10); (F3, 11); (F1, 12); (F2, 13); (F3, 14); (F1, 15)].
Definition decrypt_calls : list (round_fn * Z) :=
  [(F1, 15); (F3, 14); (F2, 13); (F1, 12); (F3, 11); (F2, 10); (F1, 9); (F3, 8); (F2, 7); (F1, 6); (F3, 5); (F2, 4); (F1, 3); (F3, 2); (F2, 1); (F1, 0)].

Definition do_encrypt_block (c : CAST5_context) (inbuf : list Z) : list Z :=
  let '(l, r) := rounds (cast_round c) encrypt_calls (be32_at inbuf 0, be32_at inbuf 4) in
  be32_bytes r ++ be32_bytes l.

Definition do_decrypt_block (c : CAST5_context) (inbuf : list Z) : list Z :=
  let '(l, r) := rounds (cast_round c) decrypt_calls (be32_at inbuf 0, be32_at inbuf 4) in
  be32_bytes r ++ be32_bytes l.

(** [xi(i)] and [zi(i)]: byte [i] of four words. *)
Definition byte_at (x : list Z) (i : Z) : Z := (get x (i / 4) ≫ (8 * (3 - i mod 4))) .& 0xff.

(** The assignments of [key_schedule], in order, on the state [(x, z, k)]. *)
Definition sched : Type := (list Z * list Z * list Z)%type.
Inductive target := To_x | To_z | To_k.
Definition assignment : Type := (target * Z * (list Z -> list Z -> Z))%type.
Definition assign (s : sched) (a : assignment) : sched :=
  let '(x, z, k) := s in
  let '(t, i, e) := a in
  match t with
  | To_x => (set x i (e x z), z, k)
  | To_z => (x, set z i (e x z), k)
  | To_k => (x, z, set k i (e x z))
  end.

Definition key_schedule_assignments : list assignment := [
  (To_z, 0, fun x z => get x 0 .^ get s5 (byte_at x 13) .^ get s6 (byte_at x 15) .^ get s7 (byte_at x 12) .^ get s8 (byte_at x 14) .^ get s7 (byte_at x 8));
  (To_z, 1, fun x z => get x 2 .^ get s5 (byte_at z 0) .^ get s6 (byte_at z 2) .^ get s7 (byte_at z 1) .^ get s8 (byte_at z 3) .^ get s8 (byte_at x 10));
  (To_z, 2, fun x z => get x 3 .^ get s5 (byte_at z 7) .^ get s6 (byte_at z 6) .^ get s7 (byte_at z 5) .^ get s8 (byte_at z 4) .^ get s5 (byte_at x 9));
  (To_z, 3, fun x z => get x 1 .^ get s5 (byte_at z 10) .^ get s6 (byte_at z 9) .^ get s7 (byte_at z 11) .^ get s8 (byte_at z 8) .^ get s6 (byte_at x 11));
  (To_k, 0, fun x z => get s5 (byte_at z 8) .^ get s6 (byte_at z 9) .^ get s7 (byte_at z 7) .^ get s8 (byte_at z 6) .^ get s5 (byte_at z 2));
  (To_k, 1, fun x z => get s5 (byte_at z 10) .^ get s6 (byte_at z 11) .^ get s7 (byte_at z 5) .^ get s8 (byte_at z 4) .^ get s6 (byte_at z 6));
  (To_k, 2, fun x z => get s5 (byte_at z 12) .^ get s6 (byte_at z 13) .^ get s7 (byte_at z 3) .^ get s8 (byte_at z 2) .^ get s7 (byte_at z 9));
  (To_k, 3, fun x z => get s5 (byte_at z 14) .^ get s6 (byte_at z 15) .^ get s7 (byte_at z 1) .^ get s8 (byte_at z 0) .^ get s8 (byte_at z 12));
  (To_x, 0, fun x z => get z 2 .^ get s5 (byte_at z 5) .^ get s6 (byte_at z 7) .^ get s7 (byte_at z 4) .^ get s8 (byte_at z 6) .^ get s7 (byte_at z 0));
  (To_x, 1, fun x z => get z 0 .^ get s5 (byte_at x 0) .^ get s6 (byte_at x 2) .^ get s7 (byte_at x 1) .^ get s8 (byte_at x 3) .^ get s8 (byte_at z 2));
  (To_x, 2, fun x z => get z 1 .^ get s5 (byte_at x 7) .^ get s6 (byte_at x 6) .^ get s7 (byte_at x 5) .^ get s8 (byte_at x 4) .^ get s5 (byte_at z 1));
  (To_x, 3, fun x z => get z 3 .^ get s5 (byte_at x 10) .^ get s6 (byte_at x 9) .^ get s7 (byte_at x 11) .^ get s8 (byte_at x 8) .^ get s6 (byte_at z 3));
  (To_k, 4, fun x z => get s5 (byte_at x 3) .^ get s6 (byte_at x 2) .^ get s7 (byte_at x 12) .^ get s8 (byte_at x 13) .^ get s5 (byte_at x 8));
  (To_k, 5, fun x z => get s5 (byte_at x 1) .^ get s6 (byte_at x 0) .^ get s7 (byte_at x 14) .^ get s8 (byte_at x 15) .^ get s6 (byte_at x 13));
  (To_k, 6, fun x z => get s5 (byte_at x 7) .^ get s6 (byte_at x 6) .^ get s7 (byte_at x 8) .^ get s8 (byte_at x 9) .^ get s7 (byte_at x 3));
  (To_k, 7, fun x z => get s5 (byte_at x 5) .^ get s6 (byte_at x 4) .^ get s7 (byte_at x 10) .^ get s8 (byte_at x 11) .^ get s8 (byte_at x 7));
  (To_z, 0, fun x z => get x 0 .^ get s5 (byte_at x 13) .^ get s6 (byte_at x 15) .^ get s7 (byte_at x 12) .^ get s8 (byte_at x 14) .^ get s7 (byte_at x 8));
  (To_z, 1, fun x z => get x 2 .^ get s5 (byte_at z 0) .^ get s6 (byte_at z 2) .^ get s7 (byte_at z 1) .^ get s8 (byte_at z 3) .^ get s8 (byte_at x 10));
  (To_z, 2, fun x z => get x 3 .^ get s5 (byte_at z 7) .^ get s6 (byte_at z 6) .^ get s7 (byte_at z 5) .^ get s8 (byte_at z 4) .^ get s5 (byte_at x 9));
  (To_z, 3, fun x z => get x 1 .^ get s5 (byte_at z 10) .^ get s6 (byte_at z 9) .^ get s7 (byte_at z 11) .^ get s8 (byte_at z 8) .^ get s6 (byte_at x 11));
  (To_k, 8, fun x z => get s5 (byte_at z 3) .^ get s6 (byte_at z 2) .^ get s7 (byte_at z 12) .^ get s8 (byte_at z 13) .^ get s5 (byte_at z 9));
  (To_k, 9, fun x z => get s5 (byte_at z 1) .^ get s6 (byte_at z 0) .^ get s7 (byte_at z 14) .^ get s8 (byte_at z 15) .^ get s6 (byte_at z 12));
  (To_k, 10, fun x z => get s5 (byte_at z 7) .^ get s6 (byte_at z 6) .^ get s7 (byte_at z 8) .^ get s8 (byte_at z 9) .^ get s7 (byte_at z 2));
  (To_k, 11, fun x z => get s5 (byte_at z 5) .^ get s6 (byte_at z 4) .^ get s7 (byte_at z 10) .^ get s8 (byte_at z 11) .^ get s8 (byte_at z 6));
  (To_x, 0, fun x z => get z 2 .^ get s5 (byte_at z 5) .^ get s6 (byte_at z 7) .^ get s7 (byte_at z 4) .^ get s8 (byte_at z 6) .^ get s7 (byte_at z 0));
  (To_x, 1, fun x z => get z 0 .^ get s5 (byte_at x 0) .^ get s6 (byte_at x 2) .^ get s7 (byte_at x 1) .^ get s8 (byte_at x 3) .^ get s8 (byte_at z 2));
  (To_x, 2, fun x z => get z 1 .^ get s5 (byte_at x 7) .^ get s6 (byte_at x 6) .^ get s7 (byte_at x 5) .^ get s8 (byte_at x 4) .^ get s5 (byte_at z 1));
  (To_x, 3, fun x z => get z 3 .^ get s5 (byte_at x 10) .^ get s6 (byte_at x 9) .^ get s7 (byte_at x 11) .^ get s8 (byte_at x 8) .^ get s6 (byte_at z 3));
  (To_k, 12, fun x z => get s5 (byte_at x 8) .^ get s6 (byte_at x 9) .^ get s7 (byte_at x 7) .^ get s8 (byte_at x 6) .^ get s5 (byte_at x 3));
  (To_k, 13, fun x z => get s5 (byte_at x 10) .^ get s6 (byte_at x 11) .^ get s7 (byte_at x 5) .^ get s8 (byte_at x 4) .^ get s6 (byte_at x 7));
  (To_k, 14, fun x z => get s5 (byte_at x 12) .^ get s6 (byte_at x 13) .^ get s7 (byte_at x 3) .^ get s8 (byte_at x 2) .^ get s7 (byte_at x 8));
  (To_k, 15, fun x z => get s5 (byte_at x 14) .^ get s6 (byte_at x 15) .^ get s7 (byte_at x 1) .^ get s8 (byte_at x 0) .^ get s8 (byte_at x 13)) ].

Definition key_schedule (s : sched) : sched := foldl assign s key_schedule_assignments.

Inductive gpg_err := GPG_ERR_NO_ERROR | GPG_ERR_SELFTEST_FAILED | GPG_ERR_INV_KEYLEN.

(** The body of [do_cast_setkey] after the guards: the first schedule gives the
    masking keys, the second, from where the first left [x], the rotations. *)
Definition cast_schedule (key : list Z) : CAST5_context :=
  let x := [be32_at key 0; be32_at key 4; be32_at key 8; be32_at key 12] in
  let '(x, z, k) := key_schedule (x, replicate 4 0, replicate 16 0) in
  let Km := k in
  let '(_, _, k) := key_schedule (x, z, k) in
  mk_cast5 Km ((fun w => w .& 0x1f) <$> k).

Example cast5_rfc2144_128 :
  let c := cast_schedule [0x01;0x23;0x45;0x67;0x12;0x34;0x56;0x78;0x23;0x45;0x67;0x89;0x34;0x56;0x78;0x9A] in
  do_encrypt_block c [0x01;0x23;0x45;0x67;0x89;0xAB;0xCD;0xEF]
  = [0x23;0x8B;0x4F;0xE5;0x84;0x7E;0x44;0xB2].
Proof. vm_compute. reflexivity. Qed.

Definition selftest_key : list Z :=
  [0x01;0x23;0x45;0x67;0x12;0x34;0x56;0x78;0x23;0x45;0x67;0x89;0x34;0x56;0x78;0x9A].

(** The latch of [do_cast_setkey]: its two [static] variables. *)
Record setkey_state := mk_setkey { initialized : bool; selftest_failed : option string }.

Section setkey.
(** The results of libgcrypt's self-test helpers for the three modes. *)
Variables selftest_cbc selftest_cfb selftest_ctr : option string.

Definition selftest : option string :=
  let c := cast_schedule selftest_key in
  let plain := [0x01;0x23;0x45;0x67;0x89;0xAB;0xCD;0xEF] in
  let buffer := do_encrypt_block c plain in
  if negb (bool_decide (buffer = [0x23;0x8B;0x4F;0xE5;0x84;0x7E;0x44;0xB2])) then Some "1"%string else
  let buffer := do_decrypt_block c buffer in
  if negb (bool_decide (buffer = plain)) then Some "2"%string else
  match selftest_cbc with Some r => Some r | None =>
  match selftest_cfb with Some r => Some r | None =>
  match selftest_ctr with Some r => Some r | None => None end end end.

Definition do_cast_setkey (st : setkey_state) (c : CAST5_context) (key : list Z) (keylen : Z)
    : gpg_err * CAST5_context * setkey_state :=
  let st := if initialized st then st else mk_setkey true selftest in
  match selftest_failed st with
  | Some _ => (GPG_ERR_SELFTEST_FAILED, c, st)
  | None => if negb (keylen =? 16) then (GPG_ERR_INV_KEYLEN, c, st)
            else (GPG_ERR_NO_ERROR, cast_schedule key, st)
  end.

Definition cast_setkey := do_cast_setkey.
End setkey.

(** The first [n] blocks of a buffer. *)
Fixpoint blocks_of (n : nat) (buf : list Z) : list (list Z) :=
  match n with O => [] | S n => take 8 buf :: blocks_of n (drop 8 buf) end.

(** ** The schedule *)
Lemma s4_word i : word 32 (get s4 i).
Proof. by apply words_b_get; [|vm_compute]. Qed.
Lemma s5_word i : word 32 (get s5 i).
Proof. by apply words_b_get; [|vm_compute]. Qed.
Lemma s6_word i : word 32 (get s6 i).
Proof. by apply words_b_get; [|vm_compute]. Qed.
Lemma s7_word i : word 32 (get s7 i).
Proof. by apply words_b_get; [|vm_compute]. Qed.
Lemma s8_word i : word 32 (get s8 i).
Proof. by apply words_b_get; [|vm_compute]. Qed.

Ltac sbox_word :=
  lazymatch goal with
  | |- word 32 (Z.lxor _ _) => apply word_lxor; [lia|sbox_word|sbox_word]
  | |- word 32 (get s5 ?i) => exact (s5_word i)
  | |- word 32 (get s6 ?i) => exact (s6_word i)
  | |- word 32 (get s7 ?i) => exact (s7_word i)
  | |- word 32 (get s8 ?i) => exact (s8_word i)
  | |- word 32 (get _ _) => eapply word_list_get; eassumption
  end.

Definition schedule_ok (s : sched) : Prop :=
  let '(x, z, k) := s in word_list 4 x /\ word_list 4 z /\ word_list 16 k.

(** Every right-hand side is a word when the state is. *)
Definition rhs_ok (a : assignment) : Prop :=
  forall x z, word_list 4 x -> word_list 4 z -> word 32 (a.2 x z).

Lemma assign_ok s a : schedule_ok s -> rhs_ok a -> schedule_ok (assign s a).
Proof.
  destruct s as [[x z] k], a as [[[] i] e]; intros (Hx & Hz & Hk) He; specialize (He _ _ Hx Hz);
    split_and!; try done; by apply word_list_set.
Qed.

Lemma assignments_ok : Forall rhs_ok key_schedule_assignments.
Proof.
  unfold key_schedule_assignments. Forall_list (intros x z Hx Hz; cbn [snd]; sbox_word).
Qed.

Lemma key_schedule_words s : schedule_ok s -> schedule_ok (key_schedule s).
Proof.
  unfold key_schedule. generalize assignments_ok. generalize key_schedule_assignments.
  intros l Hl. revert s. induction Hl as [|a l Ha Hl IH]; intros s Hs; [done|].
  simpl. apply IH. by apply assign_ok.
Qed.

Definition cast5_ok (c : CAST5_context) : Prop :=
  word_list 16 (Km c) /\ length (Kr c) = 16%nat /\ Forall (word 5) (Kr c).

Lemma cast_schedule_ok key : Forall (word 8) key -> cast5_ok (cast_schedule key).
Proof.
  intros Hkey. unfold cast_schedule.
  set (s0 := ([be32_at key 0; be32_at key 4; be32_at key 8; be32_at key 12],
    replicate 4 0, replicate 16 0)).
  assert (schedule_ok s0) as H0.
  { split_and!; try apply word_list_replicate. split; [done|].
    Forall_list (by apply be32_at_word). }
  pose proof (key_schedule_words _ H0) as H1.
  destruct (key_schedule s0) as [[x z] k]. pose proof (key_schedule_words _ H1) as H2.
  destruct H1 as (_ & _ & Hk1). destruct (key_schedule (x, z, k)) as [[x' z'] k'].
  destruct H2 as (_ & _ & [Hl Hw]). split_and!; simpl; [done|by rewrite length_fmap|].
  apply Forall_fmap. eapply Forall_impl; [exact Hw|]. intros w _. simpl.
  apply word_land_r; unfold word; lia.
Qed.

(** ** Blocks *)
Definition cast_f (c : CAST5_context) (call : round_fn * Z) (r : Z) : Z :=
  F call.1 r (get (Km c) call.2) (get (Kr c) call.2).

Lemma F_word fn D m r : word 32 (F fn D m r).
Proof.
  destruct fn; cbn [F]; [apply wrap_range; lia| |apply wrap_range; lia].
  apply word_lxor; [lia|apply wrap_range; lia|apply s4_word].
Qed.

(** The S-box indices of a round are bytes. *)
Lemma rol_word x n : word 32 x -> word 32 (rol x n).
Proof.
  intros. apply word_lor; [lia|apply wrap_range; lia|].
  apply word_shiftr; [apply Z.land_nonneg; lia|done].
Qed.

(** Either function undoes the other: their call lists are reverses. *)
Lemma cast5_inverse c calls b : bytes 8 b ->
  (let '(l, r) := rounds (cast_round c) (rev calls)
     (let '(l, r) := rounds (cast_round c) calls (be32_at b 0, be32_at b 4) in
      (be32_at (be32_bytes r ++ be32_bytes l) 0, be32_at (be32_bytes r ++ be32_bytes l) 4)) in
   be32_bytes r ++ be32_bytes l) = b.
Proof.
  intros Hb. change (rounds (cast_round c)) with (rounds (feistel (cast_f c))).
  pose proof (feistel_words (cast_f c) calls (be32_at b 0, be32_at b 4)
    (fun _ _ _ => F_word _ _ _ _) (be32_at_word _ _ (proj2 Hb)) (be32_at_word _ _ (proj2 Hb))) as [Hl Hr].
  pose proof (feistel_inverse (cast_f c) calls (be32_at b 0, be32_at b 4)) as Hinv.
  destruct (rounds (feistel (cast_f c)) calls _) as [l r]. cbn [swap fst snd] in *.
  destruct (be32_at_bytes r l Hr Hl) as [-> ->]. rewrite Hinv. by apply be32_bytes_at.
Qed.

Lemma cast5_dec_enc c b : bytes 8 b -> do_decrypt_block c (do_encrypt_block c b) = b.
Proof.
  intros Hb. rewrite <-(cast5_inverse c encrypt_calls b Hb) at 2.
  unfold do_encrypt_block, do_decrypt_block. by destruct (rounds _ encrypt_calls _).
Qed.
Lemma cast5_enc_dec c b : bytes 8 b -> do_encrypt_block c (do_decrypt_block c b) = b.
Proof.
  intros Hb. rewrite <-(cast5_inverse c decrypt_calls b Hb) at 2.
  unfold do_encrypt_block, do_decrypt_block. by destruct (rounds _ decrypt_calls _).
Qed.

#[export] Program Instance CAST5 : BlockCipher := {|
  bc_key := CAST5_context; bc_key_ok := cast5_ok; bc_size := 8;
  bc_encrypt := do_encrypt_block; bc_decrypt := do_decrypt_block |}.
Next Obligation.
  intros c b _ _. simpl. unfold do_encrypt_block. destruct (rounds _ _ _). apply be32_pair_bytes.
Qed.
Next Obligation. intros c b _ Hb. by apply cast5_dec_enc. Qed.

(** The bulk functions, on flat buffers. *)
Definition _gcry_cast5_ctr_enc (c : CAST5_context) (ctr inbuf : list Z) (nblocks : nat) :=
  let '(out, ctr) := ctr_enc c ctr (blocks_of nblocks inbuf) in (concat out, ctr).
Definition _gcry_cast5_cbc_dec (c : CAST5_context) (iv inbuf : list Z) (nblocks : nat) :=
  let '(out, iv) := cbc_dec c iv (blocks_of nblocks inbuf) in (concat out, iv).
Definition _gcry_cast5_cfb_dec (c : CAST5_context) (iv inbuf : list Z) (nblocks : nat) :=
  let '(out, iv) := cfb_dec c iv (blocks_of nblocks inbuf) in (concat out, iv).

Lemma blocks_of_concat blocks : Forall (bytes 8) blocks ->
  blocks_of (length blocks) (concat blocks) = blocks.
Proof.
  induction 1 as [|b bs [Hb _] Hbs IH]; [done|]. cbn [length blocks_of concat].
  by rewrite take_app_length', drop_app_length', IH by done.
Qed.

(** ** Properties *)

(** C30. Every 16-byte key gives a well-formed schedule (words to mask with,
    rotations below 32), and block encryption is a permutation of the 8-byte
    blocks whose inverse is block decryption, in both orders. *)
Theorem cast5_block_permutation key b : bytes 16 key -> bytes 8 b ->
  let c := cast_schedule key in
  cast5_ok c /\ bytes 8 (do_encrypt_block c b) /\
  do_decrypt_block c (do_encrypt_block c b) = b /\
  do_encrypt_block c (do_decrypt_block c b) = b.
Proof.
  intros [_ Hkey] Hb c. split; [by apply cast_schedule_ok|]. split.
  - unfold do_encrypt_block. destruct (rounds _ _ _). apply be32_pair_bytes.
  - split; [by apply cast5_dec_enc|by apply cast5_enc_dec].
Qed.

Lemma cast5_block_permutation_witness :
  do_decrypt_block (cast_schedule selftest_key)
    (do_encrypt_block (cast_schedule selftest_key) [1; 2; 3; 4; 5; 6; 7; 8]) = [1; 2; 3; 4; 5; 6; 7; 8].
Proof.
  apply (cast5_block_permutation selftest_key [1; 2; 3; 4; 5; 6; 7; 8]);
    (split; [reflexivity|repeat (apply Forall_cons; split; [unfold word; lia|]); by apply Forall_nil]).
Defined.

(** C31. The bulk modes invert the standard ones on any number of blocks: CBC
    and CFB decryption recover what CBC and CFB encrypted and return the last
    ciphertext block as the new chaining value; CTR applied twice is the
    identity, and advances the big-endian counter by the number of blocks
    modulo [2^64]. *)
Theorem cast5_bulk_modes c iv blocks : cast5_ok c -> bytes 8 iv -> Forall (bytes 8) blocks ->
  let n := length blocks in
  let cbc := @cbc_enc CAST5 c iv blocks in
  let cfb := @cfb_enc CAST5 c iv blocks in
  let ctr := _gcry_cast5_ctr_enc c iv (concat blocks) n in
  _gcry_cast5_cbc_dec c iv (concat cbc.1) n = (concat blocks, cbc.2) /\
  _gcry_cast5_cfb_dec c iv (concat cfb.1) n = (concat blocks, cfb.2) /\
  (_gcry_cast5_ctr_enc c iv ctr.1 n).1 = concat blocks /\
  be_value ctr.2 = (be_value iv + Z.of_nat n) mod 2 ^ 64.
Proof.
  intros Hc Hiv Hbs n cbc cfb ctr.
  assert (length cbc.1 = n /\ Forall (bytes 8) cbc.1) as [Hn1 Hb1]
    by (by apply (@cbc_enc_bytes CAST5)).
  assert (length cfb.1 = n /\ Forall (bytes 8) cfb.1) as [Hn2 Hb2]
    by (by apply (@cfb_enc_bytes CAST5)).
  destruct (@ctr_enc_bytes CAST5 c iv blocks Hc Hiv Hbs) as [Hn3 Hb3].
  assert (ctr = (concat (@ctr_enc CAST5 c iv blocks).1, (@ctr_enc CAST5 c iv blocks).2)) as ->.
  { unfold ctr, _gcry_cast5_ctr_enc, n. rewrite blocks_of_concat by done. by destruct (ctr_enc _ _ _). }
  cbn [fst snd]. split_and!.
  - unfold _gcry_cast5_cbc_dec. rewrite <-Hn1, blocks_of_concat by done.
    unfold cbc. by rewrite (@cbc_dec_enc CAST5).
  - unfold _gcry_cast5_cfb_dec. rewrite <-Hn2, blocks_of_concat by done.
    unfold cfb. by rewrite (@cfb_dec_enc CAST5).
  - unfold _gcry_cast5_ctr_enc, n. rewrite <-Hn3, blocks_of_concat by done.
    by rewrite (@ctr_enc_involutive CAST5).
  - by apply (@ctr_enc_counter CAST5).
Qed.

Lemma cast5_bulk_modes_witness :
  let c := cast_schedule selftest_key in
  let iv := replicate 8 255 in
  be_value (_gcry_cast5_ctr_enc c iv (replicate 16 7) 2).2 = 1.
Proof.
  intros c iv. assert (forall x, word 8 x -> bytes 8 (replicate 8 x)) as Hrep.
  { intros. split; [done|by apply Forall_replicate]. }
  apply (cast5_bulk_modes c iv [replicate 8 7; replicate 8 7]).
  - apply cast_schedule_ok. unfold selftest_key.
    repeat (apply Forall_cons; split; [unfold word; lia|]); by apply Forall_nil.
  - apply Hrep. unfold word; lia.
  - repeat (apply Forall_cons; split; [apply Hrep; unfold word; lia|]); by apply Forall_nil.
Defined.

(** The block vectors of the self-test pass. *)
Lemma selftest_helpers cbc cfb ctr : selftest cbc cfb ctr =
  match cbc with Some r => Some r | None => match cfb with Some r => Some r | None => ctr end end.
Proof.
  unfold selftest. cbv zeta.
  rewrite (bool_decide_eq_true_2 (do_encrypt_block _ _ = _)) by (vm_compute; reflexivity).
  rewrite (bool_decide_eq_true_2 (do_decrypt_block _ _ = _)) by (vm_compute; reflexivity).
  cbn [negb]. destruct cbc, cfb, ctr; reflexivity.
Qed.

(** C32. Key setup latches the self-test: the test vector of the file always
    passes, so the latch holds the first failure of the mode helpers; a latched
    failure refuses every key, a key that is not 16 bytes long is refused, and
    a refusal leaves the context as it was. *)
Theorem cast5_setkey_latch cbc cfb ctr st c key keylen :
  let failed := match cbc with Some r => Some r | None =>
    match cfb with Some r => Some r | None => ctr end end in
  selftest cbc cfb ctr = failed /\
  let '(rc, c', st') := cast_setkey cbc cfb ctr st c key keylen in
  st' = mk_setkey true (if initialized st then selftest_failed st else failed) /\
  (rc = GPG_ERR_NO_ERROR <-> selftest_failed st' = None /\ keylen = 16) /\
  (rc = GPG_ERR_SELFTEST_FAILED <-> selftest_failed st' <> None) /\
  c' = match rc with GPG_ERR_NO_ERROR => cast_schedule key | _ => c end.
Proof.
  intros failed. assert (selftest cbc cfb ctr = failed) as E by apply selftest_helpers.
  split; [done|]. unfold cast_setkey, do_cast_setkey. rewrite E. clear E.
  generalize (cast_schedule key). clearbody failed. intros c'.
  destruct st as [[] sf]; simpl.
  - destruct sf; simpl; [split_and!; try done; split; (done || by intros [? ?])|].
    destruct (Z.eqb_spec keylen 16); simpl; split_and!; try done; split; (done || by intros [? ?]).
  - destruct failed; simpl; [split_and!; try done; split; (done || by intros [? ?])|].
    destruct (Z.eqb_spec keylen 16); simpl; split_and!; try done; split; (done || by intros [? ?]).
Qed.
