(* ===== verification/Blowfish.v ===== *)
(** * Blowfish: [benchmarks/pycrypto/src/Blowfish.c].

    The state carries a magic number that the key setup sets last; encryption
    and decryption assert it, and an [assert] that fails is [None]. *)
From S2P Require Import Prelude Arrays Bytes BlockCipher BlowfishTables.
Local Open Scope Z_scope.
Local Open Scope word_scope.

Definition BLOWFISH_MAGIC : Z := 0xf9d565de.

Record Blowfish_state := mk_bf {
  magic : Z; P : list Z; S1 : list Z; S2 : list Z; S3 : list Z; S4 : list Z }.

(** [F(a, b, c, d)], modulo [2^32]. *)
Definition F (a b c d : Z) : Z := u32 ((u32 (a + b) .^ c) + d).

Definition bytes_to_word (inp : list Z) (off : Z) : Z := be32_at inp off.
Definition word_to_bytes (w : Z) : list Z := be32_bytes w.

Definition F_at (self : Blowfish_state) (xL : Z) : Z :=
  F (get (S1 self) ((xL ≫ 24) .& 0xff)) (get (S2 self) ((xL ≫ 16) .& 0xff))
    (get (S3 self) ((xL ≫ 8) .& 0xff)) (get (S4 self) (xL .& 0xff)).

(** One iteration of each loop; a pair is [(xL, xR)]. *)
Definition enc_round (self : Blowfish_state) (i : Z) (x : Z * Z) : Z * Z :=
  let '(xL, xR) := x in
  let xL := xL .^ get (P self) i in
  let xR := xR .^ F_at self xL in
  swap (xL, xR).

Definition dec_round (self : Blowfish_state) (i : Z) (x : Z * Z) : Z * Z :=
  let '(xL, xR) := swap x in
  let xR := xR .^ F_at self xL in
  let xL := xL .^ get (P self) i in
  (xL, xR).

Definition inline_encrypt (self : Blowfish_state) (x : Z * Z) : Z * Z :=
  let '(xL, xR) := swap (rounds (enc_round self) (seqZ 0 16) x) in
  (xL .^ get (P self) 17, xR .^ get (P self) 16).

Definition inline_decrypt (self : Blowfish_state) (x : Z * Z) : Z * Z :=
  let '(xL, xR) := x in
  let x := swap (xL .^ get (P self) 17, xR .^ get (P self) 16) in
  rounds (dec_round self) (rev (seqZ 0 16)) x.

Definition Blowfish_encrypt (self : Blowfish_state) (inp : list Z) : option (list Z) :=
  if negb (magic self =? BLOWFISH_MAGIC) then None else
  let '(xL, xR) := inline_encrypt self (bytes_to_word inp 0, bytes_to_word inp 4) in
  Some (word_to_bytes xL ++ word_to_bytes xR).

Definition Blowfish_decrypt (self : Blowfish_state) (inp : list Z) : option (list Z) :=
  if negb (magic self =? BLOWFISH_MAGIC) then None else
  let '(xL, xR) := inline_decrypt self (bytes_to_word inp 0, bytes_to_word inp 4) in
  Some (word_to_bytes xL ++ word_to_bytes xR).

(** *** Key setup *)

Definition with_P (l : list Z) (s : Blowfish_state) := mk_bf (magic s) l (S1 s) (S2 s) (S3 s) (S4 s).
Definition with_S1 (l : list Z) (s : Blowfish_state) := mk_bf (magic s) (P s) l (S2 s) (S3 s) (S4 s).
Definition with_S2 (l : list Z) (s : Blowfish_state) := mk_bf (magic s) (P s) (S1 s) l (S3 s) (S4 s).
Definition with_S3 (l : list Z) (s : Blowfish_state) := mk_bf (magic s) (P s) (S1 s) (S2 s) l (S4 s).
Definition with_S4 (l : list Z) (s : Blowfish_state) := mk_bf (magic s) (P s) (S1 s) (S2 s) (S3 s) l.
Definition with_magic (m : Z) (s : Blowfish_state) := mk_bf m (P s) (S1 s) (S2 s) (S3 s) (S4 s).

(** The 72 steps that xor the key into the digits of pi. *)
Definition mix_key (key : list Z) (keylen : Z) (p : list Z) : list Z :=
  (loop 0 (18 * 4) (fun i '(p, w) =>
    let w := u32 (w ≪ 8) .| get key (i mod keylen) in
    if (i .& 3) =? 3 then (set p (i ≫ 2) (get initial_P (i ≫ 2) .^ w), 0) else (p, w)) (p, 0)).1.

(** [for (i = 0; i < n; i += 2) { inline_encrypt; a[i] = xL; a[i+1] = xR; }],
    where [a] is the array that [geta] reads and [puta] replaces. *)
Definition stir (geta : Blowfish_state -> list Z) (puta : list Z -> Blowfish_state -> Blowfish_state)
    (n : Z) (st : Blowfish_state * (Z * Z)) : Blowfish_state * (Z * Z) :=
  loop 0 (n / 2) (fun j '(s, x) =>
    let x := inline_encrypt s x in
    (puta (set (set (geta s) (2 * j) x.1) (2 * j + 1) x.2) s, x)) st.

Definition Blowfish_init (self : Blowfish_state) (key : list Z) (keylen : Z) : Blowfish_state :=
  let self := with_magic 0 self in
  if keylen <? 1 then self else if 56 <? keylen then self else
  let self := with_P (mix_key key keylen (P self)) self in
  let self := with_S4 initial_S4 (with_S3 initial_S3 (with_S2 initial_S2 (with_S1 initial_S1 self))) in
  let st := (self, (0, 0)) in
  let st := stir P with_P 18 st in
  let st := stir S1 with_S1 256 st in
  let st := stir S2 with_S2 256 st in
  let st := stir S3 with_S3 256 st in
  let st := stir S4 with_S4 256 st in
  with_magic BLOWFISH_MAGIC st.1.

(** The state of [main]: all zeros. *)
Definition zero_state : Blowfish_state :=
  mk_bf 0 (replicate 18 0) (replicate 256 0) (replicate 256 0) (replicate 256 0) (replicate 256 0).

Example blowfish_zero_vector :
  Blowfish_encrypt (Blowfish_init zero_state (replicate 8 0) 8) (replicate 8 0)
  = Some [0x4E; 0xF9; 0x97; 0x45; 0x61; 0x98; 0xDD; 0x78].
Proof. vm_compute. reflexivity. Qed.

(** ** Well-formed states *)
Definition bf_ok (s : Blowfish_state) : Prop :=
  word_list 18 (P s) /\ word_list 256 (S1 s) /\ word_list 256 (S2 s) /\
  word_list 256 (S3 s) /\ word_list 256 (S4 s).
Definition pair_ok (x : Z * Z) : Prop := word 32 x.1 /\ word 32 x.2.

Section blocks.
Implicit Types (s : Blowfish_state) (i : Z) (x : Z * Z).

Lemma bf_F_word a b c d : word 32 (F a b c d).
Proof. apply wrap_range. lia. Qed.

Lemma enc_round_ok s i x : bf_ok s -> pair_ok x -> pair_ok (enc_round s i x).
Proof.
  intros (HP & _) [Hl Hr]. destruct x as [xL xR]. split; simpl in *.
  - apply word_lxor; [lia|done|apply bf_F_word].
  - apply word_lxor; [lia|done|by eapply word_list_get].
Qed.

Lemma dec_enc_round s i x : dec_round s i (enc_round s i x) = x.
Proof. destruct x as [xL xR]. unfold dec_round, enc_round; cbn [swap]. by rewrite !lxor_cancel_r. Qed.
Lemma enc_dec_round s i x : enc_round s i (dec_round s i x) = x.
Proof. destruct x as [xL xR]. unfold dec_round, enc_round; cbn [swap]. by rewrite !lxor_cancel_r. Qed.

Lemma inline_encrypt_ok s x : bf_ok s -> pair_ok x -> pair_ok (inline_encrypt s x).
Proof.
  intros Hs Hx. unfold inline_encrypt.
  pose proof (rounds_ok (enc_round s) (fun _ => True) pair_ok (fun i x _ => enc_round_ok s i x Hs)
    (seqZ 0 16) x (Forall_trivial _) Hx) as [Hl Hr].
  destruct (rounds _ _ _) as [xL xR]. destruct Hs as (HP & _). split; simpl in *.
  all: apply word_lxor; [lia|done|by eapply word_list_get].
Qed.

Lemma swap_swap x : swap (swap x) = x.
Proof. by destruct x. Qed.

Lemma inline_dec_enc s x : inline_decrypt s (inline_encrypt s x) = x.
Proof.
  unfold inline_decrypt, inline_encrypt.
  pose proof (rounds_inverse (enc_round s) (dec_round s) (fun _ => True) (fun _ => True)
    (fun _ _ _ _ => I) (fun i x _ _ => dec_enc_round s i x) (seqZ 0 16) x) as H.
  destruct (swap (rounds _ _ _)) as [xL xR] eqn:E. rewrite !lxor_cancel_r, <-E, swap_swap.
  apply H; [apply Forall_trivial|done].
Qed.

Lemma inline_enc_dec s x : inline_encrypt s (inline_decrypt s x) = x.
Proof.
  unfold inline_decrypt, inline_encrypt. destruct x as [xL xR].
  pose proof (rounds_inverse (dec_round s) (enc_round s) (fun _ => True) (fun _ => True)
    (fun _ _ _ _ => I) (fun i x _ _ => enc_dec_round s i x) (rev (seqZ 0 16))
    (swap (xL .^ get (P s) 17, xR .^ get (P s) 16))) as H.
  rewrite rev_involutive in H. rewrite H by (first [apply Forall_trivial | exact I]). rewrite swap_swap.
  by rewrite !lxor_cancel_r.
Qed.

Lemma inline_decrypt_ok s x : bf_ok s -> pair_ok x -> pair_ok (inline_decrypt s x).
Proof.
  intros Hs [Hl Hr]. unfold inline_decrypt. destruct x as [xL xR].
  apply rounds_ok with (okk := fun _ => True); [|apply Forall_trivial|].
  - intros i [yL yR] _ [Hyl Hyr]. destruct Hs as (HP & _). split; simpl in *.
    + apply word_lxor; [lia|done|by eapply word_list_get].
    + apply word_lxor; [lia|done|apply bf_F_word].
  - destruct Hs as (HP & _). split; simpl in *;
      (apply word_lxor; [lia|done|by eapply word_list_get]).
Qed.
End blocks.

(** ** Key setup *)
Section init.
Implicit Types (s : Blowfish_state) (key : list Z).

Lemma get_byte key i : Forall (word 8) key -> word 8 (get key i).
Proof.
  intros Hk. unfold get. destruct (nth_in_or_default (Z.to_nat i) key 0) as [Hin| ->].
  - rewrite List.Forall_forall in Hk. auto.
  - unfold word; lia.
Qed.

Lemma mix_key_words key n p : Forall (word 8) key -> word_list 18 p -> word_list 18 (mix_key key n p).
Proof.
  intros Hk Hp. unfold mix_key.
  apply (loop_inv (fun _ (st : list Z * Z) => word_list 18 st.1 /\ word 32 st.2)
    0 (18 * 4) _ (p, 0)).
  - lia.
  - split; [done|unfold word; simpl; lia].
  - intros i [q w] Hi [Hq Hw]. simpl in *.
    assert (word 32 (u32 (w ≪ 8) .| get key (i mod n))) as Hw'.
    { apply word_lor; [lia|apply wrap_range; lia|]. eapply word_mono; [by apply get_byte|lia]. }
    destruct (_ =? 3); simpl; [|done]. split; [|unfold word; lia].
    apply word_list_set; [done|]. apply word_lxor; [lia| |done].
    by apply words_b_get; [|vm_compute].
Qed.

(** A stirring loop keeps the state well-formed when writing to the array does. *)
Lemma stir_ok geta puta n st :
  (forall s i x y, bf_ok s -> word 32 x -> word 32 y ->
     bf_ok (puta (set (set (geta s) i x) (i + 1) y) s)) ->
  0 <= n -> bf_ok st.1 /\ pair_ok st.2 ->
  bf_ok (stir geta puta n st).1 /\ pair_ok (stir geta puta n st).2.
Proof.
  intros Hput Hn Hst. unfold stir.
  apply (loop_inv (fun _ (st : Blowfish_state * (Z * Z)) => bf_ok st.1 /\ pair_ok st.2)); [|done|].
  - apply Z.div_pos; lia.
  - intros j [s x] Hj [Hs Hx]. simpl in *.
    pose proof (inline_encrypt_ok s x Hs Hx) as [Hl Hr]. split; [|done]. by apply Hput.
Qed.

Lemma set2_words m l i x y : word_list m l -> word 32 x -> word 32 y ->
  word_list m (set (set l i x) (i + 1) y).
Proof. intros. apply word_list_set; [by apply word_list_set|done]. Qed.

Lemma bf_init_ok s key keylen : Forall (word 8) key -> word_list 18 (P s) -> 1 <= keylen <= 56 ->
  bf_ok (Blowfish_init s key keylen) /\ magic (Blowfish_init s key keylen) = BLOWFISH_MAGIC.
Proof.
  intros Hk HP Hn. unfold Blowfish_init.
  destruct (Z.ltb_spec keylen 1), (Z.ltb_spec 56 keylen); try lia. cbv zeta.
  split; [|done].
  set (st0 := (with_S4 _ _, (0, 0))).
  assert (bf_ok st0.1 /\ pair_ok st0.2) as Hst0.
  { split; [|split; unfold word; simpl; lia]. split_and!; simpl.
    - by apply mix_key_words.
    - split; [done|apply words_b_Forall; vm_compute; reflexivity].
    - split; [done|apply words_b_Forall; vm_compute; reflexivity].
    - split; [done|apply words_b_Forall; vm_compute; reflexivity].
    - split; [done|apply words_b_Forall; vm_compute; reflexivity]. }
  clearbody st0.
  assert (forall x s, bf_ok s -> bf_ok (with_magic x s)) as Hm by (intros x [] Hs; exact Hs).
  apply Hm.
  repeat (apply stir_ok; [intros s' i x y (? & ? & ? & ? & ?) ? ?; split_and!; simpl; try done;
    by apply set2_words|lia|]). done.
Qed.

Lemma bf_block_roundtrip s b : magic s = BLOWFISH_MAGIC -> bf_ok s -> bytes 8 b ->
  (exists c, Blowfish_encrypt s b = Some c /\ bytes 8 c /\ Blowfish_decrypt s c = Some b) /\
  (exists c, Blowfish_decrypt s b = Some c /\ bytes 8 c /\ Blowfish_encrypt s c = Some b).
Proof.
  intros Hm Hs Hb. unfold Blowfish_encrypt, Blowfish_decrypt. rewrite Hm, Z.eqb_refl. cbn [negb].
  unfold bytes_to_word, word_to_bytes.
  assert (pair_ok (be32_at b 0, be32_at b 4)) as Hx by (split; apply be32_at_word, Hb).
  pose proof (inline_encrypt_ok s _ Hs Hx) as He. pose proof (inline_dec_enc s (be32_at b 0, be32_at b 4)) as Hde.
  pose proof (inline_decrypt_ok s _ Hs Hx) as Hd. pose proof (inline_enc_dec s (be32_at b 0, be32_at b 4)) as Hed.
  split.
  - revert He Hde. generalize (inline_encrypt s (be32_at b 0, be32_at b 4)). intros [l r] [? ?] Hde. eexists. split; [done|].
    split; [apply be32_pair_bytes|]. cbn [fst snd] in *. destruct (be32_at_bytes l r) as [-> ->]; [done|done|].
    rewrite Hde. by rewrite be32_bytes_at.
  - revert Hd Hed. generalize (inline_decrypt s (be32_at b 0, be32_at b 4)). intros [l r] [? ?] Hed. eexists. split; [done|].
    split; [apply be32_pair_bytes|]. cbn [fst snd] in *. destruct (be32_at_bytes l r) as [-> ->]; [done|done|].
    rewrite Hed. by rewrite be32_bytes_at.
Qed.
End init.

(** ** Properties *)

(** C33. A key of 1 to 56 bytes gives a state on which encryption and decryption
    succeed on every block and undo each other in both orders.  Any other key
    length leaves the magic number cleared, so that the assertion of every
    later encryption and decryption fails, even on a state that was usable. *)
Theorem blowfish_init_then_blocks s key keylen b :
  Forall (word 8) key -> word_list 18 (P s) -> bytes 8 b ->
  let s' := Blowfish_init s key keylen in
  if (1 <=? keylen) && (keylen <=? 56) then
    bf_ok s' /\
    (exists c, Blowfish_encrypt s' b = Some c /\ bytes 8 c /\ Blowfish_decrypt s' c = Some b) /\
    (exists c, Blowfish_decrypt s' b = Some c /\ bytes 8 c /\ Blowfish_encrypt s' c = Some b)
  else Blowfish_encrypt s' b = None /\ Blowfish_decrypt s' b = None.
Proof.
  intros Hk HP Hb s'. destruct (Z.leb_spec 1 keylen), (Z.leb_spec keylen 56); cbn [andb].
  - destruct (bf_init_ok s key keylen) as [Hs Hm]; [done|done|lia|]. split; [done|].
    by apply bf_block_roundtrip.
  - unfold s', Blowfish_init. destruct (Z.ltb_spec keylen 1), (Z.ltb_spec 56 keylen); try lia. by split.
  - unfold s', Blowfish_init. destruct (Z.ltb_spec keylen 1); [by split|lia].
  - lia.
Qed.

Lemma blowfish_init_then_blocks_witness :
  Blowfish_encrypt (Blowfish_init zero_state (replicate 8 0) 57) (replicate 8 0) = None.
Proof.
  apply (blowfish_init_then_blocks zero_state (replicate 8 0) 57 (replicate 8 0)).
  - apply Forall_replicate. unfold word; lia.
  - apply word_list_replicate.
  - split; [reflexivity|]. apply Forall_replicate. unfold word; lia.
Defined.
