(* ===== verification/Ghostrider.v ===== *)
(** * The GhostRider programs: [benchmarks/ghostrider/].

    [findmax.c], [histogram.c], [binsearch.c] and [matmul.c] over any standard input,
    a C array of [int] being a list and [int] arithmetic 32-bit.  [None] is an access
    outside an array. *)
From S2P Require Import Prelude Arrays Rows Bytes RunnerIo Stdin.
Local Open Scope Z_scope.

(** ** findmax.c *)
Module FindMax.
Definition INPUT_SIZE : Z := 1000.

Definition max (n : Z) (h : list Z) : option Z :=
  for_range 0 n (fun i m => x ← rd h i; Some (if m <? x then x else m)) 0.

Definition main {T} `{!Stdin T} (s : T) : option (T * list Z) :=
  '(s, in_) ← read_array 2 INPUT_SIZE (replicate (Z.to_nat INPUT_SIZE) 0) s;
  res ← max INPUT_SIZE in_;
  Some ((sys_write 1 4 s).1, int_bytes res).

(** The maximum, 0 if there is no positive entry. *)
Definition is_max (m : Z) (f : Z -> Z) (n : Z) : Prop :=
  0 <= m /\ (forall i, 0 <= i < n -> f i <= m) /\ (m = 0 \/ exists i, 0 <= i < n /\ f i = m).

Lemma max_tab n f : 0 <= n -> exists m, max n (tab n f) = Some m /\ is_max m f n.
Proof.
  intros Hn. unfold max.
  apply (for_range_inv (fun j m => is_max m f j)); [done|split_and!; [done|lia|by left]|].
  intros j m Hj (H0 & Hle & Hex). rewrite rd_tab by done. simpl. eexists. split; [done|].
  destruct (Z.ltb_spec m (f j)); (split_and!; [lia|intros i Hi; destruct (decide (i = j)) as [->|]; [lia|];
    specialize (Hle i ltac:(lia)); lia|]); [right; exists j; lia|].
  destruct Hex as [|(i & Hi & Ei)]; [by left|right]. exists i. split; [lia|done].
Qed.
End FindMax.

(** ** histogram.c *)
Module Histogram.
Definition INPUT_SIZE : Z := 1000.

Definition histogram (a c : list Z) : option (list Z) :=
  c ← for_range 0 INPUT_SIZE (fun i c => wr c i 0) c;
  for_range 0 INPUT_SIZE (fun i c =>
    v ← rd a i;
    let t := if 0 <? v then Z.rem v INPUT_SIZE else Z.rem (s32 (0 - v)) INPUT_SIZE in
    x ← rd c t; wr c t (s32 (x + 1))) c.

Definition main {T} `{!Stdin T} (s : T) : option (T * list Z) :=
  let zeros := replicate (Z.to_nat INPUT_SIZE) 0 in
  '(s, in_) ← read_array 2 INPUT_SIZE zeros s;
  out ← histogram in_ zeros;
  Some ((sys_write 1 (INPUT_SIZE * 4) s).1, out ≫= int_bytes).

Definition bucket (v : Z) : Z := Z.abs v mod INPUT_SIZE.
Definition hits (f : Z -> Z) (n t : Z) : Z := zlen (filter (fun i => bucket (f i) = t) (seqZ 0 n)).

Lemma hits_next f n t : 0 <= n -> hits f (n + 1) t = hits f n t + if t =? bucket (f n) then 1 else 0.
Proof.
  intros Hn. unfold hits. rewrite seqZ_app by lia. rewrite filter_app, zlen_app, Z.add_0_l.
  f_equal. change (seqZ n 1) with [n]. rewrite filter_cons, filter_nil.
  destruct (Z.eqb_spec t (bucket (f n))), (decide _); congruence || done.
Qed.

Lemma hits_range f n t : 0 <= n -> 0 <= hits f n t <= n.
Proof.
  intros Hn. unfold hits, zlen. split; [lia|].
  pose proof (length_filter (fun i => bucket (f i) = t) (seqZ 0 n)) as Hl. rewrite length_seqZ in Hl. lia.
Qed.

Lemma histogram_index v : - 2 ^ 31 < v < 2 ^ 31 ->
  (if 0 <? v then Z.rem v INPUT_SIZE else Z.rem (s32 (0 - v)) INPUT_SIZE) = bucket v.
Proof.
  intros Hv. unfold bucket, INPUT_SIZE. rewrite (sgn_small 32) by (unfold sword; lia).
  destruct (Z.ltb_spec 0 v); rewrite Z.rem_mod_nonneg by lia; f_equal; lia.
Qed.

(** Each bucket counts its entries. *)
Lemma histogram_counts f c : zlen c = INPUT_SIZE -> (forall i, 0 <= i < INPUT_SIZE -> - 2 ^ 31 < f i < 2 ^ 31) ->
  histogram (tab INPUT_SIZE f) c = Some (tab INPUT_SIZE (hits f INPUT_SIZE)).
Proof.
  intros Hc Hf. unfold histogram. rewrite (fill_loop c 0 INPUT_SIZE (fun _ => 0)) by (done || unfold INPUT_SIZE in *; lia).
  rewrite Hc. simpl.
  for_loop (fun j c => c = tab INPUT_SIZE (hits f j)) as (c' & E & ->); [done|..|exact E].
  - apply tab_ext. intros t Ht. by destruct (Z.leb_spec 0 t), (Z.ltb_spec t INPUT_SIZE); try lia.
  - intros j c' Hj ->. rewrite rd_tab by done. simpl. rewrite histogram_index by auto.
    pose proof (Z.mod_pos_bound (Z.abs (f j)) INPUT_SIZE ltac:(done)) as Hb. fold (bucket (f j)) in Hb.
    pose proof (hits_range f j (bucket (f j)) ltac:(lia)). rewrite rd_tab by done. simpl. rewrite wr_tab by done.
    eexists. split; [done|]. apply tab_ext. intros t Ht. rewrite hits_next by lia.
    destruct (Z.eqb_spec t (bucket (f j))) as [->|]; [apply sgn_small; unfold sword, INPUT_SIZE in *; lia|lia].
Qed.
End Histogram.

(** ** binsearch.c *)
Module BinSearch.
Definition INPUT_SIZE : Z := 10000.

Fixpoint binarySearch (fuel : nat) (arr : list Z) (l r x : Z) : option Z :=
  if l <=? r then
    match fuel with
    | O => None
    | S fuel =>
        let m := s32 (l + Z.quot (s32 (r - l)) 2) in
        v ← rd arr m;
        if v =? x then Some m
        else if v <? x then binarySearch fuel arr (s32 (m + 1)) r x
        else binarySearch fuel arr l (s32 (m - 1)) x
    end
  else Some (-1).

Definition main {T} `{!Stdin T} (s : T) : option (T * list Z) :=
  '(s, secret) ← read_int 2 0 s;
  let secret := Z.rem secret INPUT_SIZE in
  '(s, in_) ← read_array 2 INPUT_SIZE (replicate (Z.to_nat INPUT_SIZE) 0) s;
  res ← binarySearch (Z.to_nat INPUT_SIZE) in_ 0 (INPUT_SIZE - 1) secret;
  Some ((sys_write 1 4 s).1, int_bytes res).

Definition sorted (f : Z -> Z) (l r : Z) : Prop := forall i j, l <= i <= j -> j <= r -> f i <= f j.

(** An index of [x], or -1, which in a sorted array means that there is none. *)
Definition search_result (f : Z -> Z) (l r x res : Z) : Prop :=
  l <= res <= r /\ f res = x \/ res = -1 /\ (sorted f l r -> forall i, l <= i <= r -> f i <> x).

Lemma search_spec fuel n f l r x : n < 2 ^ 31 -> 0 <= l -> l <= n -> - 1 <= r < n -> r - l < Z.of_nat fuel ->
  exists res, binarySearch fuel (tab n f) l r x = Some res /\ search_result f l r x res.
Proof.
  intros Hn. revert l r. induction fuel as [|fuel IH]; intros l r Hl Hln Hr Hf; simpl;
    (destruct (Z.leb_spec l r); [|exists (-1); split; [done|right; split; [done|lia]]]); [lia|].
  rewrite (sgn_small 32 (r - l)), Z.quot_div_nonneg, sgn_small by (unfold sword; Z.to_euclidean_division_equations; lia).
  set (m := l + (r - l) `div` 2). assert (l <= m <= r) as Hm by (subst m; Z.to_euclidean_division_equations; lia). clearbody m.
  rewrite rd_tab by lia. simpl. destruct (Z.eqb_spec (f m) x) as [|Hne]; [exists m; split; [done|by left]|].
  rewrite !sgn_small by (unfold sword; lia). destruct (Z.ltb_spec (f m) x) as [Hlt|Hge].
  - destruct (IH (m + 1) r) as (res & -> & Hres); [lia..|]. exists res. split; [done|].
    destruct Hres as [[? ?]|[-> Hno]]; [left; split; [lia|done]|right]. split; [done|]. intros Hs i Hi Ei.
    destruct (decide (i <= m)); [specialize (Hs i m); lia|]. apply (Hno ltac:(intros ? ? ? ?; apply Hs; lia) i); [lia|done].
  - destruct (IH l (m - 1)) as (res & -> & Hres); [lia..|]. exists res. split; [done|].
    destruct Hres as [[? ?]|[-> Hno]]; [left; split; [lia|done]|right]. split; [done|]. intros Hs i Hi Ei.
    destruct (decide (m <= i)); [specialize (Hs m i); lia|]. apply (Hno ltac:(intros ? ? ? ?; apply Hs; lia) i); [lia|done].
Qed.
End BinSearch.

(** ** matmul.c *)
Module MatMul.
Definition INPUT_SIZE : Z := 128.

Abbreviation rd2 := (Rows.rd2 INPUT_SIZE).
Abbreviation wr2 := (Rows.wr2 INPUT_SIZE).
Abbreviation matrix := (Rows.matrix INPUT_SIZE).
Abbreviation inside := (Rows.inside INPUT_SIZE).
Abbreviation upto := (Rows.upto INPUT_SIZE).

Definition matmul (n : Z) (a b c : list Z) : option (list Z) :=
  for_range 0 n (fun i c => for_range 0 n (fun j c =>
    c ← wr2 c i j 0;
    for_range 0 n (fun k c =>
      x ← rd2 a i k; y ← rd2 b k j; z ← rd2 c i j; wr2 c i j (s32 (z + s32 (x * y)))) c) c) c.

Definition main {T} `{!Stdin T} (s : T) : option (T * list Z) :=
  let zeros := replicate (Z.to_nat (INPUT_SIZE * INPUT_SIZE)) 0 in
  '(s, in1, in2) ← for_range 0 INPUT_SIZE (fun i st => for_range 0 INPUT_SIZE (fun j '(s, in1, in2) =>
    x ← rd2 in1 i j; '(s, x) ← read_int 1 x s; in1 ← wr2 in1 i j x;
    y ← rd2 in2 i j; '(s, y) ← read_int 1 y s; in2 ← wr2 in2 i j y;
    Some (s, in1, in2)) st) (s, zeros, zeros);
  out ← matmul INPUT_SIZE in1 in2 zeros;
  Some ((sys_write 1 (INPUT_SIZE * INPUT_SIZE * 4) s).1, out ≫= int_bytes).

Definition dot (f g : Z -> Z -> Z) (n i j : Z) : Z := foldr (fun k x => f i k * g k j + x) 0 (seqZ 0 n).

Lemma dot_next f g n i j : 0 <= n -> dot f g (n + 1) i j = dot f g n i j + f i n * g n j.
Proof.
  intros Hn. unfold dot. rewrite seqZ_app by lia. rewrite Z.add_0_l, foldr_app. change (seqZ n 1) with [n]. simpl.
  induction (seqZ 0 n) as [|k ks IH]; simpl; lia.
Qed.

Definition byte_matrix (f : Z -> Z -> Z) : Prop := forall i j, inside i -> inside j -> 0 <= f i j < 256.

Lemma dot_range f g n i j : byte_matrix f -> byte_matrix g -> inside i -> inside j -> 0 <= n <= INPUT_SIZE ->
  0 <= dot f g n i j <= 65025 * n.
Proof.
  intros Hf Hg Hi Hj [Hn Hle]. revert n Hn Hle. apply (natlike_ind (fun n => n <= INPUT_SIZE -> 0 <= dot f g n i j <= 65025 * n)).
  - intros _. unfold dot. simpl. lia.
  - intros n Hn IH Hle. unfold Z.succ. rewrite dot_next by done. specialize (IH ltac:(lia)).
    pose proof (Hf i n Hi ltac:(unfold Rows.inside; lia)). pose proof (Hg n j ltac:(unfold Rows.inside; lia) Hj). nia.
Qed.

(** One entry of the product. *)
Lemma matmul_entry f g c i j : byte_matrix f -> byte_matrix g -> inside i -> inside j ->
  (c ← wr2 (matrix c) i j 0; for_range 0 INPUT_SIZE (fun k c =>
      x ← rd2 (matrix f) i k; y ← rd2 (matrix g) k j; z ← rd2 c i j; wr2 c i j (s32 (z + s32 (x * y)))) c) =
  wr2 (matrix c) i j (dot f g INPUT_SIZE i j).
Proof.
  intros Hf Hg Hi Hj. set (put v := fun i' j' => if (i' =? i) && (j' =? j) then v else c i' j').
  rewrite !wr2_matrix by done. cbn [mbind option_bind].
  fold (put 0). for_loop (fun k c' => c' = matrix (put (dot f g k i j))) as (c' & E & ->); [done|done| |exact E].
  intros k c' Hk ->. rewrite !rd2_matrix by done. simpl.
  assert (put (dot f g k i j) i j = dot f g k i j) as -> by (unfold put; by rewrite !Z.eqb_refl).
  rewrite wr2_matrix by done. eexists. split; [done|]. apply matrix_ext; [done|]. intros i' j' _ _. unfold put.
  destruct (Z.eqb_spec i' i), (Z.eqb_spec j' j); try done. simpl. rewrite dot_next by lia.
  pose proof (dot_range f g k i j Hf Hg Hi Hj ltac:(lia)).
  pose proof (Hf i k Hi Hk). pose proof (Hg k j Hk Hj). unfold INPUT_SIZE in *.
  assert (0 <= f i k * g k j <= 65025) by nia. rewrite (sgn_small 32 (f i k * g k j)) by (unfold sword; lia).
  apply sgn_small; unfold sword; lia.
Qed.

Lemma matmul_product f g c : byte_matrix f -> byte_matrix g ->
  matmul INPUT_SIZE (matrix f) (matrix g) (matrix c) = Some (matrix (dot f g INPUT_SIZE)).
Proof.
  intros Hf Hg. unfold matmul.
  destruct (for_cells INPUT_SIZE eq_refl (fun t c' => c' = matrix (upto (dot f g INPUT_SIZE) c t)) (fun i j c =>
    c ← wr2 c i j 0; for_range 0 INPUT_SIZE (fun k c =>
      x ← rd2 (matrix f) i k; y ← rd2 (matrix g) k j; z ← rd2 c i j; wr2 c i j (s32 (z + s32 (x * y)))) c) (matrix c))
    as (c' & -> & ->); [by rewrite upto_0| |by rewrite upto_all].
  intros i j c' Hi Hj ->. rewrite matmul_entry, upto_next by done. by eexists.
Qed.
End MatMul.

(** ** The programs on their input *)
Section mains.
Context {T : Type} `{!Stdin T}.
Implicit Types (s : T) (rest : list Z).

(** What a program leaves: the input consumed so far, nothing else. *)
Definition leaves (n : Z) s (r : option (T * list Z)) (out : list Z) : Prop :=
  exists s', r = Some (s', out) /\ stdin_ok s' /\ pending s' = consumed n (pending s).

Lemma write_leaves n s s' count out : stdin_ok s' -> word 64 count -> pending s' = consumed n (pending s) ->
  leaves n s (Some ((sys_write 1 count s').1, out)) out.
Proof.
  intros Hs Hc Ep. destruct (sys_write_spec 1 count s' Hs Hc) as [Hok Hw]. unfold input_write in Hw. simpl in Hw.
  eexists. split_and!; [done|done|]. rewrite <-Ep. congruence.
Qed.

(** The numbers a program reads. *)
Definition short_at rest (i : Z) : Z := number_at rest 2 (2 * i).

Lemma findmax_main s : stdin_ok s -> Forall (word 8) (pending s).1 ->
  exists m, FindMax.is_max m (short_at (pending s).1) FindMax.INPUT_SIZE /\ leaves 2000 s (FindMax.main s) (int_bytes m).
Proof.
  intros Hs Hr. unfold FindMax.main. assert (2 * FindMax.INPUT_SIZE = 2000) as HN by done.
  generalize dependent FindMax.INPUT_SIZE. intros N HN.
  destruct (read_array_spec s 2 N Hs ltac:(by right) Hr ltac:(lia)) as (s' & -> & Hs' & Ep).
  destruct (FindMax.max_tab N (short_at (pending s).1) ltac:(lia)) as (m & Em & Hm).
  exists m. split; [done|]. cbn [mbind option_bind]. fold (short_at (pending s).1). rewrite Em. cbn [mbind option_bind].
  apply write_leaves; [done|unfold word; lia|]. by rewrite Ep, HN.
Qed.

Lemma histogram_main s : stdin_ok s -> Forall (word 8) (pending s).1 ->
  leaves 2000 s (Histogram.main s)
    (tab Histogram.INPUT_SIZE (Histogram.hits (short_at (pending s).1) Histogram.INPUT_SIZE) ≫= int_bytes).
Proof.
  intros Hs Hr. unfold Histogram.main. cbv zeta.
  destruct (read_array_spec s 2 Histogram.INPUT_SIZE Hs ltac:(by right) Hr ltac:(done)) as (s' & -> & Hs' & Ep).
  rewrite bind_Some. cbv beta iota. fold (short_at (pending s).1). rewrite Histogram.histogram_counts.
  - rewrite bind_Some. apply write_leaves; [done|unfold word, Histogram.INPUT_SIZE; lia|]. rewrite Ep. f_equal.
  - by rewrite zlen_replicate.
  - intros i Hi. pose proof (number_at_range (pending s).1 2 (2 * i) ltac:(by right) Hr). unfold short_at. lia.
Qed.

Lemma binsearch_main s : stdin_ok s -> Forall (word 8) (pending s).1 ->
  exists res, BinSearch.search_result (fun i => number_at (pending s).1 2 (2 + 2 * i)) 0 (BinSearch.INPUT_SIZE - 1)
      (short_at (pending s).1 0 mod BinSearch.INPUT_SIZE) res /\
    leaves 20002 s (BinSearch.main s) (int_bytes res).
Proof.
  intros Hs Hr. unfold BinSearch.main. assert (BinSearch.INPUT_SIZE = 10000) as HN by done.
  generalize dependent BinSearch.INPUT_SIZE. intros N HN.
  destruct (read_int_spec s 2 Hs ltac:(by right) Hr) as (s1 & -> & Hs1 & Ep1). cbn [mbind option_bind].
  destruct (read_array_spec s1 2 N Hs1 ltac:(by right)) as (s' & -> & Hs' & Ep);
    [rewrite Ep1; by apply Forall_drop|lia|]. cbn [mbind option_bind].
  pose proof (number_at_range (pending s).1 2 0 ltac:(by right) Hr) as Hn.
  rewrite Z.rem_mod_nonneg by lia. change (number_at (pending s).1 2 0) with (short_at (pending s).1 0).
  set (x := short_at (pending s).1 0 mod N).
  rewrite (tab_ext N _ (fun i => number_at (pending s).1 2 (2 + 2 * i))).
  2: { intros i Hi. rewrite Ep1. apply (number_at_drop 2); lia. }
  destruct (BinSearch.search_spec (Z.to_nat N) N
    (fun i => number_at (pending s).1 2 (2 + 2 * i)) 0 (N - 1) x) as (res & E & Hres); [lia..|].
  exists res. split; [done|]. rewrite E. cbn [mbind option_bind]. apply write_leaves; [done|unfold word; lia|].
  rewrite Ep, Ep1, consumed_add by lia. f_equal. lia.
Qed.

(** The operands of the product, read alternately. *)
Definition operand rest (d i j : Z) : Z := get rest (2 * (MatMul.INPUT_SIZE * i + j) + d).

Lemma operand_bytes rest d : Forall (word 8) rest -> MatMul.byte_matrix (operand rest d).
Proof. intros Hr i j _ _. by apply (get_word 8). Qed.

Lemma zero_matrix : replicate (Z.to_nat (MatMul.INPUT_SIZE * MatMul.INPUT_SIZE)) 0 = MatMul.matrix (fun _ _ => 0).
Proof. unfold matrix. generalize (MatMul.INPUT_SIZE * MatMul.INPUT_SIZE). intros n. apply replicate_tab. Qed.

(** Reading one entry of each matrix. *)
Definition read_cell (i j : Z) (st : T * list Z * list Z) : option (T * list Z * list Z) :=
  let '(s, in1, in2) := st in
  x ← MatMul.rd2 in1 i j; '(s, x) ← read_int 1 x s; in1 ← MatMul.wr2 in1 i j x;
  y ← MatMul.rd2 in2 i j; '(s, y) ← read_int 1 y s; in2 ← MatMul.wr2 in2 i j y;
  Some (s, in1, in2).

Definition cells_read (i0 : input) (t : Z) (st : T * list Z * list Z) : Prop :=
  let '(s, in1, in2) := st in
  stdin_ok s /\ pending s = consumed (2 * t) i0 /\
  in1 = MatMul.matrix (MatMul.upto (operand i0.1 0) (fun _ _ => 0) t) /\
  in2 = MatMul.matrix (MatMul.upto (operand i0.1 1) (fun _ _ => 0) t).

Lemma read_cell_next i0 i j st : Forall (word 8) i0.1 -> MatMul.inside i -> MatMul.inside j ->
  cells_read i0 (MatMul.INPUT_SIZE * i + j) st ->
  exists st', read_cell i j st = Some st' /\ cells_read i0 (MatMul.INPUT_SIZE * i + j + 1) st'.
Proof.
  intros Hr Hi Hj. destruct st as [[s1 in1] in2]. intros (Hs1 & Ep1 & -> & ->). unfold read_cell.
  assert (0 <= MatMul.INPUT_SIZE * i + j) as Ht by (unfold Rows.inside, MatMul.INPUT_SIZE in *; lia).
  rewrite !rd2_matrix, !upto_here by done. cbn [mbind option_bind].
  destruct (read_int_next s1 1 i0 (2 * (MatMul.INPUT_SIZE * i + j)) Hs1 ltac:(by left) Hr ltac:(lia) Ep1) as (s2 & -> & Hs2 & Ep2).
  cbn [mbind option_bind]. rewrite number_at_1.
  assert (get i0.1 (2 * (MatMul.INPUT_SIZE * i + j)) = operand i0.1 0 i j) as -> by (unfold operand; by rewrite Z.add_0_r).
  rewrite upto_next by done. cbn [mbind option_bind].
  destruct (read_int_next s2 1 i0 (2 * (MatMul.INPUT_SIZE * i + j) + 1) Hs2 ltac:(by left) Hr ltac:(lia) Ep2) as (s3 & -> & Hs3 & Ep3).
  cbn [mbind option_bind]. rewrite number_at_1.
  change (get i0.1 (2 * (MatMul.INPUT_SIZE * i + j) + 1)) with (operand i0.1 1 i j).
  rewrite upto_next by done. cbn [mbind option_bind]. eexists. split; [done|].
  split_and!; [done| |done|done]. rewrite Ep3. f_equal. lia.
Qed.

Lemma read_operands s : stdin_ok s -> Forall (word 8) (pending s).1 ->
  exists s', for_range 0 MatMul.INPUT_SIZE (fun i st => for_range 0 MatMul.INPUT_SIZE (fun j st => read_cell i j st) st)
      (s, MatMul.matrix (fun _ _ => 0), MatMul.matrix (fun _ _ => 0)) =
    Some (s', MatMul.matrix (operand (pending s).1 0), MatMul.matrix (operand (pending s).1 1)) /\
    stdin_ok s' /\ pending s' = consumed (2 * (MatMul.INPUT_SIZE * MatMul.INPUT_SIZE)) (pending s).
Proof.
  intros Hs Hr.
  destruct (for_cells MatMul.INPUT_SIZE eq_refl (cells_read (pending s)) read_cell (s, MatMul.matrix (fun _ _ => 0), MatMul.matrix (fun _ _ => 0)))
    as ([[s' in1] in2] & E & Hs' & Ep & -> & ->).
  - unfold cells_read. rewrite !upto_0, Z.mul_0_r, consumed_0 by done. done.
  - intros i j st Hi Hj. by apply read_cell_next.
  - exists s'. rewrite E, !upto_all by done. exact (conj eq_refl (conj Hs' Ep)).
Qed.

Lemma matmul_main s : stdin_ok s -> Forall (word 8) (pending s).1 ->
  leaves 32768 s (MatMul.main s) (MatMul.matrix (MatMul.dot (operand (pending s).1 0) (operand (pending s).1 1)
    MatMul.INPUT_SIZE) ≫= int_bytes).
Proof.
  intros Hs Hr. unfold MatMul.main. cbv zeta. rewrite zero_matrix.
  destruct (read_operands s Hs Hr) as (s' & E & Hs' & Ep). unfold read_cell in E. rewrite E, bind_Some. cbv beta iota.
  rewrite MatMul.matmul_product, bind_Some by (by apply operand_bytes).
  apply write_leaves; [done|unfold word, MatMul.INPUT_SIZE; lia|exact Ep].
Qed.
End mains.
