(* ===== verification/Des.v ===== *)
(** * [benchmarks/appliedCryp/des.c]: the Data Encryption Standard.

    The program, and its key schedule: [deskey] leaves the subkeys of FIPS 46-3 in the key
    register, in the order of the mode.  Words are unsigned; the masks of [cookey] and
    [scrunch] keep their shifts below [2 ^ 32]. *)
From S2P Require Import Prelude Arrays Linear Bytes RunnerIo Stdin Ghostrider BlockCipher DesSpec DesTables.
Local Open Scope Z_scope.
Local Open Scope word_scope.

(** ** The program *)
Definition EN0 : Z := 0.
Definition DE1 : Z := 1.

Record des_ctx := mk_ctx { ek : list Z; dk : list Z }.

Definition bytebit : list Z := [128; 64; 32; 16; 8; 4; 2; 1].

Definition bigbyte : list Z :=
  [0x800000; 0x400000; 0x200000; 0x100000;
   0x80000; 0x40000; 0x20000; 0x10000;
   0x8000; 0x4000; 0x2000; 0x1000;
   0x800; 0x400; 0x200; 0x100;
   0x80; 0x40; 0x20; 0x10;
   0x8; 0x4; 0x2; 0x1].

Definition pc1 : list Z :=
  [56; 48; 40; 32; 24; 16; 8; 0; 57; 49; 41; 33; 25; 17;
   9; 1; 58; 50; 42; 34; 26; 18; 10; 2; 59; 51; 43; 35;
   62; 54; 46; 38; 30; 22; 14; 6; 61; 53; 45; 37; 29; 21;
   13; 5; 60; 52; 44; 36; 28; 20; 12; 4; 27; 19; 11; 3].

Definition totrot : list Z := [1; 2; 4; 6; 8; 10; 12; 14; 15; 17; 19; 21; 23; 25; 27; 28].

Definition pc2 : list Z :=
  [13; 16; 10; 23; 0; 4; 2; 27; 14; 5; 20; 9;
   22; 18; 11; 3; 25; 7; 15; 6; 26; 19; 12; 1;
   40; 51; 30; 36; 46; 54; 29; 39; 50; 44; 32; 47;
   43; 48; 38; 55; 33; 52; 45; 41; 49; 35; 28; 31].

(** The key register [KnL] is an argument and a result of what changes it. *)
Definition cpkey (KnL into : list Z) : list Z := loop 0 32 (fun i into => set into i (get KnL i)) into.
Definition usekey (from KnL : list Z) : list Z := loop 0 32 (fun i KnL => set KnL i (get from i)) KnL.

(** The two words an iteration of [cookey] makes of [*raw0] and [*raw1]. *)
Definition cook (raw0 raw1 : Z) : Z * Z :=
  (((raw0 .& 0x00fc0000) ≪ 6) .| ((raw0 .& 0x00000fc0) ≪ 10) .|
     ((raw1 .& 0x00fc0000) ≫ 10) .| ((raw1 .& 0x00000fc0) ≫ 6),
   ((raw0 .& 0x0003f000) ≪ 12) .| ((raw0 .& 0x0000003f) ≪ 16) .|
     ((raw1 .& 0x0003f000) ≫ 4) .| (raw1 .& 0x0000003f)).

Definition cookey (raw1 KnL : list Z) : list Z :=
  let dough := loop 0 16 (fun i dough =>
    let '(cook0, cook1) := cook (get raw1 (2 * i)) (get raw1 (2 * i + 1)) in
    set (set dough (2 * i) cook0) (2 * i + 1) cook1) (replicate 32 0) in
  usekey dough KnL.

Definition truth (x : Z) : bool := negb (x =? 0).

(** The loops of [deskey]: [pc1m], [pcr] and the entries [m] and [n] of [kn]. *)
Definition key_bits (key : list Z) : list Z :=
  loop 0 56 (fun j pc1m =>
    let l := get pc1 j in
    let m := l .& 7 in
    set pc1m j (if truth (get key (l ≫ 3) .& get bytebit m) then 1 else 0)) (replicate 56 0).

Definition rotate (i : Z) (pc1m pcr : list Z) : list Z :=
  let pcr := loop 0 28 (fun j pcr =>
    let l := j + get totrot i in
    set pcr j (if l <? 28 then get pc1m l else get pc1m (l - 28))) pcr in
  loop 28 56 (fun j pcr =>
    let l := j + get totrot i in
    set pcr j (if l <? 56 then get pc1m l else get pc1m (l - 28))) pcr.

Definition select (pcr : list Z) (m n : Z) (kn : list Z) : list Z :=
  loop 0 24 (fun j kn =>
    let kn := if truth (get pcr (get pc2 j)) then set kn m (get kn m .| get bigbyte j) else kn in
    if truth (get pcr (get pc2 (j + 24))) then set kn n (get kn n .| get bigbyte j) else kn) kn.

Definition deskey (key : list Z) (edf : Z) (KnL : list Z) : list Z :=
  let pc1m := key_bits key in
  let '(_, kn) := loop 0 16 (fun i '(pcr, kn) =>
    let m := if edf =? DE1 then (15 - i) ≪ 1 else i ≪ 1 in
    let n := m + 1 in
    let kn := set (set kn n 0) m 0 in
    let pcr := rotate i pc1m pcr in
    (pcr, select pcr m n kn)) (replicate 56 0, replicate 32 0) in
  cookey kn KnL.

Definition scrunch (outof : list Z) : Z * Z :=
  (be32 (get outof 0 .& 0xff) (get outof 1 .& 0xff) (get outof 2 .& 0xff) (get outof 3 .& 0xff),
   be32 (get outof 4 .& 0xff) (get outof 5 .& 0xff) (get outof 6 .& 0xff) (get outof 7 .& 0xff)).
Definition unscrun (outof : Z * Z) : list Z := be32_bytes outof.1 ++ be32_bytes outof.2.

(** [work = ((a >> n) ^ b) & m; b ^= work; a ^= work << n]. *)
Definition exchange (n m : Z) (ab : Z * Z) : Z * Z :=
  let '(a, b) := ab in
  let work := ((a ≫ n) .^ b) .& m in
  (a .^ u32 (work ≪ n), b .^ work).

(** [work = (a ^ b) & 0xaaaaaaaa; a ^= work; b ^= work]. *)
Definition exchange_odd (ab : Z * Z) : Z * Z :=
  let '(a, b) := ab in
  let work := (a .^ b) .& 0xaaaaaaaa in
  (a .^ work, b .^ work).

Definition rotate_left (x : Z) : Z := (u32 (x ≪ 1) .| ((x ≫ 31) .& 1)) .& 0xffffffff.
Definition rotate_right (x : Z) : Z := u32 (x ≪ 31) .| (x ≫ 1).

(** Before the rounds of [desfunc]. *)
Definition initial (block : Z * Z) : Z * Z :=
  let '(leftt, rightt) := exchange 4 0x0f0f0f0f block in
  let '(leftt, rightt) := exchange 16 0x0000ffff (leftt, rightt) in
  let '(rightt, leftt) := exchange 2 0x33333333 (rightt, leftt) in
  let '(rightt, leftt) := exchange 8 0x00ff00ff (rightt, leftt) in
  let rightt := rotate_left rightt in
  let '(leftt, rightt) := exchange_odd (leftt, rightt) in
  (rotate_left leftt, rightt).

(** Half an iteration: what is added to one word, from the other and two of the keys. *)
Definition fval (key0 key1 rightt : Z) : Z :=
  let work := u32 (rightt ≪ 28) .| (rightt ≫ 4) in
  let work := work .^ key0 in
  let fval := get SP7 (work .& 0x3f) in
  let fval := fval .| get SP5 ((work ≫ 8) .& 0x3f) in
  let fval := fval .| get SP3 ((work ≫ 16) .& 0x3f) in
  let fval := fval .| get SP1 ((work ≫ 24) .& 0x3f) in
  let work := rightt .^ key1 in
  let fval := fval .| get SP8 (work .& 0x3f) in
  let fval := fval .| get SP6 ((work ≫ 8) .& 0x3f) in
  let fval := fval .| get SP4 ((work ≫ 16) .& 0x3f) in
  fval .| get SP2 ((work ≫ 24) .& 0x3f).

(** After the rounds: [right] is written first. *)
Definition final (leftt rightt : Z) : Z * Z :=
  let rightt := rotate_right rightt in
  let '(leftt, rightt) := exchange_odd (leftt, rightt) in
  let leftt := rotate_right leftt in
  let '(leftt, rightt) := exchange 8 0x00ff00ff (leftt, rightt) in
  let '(leftt, rightt) := exchange 2 0x33333333 (leftt, rightt) in
  let '(rightt, leftt) := exchange 16 0x0000ffff (rightt, leftt) in
  let '(rightt, leftt) := exchange 4 0x0f0f0f0f (rightt, leftt) in
  (rightt, leftt).

Definition desfunc (keys : list Z) (block : Z * Z) : Z * Z :=
  let '(leftt, rightt) := initial block in
  let '(leftt, rightt) := loop 0 8 (fun round '(leftt, rightt) =>
    let leftt := leftt .^ fval (get keys (4 * round)) (get keys (4 * round + 1)) rightt in
    (leftt, rightt .^ fval (get keys (4 * round + 2)) (get keys (4 * round + 3)) leftt)) (leftt, rightt) in
  final leftt rightt.

Definition des (KnL inblock : list Z) : list Z := unscrun (desfunc KnL (scrunch inblock)).

(** [KnL] and the context; the decryption half is commented out. *)
Definition des_key (dc : des_ctx) (key KnL : list Z) : list Z * des_ctx :=
  let KnL := deskey key EN0 KnL in (KnL, mk_ctx (cpkey KnL (ek dc)) (dk dc)).

(** [scrunch], [desfunc], [unscrun] on the blocks of an array. *)
Definition each_block (keys data : list Z) (blocks : Z) : option (list Z) :=
  for_range 0 blocks (fun i data =>
    cp ← slice data (8 * i) 8; blit data (8 * i) (unscrun (desfunc keys (scrunch cp)))) data.
Definition des_enc (dc : des_ctx) : list Z -> Z -> option (list Z) := each_block (ek dc).
Definition des_dec (dc : des_ctx) : list Z -> Z -> option (list Z) := each_block (dk dc).

Definition main {T} `{!Stdin T} (s : T) : option (T * list Z) :=
  '(s, in_key, _) ← sys_read 0
    [21; 135; 185; 105; 110; 132; 146; 231; 225; 45; 146; 19; 138; 13; 31; 42;
     43; 135; 184; 109; 27; 69; 99; 68; 119; 3; 147; 103; 42; 162; 54; 82] 32 s;
  '(s, in_, _) ← sys_read 0 [0x01; 0x23; 0x45; 0x67; 0x89; 0xab; 0xcd; 0xe7] 8 s;
  let dc := mk_ctx (replicate 32 0) (replicate 32 0) in
  let KnL := deskey in_key EN0 (replicate 32 0) in
  let dc := mk_ctx (cpkey KnL (ek dc)) (dk dc) in
  let work := scrunch in_ in
  let work := desfunc (ek dc) work in
  Some ((sys_write 1 8 s).1, unscrun work).

(** The validation set of the comment. *)
Example validation_set :
  des (deskey [0x01; 0x23; 0x45; 0x67; 0x89; 0xab; 0xcd; 0xef] EN0 (replicate 32 0))
    [0x01; 0x23; 0x45; 0x67; 0x89; 0xab; 0xcd; 0xe7] = [0xc9; 0x57; 0x44; 0x25; 0x6a; 0x5e; 0xd3; 0x1d].
Proof. by vm_compute. Qed.

(** ** Bits *)
(** A word whose bits are set from the top, where a condition holds. *)
Lemma testbit_set_bits n (c : Z -> bool) (a : Z -> Z) i : 0 <= n -> (forall j, 0 <= j < n -> a j = 2 ^ (n - 1 - j)) ->
  0 <= i < n -> Z.testbit (loop 0 n (fun j x => if c j then x .| a j else x) 0) i = c (n - 1 - i).
Proof.
  intros Hn Ha Hi.
  pose proof (loop_inv (fun j x => Z.testbit x i = (n - j <=? i) && c (n - 1 - i)) 0 n
    (fun j x => if c j then x .| a j else x) 0) as H.
  rewrite H; [by destruct (Z.leb_spec (n - n) i); [|lia]|done|rewrite Z.bits_0; by destruct (Z.leb_spec (n - 0) i); [lia|]|].
  intros j x Hj E. destruct (decide (i = n - 1 - j)) as [Ei|Hne].
  - destruct (Z.leb_spec (n - (j + 1)) i); [|lia]. replace (n - 1 - i) with j in * by lia. simpl.
    destruct (Z.leb_spec (n - j) i); [lia|]. destruct (c j); [|done].
    rewrite Z.lor_spec, Ha, <-Ei, Z.pow2_bits_true by lia. apply orb_true_r.
  - assert ((n - (j + 1) <=? i) = (n - j <=? i)) as -> by (destruct (Z.leb_spec (n - (j + 1)) i), (Z.leb_spec (n - j) i); done || lia).
    destruct (c j); [|done]. rewrite Z.lor_spec, Ha, Z.pow2_bits_false, orb_false_r by lia. done.
Qed.

(** ** The key register *)
Lemma usekey_spec from KnL : zlen KnL = 32 -> usekey from KnL = tab 32 (get from).
Proof. intros Hz. by apply fill_all. Qed.

Lemma cpkey_spec KnL into : zlen into = 32 -> cpkey KnL into = tab 32 (get KnL).
Proof. intros Hz. by apply fill_all. Qed.

Lemma get_usekey from KnL i : zlen KnL = 32 -> 0 <= i < 32 -> get (usekey from KnL) i = get from i.
Proof. intros Hz Hi. by rewrite usekey_spec, get_tab. Qed.

(** Every pair of [raw1] is cooked. *)
Lemma get_cookey raw1 KnL i : zlen KnL = 32 -> 0 <= i < 16 ->
  get (cookey raw1 KnL) (2 * i) = (cook (get raw1 (2 * i)) (get raw1 (2 * i + 1))).1 /\
  get (cookey raw1 KnL) (2 * i + 1) = (cook (get raw1 (2 * i)) (get raw1 (2 * i + 1))).2.
Proof.
  intros Hz Hi. unfold cookey. rewrite !get_usekey by (done || lia). set (p j := cook (get raw1 (2 * j)) (get raw1 (2 * j + 1))).
  pose proof (loop_inv (fun n dough => zlen dough = 32 /\ forall j, 0 <= j < n ->
    get dough (2 * j) = (p j).1 /\ get dough (2 * j + 1) = (p j).2) 0 16
    (fun i dough => let '(cook0, cook1) := cook (get raw1 (2 * i)) (get raw1 (2 * i + 1)) in
      set (set dough (2 * i) cook0) (2 * i + 1) cook1) (replicate 32 0)) as H.
  apply H; [done|split; [done|lia]| |done]. clear H i Hi. intros i dough Hi [Hd Hj].
  fold (p i). destruct (p i) as [c0 c1] eqn:E. rewrite !zlen_set. split; [done|]. intros j Hji.
  destruct (decide (j = i)) as [->|].
  - rewrite get_set_ne by lia. rewrite !get_set_eq by (rewrite ?zlen_set; lia). by rewrite E.
  - rewrite !get_set_ne by lia. apply Hj. lia.
Qed.

(** ** Blocks of eight bytes as numbers *)
Definition block64 (b : list Z) : Z := join 32 (be32_at b 0) (be32_at b 4).

Lemma testbit_block64 b j m : Forall (word 8) b -> 0 <= j < 8 -> 0 <= m < 8 ->
  Z.testbit (block64 b) (63 - (8 * j + m)) = Z.testbit (get b j) (7 - m).
Proof.
  intros Hb Hj Hm. assert (forall k, word 8 (get b k)) as Hg by (intros k; by apply get_word).
  unfold block64, join, be32_at, be32. repeat rewrite ?Z.lor_spec, ?testbit_shiftl by done.
  assert (j = 0 \/ j = 1 \/ j = 2 \/ j = 3 \/ j = 4 \/ j = 5 \/ j = 6 \/ j = 7) as Hcases by lia.
  destruct Hcases as [-> |[-> |[-> |[-> |[-> |[-> |[-> | ->]]]]]]];
    repeat match goal with |- context [Z.testbit (get b ?k) ?e] =>
      first [rewrite (Z.testbit_neg_r (get b k) e) by lia | rewrite (word_testbit 8 (get b k) e) by (done || lia)
            |progress replace e with (7 - m) by lia] end;
    by rewrite ?orb_false_r.
Qed.

(** ** The key schedule *)
Lemma truth_bit x k : 0 <= k -> truth (x .& 2 ^ k) = Z.testbit x k.
Proof.
  intros Hk. unfold truth. pose proof (Z.land_spec x (2 ^ k) k) as E. rewrite Z.pow2_bits_true, andb_true_r in E by done.
  destruct (Z.testbit x k) eqn:Ex, (Z.eqb_spec (x .& 2 ^ k) 0) as [E0|Hne]; try done.
  - by rewrite E0, Z.bits_0 in E.
  - destruct Hne. apply Z.bits_inj'. intros i Hi. rewrite Z.land_spec, Z.bits_0. destruct (decide (i = k)) as [->|]; [by rewrite Ex|].
    by rewrite Z.pow2_bits_false, andb_false_r by lia.
Qed.

(** [bytebit] and [bigbyte] are single bits; the tables' entries are indices. *)
Lemma table_entries (t : list Z) (P : Z -> Z -> bool) n j :
  forallb (fun j => P j (get t j)) (seqZ 0 n) = true -> 0 <= j < n -> P j (get t j) = true.
Proof. apply (forallb_seqZ (fun j => P j (get t j))). Qed.

Lemma get_bytebit m : 0 <= m < 8 -> get bytebit m = 2 ^ (7 - m).
Proof. intros Hm. apply Z.eqb_eq. by apply (table_entries bytebit (fun j x => x =? 2 ^ (7 - j)) 8). Qed.

Lemma get_bigbyte j : 0 <= j < 24 -> get bigbyte j = 2 ^ (24 - 1 - j).
Proof. intros Hj. apply Z.eqb_eq. by apply (table_entries bigbyte (fun j x => x =? 2 ^ (24 - 1 - j)) 24). Qed.

Definition below (n x : Z) : bool := (0 <=? x) && (x <? n).
Lemma below_spec n x : below n x = true -> 0 <= x < n.
Proof. intros [?%Z.leb_le ?%Z.ltb_lt]%andb_true_iff. lia. Qed.

Lemma get_pc1 j : 0 <= j < 56 -> 0 <= get pc1 j < 64.
Proof. intros Hj. apply below_spec. by apply (table_entries pc1 (fun _ => below 64) 56). Qed.

Lemma get_pc2 j : 0 <= j < 48 -> 0 <= get pc2 j < 56.
Proof. intros Hj. apply below_spec. by apply (table_entries pc2 (fun _ => below 56) 48). Qed.

Lemma get_totrot i : 0 <= i < 16 -> 0 <= get totrot i < 29.
Proof. intros Hi. apply below_spec. by apply (table_entries totrot (fun _ => below 29) 16). Qed.

Lemma key_bits_spec key : Forall (word 8) key ->
  key_bits key = tab 56 (fun j => Z.b2z (Z.testbit (block64 key) (63 - get pc1 j))).
Proof.
  intros Hk. apply fill_all; [done|]. intros j p Hj. cbv zeta. f_equal. pose proof (get_pc1 j Hj) as Hl. set (l := get pc1 j) in *.
  rewrite (land_mask 3), Z.shiftr_div_pow2 by done. unfold wrap. change (2 ^ 3) with 8.
  pose proof (Z.mod_pos_bound l 8 ltac:(lia)) as Hm. rewrite get_bytebit, truth_bit by lia.
  rewrite (Z.div_mod l 8) at 3 by lia. rewrite testbit_block64; [done|done|split; [apply Z.div_pos; lia|apply Z.div_lt_upper_bound; lia]|done].
Qed.

(** Where entry [j] of [pcr] comes from. *)
Definition source (i j : Z) : Z :=
  let l := j + get totrot i in if l <? (if j <? 28 then 28 else 56) then l else l - 28.

Lemma source_range i j : 0 <= i < 16 -> 0 <= j < 56 -> 0 <= source i j < 56.
Proof.
  intros Hi Hj. pose proof (get_totrot i Hi). unfold source. destruct (Z.ltb_spec j 28).
  - destruct (Z.ltb_spec (j + get totrot i) 28); lia.
  - destruct (Z.ltb_spec (j + get totrot i) 56); lia.
Qed.

Lemma rotate_spec i pc1m pcr : zlen pcr = 56 -> rotate i pc1m pcr = tab 56 (fun j => get pc1m (source i j)).
Proof.
  intros Hz. unfold rotate. cbv zeta.
  rewrite (fill_set pcr 0 28 (fun j => get pc1m (source i j))); [|lia|lia|].
  - rewrite (fill_set _ 28 56 (fun j => get pc1m (source i j))); rewrite ?zlen_tab, ?Hz by lia; [|lia|lia|].
    + apply tab_ext. intros j Hj. rewrite get_tab by lia.
      by destruct (Z.leb_spec 28 j), (Z.ltb_spec j 56), (Z.leb_spec 0 j), (Z.ltb_spec j 28); try lia.
    + intros j p Hj. unfold source. cbv zeta. destruct (Z.ltb_spec j 28); [lia|]. by destruct (Z.ltb_spec (j + get totrot i) 56).
  - intros j p Hj. unfold source. cbv zeta. destruct (Z.ltb_spec j 28); [|lia]. by destruct (Z.ltb_spec (j + get totrot i) 28).
Qed.

Definition selected (n : Z) (c : Z -> bool) : Z := loop 0 n (fun j x => if c j then x .| get bigbyte j else x) 0.

Lemma select_entries pcr m n kn : 0 <= m < zlen kn -> 0 <= n < zlen kn -> m <> n -> get kn m = 0 -> get kn n = 0 ->
  zlen (select pcr m n kn) = zlen kn /\
  get (select pcr m n kn) m = selected 24 (fun j => truth (get pcr (get pc2 j))) /\
  get (select pcr m n kn) n = selected 24 (fun j => truth (get pcr (get pc2 (j + 24)))) /\
  forall k, 0 <= k -> k <> m -> k <> n -> get (select pcr m n kn) k = get kn k.
Proof.
  intros Hm Hn Hne Em En. unfold select. set (c0 j := truth (get pcr (get pc2 j))). set (c1 j := truth (get pcr (get pc2 (j + 24)))).
  apply (loop_inv (fun i kn' => zlen kn' = zlen kn /\ get kn' m = selected i c0 /\ get kn' n = selected i c1 /\
    forall k, 0 <= k -> k <> m -> k <> n -> get kn' k = get kn k)); [done|done|].
  intros i kn' Hi (Hz & E0 & E1 & Hk). unfold selected. rewrite !loop_snoc by lia. fold (selected i c0) (selected i c1). cbv zeta.
  fold (c0 i) (c1 i).
  assert (forall b (k : list Z) p a, 0 <= p < zlen k -> zlen (if b : bool then set k p (get k p .| a) else k) = zlen k /\
    get (if b then set k p (get k p .| a) else k) p = (if b then get k p .| a else get k p) /\
    forall q, 0 <= q -> q <> p -> get (if b then set k p (get k p .| a) else k) q = get k q) as Hset.
  { intros [] k p a Hp; [|done]. rewrite zlen_set, get_set_eq by done. split_and!; [done..|]. intros q Hq Hqp. by rewrite get_set_ne by lia. }
  destruct (Hset (c0 i) kn' m (get bigbyte i)) as (Z0 & S0 & K0); [lia|]. set (kn0 := if c0 i then _ else kn') in *.
  destruct (Hset (c1 i) kn0 n (get bigbyte i)) as (Z1 & S1 & K1); [lia|]. set (kn1 := if c1 i then _ else kn0) in *.
  split_and!; [lia|by rewrite K1, S0, E0 by lia|by rewrite S1, K0, E1 by lia|]. intros k Hk0 Hkm Hkn.
  by rewrite K1, K0, Hk by lia.
Qed.

(** The bits of a selection: one table applied to the key. *)
Definition picked (i off : Z) : list Z := tab 24 (fun j => 1 + get pc1 (source i (get pc2 (j + off)))).

Lemma testbit_selected key i off : Forall (word 8) key -> 0 <= i < 16 -> off = 0 \/ off = 24 ->
  selected 24 (fun j => truth (get (tab 56 (fun j => get (key_bits key) (source i j))) (get pc2 (j + off)))) =
  permute 64 (picked i off) (block64 key).
Proof.
  intros Hk Hi Hoff. apply (word_bits_eq 24); [|apply (word_permute 64 (picked i off))|].
  - apply (loop_inv (fun _ => word 24)); [done|done|]. intros j x Hj Hx. destruct (truth _); [|done].
    apply word_lor; [done..|]. rewrite get_bigbyte by done. unfold word. split; [apply Z.pow_nonneg; lia|]. apply Z.pow_lt_mono_r; lia.
  - intros p Hp. unfold selected. rewrite testbit_set_bits; [|done|apply get_bigbyte|done]. set (j := 24 - 1 - p).
    pose proof (get_pc2 (j + off) ltac:(lia)) as Hq. pose proof (source_range i _ Hi Hq) as Hs.
    rewrite get_tab, key_bits_spec, get_tab by done.
    assert (Z.testbit (permute 64 (picked i off) (block64 key)) p = Z.testbit (block64 key) (64 - (1 + get pc1 (source i (get pc2 (j + off)))))) as ->.
    { replace p with (zlen (picked i off) - 1 - Z.of_nat (Z.to_nat j)) at 1 by (unfold picked; rewrite zlen_tab; lia).
      apply testbit_permute. rewrite <-rd_nat. unfold picked. rewrite Z2Nat.id by lia. by rewrite rd_tab by lia. }
    replace (64 - (1 + get pc1 (source i (get pc2 (j + off))))) with (63 - get pc1 (source i (get pc2 (j + off)))) by lia.
    by destruct (Z.testbit _ _).
Qed.

Lemma linear_picked i off : linear (word_space 64) (word_space 24) (fun key => permute 64 (picked i off) key).
Proof. apply (linear_permute 64 64 24); [|apply linear_id]. unfold picked. by rewrite zlen_tab. Qed.

(** The two tables are the halves of [PC2] after the shifts. *)
Lemma picked_subkey key i : word 64 key -> 0 <= i < 16 ->
  permute 64 (picked i 0) key = subkey key i ≫ 24 /\ permute 64 (picked i 24) key = wrap 24 (subkey key i).
Proof.
  intros Hk Hi. split.
  - apply (linear_ext (S := word_space 64) (T := word_space 24) _ (fun key => subkey key i ≫ 24)); [apply linear_picked|..|done].
    + apply (linear_high 24 24), linear_subkey.
    + refine (forallb_seqZ (fun i => agree (word_space 64) (permute 64 (picked i 0)) (fun key => subkey key i ≫ 24)) 16 i _ Hi).
      by vm_compute.
  - apply (linear_ext (S := word_space 64) (T := word_space 24) _ (fun key => wrap 24 (subkey key i))); [apply linear_picked|..|done].
    + apply (linear_wrap 24 48); [lia|]. apply linear_subkey.
    + refine (forallb_seqZ (fun i => agree (word_space 64) (permute 64 (picked i 24)) (fun key => wrap 24 (subkey key i))) 16 i _ Hi).
      by vm_compute.
Qed.

Lemma word_block64 b : Forall (word 8) b -> word 64 (block64 b).
Proof. intros Hb. unfold block64. apply (word_join 32 32); [lia|lia|apply be32_at_word, Hb..]. Qed.

(** The place of subkey [i]. *)
Definition order (edf i : Z) : Z := if edf =? DE1 then 15 - i else i.

Definition scheduled (edf key n : Z) (kn : list Z) : Prop := zlen kn = 32 /\ forall i, 0 <= i < n ->
  get kn (2 * order edf i) = subkey key i ≫ 24 /\ get kn (2 * order edf i + 1) = wrap 24 (subkey key i).

Lemma schedule_step key edf i pcr kn : Forall (word 8) key -> 0 <= i < 16 -> zlen pcr = 56 -> scheduled edf (block64 key) i kn ->
  let m := 2 * order edf i in
  scheduled edf (block64 key) (i + 1) (select (rotate i (key_bits key) pcr) m (m + 1) (set (set kn (m + 1) 0) m 0)).
Proof.
  intros Hk Hi Hp [Hz Hkn] m. assert (0 <= order edf i < 16) as Ho by (unfold order; destruct (edf =? DE1); lia).
  assert (forall i', 0 <= i' < i -> order edf i' <> order edf i) as Hne by (intros i' Hi'; unfold order; destruct (edf =? DE1); lia).
  assert (forall i', 0 <= i' < i -> 0 <= order edf i') as Hpos by (intros i' Hi'; unfold order; destruct (edf =? DE1); lia).
  destruct (select_entries (rotate i (key_bits key) pcr) m (m + 1) (set (set kn (m + 1) 0) m 0)) as (Ez & E0 & E1 & Hrest);
    rewrite ?zlen_set; [lia..|apply get_set_eq; rewrite zlen_set; lia|rewrite get_set_ne, get_set_eq by lia; done|].
  split; [by rewrite Ez, !zlen_set|]. intros i' Hi'. destruct (decide (i' = i)) as [->|Hold].
  - fold m. rewrite E0, E1, rotate_spec by done. destruct (picked_subkey (block64 key) i (word_block64 key Hk) Hi) as [<- <-].
    rewrite <-!testbit_selected by auto. split; [|done].
    unfold selected. apply (loop_rel (fun _ => eq)); [done|done|]. intros j x y Hj ->. by rewrite Z.add_0_r.
  - specialize (Hne i' ltac:(lia)). specialize (Hpos i' ltac:(lia)).
    rewrite !Hrest by lia. rewrite !get_set_ne by lia. apply Hkn. lia.
Qed.

Definition cooked (k : Z) : Z * Z := cook (k ≫ 24) (wrap 24 k).

Lemma get_deskey key edf KnL i : Forall (word 8) key -> zlen KnL = 32 -> 0 <= i < 16 ->
  get (deskey key edf KnL) (2 * order edf i) = (cooked (subkey (block64 key) i)).1 /\
  get (deskey key edf KnL) (2 * order edf i + 1) = (cooked (subkey (block64 key) i)).2.
Proof.
  intros Hk Hz Hi. unfold deskey. cbv zeta.
  set (body := fun i '(pcr, kn) => _).
  assert (zlen (loop 0 16 body (replicate 56 0, replicate 32 0)).1 = 56 /\
    scheduled edf (block64 key) 16 (loop 0 16 body (replicate 56 0, replicate 32 0)).2) as [_ [_ Hs]].
  { apply (loop_inv (fun i st => zlen st.1 = 56 /\ scheduled edf (block64 key) i st.2)); [done|split; [done|split; [done|lia]]|].
    intros i' [pcr kn] Hi' [Hp Hs]. unfold body. cbn [fst snd].
    assert ((if edf =? DE1 then (15 - i') ≪ 1 else i' ≪ 1) = 2 * order edf i') as ->.
    { unfold order. destruct (edf =? DE1); rewrite Z.shiftl_mul_pow2 by done; lia. }
    split; [by rewrite rotate_spec, zlen_tab|]. by apply schedule_step. }
  destruct (loop 0 16 body (replicate 56 0, replicate 32 0)) as [pcr kn]. cbn [snd] in Hs. destruct (Hs i Hi) as [E0 E1].
  assert (0 <= order edf i < 16) as Ho by (unfold order; destruct (edf =? DE1); lia).
  destruct (get_cookey kn KnL (order edf i) Hz Ho) as [-> ->]. by rewrite E0, E1.
Qed.
