(* ===== verification/DesCipher.v ===== *)
(** * [benchmarks/appliedCryp/des.c] is the Data Encryption Standard.

    [desfunc] under a key register that holds the subkeys of the standard is the standard's
    cipher; with the key schedule of [Des] so is the program. *)
From S2P Require Import Prelude Arrays Linear Bytes RunnerIo Stdin Ghostrider BlockCipher DesSpec DesTables Des.
Local Open Scope Z_scope.
Local Open Scope word_scope.

(** ** A round *)
Lemma chunk_lxor k x y : chunk k (x .^ y) = chunk k x .^ chunk k y.
Proof. unfold chunk. by rewrite Z.shiftr_lxor, land_lxor. Qed.

(** A byte of a word, its lower six bits. *)
Definition six (j x : Z) : Z := (x ≫ (24 - 8 * j)) .& 0x3f.

Lemma six_lxor j x y : six j (x .^ y) = six j x .^ six j y.
Proof. unfold six. by rewrite Z.shiftr_lxor, land_lxor. Qed.

(** Bits of [k] at given places. *)
Ltac concrete_bits k :=
  repeat match goal with
  | |- context [Z.testbit (?x .| ?y) ?e] => rewrite (Z.lor_spec x y e)
  | |- context [Z.testbit (?x .& ?y) ?e] => rewrite (Z.land_spec x y e)
  | |- context [Z.testbit (?x ≪ ?n) ?e] => rewrite (testbit_shiftl x n e) by done
  | |- context [Z.testbit (?x ≫ ?n) ?e] => first [rewrite (Z.shiftr_spec x n e) by lia | rewrite (Z.testbit_neg_r (x ≫ n) e) by lia]
  | |- context [Z.testbit (wrap ?w ?x) ?e] => rewrite (testbit_wrap w x e) by done
  end;
  repeat match goal with |- context [Z.testbit k ?e] =>
    let v := eval vm_compute in e in progress change (Z.testbit k e) with (Z.testbit k v)
  end;
  repeat match goal with |- context [Z.testbit k ?e] => let b := fresh "b" in set (b := Z.testbit k e); clearbody b end;
  repeat match goal with b : bool |- _ => destruct b end; reflexivity.

(** The two words of a subkey hold its groups in turn. *)
Lemma six_cooked j k : 0 <= j < 4 -> six j (cooked k).1 = chunk (2 * j) k /\ six j (cooked k).2 = chunk (2 * j + 1) k.
Proof.
  intros Hj. unfold six, chunk, cooked, cook. cbn [fst snd].
  assert (forall x y : Z, (forall i, 0 <= i < 6 -> Z.testbit x i = Z.testbit y i) -> x .& 0x3f = y .& 0x3f) as Heq.
  { intros x y H. rewrite !(land_mask 6) by done. apply Z.bits_inj'. intros i Hi. rewrite !testbit_wrap by done.
    destruct (Z.ltb_spec i 6); [apply H; lia|done]. }
  assert (j = 0 \/ j = 1 \/ j = 2 \/ j = 3) as Hcases by lia.
  split; apply Heq; intros i Hi;
    (assert (i = 0 \/ i = 1 \/ i = 2 \/ i = 3 \/ i = 4 \/ i = 5) as Hi6 by lia);
    destruct Hcases as [-> |[-> |[-> | ->]]]; destruct Hi6 as [-> |[-> |[-> |[-> |[-> | ->]]]]];
    concrete_bits k.
Qed.

Lemma linear_six {A} {S : space A} j g : 0 <= j < 4 -> linear S (word_space 32) g -> linear S (word_space 32) (fun a => six j (g a)).
Proof. intros Hj Hg. apply linear_land, linear_shiftr; [lia|done]. Qed.

Lemma linear_chunk_E k : 0 <= k < 8 -> linear (word_space 32) (word_space 32) (fun x => chunk k (permute 32 E x)).
Proof.
  intros Hk. apply (linear_resize 48); [intros a _; by apply word_land_r|]. apply linear_land, linear_shiftr; [lia|].
  apply (linear_permute 32 32 48); [done|apply linear_id].
Qed.

(** The expansion [E] is read off the rotated word and its rotation. *)
Lemma six_E j x : 0 <= j < 4 -> word 32 x ->
  six j (rotl 32 (rotl 32 x 1) 28) = chunk (2 * j) (permute 32 E x) /\
  six j (rotl 32 x 1) = chunk (2 * j + 1) (permute 32 E x).
Proof.
  intros Hj Hx.
  assert (linear (word_space 32) (word_space 32) (fun x => rotl 32 x 1)) as Hrot
    by (apply (linear_rotl 32); [lia|apply linear_id]).
  split.
  - apply (linear_ext (S := word_space 32) (T := word_space 32) (fun x => six j (rotl 32 (rotl 32 x 1) 28))
      (fun x => chunk (2 * j) (permute 32 E x))); [|apply linear_chunk_E; lia| |done].
    + apply linear_six; [done|]. by apply (linear_rotl 32); [lia|].
    + refine (forallb_seqZ (fun j => agree (word_space 32) (fun x => six j (rotl 32 (rotl 32 x 1) 28))
        (fun x => chunk (2 * j) (permute 32 E x))) 4 j _ Hj). by vm_compute.
  - apply (linear_ext (S := word_space 32) (T := word_space 32) (fun x => six j (rotl 32 x 1))
      (fun x => chunk (2 * j + 1) (permute 32 E x))); [by apply linear_six|apply linear_chunk_E; lia| |done].
    refine (forallb_seqZ (fun j => agree (word_space 32) (fun x => six j (rotl 32 x 1))
        (fun x => chunk (2 * j + 1) (permute 32 E x))) 4 j _ Hj). by vm_compute.
Qed.

(** The box [k] with its place in the word, the permutation [P] and the rotation. *)
Definition box (k c : Z) : Z := rotl 32 (permute 32 P (sbox k c ≪ (28 - 4 * k))) 1.

Definition boxed (t : list Z) (k : Z) : bool := forallb (fun c => get t c =? box k c) (seqZ 0 64).

Lemma get_box t k c : boxed t k = true -> 0 <= c < 64 -> get t c = box k c.
Proof. intros H Hc. apply Z.eqb_eq. exact (forallb_seqZ (fun c => get t c =? box k c) 64 c H Hc). Qed.

Lemma SP_boxed : (boxed SP1 0 && boxed SP2 1 && boxed SP3 2 && boxed SP4 3 &&
  boxed SP5 4 && boxed SP6 5 && boxed SP7 6 && boxed SP8 7) = true.
Proof. by vm_compute. Qed.

Lemma rotl_lor x y n : 0 <= n -> rotl 32 (x .| y) n = rotl 32 x n .| rotl 32 y n.
Proof.
  intros Hn. unfold rotl. apply Z.bits_inj'. intros i Hi. rewrite !Z.lor_spec, !testbit_wrap, Z.shiftr_lor, Z.lor_spec by done.
  rewrite Z.shiftl_lor, Z.lor_spec. btauto.
Qed.

Lemma rotated_f k r : rotl 32 (f k r) 1 = let x := permute 32 E r .^ k in
  foldr (fun i y => box i (chunk i x) .| y) 0 (seqZ 0 8).
Proof.
  unfold f, substitute. cbv zeta. set (x := permute 32 E r .^ k). generalize (seqZ 0 8). intros l.
  induction l as [|i l IH]; [done|]. cbn [foldr]. rewrite permute_lor, rotl_lor by done. unfold box at 1. f_equal. exact IH.
Qed.

Lemma fval_f k r : word 32 r -> fval (cooked k).1 (cooked k).2 (rotl 32 r 1) = rotl 32 (f k r) 1.
Proof.
  intros Hr. rewrite rotated_f. cbv zeta. set (x := permute 32 E r .^ k).
  assert (forall j, 0 <= j < 4 -> six j (rotl 32 (rotl 32 r 1) 28 .^ (cooked k).1) = chunk (2 * j) x /\
    six j (rotl 32 r 1 .^ (cooked k).2) = chunk (2 * j + 1) x) as Hsix.
  { intros j Hj. unfold x. rewrite !six_lxor, !chunk_lxor. destruct (six_E j r Hj Hr) as [-> ->].
    by destruct (six_cooked j k Hj) as [-> ->]. }
  unfold fval. cbv zeta. change (u32 (rotl 32 r 1 ≪ 28) .| (rotl 32 r 1 ≫ 4)) with (rotl 32 (rotl 32 r 1) 28).
  set (w0 := rotl 32 (rotl 32 r 1) 28 .^ (cooked k).1) in *. set (w1 := rotl 32 r 1 .^ (cooked k).2) in *.
  assert (six 0 w0 = chunk 0 x /\ six 0 w1 = chunk 1 x) as [E0 E1] by (apply (Hsix 0); lia).
  assert (six 1 w0 = chunk 2 x /\ six 1 w1 = chunk 3 x) as [E2 E3] by (apply (Hsix 1); lia).
  assert (six 2 w0 = chunk 4 x /\ six 2 w1 = chunk 5 x) as [E4 E5] by (apply (Hsix 2); lia).
  assert (six 3 w0 = chunk 6 x /\ six 3 w1 = chunk 7 x) as [E6 E7] by (apply (Hsix 3); lia).
  change (w0 .& 0x3f) with (six 3 w0). change (w1 .& 0x3f) with (six 3 w1).
  change ((w0 ≫ 8) .& 0x3f) with (six 2 w0). change ((w0 ≫ 16) .& 0x3f) with (six 1 w0). change ((w0 ≫ 24) .& 0x3f) with (six 0 w0).
  change ((w1 ≫ 8) .& 0x3f) with (six 2 w1). change ((w1 ≫ 16) .& 0x3f) with (six 1 w1). change ((w1 ≫ 24) .& 0x3f) with (six 0 w1).
  rewrite E0, E1, E2, E3, E4, E5, E6, E7. clearbody x w0 w1.
  assert (forall i, 0 <= chunk i x < 64) as Hc.
  { intros i. unfold chunk. rewrite (land_mask 6) by done. by apply wrap_range. }
  pose proof SP_boxed as HSP. rewrite !andb_true_iff in HSP. destruct HSP as [[[[[[[H1 H2] H3] H4] H5] H6] H7] H8].
  rewrite (get_box _ _ _ H1 (Hc _)), (get_box _ _ _ H2 (Hc _)), (get_box _ _ _ H3 (Hc _)), (get_box _ _ _ H4 (Hc _)),
    (get_box _ _ _ H5 (Hc _)), (get_box _ _ _ H6 (Hc _)), (get_box _ _ _ H7 (Hc _)), (get_box _ _ _ H8 (Hc _)). clear.
  change (seqZ 0 8) with [0; 1; 2; 3; 4; 5; 6; 7]. cbn [foldr]. generalize box. intros bx.
  apply Z.bits_inj. intros i. rewrite !Z.lor_spec, Z.bits_0.  btauto.
Qed.

(** ** The permutations around the rounds *)
Definition halves_space : space (Z * Z) := pair_space (word_space 32) (word_space 32).

Lemma linear_id_fst : linear halves_space (word_space 32) fst.
Proof. split; [by intros a [Ha _]|done]. Qed.
Lemma linear_id_snd : linear halves_space (word_space 32) snd.
Proof. split; [by intros a [_ Ha]|done]. Qed.

Lemma linear_exchange n m : 0 <= n -> linear halves_space halves_space (exchange n m).
Proof.
  intros Hn. apply (linear_eq (fun ab => (ab.1 .^ u32 (((((ab.1 ≫ n) .^ ab.2) .& m) ≪ n)), ab.2 .^ (((ab.1 ≫ n) .^ ab.2) .& m)))).
  - assert (linear halves_space (word_space 32) (fun ab => ((ab.1 ≫ n) .^ ab.2) .& m)) as Hw.
    { apply linear_land, linear_xor; [apply linear_shiftr; [done|]|]; [apply linear_id_fst|apply linear_id_snd]. }
    apply linear_pair; apply linear_xor; [apply linear_id_fst|by apply (linear_shiftl 32)|apply linear_id_snd|done].
  - by intros [a b].
Qed.

Lemma linear_exchange_odd : linear halves_space halves_space exchange_odd.
Proof.
  apply (linear_eq (fun ab => (ab.1 .^ ((ab.1 .^ ab.2) .& 0xaaaaaaaa), ab.2 .^ ((ab.1 .^ ab.2) .& 0xaaaaaaaa)))); [|by intros [a b]].
  assert (linear halves_space (word_space 32) (fun ab => (ab.1 .^ ab.2) .& 0xaaaaaaaa)) as Hw.
  { apply linear_land, linear_xor; [apply linear_id_fst|apply linear_id_snd]. }
  apply linear_pair; apply linear_xor; [apply linear_id_fst|done|apply linear_id_snd|done].
Qed.

Lemma linear_swap : linear halves_space halves_space swap.
Proof.
  apply (linear_eq (fun ab => (ab.2, ab.1))); [|by intros [a b]]. apply linear_pair; [apply linear_id_snd|apply linear_id_fst].
Qed.

(** A map on one of the halves. *)
Definition on_left (h : Z -> Z) (ab : Z * Z) : Z * Z := (h ab.1, ab.2).
Definition on_right (h : Z -> Z) (ab : Z * Z) : Z * Z := (ab.1, h ab.2).

Lemma linear_on_left h : linear (word_space 32) (word_space 32) h -> linear halves_space halves_space (on_left h).
Proof. intros Hh. apply linear_pair; [apply (linear_compose (T := word_space 32) h); [done|apply linear_id_fst]|apply linear_id_snd]. Qed.
Lemma linear_on_right h : linear (word_space 32) (word_space 32) h -> linear halves_space halves_space (on_right h).
Proof. intros Hh. apply linear_pair; [apply linear_id_fst|apply (linear_compose (T := word_space 32) h); [done|apply linear_id_snd]]. Qed.

Lemma rotate_left_rotl x : word 32 x -> rotate_left x = rotl 32 x 1.
Proof.
  intros Hx. unfold rotate_left. rewrite (land_mask 32) by done. change 1 with (2 ^ 1 - 1) at 2. rewrite (land_mask 1) by done.
  pose proof (word_shiftr_sub 32 x 31 ltac:(lia) Hx) as H1. rewrite (wrap_small 1) by exact H1. apply wrap_small.
  apply word_rotl; [lia|done].
Qed.

Lemma linear_rotl32 n : 0 <= n <= 32 -> linear (word_space 32) (word_space 32) (fun x => rotl 32 x n).
Proof. intros Hn. apply (linear_rotl 32); [lia|apply linear_id]. Qed.

Lemma linear_rotate_left : linear (word_space 32) (word_space 32) rotate_left.
Proof. apply (linear_eq (fun x => rotl 32 x 1)); [by apply linear_rotl32|]. intros x Hx. symmetry. by apply rotate_left_rotl. Qed.

Lemma linear_rotate_right : linear (word_space 32) (word_space 32) rotate_right.
Proof. exact (linear_rotl32 31 ltac:(lia)). Qed.

Lemma initial_steps b : initial b = on_left rotate_left (exchange_odd (on_right rotate_left (swap (exchange 8 0x00ff00ff
  (exchange 2 0x33333333 (swap (exchange 16 0x0000ffff (exchange 4 0x0f0f0f0f b)))))))).
Proof.
  unfold initial. destruct (exchange 4 0x0f0f0f0f b) as [l1 r1]. destruct (exchange 16 0x0000ffff (l1, r1)) as [l2 r2]. cbn [swap].
  destruct (exchange 2 0x33333333 (r2, l2)) as [r3 l3]. destruct (exchange 8 0x00ff00ff (r3, l3)) as [r4 l4]. cbn [swap].
  unfold on_right. cbn [fst snd]. by destruct (exchange_odd (l4, rotate_left r4)).
Qed.

Lemma final_steps l r : final l r = exchange 4 0x0f0f0f0f (exchange 16 0x0000ffff (swap (exchange 2 0x33333333 (exchange 8 0x00ff00ff
  (on_left rotate_right (exchange_odd (on_right rotate_right (l, r)))))))).
Proof.
  unfold final, on_right, on_left. cbn [fst snd]. destruct (exchange_odd (l, rotate_right r)) as [l1 r1]. cbn [fst snd].
  destruct (exchange 8 0x00ff00ff (rotate_right l1, r1)) as [l2 r2]. destruct (exchange 2 0x33333333 (l2, r2)) as [l3 r3]. cbn [swap].
  destruct (exchange 16 0x0000ffff (r3, l3)) as [r4 l4]. by destruct (exchange 4 0x0f0f0f0f (r4, l4)).
Qed.

(** A 64-bit word as a pair of halves, each rotated by [n]. *)
Definition halves (n x : Z) : Z * Z := (rotl 32 (x ≫ 32) n, rotl 32 (wrap 32 x) n).

Lemma linear_halves {A} {S : space A} n g : 0 <= n <= 32 -> linear S (word_space 64) g -> linear S halves_space (fun a => halves n (g a)).
Proof.
  intros Hn Hg. apply linear_pair; apply (linear_rotl 32); [lia|by apply (linear_high 32 32)|lia|].
  apply (linear_wrap 32 64); [lia|done].
Qed.

Lemma linear_join32 {A} {S : space A} g h : linear S (word_space 32) g -> linear S (word_space 32) h ->
  linear S (word_space 64) (fun a => join 32 (g a) (h a)).
Proof. apply (linear_join 32 32). Qed.

(** A sequence of these maps. *)
Ltac linear_step :=
  first [by apply linear_exchange | apply linear_exchange_odd | apply linear_swap | apply linear_on_left, linear_rotate_left
        |apply linear_on_right, linear_rotate_left | apply linear_on_left, linear_rotate_right
        |apply linear_on_right, linear_rotate_right
        |apply linear_on_left, linear_rotl32; lia | apply linear_on_right, linear_rotl32; lia].
Ltac linear_steps :=
  lazymatch goal with
  | |- linear _ _ (fun b => b) => apply linear_id
  | |- linear _ _ (fun b => ?g (@?h b)) => apply (linear_compose (T := halves_space) g h); [linear_step|linear_steps]
  end.

Lemma linear_IP : linear halves_space halves_space (fun b => halves 1 (permute 64 IP (join 32 b.1 b.2))).
Proof.
  apply linear_halves; [lia|]. apply (linear_permute 64 64 64); [done|]. apply linear_join32; [apply linear_id_fst|apply linear_id_snd].
Qed.

Lemma initial_IP l r : word 32 l -> word 32 r -> initial (l, r) = halves 1 (permute 64 IP (join 32 l r)).
Proof.
  intros Hl Hr. apply (linear_ext (S := halves_space) (T := halves_space) initial
    (fun b => halves 1 (permute 64 IP (join 32 b.1 b.2)))).
  - eapply linear_eq; [|intros b _; symmetry; apply initial_steps].
    linear_steps.
  - apply linear_IP.
  - by vm_compute.
  - done.
Qed.

Lemma final_FP l r : word 32 l -> word 32 r ->
  final (rotl 32 l 1) (rotl 32 r 1) = (permute 64 FP (join 32 r l) ≫ 32, wrap 32 (permute 64 FP (join 32 r l))).
Proof.
  intros Hl Hr. apply (linear_ext (S := halves_space) (T := halves_space) (fun b => final (rotl 32 b.1 1) (rotl 32 b.2 1))
    (fun b => (permute 64 FP (join 32 b.2 b.1) ≫ 32, wrap 32 (permute 64 FP (join 32 b.2 b.1)))) (l, r)).
  - eapply linear_eq; [|intros b _; symmetry; apply final_steps].
    assert (linear halves_space halves_space (fun b => (rotl 32 b.1 1, rotl 32 b.2 1))) as Hrot.
    { apply linear_pair; apply (linear_rotl 32); [lia|apply linear_id_fst|lia|apply linear_id_snd]. }
    apply (linear_compose (T := halves_space) (fun b => exchange 4 0x0f0f0f0f (exchange 16 0x0000ffff (swap (exchange 2 0x33333333
      (exchange 8 0x00ff00ff (on_left rotate_right (exchange_odd (on_right rotate_right b))))))))); [linear_steps|exact Hrot].
  - assert (linear halves_space (word_space 64) (fun b => permute 64 FP (join 32 b.2 b.1))) as H.
    { apply (linear_permute 64 64 64); [done|]. apply linear_join32; [apply linear_id_snd|apply linear_id_fst]. }
    apply linear_pair; [by apply (linear_high 32 32)|]. apply (linear_wrap 32 64); [lia|done].
  - by vm_compute.
  - done.
Qed.

(** ** The cipher *)

(** The key register holds the subkeys [K]. *)
Definition keyed (K : Z -> Z) (keys : list Z) : Prop := forall i, 0 <= i < 16 ->
  get keys (2 * i) = (cooked (K i)).1 /\ get keys (2 * i + 1) = (cooked (K i)).2.

Lemma rotl32_lxor x y : word 32 x -> word 32 y -> rotl 32 (x .^ y) 1 = rotl 32 x 1 .^ rotl 32 y 1.
Proof. exact (linear_add (linear_rotl32 1 ltac:(lia)) x y). Qed.

Lemma keyed_rounds K keys l r : keyed K keys -> word 32 l -> word 32 r ->
  exists l' r', loop 0 16 (fun i => feistel f (K i)) (l, r) = (l', r') /\ word 32 l' /\ word 32 r' /\
  loop 0 8 (fun round '(leftt, rightt) =>
    let leftt := leftt .^ fval (get keys (4 * round)) (get keys (4 * round + 1)) rightt in
    (leftt, rightt .^ fval (get keys (4 * round + 2)) (get keys (4 * round + 3)) leftt)) (rotl 32 l 1, rotl 32 r 1) =
    (rotl 32 l' 1, rotl 32 r' 1).
Proof.
  intros HK Hl Hr. set (st n := loop 0 n (fun i => feistel f (K i)) (l, r)).
  apply (loop_inv (fun n s => exists l' r', st (2 * n) = (l', r') /\ word 32 l' /\ word 32 r' /\ s = (rotl 32 l' 1, rotl 32 r' 1))
    0 8); [done|by exists l, r|].
  intros n s Hn (l' & r' & E & Hl' & Hr' & ->). cbv zeta.
  assert (st (2 * (n + 1)) = feistel f (K (2 * n + 1)) (feistel f (K (2 * n)) (st (2 * n)))) as ->.
  { unfold st. replace (2 * (n + 1)) with (2 * n + 1 + 1) by lia. by rewrite !loop_snoc by lia. }
  rewrite E. cbn [feistel].
  destruct (HK (2 * n) ltac:(lia)) as [E0 E1], (HK (2 * n + 1) ltac:(lia)) as [E2 E3].
  replace (2 * (2 * n)) with (4 * n) in E0, E1 by lia. replace (2 * (2 * n + 1)) with (4 * n + 2) in E2, E3 by lia.
  replace (4 * n + 2 + 1) with (4 * n + 3) in E3 by lia.
  pose proof (word_f (K (2 * n)) r') as Hf. assert (word 32 (l' .^ f (K (2 * n)) r')) as Hx by by apply word_lxor.
  rewrite E0, E1, fval_f, <-rotl32_lxor by done.
  pose proof (word_f (K (2 * n + 1)) (l' .^ f (K (2 * n)) r')) as Hf'.
  rewrite E2, E3, fval_f, <-rotl32_lxor by done.
  eexists _, _. split_and!; [reflexivity|done|by apply word_lxor|done].
Qed.

Lemma rounds_loop K s : rounds (feistel f) (K <$> seqZ 0 16) s = loop 0 16 (fun i => feistel f (K i)) s.
Proof.
  rewrite loop_rounds. unfold rounds. generalize s. generalize (seqZ 0 16). clear.
  intros ks. induction ks as [|k ks IH]; intros s; [done|]. apply IH.
Qed.

Lemma desfunc_DES K keys x y : keyed K keys -> word 32 x -> word 32 y ->
  let b := DES (K <$> seqZ 0 16) (join 32 x y) in desfunc keys (x, y) = (b ≫ 32, wrap 32 b).
Proof.
  intros HK Hx Hy. unfold DES. cbv zeta. unfold desfunc. rewrite initial_IP by done. unfold halves. cbv beta iota.
  set (z := permute 64 IP (join 32 x y)). assert (word 64 z) as Hz by apply (word_permute 64 IP).
  assert (word 32 (z ≫ 32)) as Hl by (apply (word_shiftr_sub 64 z 32); [lia|done]).
  assert (word 32 (wrap 32 z)) as Hr by by apply wrap_range.
  destruct (keyed_rounds K keys (z ≫ 32) (wrap 32 z) HK Hl Hr) as (l & r & E & Hwl & Hwr & Eloop).
  cbv zeta in Eloop |- *. rewrite Eloop.
  rewrite rounds_loop, E.
  by apply final_FP.
Qed.

(** A context loaded by [des_key] does not decrypt. *)
Lemma des_key_half : let zeros := replicate 32 0 in let '(_, c) := des_key (mk_ctx zeros zeros) (replicate 8 2) zeros in
  (e ← des_enc c (replicate 8 2) 1; des_dec c e 1) <> Some (replicate 8 2).
Proof. by vm_compute. Qed.

(** From here on by its properties. *)
#[local] Opaque DES desfunc.

Lemma keyed_EN0 key KnL : Forall (word 8) key -> zlen KnL = 32 -> keyed (subkey (block64 key)) (deskey key EN0 KnL).
Proof. intros Hk Hz i Hi. exact (get_deskey key EN0 KnL i Hk Hz Hi). Qed.

Lemma keyed_DE1 key KnL : Forall (word 8) key -> zlen KnL = 32 ->
  keyed (fun i => subkey (block64 key) (15 - i)) (deskey key DE1 KnL).
Proof.
  intros Hk Hz i Hi. pose proof (get_deskey key DE1 KnL (15 - i) Hk Hz ltac:(lia)) as H.
  change (order DE1 (15 - i)) with (15 - (15 - i)) in H. by replace (15 - (15 - i)) with i in H by lia.
Qed.

Lemma rev_schedule key : (fun i => subkey key (15 - i)) <$> seqZ 0 16 = rev (schedule key).
Proof.
  unfold schedule. change (subkey key <$> seqZ 0 16) with (map (subkey key) (seqZ 0 16)). rewrite <-map_rev, rev_seqZ.
  change ((fun i => subkey key (15 - i)) <$> seqZ 0 16 = subkey key <$> ((fun i => 16 - i - 1) <$> seqZ 0 16)).
  rewrite <-list_fmap_compose. apply list_fmap_ext. intros i j _. unfold compose. f_equal. lia.
Qed.

Lemma keyed_cpkey K KnL into : zlen into = 32 -> keyed K KnL -> keyed K (cpkey KnL into).
Proof. intros Hz HK i Hi. rewrite cpkey_spec, !get_tab by (done || lia). by apply HK. Qed.

(** ** Blocks *)
Definition bytes64 (x : Z) : list Z := unscrun (x ≫ 32, wrap 32 x).

Lemma bytes64_ok x : bytes 8 (bytes64 x).
Proof. unfold bytes64, unscrun. apply be32_pair_bytes. Qed.

Lemma bytes64_block64 b : bytes 8 b -> bytes64 (block64 b) = b.
Proof.
  intros Hb. unfold bytes64, block64, unscrun. cbn [fst snd]. pose proof (be32_at_word b 4 (proj2 Hb)) as H4.
  rewrite shiftr_join, wrap_join by (done || lia). by apply be32_bytes_at.
Qed.

Lemma block64_bytes64 x : word 64 x -> block64 (bytes64 x) = x.
Proof.
  intros Hx. unfold bytes64, block64, unscrun. cbn [fst snd].
  destruct (be32_at_bytes (x ≫ 32) (wrap 32 x)) as [-> ->]; [apply (word_shiftr_sub 64 x 32); [lia|done]|by apply wrap_range|].
  by apply join_halves.
Qed.

Lemma scrunch_be32 l : Forall (word 8) l -> scrunch l = (be32_at l 0, be32_at l 4).
Proof.
  intros Hl. unfold scrunch, be32_at. rewrite !(land_mask 8), !(wrap_small 8) by (done || by apply get_word). done.
Qed.

(** A block under a key register. *)
Lemma block_spec K keys l : keyed K keys -> Forall (word 8) l ->
  unscrun (desfunc keys (scrunch l)) = bytes64 (DES (K <$> seqZ 0 16) (block64 l)).
Proof.
  intros HK Hl. rewrite scrunch_be32 by done. rewrite (desfunc_DES K keys) by (done || by apply be32_at_word). done.
Qed.

Lemma encrypt_spec key KnL b : Forall (word 8) key -> zlen KnL = 32 -> Forall (word 8) b ->
  unscrun (desfunc (deskey key EN0 KnL) (scrunch b)) = bytes64 (des_encrypt (block64 key) (block64 b)).
Proof. intros Hk Hz Hb. by apply block_spec, Hb; apply keyed_EN0. Qed.

Lemma decrypt_spec key KnL b : Forall (word 8) key -> zlen KnL = 32 -> Forall (word 8) b ->
  unscrun (desfunc (deskey key DE1 KnL) (scrunch b)) = bytes64 (des_decrypt (block64 key) (block64 b)).
Proof.
  intros Hk Hz Hb. unfold des_decrypt. rewrite <-rev_schedule. by apply block_spec, Hb; apply keyed_DE1.
Qed.

Lemma des_decrypt_encrypt k b : bytes 8 b -> bytes64 (des_decrypt k (block64 (bytes64 (des_encrypt k (block64 b))))) = b.
Proof.
  intros Hb. rewrite block64_bytes64 by apply word_DES. unfold des_decrypt, des_encrypt.
  rewrite DES_inverse by apply word_block64, Hb. by apply bytes64_block64.
Qed.

(** The loop over the blocks of an array. *)
Lemma des_each_block K keys bs : keyed K keys -> Forall (bytes 8) bs ->
  each_block keys (concat bs) (zlen bs) = Some (concat ((fun b => bytes64 (DES (K <$> seqZ 0 16) (block64 b))) <$> bs)).
Proof.
  intros HK Hbs. set (g b := bytes64 (DES (K <$> seqZ 0 16) (block64 b))). unfold each_block.
  assert (forall i, zlen (concat (g <$> take i bs)) = 8 * Z.of_nat (length (take i bs))) as Hlen.
  { intros i. generalize (take i bs). intros l. induction l as [|b l IH]; [done|].
    cbn [fmap list_fmap concat length]. rewrite zlen_app, IH. pose proof (bytes64_ok (DES (K <$> seqZ 0 16) (block64 b))) as [Hg _].
    unfold zlen. subst g. cbv beta. rewrite Hg. lia. }
  for_loop (fun i data => data = concat (g <$> take (Z.to_nat i) bs) ++ concat (drop (Z.to_nat i) bs)) as (data & -> & ->);
    [apply zlen_nonneg|done| |].
  - intros i data Hi ->. destruct (rd_Some bs i Hi) as [b Eb]. unfold rd in Eb. destruct (Z.ltb_spec i 0); [lia|].
    pose proof (Forall_lookup_1 _ _ _ _ Hbs Eb) as [Hb8 Hb]. specialize (Hlen (Z.to_nat i)).
    assert (zlen b = 8) as Hzb by (unfold zlen; by rewrite Hb8).
    assert (zlen (g b) = 8) as Hzg by (unfold zlen, g; by rewrite (proj1 (bytes64_ok _))).
    rewrite length_take in Hlen. unfold zlen in Hi. rewrite (drop_S bs _ _ Eb). cbn [concat].
    set (A := concat (g <$> take (Z.to_nat i) bs)) in *. set (C := concat (drop (S (Z.to_nat i)) bs)).
    assert (zlen A = 8 * i) as HA by lia. pose proof (zlen_nonneg C).
    assert (slice (A ++ b ++ C) (8 * i) 8 = Some b) as ->.
    { rewrite slice_Some by (rewrite ?zlen_app; lia). rewrite drop_app_length' by (unfold zlen in HA; lia).
      by rewrite take_app_length' by done. }
    rewrite bind_Some, (block_spec K keys b HK Hb). fold (g b). rewrite blit_app by (rewrite ?zlen_app; lia).
    eexists. split; [reflexivity|]. replace (Z.to_nat (i + 1)) with (S (Z.to_nat i)) by lia.
    rewrite (take_S_r _ _ _ Eb), fmap_app, concat_app. cbn [fmap list_fmap concat]. rewrite app_nil_r, <-app_assoc.
    f_equal. f_equal. apply drop_app_length'. unfold zlen in *. lia.
  - unfold zlen. rewrite Nat2Z.id, take_ge, drop_ge by done. cbn [concat]. by rewrite app_nil_r.
Qed.

(** ** The program on its input *)
Lemma block64_ext b b' : (forall i, 0 <= i < 8 -> get b i = get b' i) -> block64 b = block64 b'.
Proof. intros H. unfold block64, be32_at. by rewrite !H by lia. Qed.

Lemma tab_bytes n l : Forall (word 8) l -> Forall (word 8) (tab n (get l)).
Proof. intros Hl. apply Forall_fmap, Forall_forall. intros i _. by apply get_word. Qed.

Lemma encrypt_cpkey key KnL into b : Forall (word 8) key -> zlen KnL = 32 -> zlen into = 32 -> Forall (word 8) b ->
  unscrun (desfunc (cpkey (deskey key EN0 KnL) into) (scrunch b)) = bytes64 (des_encrypt (block64 key) (block64 b)).
Proof. intros Hk Hz Hi Hb. by apply block_spec, Hb; apply keyed_cpkey, keyed_EN0. Qed.

Lemma des_main {T} `{!Stdin T} (s : T) : stdin_ok s -> Forall (word 8) (pending s).1 ->
  leaves 40 s (main s) (bytes64 (des_encrypt (block64 (pending s).1) (block64 (drop 32 (pending s).1)))).
Proof.
  intros Hs Hr. unfold main.
  destruct (sys_read_spec 0 [21; 135; 185; 105; 110; 132; 146; 231; 225; 45; 146; 19; 138; 13; 31; 42;
     43; 135; 184; 109; 27; 69; 99; 68; 119; 3; 147; 103; 42; 162; 54; 82] 32 s Hs)
    as (s1 & key & r1 & -> & Hs1 & H1); [unfold word; lia|done|].
  rewrite input_read_tab, drop_ge, app_nil_r in H1 by (simpl; lia). injection H1 as Ep1 <- _. rewrite bind_Some. cbv beta iota.
  destruct (sys_read_spec 0 [0x01; 0x23; 0x45; 0x67; 0x89; 0xab; 0xcd; 0xe7] 8 s1 Hs1)
    as (s2 & data & r2 & -> & Hs2 & H2); [unfold word; lia|done|].
  rewrite input_read_tab, drop_ge, app_nil_r in H2 by (simpl; lia). injection H2 as Ep2 <- _. rewrite bind_Some. cbv beta iota zeta.
  assert ((pending s1).1 = drop 32 (pending s).1) as Ed by by rewrite <-Ep1.
  assert (Forall (word 8) (drop 32 (pending s).1)) as Hd by by apply Forall_drop.
  cbn [ek dk]. rewrite encrypt_cpkey by (first [apply tab_bytes; by rewrite ?Ed | reflexivity]).
  rewrite (block64_ext (tab 32 (get (pending s).1)) (pending s).1), (block64_ext (tab 8 (get (pending s1).1)) (drop 32 (pending s).1))
    by (intros i Hi; rewrite get_tab by lia; by rewrite ?Ed).
  apply write_leaves; [done|unfold word; lia|]. by rewrite <-Ep2, <-Ep1, consumed_add.
Qed.

(** C36. The DES program computes the cipher of FIPS 46-3: for every key, the key
    register that [deskey] loads for encryption and for decryption makes [des] the
    standard's encryption and decryption of the block, and the second undoes the first.
    [des_enc] under [des_key] encrypts every block of an array, and [des_dec] gives the
    array back where the other half of the context was loaded with [DE1].  [des_key]
    itself does not load that half, so that [des_dec] after it is not the inverse.  On
    any standard input [main] writes the encryption of the block behind the key. *)
Theorem des_fips (key KnL : list Z) : Forall (word 8) key -> 8 <= zlen key -> zlen KnL = 32 ->
  (forall b, bytes 8 b ->
    des (deskey key EN0 KnL) b = bytes64 (des_encrypt (block64 key) (block64 b)) /\
    des (deskey key DE1 KnL) b = bytes64 (des_decrypt (block64 key) (block64 b)) /\
    des (deskey key DE1 KnL) (des (deskey key EN0 KnL) b) = b) /\
  (forall dc bs, zlen (ek dc) = 32 -> zlen (dk dc) = 32 -> Forall (bytes 8) bs ->
    let '(_, c) := des_key dc key KnL in
    let d := mk_ctx (ek c) (cpkey (deskey key DE1 KnL) (dk c)) in
    dk c = dk dc /\ exists e, des_enc c (concat bs) (zlen bs) = Some e /\
    e = concat ((fun b => bytes64 (des_encrypt (block64 key) (block64 b))) <$> bs) /\
    des_dec d e (zlen bs) = Some (concat bs)) /\
  (let zeros := replicate 32 0 in let '(_, c) := des_key (mk_ctx zeros zeros) (replicate 8 2) zeros in
    (e ← des_enc c (replicate 8 2) 1; des_dec c e 1) <> Some (replicate 8 2)) /\
  (forall T (H : Stdin T) (s : T) rest, stdin_ok s -> (pending s).1 = rest -> Forall (word 8) rest ->
    leaves 40 s (main s) (bytes64 (des_encrypt (block64 rest) (block64 (drop 32 rest))))).
Proof.
  intros Hk _ Hz. set (k := block64 key).
  pose proof (des_decrypt_encrypt k) as Hinv.
  assert (forall b, bytes 8 b -> bytes64 (DES ((fun i => subkey k (15 - i)) <$> seqZ 0 16)
    (block64 (bytes64 (des_encrypt k (block64 b))))) = b) as Hback by (rewrite rev_schedule; exact Hinv).
  split_and!.
  - intros b Hb. unfold des. rewrite decrypt_spec, encrypt_spec by (done || apply Hb).
    split_and!; [done|done|]. rewrite decrypt_spec by (done || apply bytes64_ok). by apply Hinv.
  - intros dc bs He Hd Hbs. unfold des_key. split; [done|]. eexists. split; [|split; [done|]].
    + apply des_each_block; [|done]. apply keyed_cpkey; [done|]. by apply keyed_EN0.
    + unfold des_dec. cbn [dk]. set (es := (fun b => bytes64 (des_encrypt k (block64 b))) <$> bs).
      replace (zlen bs) with (zlen es) by (unfold zlen, es; by rewrite length_fmap).
      rewrite (des_each_block (fun i => subkey k (15 - i))); [|apply keyed_cpkey; [exact Hd|exact (keyed_DE1 key KnL Hk Hz)]|].
      * do 2 f_equal. by apply (fmap_inverse (P := bytes 8)).
      * subst es. apply Forall_fmap, Forall_forall. intros b _. apply bytes64_ok.
  - exact des_key_half.
  - intros T H s rest Hs <- Hr. by apply des_main.
Qed.

Lemma des_fips_witness : let key := [0x01; 0x23; 0x45; 0x67; 0x89; 0xab; 0xcd; 0xef] in
  Forall (word 8) key /\ des (deskey key DE1 (replicate 32 0)) (des (deskey key EN0 (replicate 32 0)) [1; 2; 3; 4; 5; 6; 7; 8]) = [1; 2; 3; 4; 5; 6; 7; 8].
Proof.
  intros key. assert (Forall (word 8) key) as Hk by by apply words_b_Forall. split; [exact Hk|].
  destruct (des_fips key (replicate 32 0) Hk) as (Hb & _); [done|done|].
  apply Hb. split; [done|]. by apply words_b_Forall.
Defined.
