(* ===== verification/LibgDesTables.v ===== *)
(** * [benchmarks/libg/des.c]: the tables.

    The S-boxes with the permutation and the rotation, the swaps of the key, and the keys
    the program calls weak. *)
From S2P Require Import Prelude.
Local Open Scope Z_scope.

Definition sbox1 : list Z :=
  [0x01010400; 0x00000000; 0x00010000; 0x01010404; 0x01010004; 0x00010404; 0x00000004; 0x00010000;
   0x00000400; 0x01010400; 0x01010404; 0x00000400; 0x01000404; 0x01010004; 0x01000000; 0x00000004;
   0x00000404; 0x01000400; 0x01000400; 0x00010400; 0x00010400; 0x01010000; 0x01010000; 0x01000404;
   0x00010004; 0x01000004; 0x01000004; 0x00010004; 0x00000000; 0x00000404; 0x00010404; 0x01000000;
   0x00010000; 0x01010404; 0x00000004; 0x01010000; 0x01010400; 0x01000000; 0x01000000; 0x00000400;
   0x01010004; 0x00010000; 0x00010400; 0x01000004; 0x00000400; 0x00000004; 0x01000404; 0x00010404;
   0x01010404; 0x00010004; 0x01010000; 0x01000404; 0x01000004; 0x00000404; 0x00010404; 0x01010400;
   0x00000404; 0x01000400; 0x01000400; 0x00000000; 0x00010004; 0x00010400; 0x00000000; 0x01010004].

Definition sbox2 : list Z :=
  [0x80108020; 0x80008000; 0x00008000; 0x00108020; 0x00100000; 0x00000020; 0x80100020; 0x80008020;
   0x80000020; 0x80108020; 0x80108000; 0x80000000; 0x80008000; 0x00100000; 0x00000020; 0x80100020;
   0x00108000; 0x00100020; 0x80008020; 0x00000000; 0x80000000; 0x00008000; 0x00108020; 0x80100000;
   0x00100020; 0x80000020; 0x00000000; 0x00108000; 0x00008020; 0x80108000; 0x80100000; 0x00008020;
   0x00000000; 0x00108020; 0x80100020; 0x00100000; 0x80008020; 0x80100000; 0x80108000; 0x00008000;
   0x80100000; 0x80008000; 0x00000020; 0x80108020; 0x00108020; 0x00000020; 0x00008000; 0x80000000;
   0x00008020; 0x80108000; 0x00100000; 0x80000020; 0x00100020; 0x80008020; 0x80000020; 0x00100020;
   0x00108000; 0x00000000; 0x80008000; 0x00008020; 0x80000000; 0x80100020; 0x80108020; 0x00108000].

Definition sbox3 : list Z :=
  [0x00000208; 0x08020200; 0x00000000; 0x08020008; 0x08000200; 0x00000000; 0x00020208; 0x08000200;
   0x00020008; 0x08000008; 0x08000008; 0x00020000; 0x08020208; 0x00020008; 0x08020000; 0x00000208;
   0x08000000; 0x00000008; 0x08020200; 0x00000200; 0x00020200; 0x08020000; 0x08020008; 0x00020208;
   0x08000208; 0x00020200; 0x00020000; 0x08000208; 0x00000008; 0x08020208; 0x00000200; 0x08000000;
   0x08020200; 0x08000000; 0x00020008; 0x00000208; 0x00020000; 0x08020200; 0x08000200; 0x00000000;
   0x00000200; 0x00020008; 0x08020208; 0x08000200; 0x08000008; 0x00000200; 0x00000000; 0x08020008;
   0x08000208; 0x00020000; 0x08000000; 0x08020208; 0x00000008; 0x00020208; 0x00020200; 0x08000008;
   0x08020000; 0x08000208; 0x00000208; 0x08020000; 0x00020208; 0x00000008; 0x08020008; 0x00020200].

Definition sbox4 : list Z :=
  [0x00802001; 0x00002081; 0x00002081; 0x00000080; 0x00802080; 0x00800081; 0x00800001; 0x00002001;
   0x00000000; 0x00802000; 0x00802000; 0x00802081; 0x00000081; 0x00000000; 0x00800080; 0x00800001;
   0x00000001; 0x00002000; 0x00800000; 0x00802001; 0x00000080; 0x00800000; 0x00002001; 0x00002080;
   0x00800081; 0x00000001; 0x00002080; 0x00800080; 0x00002000; 0x00802080; 0x00802081; 0x00000081;
   0x00800080; 0x00800001; 0x00802000; 0x00802081; 0x00000081; 0x00000000; 0x00000000; 0x00802000;
   0x00002080; 0x00800080; 0x00800081; 0x00000001; 0x00802001; 0x00002081; 0x00002081; 0x00000080;
   0x00802081; 0x00000081; 0x00000001; 0x00002000; 0x00800001; 0x00002001; 0x00802080; 0x00800081;
   0x00002001; 0x00002080; 0x00800000; 0x00802001; 0x00000080; 0x00800000; 0x00002000; 0x00802080].

Definition sbox5 : list Z :=
  [0x00000100; 0x02080100; 0x02080000; 0x42000100; 0x00080000; 0x00000100; 0x40000000; 0x02080000;
   0x40080100; 0x00080000; 0x02000100; 0x40080100; 0x42000100; 0x42080000; 0x00080100; 0x40000000;
   0x02000000; 0x40080000; 0x40080000; 0x00000000; 0x40000100; 0x42080100; 0x42080100; 0x02000100;
   0x42080000; 0x40000100; 0x00000000; 0x42000000; 0x02080100; 0x02000000; 0x42000000; 0x00080100;
   0x00080000; 0x42000100; 0x00000100; 0x02000000; 0x40000000; 0x02080000; 0x42000100; 0x40080100;
   0x02000100; 0x40000000; 0x42080000; 0x02080100; 0x40080100; 0x00000100; 0x02000000; 0x42080000;
   0x42080100; 0x00080100; 0x42000000; 0x42080100; 0x02080000; 0x00000000; 0x40080000; 0x42000000;
   0x00080100; 0x02000100; 0x40000100; 0x00080000; 0x00000000; 0x40080000; 0x02080100; 0x40000100].

Definition sbox6 : list Z :=
  [0x20000010; 0x20400000; 0x00004000; 0x20404010; 0x20400000; 0x00000010; 0x20404010; 0x00400000;
   0x20004000; 0x00404010; 0x00400000; 0x20000010; 0x00400010; 0x20004000; 0x20000000; 0x00004010;
   0x00000000; 0x00400010; 0x20004010; 0x00004000; 0x00404000; 0x20004010; 0x00000010; 0x20400010;
   0x20400010; 0x00000000; 0x00404010; 0x20404000; 0x00004010; 0x00404000; 0x20404000; 0x20000000;
   0x20004000; 0x00000010; 0x20400010; 0x00404000; 0x20404010; 0x00400000; 0x00004010; 0x20000010;
   0x00400000; 0x20004000; 0x20000000; 0x00004010; 0x20000010; 0x20404010; 0x00404000; 0x20400000;
   0x00404010; 0x20404000; 0x00000000; 0x20400010; 0x00000010; 0x00004000; 0x20400000; 0x00404010;
   0x00004000; 0x00400010; 0x20004010; 0x00000000; 0x20404000; 0x20000000; 0x00400010; 0x20004010].

Definition sbox7 : list Z :=
  [0x00200000; 0x04200002; 0x04000802; 0x00000000; 0x00000800; 0x04000802; 0x00200802; 0x04200800;
   0x04200802; 0x00200000; 0x00000000; 0x04000002; 0x00000002; 0x04000000; 0x04200002; 0x00000802;
   0x04000800; 0x00200802; 0x00200002; 0x04000800; 0x04000002; 0x04200000; 0x04200800; 0x00200002;
   0x04200000; 0x00000800; 0x00000802; 0x04200802; 0x00200800; 0x00000002; 0x04000000; 0x00200800;
   0x04000000; 0x00200800; 0x00200000; 0x04000802; 0x04000802; 0x04200002; 0x04200002; 0x00000002;
   0x00200002; 0x04000000; 0x04000800; 0x00200000; 0x04200800; 0x00000802; 0x00200802; 0x04200800;
   0x00000802; 0x04000002; 0x04200802; 0x04200000; 0x00200800; 0x00000000; 0x00000002; 0x04200802;
   0x00000000; 0x00200802; 0x04200000; 0x00000800; 0x04000002; 0x04000800; 0x00000800; 0x00200002].

Definition sbox8 : list Z :=
  [0x10001040; 0x00001000; 0x00040000; 0x10041040; 0x10000000; 0x10001040; 0x00000040; 0x10000000;
   0x00040040; 0x10040000; 0x10041040; 0x00041000; 0x10041000; 0x00041040; 0x00001000; 0x00000040;
   0x10040000; 0x10000040; 0x10001000; 0x00001040; 0x00041000; 0x00040040; 0x10040040; 0x10041000;
   0x00001040; 0x00000000; 0x00000000; 0x10040040; 0x10000040; 0x10001000; 0x00041040; 0x00040000;
   0x00041040; 0x00040000; 0x10041000; 0x00001000; 0x00000040; 0x10040040; 0x00001000; 0x00041040;
   0x10001000; 0x00000040; 0x10000040; 0x10040000; 0x10040040; 0x10000000; 0x00040000; 0x10001040;
   0x00000000; 0x10041040; 0x00040040; 0x10000040; 0x10040000; 0x10001000; 0x10001040; 0x00000000;
   0x10041040; 0x00041000; 0x00041000; 0x00001040; 0x00001040; 0x00040040; 0x10000000; 0x10041000].

Definition leftkey_swap : list Z :=
  [0x00000000; 0x00000001; 0x00000100; 0x00000101;
   0x00010000; 0x00010001; 0x00010100; 0x00010101;
   0x01000000; 0x01000001; 0x01000100; 0x01000101;
   0x01010000; 0x01010001; 0x01010100; 0x01010101].

Definition rightkey_swap : list Z :=
  [0x00000000; 0x01000000; 0x00010000; 0x01010000;
   0x00000100; 0x01000100; 0x00010100; 0x01010100;
   0x00000001; 0x01000001; 0x00010001; 0x01010001;
   0x00000101; 0x01000101; 0x00010101; 0x01010101].

Definition encrypt_rotate_tab : list Z :=
  [1; 1; 2; 2; 2; 2; 2; 2; 1; 2; 2; 2; 2; 2; 2; 1].

Definition weak_keys : list (list Z) :=
  [[0x00; 0x00; 0x00; 0x00; 0x00; 0x00; 0x00; 0x00];
   [0x00; 0x00; 0x1e; 0x1e; 0x00; 0x00; 0x0e; 0x0e];
   [0x00; 0x00; 0xe0; 0xe0; 0x00; 0x00; 0xf0; 0xf0];
   [0x00; 0x00; 0xfe; 0xfe; 0x00; 0x00; 0xfe; 0xfe];
   [0x00; 0x1e; 0x00; 0x1e; 0x00; 0x0e; 0x00; 0x0e];
   [0x00; 0x1e; 0x1e; 0x00; 0x00; 0x0e; 0x0e; 0x00];
   [0x00; 0x1e; 0xe0; 0xfe; 0x00; 0x0e; 0xf0; 0xfe];
   [0x00; 0x1e; 0xfe; 0xe0; 0x00; 0x0e; 0xfe; 0xf0];
   [0x00; 0xe0; 0x00; 0xe0; 0x00; 0xf0; 0x00; 0xf0];
   [0x00; 0xe0; 0x1e; 0xfe; 0x00; 0xf0; 0x0e; 0xfe];
   [0x00; 0xe0; 0xe0; 0x00; 0x00; 0xf0; 0xf0; 0x00];
   [0x00; 0xe0; 0xfe; 0x1e; 0x00; 0xf0; 0xfe; 0x0e];
   [0x00; 0xfe; 0x00; 0xfe; 0x00; 0xfe; 0x00; 0xfe];
   [0x00; 0xfe; 0x1e; 0xe0; 0x00; 0xfe; 0x0e; 0xf0];
   [0x00; 0xfe; 0xe0; 0x1e; 0x00; 0xfe; 0xf0; 0x0e];
   [0x00; 0xfe; 0xfe; 0x00; 0x00; 0xfe; 0xfe; 0x00];
   [0x1e; 0x00; 0x00; 0x1e; 0x0e; 0x00; 0x00; 0x0e];
   [0x1e; 0x00; 0x1e; 0x00; 0x0e; 0x00; 0x0e; 0x00];
   [0x1e; 0x00; 0xe0; 0xfe; 0x0e; 0x00; 0xf0; 0xfe];
   [0x1e; 0x00; 0xfe; 0xe0; 0x0e; 0x00; 0xfe; 0xf0];
   [0x1e; 0x1e; 0x00; 0x00; 0x0e; 0x0e; 0x00; 0x00];
   [0x1e; 0x1e; 0x1e; 0x1e; 0x0e; 0x0e; 0x0e; 0x0e];
   [0x1e; 0x1e; 0xe0; 0xe0; 0x0e; 0x0e; 0xf0; 0xf0];
   [0x1e; 0x1e; 0xfe; 0xfe; 0x0e; 0x0e; 0xfe; 0xfe];
   [0x1e; 0xe0; 0x00; 0xfe; 0x0e; 0xf0; 0x00; 0xfe];
   [0x1e; 0xe0; 0x1e; 0xe0; 0x0e; 0xf0; 0x0e; 0xf0];
   [0x1e; 0xe0; 0xe0; 0x1e; 0x0e; 0xf0; 0xf0; 0x0e];
   [0x1e; 0xe0; 0xfe; 0x00; 0x0e; 0xf0; 0xfe; 0x00];
   [0x1e; 0xfe; 0x00; 0xe0; 0x0e; 0xfe; 0x00; 0xf0];
   [0x1e; 0xfe; 0x1e; 0xfe; 0x0e; 0xfe; 0x0e; 0xfe];
   [0x1e; 0xfe; 0xe0; 0x00; 0x0e; 0xfe; 0xf0; 0x00];
   [0x1e; 0xfe; 0xfe; 0x1e; 0x0e; 0xfe; 0xfe; 0x0e];
   [0xe0; 0x00; 0x00; 0xe0; 0xf0; 0x00; 0x00; 0xf0];
   [0xe0; 0x00; 0x1e; 0xfe; 0xf0; 0x00; 0x0e; 0xfe];
   [0xe0; 0x00; 0xe0; 0x00; 0xf0; 0x00; 0xf0; 0x00];
   [0xe0; 0x00; 0xfe; 0x1e; 0xf0; 0x00; 0xfe; 0x0e];
   [0xe0; 0x1e; 0x00; 0xfe; 0xf0; 0x0e; 0x00; 0xfe];
   [0xe0; 0x1e; 0x1e; 0xe0; 0xf0; 0x0e; 0x0e; 0xf0];
   [0xe0; 0x1e; 0xe0; 0x1e; 0xf0; 0x0e; 0xf0; 0x0e];
   [0xe0; 0x1e; 0xfe; 0x00; 0xf0; 0x0e; 0xfe; 0x00];
   [0xe0; 0xe0; 0x00; 0x00; 0xf0; 0xf0; 0x00; 0x00];
   [0xe0; 0xe0; 0x1e; 0x1e; 0xf0; 0xf0; 0x0e; 0x0e];
   [0xe0; 0xe0; 0xe0; 0xe0; 0xf0; 0xf0; 0xf0; 0xf0];
   [0xe0; 0xe0; 0xfe; 0xfe; 0xf0; 0xf0; 0xfe; 0xfe];
   [0xe0; 0xfe; 0x00; 0x1e; 0xf0; 0xfe; 0x00; 0x0e];
   [0xe0; 0xfe; 0x1e; 0x00; 0xf0; 0xfe; 0x0e; 0x00];
   [0xe0; 0xfe; 0xe0; 0xfe; 0xf0; 0xfe; 0xf0; 0xfe];
   [0xe0; 0xfe; 0xfe; 0xe0; 0xf0; 0xfe; 0xfe; 0xf0];
   [0xfe; 0x00; 0x00; 0xfe; 0xfe; 0x00; 0x00; 0xfe];
   [0xfe; 0x00; 0x1e; 0xe0; 0xfe; 0x00; 0x0e; 0xf0];
   [0xfe; 0x00; 0xe0; 0x1e; 0xfe; 0x00; 0xf0; 0x0e];
   [0xfe; 0x00; 0xfe; 0x00; 0xfe; 0x00; 0xfe; 0x00];
   [0xfe; 0x1e; 0x00; 0xe0; 0xfe; 0x0e; 0x00; 0xf0];
   [0xfe; 0x1e; 0x1e; 0xfe; 0xfe; 0x0e; 0x0e; 0xfe];
   [0xfe; 0x1e; 0xe0; 0x00; 0xfe; 0x0e; 0xf0; 0x00];
   [0xfe; 0x1e; 0xfe; 0x1e; 0xfe; 0x0e; 0xfe; 0x0e];
   [0xfe; 0xe0; 0x00; 0x1e; 0xfe; 0xf0; 0x00; 0x0e];
   [0xfe; 0xe0; 0x1e; 0x00; 0xfe; 0xf0; 0x0e; 0x00];
   [0xfe; 0xe0; 0xe0; 0xfe; 0xfe; 0xf0; 0xf0; 0xfe];
   [0xfe; 0xe0; 0xfe; 0xe0; 0xfe; 0xf0; 0xfe; 0xf0];
   [0xfe; 0xfe; 0x00; 0x00; 0xfe; 0xfe; 0x00; 0x00];
   [0xfe; 0xfe; 0x1e; 0x1e; 0xfe; 0xfe; 0x0e; 0x0e];
   [0xfe; 0xfe; 0xe0; 0xe0; 0xfe; 0xfe; 0xf0; 0xf0];
   [0xfe; 0xfe; 0xfe; 0xfe; 0xfe; 0xfe; 0xfe; 0xfe]].
