(* ===== verification/LibgDes.v ===== *)
(** * [benchmarks/libg/des.c]: the Data Encryption Standard of libgcrypt.

    The parts of the file that are not commented out: the key schedule, the cipher and
    the program, with the macros as functions of the variables they change; and that they
    compute the cipher of FIPS 46-3. *)
From stdpp Require Import sorting.
From S2P Require Import Prelude Arrays Linear Bytes RunnerIo Stdin Ghostrider BlockCipher DesSpec DesTables Des DesCipher LibgDesTables.
Local Open Scope Z_scope.
Local Open Scope word_scope.

(** ** The program *)
Definition MODE_ENC : Z := 0.
Definition MODE_DEC : Z := 1.

Record des_ctx := mk_ctx { encrypt_subkeys : list Z; decrypt_subkeys : list Z }.

(** [x << n] of a [uint32_t]. *)
Definition shl (x n : Z) : Z := u32 (x ≪ n).

Definition DO_PERMUTATION (offset mask : Z) (ab : Z * Z) : Z * Z :=
  let '(a, b) := ab in
  let temp := ((a ≫ offset) .^ b) .& mask in
  let b := b .^ temp in
  (a .^ shl temp offset, b).

Definition INITIAL_PERMUTATION (leftt rightt : Z) : Z * Z :=
  let '(leftt, rightt) := DO_PERMUTATION 4 0x0f0f0f0f (leftt, rightt) in
  let '(leftt, rightt) := DO_PERMUTATION 16 0x0000ffff (leftt, rightt) in
  let '(rightt, leftt) := DO_PERMUTATION 2 0x33333333 (rightt, leftt) in
  let '(rightt, leftt) := DO_PERMUTATION 8 0x00ff00ff (rightt, leftt) in
  let rightt := shl rightt 1 .| (rightt ≫ 31) in
  let temp := (leftt .^ rightt) .& 0xaaaaaaaa in
  let rightt := rightt .^ temp in
  let leftt := leftt .^ temp in
  (shl leftt 1 .| (leftt ≫ 31), rightt).

Definition FINAL_PERMUTATION (leftt rightt : Z) : Z * Z :=
  let leftt := shl leftt 31 .| (leftt ≫ 1) in
  let temp := (leftt .^ rightt) .& 0xaaaaaaaa in
  let leftt := leftt .^ temp in
  let rightt := rightt .^ temp in
  let rightt := shl rightt 31 .| (rightt ≫ 1) in
  let '(rightt, leftt) := DO_PERMUTATION 8 0x00ff00ff (rightt, leftt) in
  let '(rightt, leftt) := DO_PERMUTATION 2 0x33333333 (rightt, leftt) in
  let '(leftt, rightt) := DO_PERMUTATION 16 0x0000ffff (leftt, rightt) in
  DO_PERMUTATION 4 0x0f0f0f0f (leftt, rightt).

(** The new [to]; [subkey0] and [subkey1] are read through [subkey]. *)
Definition DES_ROUND (from to subkey0 subkey1 : Z) : Z :=
  let work := from .^ subkey0 in
  let to := to .^ get sbox8 (work .& 0x3f) in
  let to := to .^ get sbox6 ((work ≫ 8) .& 0x3f) in
  let to := to .^ get sbox4 ((work ≫ 16) .& 0x3f) in
  let to := to .^ get sbox2 ((work ≫ 24) .& 0x3f) in
  let work := (shl from 28 .| (from ≫ 4)) .^ subkey1 in
  let to := to .^ get sbox7 (work .& 0x3f) in
  let to := to .^ get sbox5 ((work ≫ 8) .& 0x3f) in
  let to := to .^ get sbox3 ((work ≫ 16) .& 0x3f) in
  to .^ get sbox1 ((work ≫ 24) .& 0x3f).

(** The assignments of [des_key_schedule]. *)
Definition swap_left (x : Z) : Z :=
  (shl (get leftkey_swap ((x ≫ 0) .& 0xf)) 3
   .| shl (get leftkey_swap ((x ≫ 8) .& 0xf)) 2
   .| shl (get leftkey_swap ((x ≫ 16) .& 0xf)) 1
   .| get leftkey_swap ((x ≫ 24) .& 0xf)
   .| shl (get leftkey_swap ((x ≫ 5) .& 0xf)) 7
   .| shl (get leftkey_swap ((x ≫ 13) .& 0xf)) 6
   .| shl (get leftkey_swap ((x ≫ 21) .& 0xf)) 5
   .| shl (get leftkey_swap ((x ≫ 29) .& 0xf)) 4) .& 0x0fffffff.

Definition swap_right (x : Z) : Z :=
  (shl (get rightkey_swap ((x ≫ 1) .& 0xf)) 3
   .| shl (get rightkey_swap ((x ≫ 9) .& 0xf)) 2
   .| shl (get rightkey_swap ((x ≫ 17) .& 0xf)) 1
   .| get rightkey_swap ((x ≫ 25) .& 0xf)
   .| shl (get rightkey_swap ((x ≫ 4) .& 0xf)) 7
   .| shl (get rightkey_swap ((x ≫ 12) .& 0xf)) 6
   .| shl (get rightkey_swap ((x ≫ 20) .& 0xf)) 5
   .| shl (get rightkey_swap ((x ≫ 28) .& 0xf)) 4) .& 0x0fffffff.

Definition rotate28 (x n : Z) : Z := (shl x n .| (x ≫ (28 - n))) .& 0x0fffffff.

Definition even_subkey (l r : Z) : Z :=
  (shl l 4 .& 0x24000000)
  .| (shl l 28 .& 0x10000000)
  .| (shl l 14 .& 0x08000000)
  .| (shl l 18 .& 0x02080000)
  .| (shl l 6 .& 0x01000000)
  .| (shl l 9 .& 0x00200000)
  .| ((l ≫ 1) .& 0x00100000)
  .| (shl l 10 .& 0x00040000)
  .| (shl l 2 .& 0x00020000)
  .| ((l ≫ 10) .& 0x00010000)
  .| ((r ≫ 13) .& 0x00002000)
  .| ((r ≫ 4) .& 0x00001000)
  .| (shl r 6 .& 0x00000800)
  .| ((r ≫ 1) .& 0x00000400)
  .| ((r ≫ 14) .& 0x00000200)
  .| (r .& 0x00000100)
  .| ((r ≫ 5) .& 0x00000020)
  .| ((r ≫ 10) .& 0x00000010)
  .| ((r ≫ 3) .& 0x00000008)
  .| ((r ≫ 18) .& 0x00000004)
  .| ((r ≫ 26) .& 0x00000002)
  .| ((r ≫ 24) .& 0x00000001).

Definition odd_subkey (l r : Z) : Z :=
  (shl l 15 .& 0x20000000)
  .| (shl l 17 .& 0x10000000)
  .| (shl l 10 .& 0x08000000)
  .| (shl l 22 .& 0x04000000)
  .| ((l ≫ 2) .& 0x02000000)
  .| (shl l 1 .& 0x01000000)
  .| (shl l 16 .& 0x00200000)
  .| (shl l 11 .& 0x00100000)
  .| (shl l 3 .& 0x00080000)
  .| ((l ≫ 6) .& 0x00040000)
  .| (shl l 15 .& 0x00020000)
  .| ((l ≫ 4) .& 0x00010000)
  .| ((r ≫ 2) .& 0x00002000)
  .| (shl r 8 .& 0x00001000)
  .| ((r ≫ 14) .& 0x00000808)
  .| ((r ≫ 9) .& 0x00000400)
  .| (r .& 0x00000200)
  .| (shl r 7 .& 0x00000100)
  .| ((r ≫ 7) .& 0x00000020)
  .| ((r ≫ 3) .& 0x00000011)
  .| (shl r 2 .& 0x00000004)
  .| ((r ≫ 21) .& 0x00000002).

(** An iteration of the loop. *)
Definition key_round (round : Z) (st : Z * Z * list Z) : Z * Z * list Z :=
  let '(leftt, rightt, subkey) := st in
  let leftt := rotate28 leftt (get encrypt_rotate_tab round) in
  let rightt := rotate28 rightt (get encrypt_rotate_tab round) in
  let subkey := set subkey (2 * round) (even_subkey leftt rightt) in
  (leftt, rightt, set subkey (2 * round + 1) (odd_subkey leftt rightt)).

Definition des_key_schedule (rawkey subkey : list Z) : list Z :=
  let '(leftt, rightt) := (be32_at rawkey 0, be32_at rawkey 4) in
  let '(rightt, leftt) := DO_PERMUTATION 4 0x0f0f0f0f (rightt, leftt) in
  let '(rightt, leftt) := DO_PERMUTATION 0 0x10101010 (rightt, leftt) in
  (loop 0 16 key_round (swap_left leftt, swap_right rightt, subkey)).2.

(** The context, and 0. *)
Definition des_setkey (key : list Z) (ctx : des_ctx) : des_ctx * Z :=
  let encrypt_subkeys := des_key_schedule key (encrypt_subkeys ctx) in
  let decrypt_subkeys := loop 0 16 (fun j decrypt_subkeys =>
    let i := 2 * j in
    let decrypt_subkeys := set decrypt_subkeys i (get encrypt_subkeys (30 - i)) in
    set decrypt_subkeys (i + 1) (get encrypt_subkeys (31 - i))) (decrypt_subkeys ctx) in
  (mk_ctx encrypt_subkeys decrypt_subkeys, 0).

Definition buf_put_be32 (val : Z) : list Z := [wrap 8 (val ≫ 24); wrap 8 (val ≫ 16); wrap 8 (val ≫ 8); wrap 8 val].

(** The block written to [to]. *)
Definition des_ecb_crypt (ctx : des_ctx) (from : list Z) (mode : Z) : list Z :=
  let keys := if mode =? 0 then encrypt_subkeys ctx else decrypt_subkeys ctx in
  let '(leftt, rightt) := INITIAL_PERMUTATION (be32_at from 0) (be32_at from 4) in
  let '(leftt, rightt) := loop 0 8 (fun i '(leftt, rightt) =>
    let leftt := DES_ROUND rightt leftt (get keys (4 * i)) (get keys (4 * i + 1)) in
    (leftt, DES_ROUND leftt rightt (get keys (4 * i + 2)) (get keys (4 * i + 3)))) (leftt, rightt) in
  let '(rightt, leftt) := FINAL_PERMUTATION rightt leftt in
  buf_put_be32 rightt ++ buf_put_be32 leftt.

(** [ctx] is what was on the stack. *)
Definition main {T} `{!Stdin T} (ctx : des_ctx) (s : T) : option (T * list Z) :=
  '(s, in_key, _) ← sys_read 0
    [143; 225; 19; 59; 80; 227; 84; 7; 51; 170; 246; 189; 170; 76; 126; 106; 188; 145; 239; 185; 250; 241; 255; 126] 24 s;
  '(s, in_, _) ← sys_read 0 (replicate 64 0) 64 s;
  let '(ctx, _) := des_setkey in_key ctx in
  out ← blit (replicate 64 0) 0 (des_ecb_crypt ctx in_ MODE_ENC);
  Some ((sys_write 1 64 s).1, out).

Definition zero_ctx : des_ctx := mk_ctx (replicate 32 0) (replicate 32 0).

Example libg_vector :
  des_ecb_crypt (des_setkey [0x01; 0x23; 0x45; 0x67; 0x89; 0xab; 0xcd; 0xef] zero_ctx).1
    [0x01; 0x23; 0x45; 0x67; 0x89; 0xab; 0xcd; 0xe7] MODE_ENC = [0xc9; 0x57; 0x44; 0x25; 0x6a; 0x5e; 0xd3; 0x1d].
Proof. by vm_compute. Qed.

(** ** The permutations around the rounds *)
Lemma initial_maps b : INITIAL_PERMUTATION b.1 b.2 = on_left (fun x => rotl 32 x 1) (exchange_odd (on_right (fun x => rotl 32 x 1)
  (swap (exchange 8 0x00ff00ff (exchange 2 0x33333333 (swap (exchange 16 0x0000ffff (exchange 4 0x0f0f0f0f b)))))))).
Proof.
  destruct b as [l r]. cbn [fst snd].
  unfold INITIAL_PERMUTATION. change DO_PERMUTATION with exchange. destruct (exchange 4 0x0f0f0f0f (l, r)) as [l1 r1].
  destruct (exchange 16 0x0000ffff (l1, r1)) as [l2 r2]. cbn [swap].
  destruct (exchange 2 0x33333333 (r2, l2)) as [r3 l3]. by destruct (exchange 8 0x00ff00ff (r3, l3)) as [r4 l4].
Qed.

Lemma INITIAL_IP l r : word 32 l -> word 32 r -> INITIAL_PERMUTATION l r = halves 1 (permute 64 IP (join 32 l r)).
Proof.
  intros Hl Hr. apply (linear_ext (S := halves_space) (T := halves_space) (fun b => INITIAL_PERMUTATION b.1 b.2)
    (fun b => halves 1 (permute 64 IP (join 32 b.1 b.2))) (l, r)); [|apply linear_IP|by vm_compute|done].
  eapply linear_eq; [|intros b _; symmetry; apply initial_maps]. linear_steps.
Qed.

Lemma FINAL_final l r : FINAL_PERMUTATION r l = final l r.
Proof.
  unfold FINAL_PERMUTATION, final, exchange_odd. change DO_PERMUTATION with exchange. cbv zeta. unfold rotate_right, shl.
  rewrite (Z.lxor_comm _ l). destruct (exchange 8 _ _) as [l1 r1]. destruct (exchange 2 _ _) as [l2 r2].
  destruct (exchange 16 _ _) as [r3 l3]. by destruct (exchange 4 _ _).
Qed.

(** ** A round *)

(** The bits some entry of a table has. *)
Definition bits_of (t : list Z) : Z := foldr Z.lor 0 t.

Lemma within_bits_of t c : within (bits_of t) (get t c).
Proof.
  unfold within, get. destruct (nth_in_or_default (Z.to_nat c) t 0) as [Hin| ->]; [|done]. revert Hin. generalize (nth (Z.to_nat c) t 0).
  intros x. unfold bits_of. induction t as [|y t IH]; [done|]. cbn [foldr]. rewrite Z.land_lor_distr_r.
  intros [->|Hin].
  - apply Z.bits_inj. intros i. rewrite Z.lor_spec, !Z.land_spec. btauto.
  - apply Z.bits_inj. intros i. rewrite Z.lor_spec, IH, Z.land_spec by done. by destruct (Z.testbit x i), (Z.testbit y i).
Qed.

(** The exclusive or with the boxes one by one. *)
Lemma fval_sum key0 key1 from : fval key0 key1 from =
  let w0 := (u32 (from ≪ 28) .| (from ≫ 4)) .^ key0 in let w1 := from .^ key1 in
  get SP7 (w0 .& 0x3f) .^ get SP5 ((w0 ≫ 8) .& 0x3f) .^ get SP3 ((w0 ≫ 16) .& 0x3f) .^ get SP1 ((w0 ≫ 24) .& 0x3f) .^
  get SP8 (w1 .& 0x3f) .^ get SP6 ((w1 ≫ 8) .& 0x3f) .^ get SP4 ((w1 ≫ 16) .& 0x3f) .^ get SP2 ((w1 ≫ 24) .& 0x3f).
Proof.
  unfold fval. cbv zeta. generalize ((u32 (from ≪ 28) .| (from ≫ 4)) .^ key0) (from .^ key1). intros w0 w1.
  pose proof (fun t c => within_bits_of t c) as Hb.
  destruct (within_lor _ _ _ _ (Hb SP7 (w0 .& 0x3f)) (Hb SP5 ((w0 ≫ 8) .& 0x3f)) eq_refl) as [<- H2].
  destruct (within_lor _ _ _ _ H2 (Hb SP3 ((w0 ≫ 16) .& 0x3f)) eq_refl) as [<- H3].
  destruct (within_lor _ _ _ _ H3 (Hb SP1 ((w0 ≫ 24) .& 0x3f)) eq_refl) as [<- H4].
  destruct (within_lor _ _ _ _ H4 (Hb SP8 (w1 .& 0x3f)) eq_refl) as [<- H5].
  destruct (within_lor _ _ _ _ H5 (Hb SP6 ((w1 ≫ 8) .& 0x3f)) eq_refl) as [<- H6].
  destruct (within_lor _ _ _ _ H6 (Hb SP4 ((w1 ≫ 16) .& 0x3f)) eq_refl) as [<- H7].
  by destruct (within_lor _ _ _ _ H7 (Hb SP2 ((w1 ≫ 24) .& 0x3f)) eq_refl) as [<- _].
Qed.

Lemma DES_ROUND_fval from to key0 key1 : DES_ROUND from to key1 key0 = to .^ fval key0 key1 from.
Proof.
  rewrite fval_sum. unfold DES_ROUND. cbv zeta. unfold shl.
  generalize ((u32 (from ≪ 28) .| (from ≫ 4)) .^ key0) (from .^ key1). intros w0 w1.
  change sbox1 with SP1. change sbox2 with SP2. change sbox3 with SP3. change sbox4 with SP4.
  change sbox5 with SP5. change sbox6 with SP6. change sbox7 with SP7. change sbox8 with SP8.
  generalize (get SP7 (w0 .& 0x3f)) (get SP5 ((w0 ≫ 8) .& 0x3f)) (get SP3 ((w0 ≫ 16) .& 0x3f)) (get SP1 ((w0 ≫ 24) .& 0x3f))
    (get SP8 (w1 .& 0x3f)) (get SP6 ((w1 ≫ 8) .& 0x3f)) (get SP4 ((w1 ≫ 16) .& 0x3f)) (get SP2 ((w1 ≫ 24) .& 0x3f)).
  intros a b c d e g h i. rewrite !Z.lxor_assoc. f_equal. apply Z.bits_inj. intros n. rewrite !Z.lxor_spec. btauto.
Qed.

(** ** The key schedule *)
Definition key_halves : space (Z * Z) := pair_space (word_space 28) (word_space 28).

(** Alternatives of masked words. *)
Ltac fits_terms :=
  lazymatch goal with
  | |- fits _ _ _ (fun a => _ .| _) => eapply fits_lor; [fits_terms|fits_terms|reflexivity]
  | |- fits _ _ _ (fun a => _ .& _) =>
      apply fits_land; first [assumption | apply (linear_shiftl 32); assumption | apply linear_shiftr; [lia|assumption]]
  | |- fits _ _ _ (fun a => wrap _ (_ ≪ _)) => apply (fits_shiftl 32); [lia|fits_terms]
  | |- fits _ _ _ (fun a => _ ≪ _) => apply fits_scale; [lia|fits_terms|split; reflexivity || discriminate]
  | |- fits _ _ _ (fun a => _ ≫ _) => apply fits_shiftr; [lia|fits_terms]
  | |- fits _ _ _ (fun a => get _ (_ .& _)) => apply fits_lookup with (m := 0x01010101);
      [reflexivity|split; reflexivity || discriminate|apply linear_shiftr; [lia|assumption]]
  end.

Lemma linear_fit {A} (S : space A) n m g : fits S n m g -> linear S (word_space n) g.
Proof. by intros [H _]. Qed.

Lemma linear_wider (n m : nat) {A} {S : space A} g : (n <= m)%nat -> linear S (word_space n) g -> linear S (word_space m) g.
Proof.
  intros Hn Hg. apply (linear_resize n); [|done]. intros a Ha. apply (word_mono (Z.of_nat n)); [by apply (linear_valid Hg)|lia].
Qed.

Lemma key_fst : linear key_halves (word_space 32) fst.
Proof. apply (linear_wider 28); [lia|]. split; [by intros a [Ha _]|done]. Qed.
Lemma key_snd : linear key_halves (word_space 32) snd.
Proof. apply (linear_wider 28); [lia|]. split; [by intros a [_ Ha]|done]. Qed.

Lemma linear_even : linear key_halves (word_space 32) (fun b => even_subkey b.1 b.2).
Proof. pose proof key_fst. pose proof key_snd. eapply linear_fit. unfold even_subkey, shl. fits_terms. Qed.
Lemma linear_odd : linear key_halves (word_space 32) (fun b => odd_subkey b.1 b.2).
Proof. pose proof key_fst. pose proof key_snd. eapply linear_fit. unfold odd_subkey, shl. fits_terms. Qed.

(** The words of a subkey, cooked. *)
Lemma linear_cooked : linear (word_space 48) halves_space cooked.
Proof.
  assert (linear (word_space 48) (word_space 32) (fun k => k ≫ 24)) as H0.
  { apply (linear_wider 24); [lia|]. apply (linear_high 24 24), linear_id. }
  assert (linear (word_space 48) (word_space 32) (fun k => wrap 24 k)) as H1.
  { apply (linear_wider 24); [lia|]. apply (linear_wrap 24 48); [lia|]. apply linear_id. }
  unfold cooked, cook. apply linear_pair; eapply linear_fit; fits_terms.
Qed.

Lemma linear_PC2 : linear key_halves (word_space 48) (fun b => permute 56 PC2 (join 28 b.1 b.2)).
Proof.
  apply (linear_permute 56 56 48); [done|]. apply (linear_join 28 28); (split; [by intros a [? ?]|done]).
Qed.

Lemma subkeys_PC2 l r : word 28 l -> word 28 r ->
  (odd_subkey l r, even_subkey l r) = cooked (permute 56 PC2 (join 28 l r)).
Proof.
  intros Hl Hr. apply (linear_ext (S := key_halves) (T := halves_space) (fun b => (odd_subkey b.1 b.2, even_subkey b.1 b.2))
    (fun b => cooked (permute 56 PC2 (join 28 b.1 b.2))) (l, r)); [|..|by vm_compute|done].
  - apply linear_pair; [apply linear_odd|apply linear_even].
  - apply (linear_compose (T := word_space 48) cooked); [apply linear_cooked|apply linear_PC2].
Qed.

(** The permuted key. *)
Lemma linear_swap_left : linear (word_space 32) (word_space 28) swap_left.
Proof.
  pose proof (linear_id (S := word_space 32)). apply (linear_resize 32).
  - intros a _. unfold swap_left. by apply word_land_r.
  - eapply linear_fit. unfold swap_left, shl. apply fits_land. eapply linear_fit. fits_terms.
Qed.
Lemma linear_swap_right : linear (word_space 32) (word_space 28) swap_right.
Proof.
  pose proof (linear_id (S := word_space 32)). apply (linear_resize 32).
  - intros a _. unfold swap_right. by apply word_land_r.
  - eapply linear_fit. unfold swap_right, shl. apply fits_land. eapply linear_fit. fits_terms.
Qed.

Definition key_start (b : Z * Z) : Z * Z :=
  let '(rightt, leftt) := DO_PERMUTATION 0 0x10101010 (DO_PERMUTATION 4 0x0f0f0f0f (swap b)) in (swap_left leftt, swap_right rightt).

Lemma linear_key_start : linear halves_space key_halves key_start.
Proof.
  apply (linear_eq (fun b => (swap_left (exchange 0 0x10101010 (exchange 4 0x0f0f0f0f (swap b))).2,
    swap_right (exchange 0 0x10101010 (exchange 4 0x0f0f0f0f (swap b))).1))).
  - assert (linear halves_space halves_space (fun b => exchange 0 0x10101010 (exchange 4 0x0f0f0f0f (swap b)))) as H by linear_steps.
    apply linear_pair; [apply (linear_compose (T := word_space 32) swap_left)|apply (linear_compose (T := word_space 32) swap_right)];
      [apply linear_swap_left|by apply linear_snd in H|apply linear_swap_right|by apply linear_fst in H].
  - intros b _. unfold key_start. change DO_PERMUTATION with exchange. by destruct (exchange 0 _ _).
Qed.

(** The two halves of the key after [PC1]. *)
Lemma key_start_PC1 l r : word 32 l -> word 32 r ->
  key_start (l, r) = (permute 64 PC1 (join 32 l r) ≫ 28, wrap 28 (permute 64 PC1 (join 32 l r))).
Proof.
  intros Hl Hr. apply (linear_ext (S := halves_space) (T := key_halves) key_start
    (fun b => (permute 64 PC1 (join 32 b.1 b.2) ≫ 28, wrap 28 (permute 64 PC1 (join 32 b.1 b.2)))) (l, r)); [apply linear_key_start|..|by vm_compute|done].
  assert (linear halves_space (word_space 56) (fun b => permute 64 PC1 (join 32 b.1 b.2))) as H.
  { apply (linear_permute 64 64 56); [done|]. apply linear_join32; [apply linear_id_fst|apply linear_id_snd]. }
  apply linear_pair; [by apply (linear_high 28 28)|]. apply (linear_wrap 28 56); [lia|done].
Qed.

Lemma rotate28_rotl x n : word 28 x -> 0 <= n <= 28 -> rotate28 x n = rotl 28 x n.
Proof.
  intros Hx Hn. unfold rotate28, shl, rotl. rewrite (land_mask 28) by done. apply Z.bits_inj'. intros i Hi.
  rewrite testbit_wrap, !Z.lor_spec, !testbit_wrap by done. destruct (Z.ltb_spec i 28).
  - by destruct (Z.ltb_spec i 32); [|lia].
  - symmetry. rewrite Z.shiftr_spec by done. apply (word_testbit 28); [done|lia].
Qed.

Lemma word_shifted i x : word 28 x -> word 28 (shifted i x).
Proof. apply (linear_valid (linear_shifted (S := word_space 28) i (fun x => x) linear_id)). Qed.

Lemma shifted_next (i : nat) x : (i < 16)%nat -> shifted (S i) x = rotl 28 (shifted i x) (get SHIFTS (Z.of_nat i)).
Proof.
  intros Hi. unfold shifted. destruct (lookup_lt_is_Some_2 SHIFTS i) as [s Es]; [done|]. rewrite (take_S_r _ _ _ Es), foldl_snoc.
  f_equal. symmetry. apply get_rd; [lia|]. by rewrite rd_nat.
Qed.

Lemma shift_range i : 0 <= i < 16 -> 0 <= get SHIFTS i <= 28.
Proof.
  intros Hi. assert (0 <= get SHIFTS i < 29); [|lia]. apply below_spec. by apply (table_entries SHIFTS (fun _ => below 29) 16).
Qed.

Definition libg_keyed (K : Z -> Z) (n : Z) (keys : list Z) : Prop := zlen keys = 32 /\ forall i, 0 <= i < n ->
  (get keys (2 * i + 1), get keys (2 * i)) = cooked (K i).

Lemma key_rounds c d sk : word 28 c -> word 28 d -> zlen sk = 32 ->
  libg_keyed (fun i => permute 56 PC2 (join 28 (shifted (S (Z.to_nat i)) c) (shifted (S (Z.to_nat i)) d))) 16 (loop 0 16 key_round (c, d, sk)).2.
Proof.
  intros Hc Hd Hz. set (K := fun i => permute 56 PC2 _).
  apply (loop_inv (fun i st => st.1 = (shifted (Z.to_nat i) c, shifted (Z.to_nat i) d) /\ libg_keyed K i st.2));
    [lia|split; [reflexivity|split; [exact Hz|lia]]|].
  intros i [[l r] ks] Hi [E [Hks Hold]]. cbn [fst snd] in *. injection E as -> ->. unfold key_round. cbv zeta.
  change encrypt_rotate_tab with SHIFTS. pose proof (shift_range i Hi) as Hs.
  rewrite !rotate28_rotl by (done || by apply word_shifted).
  assert (forall x, rotl 28 (shifted (Z.to_nat i) x) (get SHIFTS i) = shifted (S (Z.to_nat i)) x) as Hnext.
  { intros x. rewrite shifted_next, Z2Nat.id by lia. done. }
  rewrite !Hnext. cbn [fst snd].
  replace (Z.to_nat (i + 1)) with (S (Z.to_nat i)) by lia. split; [done|]. split; [by rewrite !zlen_set|].
  intros j Hj. destruct (decide (j = i)) as [->|].
  - rewrite get_set_eq by (rewrite zlen_set; lia). rewrite get_set_ne, get_set_eq by lia.
    apply subkeys_PC2; by apply word_shifted.
  - rewrite !get_set_ne by lia. apply Hold. lia.
Qed.

Lemma key_schedule_spec key sk : Forall (word 8) key -> zlen sk = 32 ->
  libg_keyed (subkey (block64 key)) 16 (des_key_schedule key sk).
Proof.
  intros Hk Hz. unfold des_key_schedule. pose proof (be32_at_word key 0 Hk) as H0. pose proof (be32_at_word key 4 Hk) as H4.
  pose proof (key_start_PC1 _ _ H0 H4) as E. unfold key_start in E. cbn [swap] in E. cbv beta iota.
  destruct (DO_PERMUTATION 4 0x0f0f0f0f (be32_at key 4, be32_at key 0)) as [r1 l1].
  destruct (DO_PERMUTATION 0 0x10101010 (r1, l1)) as [r2 l2]. injection E as -> ->.
  pose proof (word_permute 64 PC1 (join 32 (be32_at key 0) (be32_at key 4))) as Hcd.
  exact (key_rounds _ _ sk (word_shiftr_sub 56 _ 28 ltac:(lia) Hcd) (wrap_range 28 _ ltac:(lia)) Hz).
Qed.

(** ** The cipher *)

(** The key register of [Des]: the words of each pair in the other order. *)
Definition exchanged (keys : list Z) : list Z := tab 32 (fun i => get keys (if Z.even i then i + 1 else i - 1)).

Lemma get_exchanged keys i : 0 <= i < 16 ->
  get (exchanged keys) (2 * i) = get keys (2 * i + 1) /\ get (exchanged keys) (2 * i + 1) = get keys (2 * i).
Proof.
  intros Hi. unfold exchanged. rewrite !get_tab by lia. rewrite Z.even_add, Z.even_mul. simpl.
  split; f_equal. lia.
Qed.

Lemma libg_keyed_keyed K keys : libg_keyed K 16 keys -> keyed K (exchanged keys).
Proof.
  intros [_ HK] i Hi. destruct (get_exchanged keys i Hi) as [-> ->]. by rewrite <-(HK i Hi).
Qed.

Lemma libg_rounds keys st : loop 0 8 (fun i '(leftt, rightt) =>
    let leftt := DES_ROUND rightt leftt (get keys (4 * i)) (get keys (4 * i + 1)) in
    (leftt, DES_ROUND leftt rightt (get keys (4 * i + 2)) (get keys (4 * i + 3)))) st =
  loop 0 8 (fun round '(leftt, rightt) =>
    let leftt := leftt .^ fval (get (exchanged keys) (4 * round)) (get (exchanged keys) (4 * round + 1)) rightt in
    (leftt, rightt .^ fval (get (exchanged keys) (4 * round + 2)) (get (exchanged keys) (4 * round + 3)) leftt)) st.
Proof.
  apply (loop_rel (fun _ => eq)); [lia|done|]. intros i [l r] st' Hi <-. cbv zeta. rewrite !DES_ROUND_fval.
  destruct (get_exchanged keys (2 * i) ltac:(lia)) as [E0 E1], (get_exchanged keys (2 * i + 1) ltac:(lia)) as [E2 E3].
  replace (2 * (2 * i)) with (4 * i) in * by lia. replace (2 * (2 * i + 1)) with (4 * i + 2) in * by lia.
  replace (4 * i + 2 + 1) with (4 * i + 3) in * by lia. by rewrite E0, E1, E2, E3.
Qed.

Lemma buf_put_be32_bytes v : buf_put_be32 v = be32_bytes v.
Proof. unfold buf_put_be32, be32_bytes. by rewrite !(land_mask 8). Qed.

(** What the cipher does with a key register. *)
Definition crypt (keys from : list Z) : list Z := des_ecb_crypt (mk_ctx keys []) from MODE_ENC.

Lemma crypt_DES K keys b : libg_keyed K 16 keys -> Forall (word 8) b -> crypt keys b = bytes64 (DES (K <$> seqZ 0 16) (block64 b)).
Proof.
  intros HK Hb. unfold crypt, des_ecb_crypt. cbn [encrypt_subkeys]. change (MODE_ENC =? 0) with true. cbv beta iota zeta.
  rewrite INITIAL_IP by by apply be32_at_word. unfold halves. rewrite libg_rounds.
  change (join 32 (be32_at b 0) (be32_at b 4)) with (block64 b).
  pose proof (word_permute 64 IP (block64 b)) as Hz. unfold DES. revert Hz. generalize (permute 64 IP (block64 b)). intros z Hz.
  change (zlen IP) with 64 in Hz.
  destruct (keyed_rounds K (exchanged keys) (z ≫ 32) (wrap 32 z) (libg_keyed_keyed K keys HK)) as (l & r & E & Hwl & Hwr & Eloop);
    [apply (word_shiftr_sub 64 z 32); [lia|done]|by apply wrap_range|].
  cbv zeta in Eloop |- *. rewrite Eloop, rounds_loop, E, FINAL_final, final_FP by done.
  unfold bytes64, unscrun. cbn [fst snd]. by rewrite !buf_put_be32_bytes.
Qed.

Lemma setkey_encrypt key ctx : Forall (word 8) key -> zlen (encrypt_subkeys ctx) = 32 ->
  libg_keyed (subkey (block64 key)) 16 (encrypt_subkeys (des_setkey key ctx).1).
Proof. intros Hk Hz. by apply key_schedule_spec. Qed.

Lemma setkey_decrypt key ctx : Forall (word 8) key -> zlen (encrypt_subkeys ctx) = 32 -> zlen (decrypt_subkeys ctx) = 32 ->
  libg_keyed (fun i => subkey (block64 key) (15 - i)) 16 (decrypt_subkeys (des_setkey key ctx).1).
Proof.
  intros Hk Hz Hd. unfold des_setkey. cbn [fst decrypt_subkeys].
  destruct (key_schedule_spec key (encrypt_subkeys ctx) Hk Hz) as [_ He]. revert He.
  generalize (des_key_schedule key (encrypt_subkeys ctx)) (subkey (block64 key)). intros e K He.
  apply (loop_inv (libg_keyed (fun i => K (15 - i)))); [lia|split; [exact Hd|lia]|].
  intros j d Hj [Hz' Hold]. cbv zeta. split; [by rewrite !zlen_set|]. intros i Hi. destruct (decide (i = j)) as [->|].
  - rewrite get_set_eq by (rewrite zlen_set; lia). rewrite get_set_ne, get_set_eq by lia.
    rewrite <-(He (15 - j)) by lia. f_equal; f_equal; lia.
  - rewrite !get_set_ne by lia. apply Hold. lia.
Qed.

Lemma crypt_mode ctx from mode : des_ecb_crypt ctx from mode = crypt (if mode =? 0 then encrypt_subkeys ctx else decrypt_subkeys ctx) from.
Proof. unfold crypt, des_ecb_crypt. change (MODE_ENC =? 0) with true. cbn [encrypt_subkeys]. reflexivity. Qed.

#[local] Opaque crypt DES des_ecb_crypt.

Lemma libg_encrypt key ctx b : Forall (word 8) key -> zlen (encrypt_subkeys ctx) = 32 -> Forall (word 8) b ->
  des_ecb_crypt (des_setkey key ctx).1 b MODE_ENC = bytes64 (des_encrypt (block64 key) (block64 b)).
Proof.
  intros Hk Hz Hb. rewrite crypt_mode. change (MODE_ENC =? 0) with true. cbv beta iota.
  rewrite (crypt_DES (subkey (block64 key))); [reflexivity|by apply setkey_encrypt|done].
Qed.

Lemma libg_decrypt key ctx b : Forall (word 8) key -> zlen (encrypt_subkeys ctx) = 32 -> zlen (decrypt_subkeys ctx) = 32 ->
  Forall (word 8) b -> des_ecb_crypt (des_setkey key ctx).1 b MODE_DEC = bytes64 (des_decrypt (block64 key) (block64 b)).
Proof.
  intros Hk Hz Hd Hb. rewrite crypt_mode. change (MODE_DEC =? 0) with false. cbv beta iota.
  rewrite (crypt_DES (fun i => subkey (block64 key) (15 - i))), rev_schedule; [reflexivity|by apply setkey_decrypt|done].
Qed.

(** ** The weak keys *)
Definition weak (k : list Z) : bool :=
  forallb (fun b => b .& 1 =? 0) k && bool_decide (length (remove_dups (schedule (block64 k))) ∈ [1; 2; 4]%nat).

Fixpoint ascending (l : list Z) : bool :=
  match l with x :: (y :: _) as l' => (x <? y) && ascending l' | _ => true end.

Lemma ascending_sorted l : ascending l = true -> Sorted Z.lt l.
Proof.
  induction l as [|x l IH]; [constructor|]. intros H. destruct l as [|y l]; [repeat constructor|].
  cbn [ascending] in H. apply andb_true_iff in H as [Hx%Z.ltb_lt Hl]. constructor; [by apply IH|by constructor].
Qed.

Lemma weak_keys_weak :
  Forall (fun k => Forall (fun b => b .& 1 = 0) k /\ length (remove_dups (schedule (block64 k))) ∈ [1; 2; 4]%nat) weak_keys /\
  Sorted Z.lt (block64 <$> weak_keys).
Proof.
  split; [|apply ascending_sorted; by vm_compute]. assert (forallb weak weak_keys = true) as H by by vm_compute.
  rewrite forallb_forall in H. apply Forall_forall. intros k Hk%list_elem_of_In%H. unfold weak in Hk. apply andb_true_iff in Hk as [Hb Hs].
  split; [|by apply bool_decide_eq_true_1 in Hs]. rewrite forallb_forall in Hb. apply Forall_forall.
  intros b Hin%list_elem_of_In%Hb. by apply Z.eqb_eq.
Qed.

(** ** The program on its input *)
Lemma libg_main {T} `{!Stdin T} ctx (s : T) : zlen (encrypt_subkeys ctx) = 32 -> stdin_ok s -> Forall (word 8) (pending s).1 ->
  leaves 88 s (main ctx s) (bytes64 (des_encrypt (block64 (pending s).1) (block64 (drop 24 (pending s).1))) ++ replicate 56 0).
Proof.
  intros Hz Hs Hr. unfold main.
  destruct (sys_read_spec 0 [143; 225; 19; 59; 80; 227; 84; 7; 51; 170; 246; 189; 170; 76; 126; 106; 188; 145; 239; 185; 250; 241; 255; 126] 24 s Hs)
    as (s1 & key & r1 & -> & Hs1 & H1); [unfold word; lia|done|].
  rewrite input_read_tab, drop_ge, app_nil_r in H1 by (simpl; lia). injection H1 as Ep1 <- _. rewrite bind_Some. cbv beta iota.
  destruct (sys_read_spec 0 (replicate 64 0) 64 s1 Hs1) as (s2 & data & r2 & -> & Hs2 & H2); [unfold word; lia|done|].
  rewrite input_read_tab, drop_ge, app_nil_r in H2 by (simpl; lia). injection H2 as Ep2 <- _. rewrite bind_Some. cbv beta iota.
  assert ((pending s1).1 = drop 24 (pending s).1) as Ed by by rewrite <-Ep1.
  assert (Forall (word 8) (drop 24 (pending s).1)) as Hd by by apply Forall_drop.
  pose proof (libg_encrypt (tab 24 (get (pending s).1)) ctx (tab 64 (get (pending s1).1))) as E.
  destruct (des_setkey (tab 24 (get (pending s).1)) ctx) as [c z]. cbn [fst] in E. rewrite E by (first [exact Hz | apply tab_bytes; by rewrite ?Ed]).
  rewrite (block64_ext (tab 24 (get (pending s).1)) (pending s).1), (block64_ext (tab 64 (get (pending s1).1)) (drop 24 (pending s).1))
    by (intros i Hi; rewrite get_tab by lia; by rewrite ?Ed).
  destruct (bytes64_ok (des_encrypt (block64 (pending s).1) (block64 (drop 24 (pending s).1)))) as [Hl _].
  rewrite blit_0, Hl, bind_Some by (unfold zlen; rewrite Hl; done). rewrite drop_replicate.
  apply write_leaves; [done|unfold word; lia|]. by rewrite <-Ep2, <-Ep1, consumed_add.
Qed.

(** C37. libgcrypt's DES computes the cipher of FIPS 46-3, as the program of Applied
    Cryptography does.  For every key and block, [des_ecb_crypt] after [des_setkey] is
    the standard's encryption or decryption according to the mode, so that each undoes
    the other, and equals [des] under [deskey].  The keys of the table [weak_keys] are in
    ascending order with clear parity bits, and each of them has one, two or four
    different subkeys.  On any standard input [main] reads a key of 24 bytes and 64 bytes
    of data and writes the encryption of the first block under the first 8 bytes of the
    key, and then 56 zeros. *)
Theorem libg_des_fips (key : list Z) (ctx : des_ctx) : Forall (word 8) key -> 8 <= zlen key ->
  zlen (encrypt_subkeys ctx) = 32 -> zlen (decrypt_subkeys ctx) = 32 ->
  (let '(c, ret) := des_setkey key ctx in ret = 0 /\ forall b, bytes 8 b ->
    des_ecb_crypt c b MODE_ENC = bytes64 (des_encrypt (block64 key) (block64 b)) /\
    des_ecb_crypt c b MODE_DEC = bytes64 (des_decrypt (block64 key) (block64 b)) /\
    des_ecb_crypt c (des_ecb_crypt c b MODE_ENC) MODE_DEC = b /\
    (forall KnL, zlen KnL = 32 -> des_ecb_crypt c b MODE_ENC = des (deskey key EN0 KnL) b)) /\
  (Forall (fun k => Forall (fun b => b .& 1 = 0) k /\ length (remove_dups (schedule (block64 k))) ∈ [1; 2; 4]%nat) weak_keys /\
    Sorted Z.lt (block64 <$> weak_keys)) /\
  (forall T (H : Stdin T) (s : T) rest, stdin_ok s -> (pending s).1 = rest -> Forall (word 8) rest ->
    leaves 88 s (main ctx s) (bytes64 (des_encrypt (block64 rest) (block64 (drop 24 rest))) ++ replicate 56 0)).
Proof.
  intros Hk _ Hz Hd. split_and!.
  - pose proof (libg_encrypt key ctx) as He. pose proof (libg_decrypt key ctx) as Hde.
    assert ((des_setkey key ctx).2 = 0) as E0 by done. destruct (des_setkey key ctx) as [c ret]. cbn [fst snd] in *.
    split; [exact E0|]. intros b Hb. rewrite !He, !Hde by (done || apply Hb || apply bytes64_ok).
    split_and!; [done|done|by apply des_decrypt_encrypt|]. intros KnL Hn. symmetry. by apply encrypt_spec, Hb.
  - apply weak_keys_weak.
  - apply weak_keys_weak.
  - intros T H s rest Hs <- Hr. by apply libg_main.
Qed.

Lemma libg_des_fips_witness : let key := [0x01; 0x23; 0x45; 0x67; 0x89; 0xab; 0xcd; 0xef] in
  Forall (word 8) key /\ des_ecb_crypt (des_setkey key zero_ctx).1 (des_ecb_crypt (des_setkey key zero_ctx).1 [1; 2; 3; 4; 5; 6; 7; 8] MODE_ENC) MODE_DEC =
    [1; 2; 3; 4; 5; 6; 7; 8].
Proof.
  intros key. assert (Forall (word 8) key) as Hk by by apply words_b_Forall. split; [exact Hk|].
  destruct (libg_des_fips key zero_ctx Hk) as (Hb & _); [done|done|done|].
  destruct (des_setkey key zero_ctx) as [c ret]. destruct Hb as [_ Hb].
  apply Hb. split; [done|]. by apply words_b_Forall.
Defined.
