(* ===== verification/RadixSort.v ===== *)
(** * [benchmarks/ghostrider/rsort.c]: radix sort of the numbers read.

    A counting sort by one decimal digit is the concatenation, digit by digit, of the
    entries with that digit; sorting by every digit sorts.  An entry of [output] that
    was not assigned is [None], and reading it is undefined. *)
From stdpp Require Import sorting.
From S2P Require Import Prelude Arrays Bytes RunnerIo Stdin Ghostrider.
Local Open Scope Z_scope.

(** ** The program *)
Definition getMax (arr : list Z) (n : Z) : option Z :=
  mx ← rd arr 0;
  for_range 1 n (fun i mx => x ← rd arr i; Some (if mx <? x then x else mx)) mx.

(** [(arr[i] / exp) % 10]. *)
Definition digit_at (arr : list Z) (exp i : Z) : option Z := v ← rd arr i; Some (Z.rem (Z.quot v exp) 10).

Definition count_digits (arr : list Z) (n exp : Z) : option (list Z) :=
  for_range 0 n (fun i count => d ← digit_at arr exp i; c ← rd count d; wr count d (s32 (c + 1))) (replicate 10 0).

Definition prefix_sums (count : list Z) : option (list Z) :=
  for_range 1 10 (fun i count => c ← rd count i; p ← rd count (i - 1); wr count i (s32 (c + p))) count.

(** The loop from [n - 1] down to 0. *)
Definition place_digits (arr : list Z) (n exp : Z) (output : list (option Z)) (count : list Z)
    : option (list (option Z) * list Z) :=
  for_range 0 n (fun k '(output, count) =>
    let i := n - 1 - k in
    d ← digit_at arr exp i; c ← rd count d; v ← rd arr i; output ← wr output (c - 1) (Some v);
    d ← digit_at arr exp i; c ← rd count d; count ← wr count d (s32 (c - 1)); Some (output, count)) (output, count).

Definition countSort (arr : list Z) (n exp : Z) : option (list Z) :=
  count ← count_digits arr n exp;
  count ← prefix_sums count;
  '(output, _) ← place_digits arr n exp (replicate (Z.to_nat n) None) count;
  for_range 0 n (fun i arr => x ← rd output i; v ← x; wr arr i v) arr.

Fixpoint digits_loop (fuel : nat) (arr : list Z) (n m exp : Z) : option (list Z) :=
  if 0 <? Z.quot m exp then
    match fuel with
    | O => None
    | S fuel => arr ← countSort arr n exp; digits_loop fuel arr n m (s32 (exp * 10))
    end
  else Some arr.

Definition radixsort (fuel : nat) (arr : list Z) (n : Z) : option (list Z) :=
  m ← getMax arr n; digits_loop fuel arr n m 1.

Definition main {T} `{!Stdin T} (s : T) : option (T * list Z) :=
  let n := 64 in
  '(s, in_) ← read_array 2 n (replicate (Z.to_nat n) 0) s;
  in_ ← radixsort 9 in_ n;
  Some ((sys_write 1 (n * 4) s).1, in_ ≫= int_bytes).

(** ** Counting sort *)

(** A number is [m] at most. *)
Definition upto (m x : Z) : Prop := 0 <= x <= m.

(** The entries of [l] by digit, in their order. *)
Definition digit (exp v : Z) : Z := (v / exp) mod 10.
Definition bucket (exp : Z) (l : list Z) (d : Z) : list Z := filter (fun v => digit exp v = d) l.
Definition by_digit (exp : Z) (l : list Z) : list Z := seqZ 0 10 ≫= bucket exp l.

Lemma digit_range exp v : 0 <= digit exp v < 10.
Proof. by apply Z.mod_pos_bound. Qed.

Lemma bucket_snoc exp l v d : bucket exp (l ++ [v]) d = bucket exp l d ++ if decide (digit exp v = d) then [v] else [].
Proof. unfold bucket. by rewrite filter_app, filter_cons. Qed.

Lemma bucket_cons exp l v d : bucket exp (v :: l) d = (if decide (digit exp v = d) then [v] else []) ++ bucket exp l d.
Proof. unfold bucket. rewrite filter_cons. by destruct (decide _). Qed.

(** The digits around one of them. *)
Lemma digits_split d : 0 <= d < 10 -> seqZ 0 10 = seqZ 0 d ++ d :: seqZ (d + 1) (9 - d).
Proof.
  intros Hd. change (d :: ?l) with ([d] ++ l). change [d] with (seqZ d 1).
  rewrite <-(seqZ_app d 1) by lia. rewrite <-(seqZ_app 0 d) by lia. f_equal. lia.
Qed.

Lemma bind_digits {A} (f : Z -> list A) d : 0 <= d < 10 ->
  seqZ 0 10 ≫= f = (seqZ 0 d ≫= f) ++ f d ++ (seqZ (d + 1) (9 - d) ≫= f).
Proof. intros Hd. by rewrite (digits_split d), bind_app. Qed.

Lemma bind_ext_seqZ {A} (f g : Z -> list A) a n : (forall x, a <= x < a + n -> f x = g x) -> seqZ a n ≫= f = seqZ a n ≫= g.
Proof. intros H. apply Forall_bind_ext, Forall_forall. intros x ?%elem_of_seqZ. by apply H. Qed.

Lemma by_digit_perm exp l : by_digit exp l ≡ₚ l.
Proof.
  unfold by_digit. induction l as [|v l IH]; [by vm_compute|].
  pose proof (digit_range exp v) as Hd. rewrite (bind_digits _ (digit exp v)), bucket_cons by done.
  rewrite decide_True by done. rewrite !(bind_ext_seqZ (bucket exp (v :: l)) (bucket exp l)).
  2,3: intros x Hx; rewrite bucket_cons, decide_False by lia; done.
  simpl. rewrite <-Permutation_middle. constructor. rewrite <-IH at 4. by rewrite (bind_digits _ (digit exp v)).
Qed.

(** Where a digit's block starts. *)
Definition before (exp : Z) (l : list Z) (d : Z) : Z := zlen (seqZ 0 d ≫= bucket exp l).

Lemma before_next exp l d : 0 <= d -> before exp l (d + 1) = before exp l d + zlen (bucket exp l d).
Proof.
  intros Hd. unfold before. rewrite seqZ_app by lia. rewrite bind_app, zlen_app, Z.add_0_l.
  change (seqZ d 1) with [d]. simpl. by rewrite app_nil_r.
Qed.

Lemma before_le exp l d : 0 <= d < 10 -> 0 <= before exp l d /\ before exp l d + zlen (bucket exp l d) <= zlen l.
Proof.
  intros Hd. split; [apply zlen_nonneg|]. unfold before.
  assert (zlen (by_digit exp l) = zlen l) as <- by (unfold zlen; by rewrite by_digit_perm).
  unfold by_digit. rewrite (bind_digits _ d), !zlen_app by done. pose proof (zlen_nonneg (seqZ (d + 1) (9 - d) ≫= bucket exp l)). lia.
Qed.

Lemma take_zlen {A} (l : list A) : take (Z.to_nat (zlen l)) l = l.
Proof. unfold zlen. by rewrite Nat2Z.id, firstn_all. Qed.

Lemma drop_zlen {A} (l : list A) : drop (Z.to_nat (zlen l)) l = [].
Proof. unfold zlen. by rewrite Nat2Z.id, drop_all. Qed.

(** A write inside the block of a digit. *)
Lemma wr_block {A} (f g : Z -> list A) d L x R y i : 0 <= d < 10 ->
  f d = L ++ x :: R -> g d = L ++ y :: R -> (forall d', d' <> d -> f d' = g d') ->
  i = zlen (seqZ 0 d ≫= f) + zlen L -> wr (seqZ 0 10 ≫= f) i y = Some (seqZ 0 10 ≫= g).
Proof.
  intros Hd Ef Eg Hfg ->. rewrite !(bind_digits _ d), Ef, Eg by done.
  rewrite <-!(bind_ext_seqZ f g) by (intros; apply Hfg; lia).
  rewrite <-!(app_assoc L), <-!app_comm_cons, !(app_assoc _ L). apply wr_app. by rewrite zlen_app.
Qed.

Section counting_sort.
Context (l : list Z) (exp m : Z).
Hypotheses (Hl : Forall (upto m) l) (Hexp : 0 < exp) (Hn : zlen l < 2 ^ 31).

Lemma digit_at_spec i v : rd l i = Some v -> digit_at l exp i = Some (digit exp v).
Proof.
  intros E. pose proof (rd_range l i v E) as Hi. unfold digit_at. rewrite E. simpl. unfold digit.
  assert (0 <= v) as Hv.
  { rewrite Forall_lookup in Hl. unfold rd in E. destruct (i <? 0); [done|]. apply (Hl _ _ E). }
  rewrite Z.quot_div_nonneg, Z.rem_mod_nonneg; [done|by apply Z.div_pos|done..].
Qed.

(** The entries before an index, and the next one. *)
Lemma next_entry i : 0 <= i < zlen l -> exists v, rd l i = Some v /\
  take (Z.to_nat (i + 1)) l = take (Z.to_nat i) l ++ [v] /\ drop (Z.to_nat i) l = v :: drop (Z.to_nat (i + 1)) l.
Proof.
  intros Hi. destruct (rd_Some l i Hi) as [v Ev]. exists v. split; [done|].
  unfold rd in Ev. destruct (Z.ltb_spec i 0); [lia|]. replace (Z.to_nat (i + 1)) with (S (Z.to_nat i)) by lia.
  split; [by apply take_S_r|by apply drop_S].
Qed.

Lemma bucket_take_le (k : nat) d : 0 <= zlen (bucket exp (take k l) d) <= zlen (bucket exp l d).
Proof.
  split; [apply zlen_nonneg|]. rewrite <-(take_drop k l) at 2. unfold bucket. rewrite filter_app, zlen_app.
  pose proof (zlen_nonneg (filter (fun v => digit exp v = d) (drop k l))). lia.
Qed.

Lemma count_digits_spec : count_digits l (zlen l) exp = Some (tab 10 (fun d => zlen (bucket exp l d))).
Proof.
  unfold count_digits.
  for_loop (fun i count => count = tab 10 (fun d => zlen (bucket exp (take (Z.to_nat i) l) d))) as (c & E & ->).
  - apply zlen_nonneg.
  - done.
  - intros i c Hi ->. destruct (next_entry i Hi) as (v & Ev & Et & _). rewrite (digit_at_spec i v Ev). simpl.
    pose proof (digit_range exp v) as Hd. rewrite rd_tab by done. simpl. rewrite wr_tab by done. eexists. split; [done|].
    apply tab_ext. intros d Hd'. rewrite Et, bucket_snoc, zlen_app.
    pose proof (bucket_take_le (Z.to_nat i) (digit exp v)). pose proof (before_le exp l (digit exp v) Hd).
    pose proof (before_le exp l (digit exp v) Hd).
    assert (zlen (bucket exp (take (Z.to_nat i) l) (digit exp v)) <= zlen (take (Z.to_nat i) l)) as Hle.
    { unfold zlen, bucket. pose proof (length_filter (fun w => digit exp w = digit exp v) (take (Z.to_nat i) l)). lia. }
    rewrite zlen_take in Hle.
    destruct (Z.eqb_spec d (digit exp v)) as [->|]; [rewrite decide_True, sgn_small by (done || unfold sword; lia); done|].
    rewrite decide_False by done. change (zlen (A := Z) []) with 0. lia.
  - rewrite E. by rewrite take_zlen.
Qed.

Lemma prefix_sums_spec :
  prefix_sums (tab 10 (fun d => zlen (bucket exp l d))) = Some (tab 10 (fun d => before exp l (d + 1))).
Proof.
  unfold prefix_sums.
  for_loop (fun i count => count = tab 10 (fun d => if d <? i then before exp l (d + 1) else zlen (bucket exp l d)))
    as (c & -> & ->); [done| | |].
  - apply tab_ext. intros d Hd. destruct (Z.ltb_spec d 1); [|done]. replace d with 0 by lia. by rewrite before_next.
  - intros i c Hi ->. rewrite !rd_tab by lia. simpl. rewrite wr_tab by lia. eexists. split; [done|].
    apply tab_ext. intros d Hd. rewrite Z.ltb_irrefl. destruct (Z.ltb_spec (i - 1) i); [|lia].
    pose proof (before_le exp l i ltac:(lia)). pose proof (before_next exp l i ltac:(lia)) as En.
    replace (i - 1 + 1) with i by lia.
    destruct (Z.eqb_spec d i) as [->|]; [rewrite sgn_small by (done || unfold sword; pose proof (zlen_nonneg (bucket exp l i)); lia);
      destruct (Z.ltb_spec i (i + 1)); lia|].
    destruct (Z.ltb_spec d i), (Z.ltb_spec d (i + 1)); done || lia.
  - done.
Qed.

(** [output] while the entries from [j] on are placed: each block is filled from its end. *)
Definition block (j : Z) (d : Z) : list (option Z) :=
  replicate (length (bucket exp (take (Z.to_nat j) l) d)) None ++ (Some <$> bucket exp (drop (Z.to_nat j) l) d).

Lemma zlen_block j d : zlen (block j d) = zlen (bucket exp l d).
Proof.
  unfold block. rewrite zlen_app, zlen_replicate. rewrite <-(take_drop (Z.to_nat j) l) at 3.
  unfold zlen, bucket. rewrite filter_app, length_app, length_fmap. lia.
Qed.

Lemma before_block j d : zlen (seqZ 0 d ≫= block j) = before exp l d.
Proof.
  unfold before. generalize (seqZ 0 d). intros ds. induction ds as [|x ds IH]; [done|].
  by rewrite !bind_cons, !zlen_app, zlen_block, IH.
Qed.

Lemma place_digits_spec :
  exists count, place_digits l (zlen l) exp (replicate (Z.to_nat (zlen l)) None) (tab 10 (fun d => before exp l (d + 1))) =
    Some (Some <$> by_digit exp l, count).
Proof.
  unfold place_digits.
  for_loop (fun k '(output, count) => output = seqZ 0 10 ≫= block (zlen l - k) /\
      count = tab 10 (fun d => before exp l d + zlen (bucket exp (take (Z.to_nat (zlen l - k)) l) d))) as ([o c] & E & -> & ->).
  - apply zlen_nonneg.
  - rewrite Z.sub_0_r, take_zlen. split; [|apply tab_ext; intros d Hd; apply before_next; lia].
    unfold block. rewrite take_zlen, drop_zlen.
    assert (zlen (by_digit exp l) = zlen l) as <- by (unfold zlen; by rewrite by_digit_perm).
    unfold zlen, by_digit. rewrite Nat2Z.id. generalize (seqZ 0 10). intros ds.
    induction ds as [|d ds IH]; [done|]. by rewrite !bind_cons, length_app, replicate_add, IH, app_nil_r.
  - intros k [o c] Hk [-> ->]. cbv zeta. set (i := zlen l - 1 - k).
    destruct (next_entry i ltac:(lia)) as (v & Ev & Et & Ed). rewrite (digit_at_spec i v Ev), Ev. simpl.
    replace (zlen l - (k + 1)) with i by lia. replace (zlen l - k) with (i + 1) by lia.
    pose proof (digit_range exp v) as Hd. rewrite !rd_tab by done. simpl.
    pose proof (bucket_take_le (Z.to_nat (i + 1)) (digit exp v)) as Hle. pose proof (before_le exp l (digit exp v) Hd).
    rewrite Et, bucket_snoc, decide_True, zlen_app in Hle |- * by done. change (zlen [v]) with 1 in *.
    erewrite (wr_block (block (i + 1)) (block i) (digit exp v)); [|done|..]; cbn [mbind option_bind].
    2: { unfold block. rewrite Et, bucket_snoc, decide_True, length_app by done. simpl.
         by rewrite replicate_add, <-app_assoc. }
    2: { unfold block. by rewrite Ed, bucket_cons, decide_True by done. }
    2: { intros d Hne. unfold block. by rewrite Et, Ed, bucket_snoc, bucket_cons, !decide_False, app_nil_r by done. }
    2: { rewrite before_block, zlen_replicate. unfold zlen. lia. }
    rewrite wr_tab by done. cbn [mbind option_bind]. eexists. split; [done|]. split; [done|].
    apply tab_ext. intros d Hd'. destruct (Z.eqb_spec d (digit exp v)) as [->|].
    + rewrite sgn_small by (done || unfold sword; lia). lia.
    + rewrite bucket_snoc, decide_False, app_nil_r by done. done.
  - exists (tab 10 (fun d => before exp l d + zlen (bucket exp (take (Z.to_nat (zlen l - zlen l)) l) d))).
    etransitivity; [exact E|]. rewrite Z.sub_diag. do 2 f_equal. unfold by_digit, block. simpl take. simpl drop. 
    generalize (seqZ 0 10). intros ds. induction ds as [|d ds IH]; [done|]. by rewrite !bind_cons, fmap_app, IH.
Qed.

Lemma countSort_spec : countSort l (zlen l) exp = Some (by_digit exp l).
Proof.
  unfold countSort. rewrite count_digits_spec, bind_Some, prefix_sums_spec, bind_Some.
  destruct place_digits_spec as [c ->]. rewrite bind_Some. cbv beta iota.
  assert (zlen (by_digit exp l) = zlen l) as Ez by (unfold zlen; by rewrite by_digit_perm).
  rewrite (fill_loop l 0 (zlen l) (get (by_digit exp l))).
  - apply (f_equal Some). rewrite <-(tab_get (zlen l) (by_digit exp l)) by done.
    apply tab_ext. intros t Ht. destruct (Z.leb_spec 0 t), (Z.ltb_spec t (zlen l)); try lia. simpl. by rewrite tab_get.
  - pose proof (zlen_nonneg l). lia.
  - done.
  - intros i p Hi. destruct (rd_Some (by_digit exp l) i) as [v Ev]; [lia|]. rewrite (get_rd _ i v) by (done || lia).
    assert (rd (Some <$> by_digit exp l) i = Some (Some v)) as ->; [|done].
    unfold rd in *. destruct (i <? 0); [done|]. by rewrite list_lookup_fmap, Ev.
Qed.
End counting_sort.

(** ** Sorting by every digit *)

(** Sorted by the number below a power of ten. *)
Definition below (e : Z) (x y : Z) : Prop := x mod e <= y mod e.

Lemma StronglySorted_filter {A} (R : relation A) (P : A -> Prop) `{!forall x, Decision (P x)} (l : list A) :
  StronglySorted R l -> StronglySorted R (filter P l).
Proof.
  induction 1 as [|x l _ IH Hx]; [constructor|]. rewrite filter_cons. destruct (decide (P x)); [|done].
  constructor; [done|]. apply Forall_forall. intros y [_ Hy]%list_elem_of_filter. rewrite Forall_forall in Hx. by apply Hx.
Qed.

(** The digit decides, then what is below it. *)
Lemma below_digit e x y : 0 < e -> 0 <= x -> 0 <= y ->
  digit e x < digit e y \/ digit e x = digit e y /\ below e x y -> below (e * 10) x y.
Proof.
  intros He Hx Hy H. unfold below, digit in *. rewrite !Z.rem_mul_r by lia.
  pose proof (Z.mod_pos_bound x e He). pose proof (Z.mod_pos_bound y e He). nia.
Qed.

Lemma by_digit_sorted m e l : 0 < e -> Forall (upto m) l -> StronglySorted (below e) l ->
  StronglySorted (below (e * 10)) (by_digit e l).
Proof.
  intros He Hl Hs. rewrite Forall_forall in Hl.
  assert (forall a n, 0 <= n -> StronglySorted (below (e * 10)) (seqZ a n ≫= bucket e l)) as H; [|by apply H].
  intros a n Hn. revert n Hn. apply natlike_ind; [constructor|]. intros n Hn IH. unfold Z.succ.
  rewrite seqZ_app, bind_app by lia. change (seqZ (a + n) 1) with [a + n]. simpl. rewrite app_nil_r.
  apply StronglySorted_app_2; [|done|].
  - intros x y (d & Hx & Hd)%list_elem_of_bind [Ey Hy]%list_elem_of_filter.
    apply list_elem_of_filter in Hx as [Ex Hx]. apply elem_of_seqZ in Hd.
    apply below_digit; [done|apply Hl, Hx|apply Hl, Hy|left; lia].
  - unfold bucket. assert (StronglySorted (fun x y => digit e x = a + n -> digit e y = a + n -> 0 <= x -> 0 <= y -> below (e * 10) x y) l) as Hs'.
    { clear -Hs He. induction Hs as [|x l _ IH Hx]; constructor; [done|].
      eapply Forall_impl; [exact Hx|]. simpl. intros y Hxy Ex Ey Hx0 Hy0. apply below_digit; [done..|right; split; [congruence|done]]. }
    clear -Hs' Hl. induction Hs' as [|x l _ IH Hx]; [constructor|]. rewrite filter_cons.
    destruct (decide _) as [Ex|]; [|apply IH; intros; apply Hl; by right].
    constructor; [apply IH; intros; apply Hl; by right|]. apply Forall_forall. intros y [Ey Hy]%list_elem_of_filter.
    rewrite Forall_forall in Hx. apply Hx; [done..|apply Hl; by left|apply Hl; by right].
Qed.

Lemma getMax_spec l : 0 < zlen l -> exists m, getMax l (zlen l) = Some m /\ m ∈ l /\ Forall (fun x => x <= m) l.
Proof.
  intros Hl. unfold getMax. destruct (rd_Some l 0) as [v Ev]; [lia|]. rewrite Ev, bind_Some.
  assert (forall i x, rd l i = Some x -> x ∈ l) as Hin.
  { intros i x. unfold rd. destruct (i <? 0); [done|]. apply list_elem_of_lookup_2. }
  for_loop (fun i m => m ∈ l /\ forall j x, j < i -> rd l j = Some x -> x <= m) as (m & E & Hm & Hle).
  - lia.
  - split; [by apply (Hin 0)|]. intros j x Hj Ex. pose proof (rd_range l j x Ex). replace j with 0 in Ex by lia.
    rewrite Ev in Ex. injection Ex. lia.
  - intros i m Hi [Hm Hle]. destruct (rd_Some l i) as [x Ex]; [lia|]. rewrite Ex. simpl. eexists. split; [done|].
    split; [destruct (m <? x); [by apply (Hin i)|done]|]. intros j y Hj Ey. destruct (decide (j = i)) as [->|].
    + rewrite Ey in Ex. injection Ex as ->. destruct (Z.ltb_spec m x); lia.
    + specialize (Hle j y ltac:(lia) Ey). destruct (Z.ltb_spec m x); lia.
  - exists m. split; [done|]. split; [done|]. apply Forall_lookup. intros i x Ex. apply (Hle (Z.of_nat i)).
    + apply lookup_lt_Some in Ex. unfold zlen. lia.
    + by rewrite rd_nat.
Qed.

(** Each round sorts by one more digit. *)
Lemma digits_loop_spec fuel m l e : zlen l < 2 ^ 31 -> Forall (upto m) l -> 0 < e -> e * 10 ^ Z.of_nat fuel < 2 ^ 31 ->
  m < e * 10 ^ Z.of_nat fuel -> StronglySorted (below e) l ->
  exists l', digits_loop fuel l (zlen l) m e = Some l' /\ l' ≡ₚ l /\ StronglySorted Z.le l'.
Proof.
  intros Hn Hl He. revert l e Hn Hl He. induction fuel as [|fuel IH]; intros l e Hn Hl He Hov Hm Hs.
  all: assert (m < e -> StronglySorted Z.le l) as Hdone by
    (intros Hme; clear -Hs Hl Hme; induction Hs as [|x l _ IHs Hx]; inversion_clear Hl as [|?? Hx0 Hl']; constructor; [by apply IHs|];
     rewrite Forall_forall in Hx, Hl' |- *; intros y Hy; specialize (Hx y Hy); specialize (Hl' y Hy); unfold below, upto in *;
     rewrite !Z.mod_small in Hx by lia; done).
  all: simpl; destruct (Z.ltb_spec 0 (Z.quot m e)) as [Hq|Hq].
  - exfalso. rewrite Z.quot_small in Hq; [lia|]. split; [|lia]. destruct (Z.leb_spec 0 m) as [|Hneg]; [done|].
    rewrite <-(Z.opp_involutive m), Z.quot_opp_l in Hq by lia. pose proof (Z.quot_pos (- m) e ltac:(lia) ltac:(lia)). lia.
  - exists l. split_and!; [done..|apply Hdone; lia].
  - rewrite Nat2Z.inj_succ, Z.pow_succ_r in Hov, Hm by lia. pose proof (Z.pow_pos_nonneg 10 (Z.of_nat fuel) ltac:(lia) ltac:(lia)).
    rewrite (countSort_spec l e m), bind_Some by done. rewrite sgn_small by (done || unfold sword; nia).
    assert (zlen (by_digit e l) = zlen l) as Ez by (unfold zlen; by rewrite by_digit_perm).
    destruct (IH (by_digit e l) (e * 10)) as (l' & E & Hp & Hs'); [lia|by rewrite by_digit_perm|lia|lia|lia|by apply (by_digit_sorted m)|].
    exists l'. rewrite Ez in E. rewrite by_digit_perm in Hp. done.
  - exists l. split_and!; [done..|]. destruct (Z.leb_spec e m); [|by apply Hdone].
    pose proof (Z.quot_str_pos m e ltac:(lia)). lia.
Qed.

(** Radix sort of [int]s below a thousand million. *)
Lemma radixsort_sorts l : 0 < zlen l < 2 ^ 31 -> Forall (upto (10 ^ 9 - 1)) l ->
  radixsort 9 l (zlen l) = Some (merge_sort Z.le l).
Proof.
  intros Hn Hl. unfold radixsort. destruct (getMax_spec l) as (m & -> & Hm & Hle); [lia|]. rewrite bind_Some.
  rewrite Forall_forall in Hl, Hle. pose proof (Hl m Hm) as Hm'. unfold upto in *.
  destruct (digits_loop_spec 9 m l 1) as (l' & -> & Hp & Hs).
  - lia.
  - apply Forall_forall. intros x Hx. specialize (Hl x Hx). specialize (Hle x Hx). unfold upto. simpl in Hle. lia.
  - done.
  - done.
  - simpl. lia.
  - clear. induction l; constructor; [done|]. apply Forall_forall. intros y _. unfold below. by rewrite !Z.mod_1_r.
  - apply (f_equal Some). apply (StronglySorted_unique Z.le); [done|apply StronglySorted_merge_sort; apply _|].
    by rewrite Hp, merge_sort_Permutation.
Qed.

(** The program writes the numbers it read in order. *)
Lemma rsort_main {T} `{!Stdin T} (s : T) : stdin_ok s -> Forall (word 8) (pending s).1 ->
  leaves 128 s (main s) (merge_sort Z.le (tab 64 (short_at (pending s).1)) ≫= int_bytes).
Proof.
  intros Hs Hr. unfold main. cbv zeta.
  destruct (read_array_spec s 2 64 Hs ltac:(by right) Hr ltac:(done)) as (s' & -> & Hs' & Ep). rewrite bind_Some. cbv beta iota.
  fold (short_at (pending s).1). set (l := tab 64 (short_at (pending s).1)).
  assert (zlen l = 64) as Ez by (subst l; by rewrite zlen_tab).
  assert (Forall (upto (10 ^ 9 - 1)) l) as Hl.
  { subst l. unfold tab. apply Forall_fmap, Forall_forall. intros i _. simpl. unfold upto.
    pose proof (number_at_range (pending s).1 2 (2 * i) ltac:(by right) Hr). unfold short_at. lia. }
  rewrite <-Ez at 1. rewrite radixsort_sorts, bind_Some by (done || lia).
  apply write_leaves; [done|unfold word; lia|]. by rewrite Ep.
Qed.
