(* ===== verification/Dijkstra.v ===== *)
(** * [benchmarks/ghostrider/dijkstra.c].

    [bestj] keeps its value from one round to the next, and every node that improves on
    it is marked as visited, so the program does not compute shortest paths; what it
    writes is the length of some walk. *)
From S2P Require Import Prelude Arrays Rows Bytes RunnerIo Stdin Ghostrider.
Local Open Scope Z_scope.

(** ** The program *)
Definition INPUT_SIZE : Z := 32.

(** The scan for the next node. *)
Definition pick (secret n : Z) (dis vis : list Z) (bestj : Z) : option (list Z * Z) :=
  for_range 0 n (fun j '(vis, bestj) =>
    v ← rd vis j;
    if negb (v =? 0) then Some (vis, bestj) else
    better ← if bestj <? 0 then Some true else x ← rd dis j; y ← rd dis bestj; Some (x <? y);
    if better : bool then
      let bestj := s32 (j + secret) in vis ← wr vis bestj 1; Some (vis, bestj)
    else Some (vis, bestj)) (vis, bestj).

(** The edges of that node. *)
Definition relax (n : Z) (e dis vis : list Z) (bestj : Z) : option (list Z) :=
  for_range 0 n (fun j dis =>
    v ← rd vis j;
    if negb (v =? 0) then Some dis else
    x ← rd dis bestj; y ← rd2 INPUT_SIZE e bestj j; z ← rd dis j;
    if s32 (x + y) <? z then x ← rd dis bestj; y ← rd2 INPUT_SIZE e bestj j; wr dis j (s32 (x + y))
    else Some dis) dis.

Definition dijkstra (secret n s t : Z) (e : list Z) : option Z :=
  vis ← wr (replicate (Z.to_nat INPUT_SIZE) 0) s 1;
  dis ← for_range 0 n (fun i dis => x ← rd2 INPUT_SIZE e s i; wr dis i x) (replicate (Z.to_nat INPUT_SIZE) 0);
  '(dis, _, _) ← for_range 0 n (fun _ '(dis, vis, bestj) =>
    '(vis, bestj) ← pick secret n dis vis bestj;
    dis ← relax n e dis vis bestj;
    Some (dis, vis, bestj)) (dis, vis, -1);
  rd dis t.

Definition main {T} `{!Stdin T} (s : T) : option (T * list Z) :=
  '(s, secret) ← read_int 1 0 s;
  let secret := s32 (secret - wrap 8 secret) in
  '(s, in_) ← for_range 0 INPUT_SIZE (fun i st => for_range 0 INPUT_SIZE (fun j '(s, in_) =>
    x ← rd2 INPUT_SIZE in_ i j; '(s, x) ← read_int 2 x s; in_ ← wr2 INPUT_SIZE in_ i j x;
    Some (s, in_)) st) (s, replicate (Z.to_nat (INPUT_SIZE * INPUT_SIZE)) 0);
  res ← dijkstra secret INPUT_SIZE 0 (INPUT_SIZE - 1) in_;
  Some ((sys_write 1 4 s).1, int_bytes res).

(** ** Walks *)
Abbreviation node := (inside INPUT_SIZE).

Inductive walk (w : Z -> Z -> Z) (i : Z) : Z -> Z -> Prop :=
  | walk_edge j : node j -> walk w i j (w i j)
  | walk_snoc j d k : walk w i j d -> node k -> walk w i k (d + w j k).

(** Weights of two bytes. *)
Definition short_weights (w : Z -> Z -> Z) : Prop := forall i j, node i -> node j -> 0 <= w i j < 2 ^ 16.

Section dijkstra.
Context (w : Z -> Z -> Z) (s : Z).
Hypotheses (Hw : short_weights w) (Hs : node s).

(** Distances: lengths of walks, never above the direct edge. *)
Definition distances (D : Z -> Z) : Prop := forall j, node j -> walk w s j (D j) /\ 0 <= D j <= w s j.

Definition source_only (v : Z) : Z := if v =? s then 1 else 0.

(** [bestj] is a node, or nothing has been picked. *)
Definition picked (V : Z -> Z) (b : Z) : Prop := node b \/ b = -1 /\ V = source_only.

Lemma pick_spec V D b : distances D -> picked V b ->
  exists V' b', pick 0 INPUT_SIZE (tab INPUT_SIZE D) (tab INPUT_SIZE V) b = Some (tab INPUT_SIZE V', b') /\ node b'.
Proof.
  intros HD Hp. unfold pick.
  for_loop (fun j '(vis, b) => exists V, vis = tab INPUT_SIZE V /\
    (node b \/ b = -1 /\ V = source_only /\ forall j', 0 <= j' < j -> j' = s))
    as ([vis b'] & E & V' & -> & Hb); [done| | |].
  - exists V. split; [done|]. destruct Hp as [|[-> ->]]; [by left|right]. split_and!; [done..|intros; lia].
  - intros j [vis b1] Hj (V1 & -> & Hb1). rewrite (rd_tab _ V1) by done. simpl. destruct (Z.eqb_spec (V1 j) 0) as [Ev|Ev]; simpl.
    + assert (s32 (j + 0) = j) as Ej by (rewrite Z.add_0_r; apply sgn_small; [lia|unfold sword, INPUT_SIZE in *; lia]).
      assert (exists better, (if b1 <? 0 then Some true else
          x ← rd (tab INPUT_SIZE D) j; y ← rd (tab INPUT_SIZE D) b1; Some (x <? y)) = Some better /\ (better = false -> node b1))
        as (better & -> & Hbt).
      { destruct (Z.ltb_spec b1 0); [by exists true|]. destruct Hb1 as [Hb1|[-> _]]; [|lia].
        rewrite !rd_tab by done. by eexists. }
      destruct better; simpl; [|eexists; split; [done|]; exists V1; split; [done|left; by apply Hbt]].
      rewrite Ej, wr_tab by done. eexists. split; [done|]. eexists. split; [done|]. by left.
    + eexists. split; [done|]. exists V1. split; [done|]. destruct Hb1 as [|(-> & -> & Hall)]; [by left|right].
      split_and!; [done..|]. intros j' Hj'. destruct (decide (j' = j)) as [->|]; [|apply Hall; lia].
      unfold source_only in Ev. by destruct (Z.eqb_spec j s).
  - exists V', b'. split; [exact E|]. destruct Hb as [|(_ & _ & Hall)]; [done|].
    pose proof (Hall 0 ltac:(done)). pose proof (Hall 1 ltac:(done)). lia.
Qed.

Lemma relax_spec V D b : distances D -> node b ->
  exists D', relax INPUT_SIZE (matrix INPUT_SIZE w) (tab INPUT_SIZE D) (tab INPUT_SIZE V) b = Some (tab INPUT_SIZE D') /\ distances D'.
Proof.
  intros HD Hb. unfold relax.
  for_loop (fun j dis => exists D, dis = tab INPUT_SIZE D /\ distances D)
    as (dis & E & D' & -> & HD'); [done|by exists D| |by exists D'].
  intros j dis Hj (D1 & -> & HD1). rewrite (rd_tab _ V) by done. simpl.
  destruct (negb _); [eexists; split; [done|]; by exists D1|].
  rewrite !rd_tab, rd2_matrix by done. simpl. destruct (HD1 b Hb) as [Hwb Hdb]. destruct (HD1 j Hj) as [_ Hdj].
  pose proof (Hw s b Hs Hb). pose proof (Hw b j Hb Hj). rewrite sgn_small by (done || unfold sword; lia).
  destruct (Z.ltb_spec (D1 b + w b j) (D1 j)) as [Hlt|]; [|eexists; split; [done|]; by exists D1].
  rewrite wr_tab by done. eexists. split; [done|]. eexists. split; [done|]. intros k Hk.
  destruct (Z.eqb_spec k j) as [->|]; [|by apply HD1]. split; [by apply walk_snoc|lia].
Qed.

(** The result is the length of a walk, no longer than the direct edge. *)
Lemma dijkstra_walk t : node t ->
  exists d, dijkstra 0 INPUT_SIZE s t (matrix INPUT_SIZE w) = Some d /\ walk w s t d /\ 0 <= d <= w s t.
Proof.
  intros Ht. unfold dijkstra. rewrite !replicate_tab, wr_tab, bind_Some by done.
  rewrite (fill_loop (tab INPUT_SIZE (fun _ => 0)) 0 INPUT_SIZE (w s)), bind_Some; [|done|done|].
  2: { intros i p Hi. by rewrite rd2_matrix. }
  for_loop (fun _ '(dis, vis, b) => exists D V, dis = tab INPUT_SIZE D /\ vis = tab INPUT_SIZE V /\
    distances D /\ picked V b)
    as ([[dis vis] b] & E & D & V & -> & -> & HD & Hp); [done| | |].
  - exists (w s), source_only. split_and!; [|done| |by right].
    + rewrite zlen_tab by done. apply tab_ext. intros j Hj. by destruct (Z.leb_spec 0 j), (Z.ltb_spec j INPUT_SIZE); try lia.
    + intros j Hj. split; [by apply walk_edge|]. pose proof (Hw s j Hs Hj). lia.
  - intros k [[dis vis] b] Hk (D & V & -> & -> & HD & Hp).
    destruct (pick_spec V D b HD Hp) as (V' & b' & -> & Hb). rewrite bind_Some. cbv beta iota.
    destruct (relax_spec V' D b' HD Hb) as (D' & -> & HD'). rewrite bind_Some. eexists. split; [done|].
    exists D', V'. split_and!; [done..|by left].
  - rewrite E, bind_Some. cbv beta iota. rewrite rd_tab by done. exists (D t). split; [done|]. by apply HD.
Qed.
End dijkstra.

(** Node 1 is marked as visited before node 2 is found to be nearer, and so the walk
    over it is never taken. *)
Definition detour (i j : Z) : Z :=
  if (i =? 0) && (j =? 1) then 10 else if (i =? 0) && (j =? 2) then 5 else if (i =? 1) && (j =? 31) then 1 else 1000.

Lemma dijkstra_detour : dijkstra 0 INPUT_SIZE 0 31 (matrix INPUT_SIZE detour) = Some 1000 /\ walk detour 0 31 11.
Proof.
  split; [by vm_compute|]. apply (walk_snoc detour 0 1 10 31); [|done]. by apply (walk_edge detour 0 1).
Qed.

(** ** The program on its input *)
Section program.
Context {T : Type} `{!Stdin T}.
Implicit Types (s : T) (rest : list Z).

(** The weights behind the first byte, and what [main] does for each. *)
Definition weight rest (i j : Z) : Z := number_at rest 2 (1 + 2 * (INPUT_SIZE * i + j)).

Definition read_weight (i j : Z) (st : T * list Z) : option (T * list Z) :=
  let '(s, in_) := st in
  x ← rd2 INPUT_SIZE in_ i j; '(s, x) ← read_int 2 x s; in_ ← wr2 INPUT_SIZE in_ i j x; Some (s, in_).

Lemma read_weights s i0 : stdin_ok s -> Forall (word 8) i0.1 -> pending s = consumed 1 i0 ->
  exists s', for_range 0 INPUT_SIZE (fun i st => for_range 0 INPUT_SIZE (fun j st => read_weight i j st) st)
      (s, matrix INPUT_SIZE (fun _ _ => 0)) = Some (s', matrix INPUT_SIZE (weight i0.1)) /\
    stdin_ok s' /\ pending s' = consumed 2049 i0.
Proof.
  intros Hs Hr Ep.
  destruct (for_cells INPUT_SIZE eq_refl (fun t '(s, in_) => stdin_ok s /\ pending s = consumed (1 + 2 * t) i0 /\
    in_ = matrix INPUT_SIZE (upto INPUT_SIZE (weight i0.1) (fun _ _ => 0) t)) read_weight (s, matrix INPUT_SIZE (fun _ _ => 0)))
    as ([s' in_] & E & Hs' & Ep' & ->).
  - by rewrite upto_0.
  - intros i j [s1 in_] Hi Hj (Hs1 & Ep1 & ->). unfold read_weight.
    pose proof (cell_range INPUT_SIZE eq_refl i j Hi Hj) as Ht. rewrite rd2_matrix, upto_here, bind_Some by done.
    destruct (read_int_next s1 2 i0 (1 + 2 * (INPUT_SIZE * i + j)) Hs1 ltac:(by right) Hr ltac:(lia) Ep1) as (s2 & -> & Hs2 & Ep2).
    rewrite bind_Some. cbv beta iota. fold (weight i0.1 i j). rewrite upto_next, bind_Some by done.
    eexists. split; [done|]. split_and!; [done| |done]. rewrite Ep2. f_equal. lia.
  - exists s'. rewrite E, upto_all by done. exact (conj eq_refl (conj Hs' Ep')).
Qed.

Lemma dijkstra_main s : stdin_ok s -> Forall (word 8) (pending s).1 ->
  let w := weight (pending s).1 in
  exists d, walk w 0 31 d /\ 0 <= d <= w 0 31 /\ leaves 2049 s (main s) (int_bytes d).
Proof.
  intros Hs Hr w. destruct (dijkstra_walk w 0) with (t := 31) as (d & Ed & Hd & Hle); [|done|done|].
  { intros i j _ _. apply number_at_range; [by right|done]. }
  exists d. split_and!; [exact Hd|lia|lia|]. unfold main.
  destruct (read_int_spec s 1 Hs ltac:(by left) Hr) as (s1 & -> & Hs1 & Ep1). rewrite bind_Some. cbv beta iota zeta.
  rewrite number_at_1. pose proof (get_word 8 (pending s).1 0 ltac:(done) Hr) as Hb.
  rewrite wrap_small, Z.sub_diag by done. change (s32 0) with 0.
  destruct (read_weights s1 (pending s) Hs1 Hr Ep1) as (s' & E & Hs' & Ep').
  rewrite replicate_tab. change (tab (INPUT_SIZE * INPUT_SIZE) (fun _ => 0)) with (matrix INPUT_SIZE (fun _ _ => 0)).
  unfold read_weight in E. rewrite E, bind_Some. cbv beta iota. change (INPUT_SIZE - 1) with 31. fold w. rewrite Ed, bind_Some.
  apply write_leaves; [done|unfold word; lia|exact Ep'].
Qed.
End program.
