(* ===== verification/ThreeWay.v ===== *)
(** * [benchmarks/appliedCryp/3way.c]: the block cipher 3-Way.

    The words of the program are [int32_t], so that its right shifts copy the sign bit.
    Words are modelled by their bits, and the type that decides what [>>] does is an
    argument: [int32_t] is the program, [uint32_t] the cipher with unsigned words. *)
From S2P Require Import Prelude Arrays Linear Bytes RunnerIo Stdin Shifts Ghostrider.
Local Open Scope Z_scope.
Local Open Scope word_scope.

(** ** The program *)
(** [int32_t a[3]]. *)
Definition block : Type := Z * Z * Z.

Definition NMBR : Z := 11.
Definition STRT_E : Z := 0x0b0b.
Definition STRT_D : Z := 0xb1b1.

Record twy_ctx := mk_ctx { k : block; ki : block; ercon : list Z; drcon : list Z }.

Section cipher.
Context (t : word_type).

(** One iteration of the loop of [mu] on a word and its reversal. *)
Definition mu_word (ab : Z * Z) : Z * Z :=
  let '(a, b) := ab in
  let b := shl b 1 in
  let b := if negb (a .& 1 =? 0) then b .| 1 else b in
  (shr t a 1, b).

Definition mu (a : block) : block :=
  let '(a0, a1, a2) := a in
  let '((_, b2), (_, b1), (_, b0)) :=
    loop 0 32 (fun _ '(w0, w1, w2) => (mu_word w0, mu_word w1, mu_word w2)) ((a0, 0), (a1, 0), (a2, 0)) in
  (b0, b1, b2).

Definition gamma (a : block) : block :=
  let '(a0, a1, a2) := a in
  (a0 .^ (a1 .| wnot 32 a2), a1 .^ (a2 .| wnot 32 a0), a2 .^ (a0 .| wnot 32 a1)).

(** The three assignments of [theta], which differ by a rotation of the indices. *)
Definition theta_word (x y z : Z) : Z :=
  x .^ shr t x 16 .^ shl y 16 .^ shr t y 16 .^ shl z 16 .^
  shr t y 24 .^ shl z 8 .^ shr t z 8 .^ shl x 24 .^
  shr t z 16 .^ shl x 16 .^ shr t z 24 .^ shl x 8.

Definition theta (a : block) : block :=
  let '(a0, a1, a2) := a in (theta_word a0 a1 a2, theta_word a1 a2 a0, theta_word a2 a0 a1).

Definition pi_1 (a : block) : block :=
  let '(a0, a1, a2) := a in (shr t a0 10 .^ shl a0 22, a1, shl a2 1 .^ shr t a2 31).
Definition pi_2 (a : block) : block :=
  let '(a0, a1, a2) := a in (shl a0 1 .^ shr t a0 31, a1, shr t a2 10 .^ shl a2 22).

Definition rho (a : block) : block := pi_2 (gamma (pi_1 (theta a))).

Definition rndcon_gen (strt : Z) : list Z :=
  (loop 0 (NMBR + 1) (fun i '(strt, rtab) =>
    let rtab := set rtab i strt in
    let strt := shl strt 1 in
    (if negb (strt .& 0x10000 =? 0) then strt .^ 0x11011 else strt, rtab)) (strt, replicate (Z.to_nat (NMBR + 1)) 0)).2.

(** The key and a round constant. *)
Definition add_key (k : block) (con : Z) (a : block) : block :=
  let '(k0, k1, k2) := k in let '(a0, a1, a2) := a in
  (a0 .^ (k0 .^ shl con 16), a1 .^ k1, a2 .^ (k2 .^ con)).

(** The rounds, the last addition and [theta]. *)
Definition crypt (k : block) (con : list Z) (a : block) : block :=
  theta (add_key k (get con NMBR) (loop 0 NMBR (fun i a => rho (add_key k (get con i) a)) a)).

Definition encrypt (c : twy_ctx) (a : block) : block := crypt (k c) (ercon c) a.
Definition decrypt (c : twy_ctx) (a : block) : block := mu (crypt (ki c) (drcon c) (mu a)).

Definition twy_key (key : block) : twy_ctx :=
  mk_ctx key (mu (theta key)) (rndcon_gen STRT_E) (rndcon_gen STRT_D).

(** [twy_enc] and [twy_dec] on an array of blocks. *)
Definition each_block (f : block -> block) (data : list Z) (blkcnt : Z) : option (list Z) :=
  for_range 0 blkcnt (fun i data =>
    a0 ← rd data (3 * i); a1 ← rd data (3 * i + 1); a2 ← rd data (3 * i + 2);
    let '(b0, b1, b2) := f (a0, a1, a2) in
    data ← wr data (3 * i) b0; data ← wr data (3 * i + 1) b1; wr data (3 * i + 2) b2) data.
Definition twy_enc (c : twy_ctx) : list Z -> Z -> option (list Z) := each_block (encrypt c).
Definition twy_dec (c : twy_ctx) : list Z -> Z -> option (list Z) := each_block (decrypt c).
End cipher.

Definition block_at (l : list Z) (i : Z) : block := (word_at l i, word_at l (i + 4), word_at l (i + 8)).
Definition block_bytes (a : block) : list Z :=
  let '(a0, a1, a2) := a in int_bytes a0 ++ int_bytes a1 ++ int_bytes a2.

Definition main {T} `{!Stdin T} (s : T) : option (T * list Z) :=
  '(s, in_key, _) ← sys_read 0 (block_bytes (0xffffffff, 0xffffffff, 0xffffffff)) 12 s;
  '(s, in_, _) ← sys_read 0 (block_bytes (0, 0, 0)) 12 s;
  let gc := twy_key int32_t (block_at in_key 0) in
  let in_ := encrypt int32_t gc (block_at in_ 0) in
  Some ((sys_write 1 12 s).1, block_bytes in_).

(** Test vector of the published cipher. *)
Example published_vector :
  encrypt uint32_t (twy_key uint32_t (0, 0, 0)) (1, 1, 1) = (0x4059c76e, 0x83ae9dc4, 0xad21ecf7).
Proof. by vm_compute. Qed.

#[local] Arguments mu : simpl never.
#[local] Arguments theta : simpl never.

(** ** Linear maps on blocks *)
Definition blocks : space block := pair_space (pair_space (word_space 32) (word_space 32)) (word_space 32).
Abbreviation words := (valid blocks).
Abbreviation xor := (add blocks).

Lemma words_intro x y z : word 32 x -> word 32 y -> word 32 z -> words (x, y, z).
Proof. intros Hx Hy Hz. exact (conj (conj Hx Hy) Hz). Qed.

Lemma words_elim x y z : words (x, y, z) -> word 32 x /\ word 32 y /\ word 32 z.
Proof. by intros [[Hx Hy] Hz]. Qed.

(** ** Shifts and the linear steps *)
Section steps.
Context (t : word_type).

Lemma shr_xor x y n : 0 <= n -> word 32 x -> word 32 y -> shr t (x .^ y) n = shr t x n .^ shr t y n.
Proof.
  intros Hn Hx Hy. apply word_ext; [apply word_shr; word_range|apply word_lxor; [lia|by apply word_shr..]|].
  intros i Hi. rewrite Z.lxor_spec, !testbit_shr by (done || word_range). destruct t; by rewrite Z.lxor_spec.
Qed.

Lemma shl_xor x y n : 0 <= n -> shl (x .^ y) n = shl x n .^ shl y n.
Proof.
  intros Hn. apply word_ext; [apply word_shl|apply word_lxor; [lia|apply word_shl..]|].
  intros i Hi. by rewrite Z.lxor_spec, !testbit_shl, Z.lxor_spec by done.
Qed.

(** [^] up to order. *)
Ltac lxor_ac := apply Z.bits_inj; intros ?; rewrite !Z.lxor_spec; btauto.

Lemma linear_theta : linear blocks blocks (theta t).
Proof.
  split.
  - intros [[x y] z] (Hx & Hy & Hz)%words_elim. simpl in *. unfold theta, theta_word. split_and!; simpl;
      repeat (apply word_lxor; [done| |]); first [assumption|by apply word_shr|apply word_shl].
  - intros [[x y] z] [[x' y'] z'] (Hx & Hy & Hz)%words_elim (Hx' & Hy' & Hz')%words_elim. simpl in *. unfold theta, theta_word.
    rewrite !shr_xor, !shl_xor by done. f_equal; [f_equal|]; lxor_ac.
Qed.

Lemma linear_pi_1 : linear blocks blocks (pi_1 t).
Proof.
  split.
  - intros [[x y] z] (Hx & Hy & Hz)%words_elim. simpl in *. split_and!; simpl; [..|done|];
      (apply word_lxor; [done| |]); first [by apply word_shr|apply word_shl].
  - intros [[x y] z] [[x' y'] z'] (Hx & Hy & Hz)%words_elim (Hx' & Hy' & Hz')%words_elim. simpl in *.
    rewrite !shr_xor, !shl_xor by done. f_equal; [f_equal|]; lxor_ac.
Qed.

Lemma linear_pi_2 : linear blocks blocks (pi_2 t).
Proof.
  split.
  - intros [[x y] z] (Hx & Hy & Hz)%words_elim. simpl in *. split_and!; simpl; [..|done|];
      (apply word_lxor; [done| |]); first [by apply word_shr|apply word_shl].
  - intros [[x y] z] [[x' y'] z'] (Hx & Hy & Hz)%words_elim (Hx' & Hy' & Hz')%words_elim. simpl in *.
    rewrite !shr_xor, !shl_xor by done. f_equal; [f_equal|]; lxor_ac.
Qed.

(** ** [mu] reverses the bits *)

(** After [i] iterations: what is left of [x], and its lower bits reversed. *)
Definition reversing (x i : Z) (ab : Z * Z) : Prop :=
  word 32 ab.1 /\ word 32 ab.2 /\ (forall j, 0 <= j -> i + j < 32 -> Z.testbit ab.1 j = Z.testbit x (i + j)) /\
  (forall j, 0 <= j < 32 -> Z.testbit ab.2 j = (j <? i) && Z.testbit x (i - 1 - j)).

Lemma reversing_start x : word 32 x -> reversing x 0 (x, 0).
Proof.
  intros Hx. split_and!; simpl; [done|word_range|done|]. intros j Hj. rewrite Z.bits_0. by destruct (Z.ltb_spec j 0); [lia|].
Qed.

Lemma land_1 a : a .& 1 = Z.b2z (Z.testbit a 0).
Proof. change 1 with (Z.ones 1). rewrite Z.land_ones by done. by rewrite Z.bit0_mod. Qed.

Lemma reversing_next x i ab : 0 <= i < 32 -> reversing x i ab -> reversing x (i + 1) (mu_word t ab).
Proof.
  intros Hi. destruct ab as [a b]. intros (Ha & Hb & Hl & Hr). cbn [fst snd] in *. unfold mu_word. rewrite land_1.
  assert ((if negb (Z.b2z (Z.testbit a 0) =? 0) then shl b 1 .| 1 else shl b 1) = shl b 1 .| Z.b2z (Z.testbit a 0)) as ->
    by (destruct (Z.testbit a 0); simpl; [done|by rewrite Z.lor_0_r]).
  split_and!; cbn [fst snd mu_word].
  - by apply word_shr.
  - apply word_lor; [done|apply word_shl|]. destruct (Z.testbit a 0); unfold word; simpl; lia.
  - intros j Hj Hij. rewrite testbit_shr by (done || lia).
    assert (Z.testbit a (j + 1) = Z.testbit x (i + 1 + j)) as Hj1 by (rewrite Hl by lia; f_equal; lia).
    destruct t; [rewrite Z.min_l by lia|]; done.
  - intros j Hj. rewrite Z.lor_spec, testbit_shl by done. destruct (decide (j = 0)) as [->|].
    + rewrite Z.testbit_neg_r, Z.b2z_bit0, Hl by lia. destruct (Z.ltb_spec 0 (i + 1)); [|lia]. simpl. f_equal. lia.
    + rewrite Hr by lia. assert (Z.testbit (Z.b2z (Z.testbit a 0)) j = false) as -> by
        (apply (word_testbit 1); [destruct (Z.testbit a 0); unfold word; simpl; lia|lia]).
      rewrite orb_false_r. replace (i + 1 - 1 - j) with (i - 1 - (j - 1)) by lia.
      by destruct (Z.ltb_spec (j - 1) i), (Z.ltb_spec j (i + 1)); try lia.
Qed.

Definition rev_word (x : Z) : Z := (loop 0 32 (fun _ => mu_word t) (x, 0)).2.

#[local] Arguments rev_word : simpl never.

Lemma reversing_end x : word 32 x -> reversing x 32 (loop 0 32 (fun _ => mu_word t) (x, 0)).
Proof. intros Hx. apply (loop_inv (reversing x)); [done|by apply reversing_start|]. intros i ab Hi. by apply reversing_next. Qed.

Lemma word_rev x : word 32 x -> word 32 (rev_word x).
Proof. intros Hx. apply (reversing_end x Hx). Qed.

Lemma testbit_rev x i : word 32 x -> 0 <= i < 32 -> Z.testbit (rev_word x) i = Z.testbit x (31 - i).
Proof.
  intros Hx Hi. unfold rev_word. destruct (reversing_end x Hx) as (_ & _ & _ & Hr). rewrite Hr by done.
  by destruct (Z.ltb_spec i 32); [|lia].
Qed.

Lemma mu_rev a0 a1 a2 : words (a0, a1, a2) -> mu t (a0, a1, a2) = (rev_word a2, rev_word a1, rev_word a0).
Proof.
  intros _. unfold mu, rev_word. set (L x i := loop 0 i (fun _ => mu_word t) (x, 0)).
  assert (loop 0 32 (fun _ '(w0, w1, w2) => (mu_word t w0, mu_word t w1, mu_word t w2)) ((a0, 0), (a1, 0), (a2, 0)) =
    (L a0 32, L a1 32, L a2 32)) as ->.
  { apply (loop_inv (fun i w => w = (L a0 i, L a1 i, L a2 i))); [done|done|].
    intros i w Hi ->. unfold L. by rewrite !loop_snoc by lia. }
  fold (L a0 32) (L a1 32) (L a2 32). by destruct (L a0 32), (L a1 32), (L a2 32).
Qed.

Lemma words_mu a : words a -> words (mu t a).
Proof. destruct a as [[a0 a1] a2]. intros (H0 & H1 & H2)%words_elim. rewrite mu_rev by done. apply words_intro; by apply word_rev. Qed.

Lemma mu_mu a : words a -> mu t (mu t a) = a.
Proof.
  destruct a as [[a0 a1] a2]. intros (H0 & H1 & H2)%words_elim. rewrite mu_rev by done. cbn [fst snd] in *.
  rewrite mu_rev by (apply words_intro; by apply word_rev).
  assert (forall x, word 32 x -> rev_word (rev_word x) = x) as E; [|by rewrite !E].
  intros x Hx. apply word_ext; [by apply word_rev, word_rev|done|]. intros i Hi.
  rewrite !testbit_rev by (try apply word_rev; done || lia). f_equal. lia.
Qed.

Lemma linear_mu : linear blocks blocks (mu t).
Proof.
  split; [apply words_mu|]. intros a b Ha Hb. pose proof ((valid_add blocks) a b Ha Hb) as Hx.
  destruct a as [[a0 a1] a2], b as [[b0 b1] b2]. 
  change (xor (a0, a1, a2) (b0, b1, b2)) with (a0 .^ b0, a1 .^ b1, a2 .^ b2) in Hx |- *.
  rewrite (mu_rev a0 a1 a2 Ha), (mu_rev b0 b1 b2 Hb), (mu_rev _ _ _ Hx).
  change (xor (rev_word a2, rev_word a1, rev_word a0) (rev_word b2, rev_word b1, rev_word b0))
    with (rev_word a2 .^ rev_word b2, rev_word a1 .^ rev_word b1, rev_word a0 .^ rev_word b0).
  apply words_elim in Ha as (? & ? & ?), Hb as (? & ? & ?).
  assert (forall x y, word 32 x -> word 32 y -> rev_word (x .^ y) = rev_word x .^ rev_word y) as E; [|by rewrite !E].
  intros x y Hw Hv. apply word_ext; [apply word_rev; word_range|apply word_lxor; [done|by apply word_rev..]|].
  intros i Hi. by rewrite Z.lxor_spec, !testbit_rev, Z.lxor_spec by (done || word_range).
Qed.
End steps.

(** ** Encryption and decryption with unsigned words *)
Abbreviation U := uint32_t.

Lemma testbit_wnot x i : 0 <= i < 32 -> Z.testbit (wnot 32 x) i = negb (Z.testbit x i).
Proof. intros Hi. unfold wnot. rewrite testbit_wrap, Z.lnot_spec by lia. by destruct (Z.ltb_spec i 32); [|lia]. Qed.

Lemma words_gamma a : words a -> words (gamma a).
Proof. destruct a as [[a0 a1] a2]. intros (? & ? & ?)%words_elim. simpl in *. apply words_intro; word_range. Qed.

(** Between two reversals each step is the inverse of another. *)
Lemma linear_conj f g : linear blocks blocks f -> linear blocks blocks g ->
  linear blocks blocks (fun a => mu U (f (mu U (g a)))).
Proof.
  intros Hf Hg. pose proof (linear_mu U) as Hm.
  exact (linear_compose _ _ Hm (linear_compose _ _ Hf (linear_compose _ _ Hm Hg))).
Qed.

Lemma theta_mu a : words a -> mu U (theta U (mu U (theta U a))) = a.
Proof.
  apply (linear_ext (T := blocks) (fun a => mu U (theta U (mu U (theta U a)))) (fun a => a));
    [apply linear_conj; apply linear_theta|apply linear_id|by vm_compute].
Qed.

Lemma pi_1_mu a : words a -> mu U (pi_1 U (mu U (pi_2 U a))) = a.
Proof.
  apply (linear_ext (T := blocks) (fun a => mu U (pi_1 U (mu U (pi_2 U a)))) (fun a => a));
    [apply linear_conj; [apply linear_pi_1|apply linear_pi_2]|apply linear_id|by vm_compute].
Qed.

Lemma pi_2_mu a : words a -> mu U (pi_2 U (mu U (pi_1 U a))) = a.
Proof.
  apply (linear_ext (T := blocks) (fun a => mu U (pi_2 U (mu U (pi_1 U a)))) (fun a => a));
    [apply linear_conj; [apply linear_pi_2|apply linear_pi_1]|apply linear_id|by vm_compute].
Qed.

Lemma gamma_mu t a : words a -> mu t (gamma (mu t (gamma a))) = a.
Proof.
  intros Ha. pose proof (words_gamma a Ha) as Hg. destruct a as [[a0 a1] a2]. apply words_elim in Ha as (H0 & H1 & H2).
  unfold gamma in Hg |- * at 2. rewrite mu_rev by done. apply words_elim in Hg as (G0 & G1 & G2).
  pose proof (word_rev t _ G0) as R0. pose proof (word_rev t _ G1) as R1. pose proof (word_rev t _ G2) as R2.
  unfold gamma. rewrite mu_rev by (apply words_intro; word_range).
  f_equal; [f_equal|]; (apply word_ext; [apply word_rev; word_range|done|]); intros i Hi;
    rewrite testbit_rev by (done || word_range); rewrite Z.lxor_spec, Z.lor_spec, testbit_wnot, !testbit_rev by (done || lia);
    replace (31 - (31 - i)) with i by lia; rewrite !Z.lxor_spec, !Z.lor_spec, !testbit_wnot by done; btauto.
Qed.

Lemma mu_conj f g a : (forall a, words a -> words (f a)) -> words (g a) -> mu U (f (mu U (g a))) = a ->
  f (mu U (g a)) = mu U a.
Proof. intros Hf Hg E. rewrite <-E at 2. by rewrite mu_mu by auto using words_mu. Qed.

(** A round between two reversals undoes a round, up to [theta]. *)
Lemma rho_mu a : words a -> mu U (rho U (mu U (theta U (rho U a)))) = theta U a.
Proof.
  intros H0. unfold rho. pose proof (linear_valid (linear_theta U) a H0) as H1.
  pose proof (linear_valid (linear_pi_1 U) _ H1) as H2. pose proof (words_gamma _ H2) as H3.
  pose proof (linear_valid (linear_pi_2 U) _ H3) as H4. generalize dependent (theta U a). intros a1 H1 H2 H3 H4.
  assert (theta U (mu U (theta U (pi_2 U (gamma (pi_1 U a1))))) = mu U (pi_2 U (gamma (pi_1 U a1)))) as ->
    by (apply (mu_conj (theta U)); [apply linear_theta|by apply linear_theta|by apply theta_mu]).
  rewrite (mu_conj (pi_1 U) (pi_2 U)); [|apply linear_pi_1|exact H4|by apply pi_1_mu].
  rewrite (mu_conj gamma gamma); [|apply words_gamma|exact H3|by apply gamma_mu].
  by apply pi_2_mu.
Qed.

(** The round keys: those of decryption are the reversed images of those of encryption. *)
Definition con_block (con : Z) : block := (shl con 16, 0, con).
Definition round_key (key : block) (con : list Z) (i : Z) : block := xor key (con_block (get con i)).

Lemma add_key_xor key con i a : add_key key (get con i) a = xor a (round_key key con i).
Proof. destruct key as [[? ?] ?], a as [[? ?] ?]. simpl. by rewrite Z.lxor_0_r. Qed.

Lemma words_con_block con : word 32 con -> words (con_block con).
Proof. intros. apply words_intro; [apply word_shl|word_range|done]. Qed.

Lemma round_constants i : 0 <= i <= NMBR ->
  word 32 (get (rndcon_gen STRT_E) i) /\ word 32 (get (rndcon_gen STRT_D) i) /\
  mu U (con_block (get (rndcon_gen STRT_D) (NMBR - i))) = theta U (con_block (get (rndcon_gen STRT_E) i)).
Proof.
  intros Hi. split_and!; [by apply words_b_get; [|vm_compute]..|].
  pose proof (forallb_seqZ (fun i => bool_decide (mu U (con_block (get (rndcon_gen STRT_D) (NMBR - i))) =
    theta U (con_block (get (rndcon_gen STRT_E) i)))) 12 i) as H. cbv beta in H. rewrite bool_decide_eq_true in H.
  apply H; [by vm_compute|unfold NMBR in Hi; lia].
Qed.

Lemma words_rho a : words a -> words (rho U a).
Proof. intros Ha. apply (linear_valid (linear_pi_2 U)), words_gamma, (linear_valid (linear_pi_1 U)), (linear_valid (linear_theta U)), Ha. Qed.

#[local] Opaque rndcon_gen mu theta rho.

Section roundtrip.
Context (key : block) (Hkey : words key).

Definition enc_key : Z -> block := round_key key (rndcon_gen STRT_E).
Definition dec_key : Z -> block := round_key (mu U (theta U key)) (rndcon_gen STRT_D).

Lemma words_enc_key i : 0 <= i <= NMBR -> words (enc_key i).
Proof. intros Hi. apply (valid_add blocks); [done|]. apply words_con_block. by destruct (round_constants i Hi). Qed.

Lemma words_dec_key i : 0 <= i <= NMBR -> words (dec_key i).
Proof. intros Hi. apply (valid_add blocks); [by apply words_mu, linear_theta|]. apply words_con_block. by destruct (round_constants i Hi) as (_ & ? & _). Qed.

Lemma mu_dec_key i : 0 <= i <= NMBR -> mu U (dec_key (NMBR - i)) = theta U (enc_key i).
Proof.
  intros Hi. destruct (round_constants i Hi) as (He & _ & Ec). destruct (round_constants (NMBR - i) ltac:(lia)) as (_ & Hd & _).
  unfold dec_key, enc_key, round_key. pose proof (linear_valid (linear_theta U) key Hkey).
  rewrite (linear_add (linear_mu U)), (linear_add (linear_theta U)), mu_mu, Ec by auto using words_mu, words_con_block. done.
Qed.

(** The state after [j] rounds of encryption. *)
Definition enc_state (a : block) (j : Z) : block :=
  loop 0 j (fun i a => rho U (add_key key (get (rndcon_gen STRT_E) i) a)) a.

Lemma enc_state_next a j : 0 <= j -> enc_state a (j + 1) = rho U (xor (enc_state a j) (enc_key j)).
Proof. intros Hj. unfold enc_state. by rewrite loop_snoc, add_key_xor by lia. Qed.

Lemma words_enc_state a j : words a -> 0 <= j <= NMBR -> words (enc_state a j).
Proof.
  intros Ha [Hj Hle]. revert j Hj Hle. apply (natlike_ind (fun j => j <= NMBR -> words (enc_state a j))); [done|].
  unfold Z.succ. intros j Hj IH Hle. rewrite enc_state_next by done. apply words_rho, (valid_add blocks); [apply IH; lia|apply words_enc_key; lia].
Qed.

(** Adding a round key under [theta] and [mu]. *)
Lemma dec_add a i : words a -> 0 <= i <= NMBR ->
  xor (mu U (theta U (xor a (enc_key i)))) (dec_key (NMBR - i)) = mu U (theta U a).
Proof.
  intros Ha Hi. pose proof (words_enc_key i Hi) as He. pose proof (words_dec_key (NMBR - i) ltac:(lia)) as Hd.
  pose proof (linear_valid (linear_theta U)) as Ht.
  rewrite <-(mu_mu U (dec_key (NMBR - i))), mu_dec_key by done.
  rewrite <-(linear_add (linear_mu U)), <-(linear_add (linear_theta U)) by auto using valid_add.
  by rewrite (add_cancel_r blocks).
Qed.

Lemma decrypt_encrypt a : words a -> decrypt U (twy_key U key) (encrypt U (twy_key U key) a) = a.
Proof.
  intros Ha. pose proof (linear_valid (linear_theta U)) as Ht. unfold decrypt, encrypt, twy_key, crypt.
  cbn [k ki ercon drcon]. fold (enc_state a NMBR). rewrite !add_key_xor. fold (enc_key NMBR) (dec_key NMBR).
  assert (loop 0 NMBR (fun i a => rho U (add_key (mu U (theta U key)) (get (rndcon_gen STRT_D) i) a))
      (mu U (theta U (xor (enc_state a NMBR) (enc_key NMBR)))) =
    mu U (theta U (xor (enc_state a (NMBR - NMBR)) (enc_key (NMBR - NMBR))))) as ->.
  { apply (loop_inv (fun i z => z = mu U (theta U (xor (enc_state a (NMBR - i)) (enc_key (NMBR - i)))))); [done|by rewrite Z.sub_0_r|].
    intros i z Hi ->. rewrite add_key_xor. fold (dec_key i).
    replace i with (NMBR - (NMBR - i)) at 3 by lia. rewrite dec_add by (try apply words_enc_state; done || lia).
    replace (NMBR - i) with (NMBR - (i + 1) + 1) by lia. rewrite enc_state_next by lia.
    set (j := NMBR - (i + 1)). assert (words (xor (enc_state a j) (enc_key j))) as Hj by
      (apply (valid_add blocks); [apply words_enc_state|apply words_enc_key]; done || lia).
    rewrite <-(mu_mu U (rho U _)) by (apply words_rho, words_mu, Ht, words_rho, Hj). by rewrite rho_mu. }
  replace NMBR with (NMBR - (NMBR - NMBR)) at 3 by lia. rewrite dec_add by (done || lia).
  rewrite Z.sub_diag. apply theta_mu, Ha.
Qed.
End roundtrip.

(** ** The program: signed words *)

#[local] Transparent rho.

(** With sign-extending shifts [theta] loses a bit: this block is mapped to zero. *)
Definition lost : block := (0xffff00ff, 0xffff00ff, 0xffff00ff).

Lemma theta_lost a : words a -> theta int32_t (xor a lost) = theta int32_t a.
Proof.
  intros Ha. rewrite (linear_add (linear_theta int32_t)) by (done || split_and!; unfold word; simpl; lia).
  assert (theta int32_t lost = (0, 0, 0)) as -> by by vm_compute.
  destruct (theta int32_t a) as [[x y] z]. simpl. by rewrite !Z.lxor_0_r.
Qed.

Lemma encrypt_lost c a : words a -> words (xor (k c) (con_block (get (ercon c) 0))) ->
  encrypt int32_t c (xor a lost) = encrypt int32_t c a.
Proof.
  intros Ha Hk. unfold encrypt, crypt. do 2 f_equal. rewrite !(loop_first 0) by done. f_equal.
  rewrite !add_key_xor. unfold round_key. set (K := xor (k c) _) in *. 
  assert (xor (xor a lost) K = xor (xor a K) lost) as -> by (by rewrite <-!(add_assoc blocks), ((add_comm blocks) lost)).
  unfold rho. by rewrite theta_lost by by apply (valid_add blocks).
Qed.

(** ** Arrays of blocks *)
Definition flat (bs : list block) : list Z := bs ≫= fun '(a0, a1, a2) => [a0; a1; a2].

Lemma zlen_flat bs : zlen (flat bs) = 3 * zlen bs.
Proof.
  induction bs as [|[[a0 a1] a2] bs IH]; [done|]. unfold flat in *. rewrite bind_cons, zlen_app, IH. unfold zlen. simpl. lia.
Qed.

(** A write behind a prefix and [n] more entries. *)
Lemma wr_behind {A} (P L : list A) x v R i : i = zlen P + zlen L -> wr (P ++ L ++ x :: R) i v = Some (P ++ L ++ v :: R).
Proof. intros ->. rewrite !(app_assoc P). apply wr_app. by rewrite zlen_app. Qed.

Lemma rd_behind {A} (P L : list A) x R i : i = zlen P + zlen L -> rd (P ++ L ++ x :: R) i = Some x.
Proof.
  intros ->. rewrite app_assoc, rd_app_r by (rewrite zlen_app; lia). by rewrite zlen_app, Z.sub_diag.
Qed.

Lemma one_block (f : block -> block) P a0 a1 a2 Q i : zlen P = 3 * i ->
  (let data := P ++ a0 :: a1 :: a2 :: Q in
   a0 ← rd data (3 * i); a1 ← rd data (3 * i + 1); a2 ← rd data (3 * i + 2);
   let '(b0, b1, b2) := f (a0, a1, a2) in
   data ← wr data (3 * i) b0; data ← wr data (3 * i + 1) b1; wr data (3 * i + 2) b2) =
  Some (P ++ flat [f (a0, a1, a2)] ++ Q).
Proof.
  intros E. cbv zeta.
  assert (forall L x R, zlen L <= 2 -> rd (P ++ L ++ x :: R) (3 * i + zlen L) = Some x) as Hr by (intros; apply rd_behind; lia).
  assert (forall L x R v, zlen L <= 2 -> wr (P ++ L ++ x :: R) (3 * i + zlen L) v = Some (P ++ L ++ v :: R)) as Hw by
    (intros; apply wr_behind; lia).
  pose proof (Hr [] a0 (a1 :: a2 :: Q)) as R0. pose proof (Hr [a0] a1 (a2 :: Q)) as R1. pose proof (Hr [a0; a1] a2 Q) as R2.
  change (zlen []) with 0 in R0. change (zlen [a0]) with 1 in R1. change (zlen [a0; a1]) with 2 in R2.
  rewrite Z.add_0_r in R0. cbn [app] in *. rewrite R0, bind_Some, R1, bind_Some, R2, bind_Some by lia.
  destruct (f (a0, a1, a2)) as [[b0 b1] b2].
  pose proof (Hw [] a0 (a1 :: a2 :: Q) b0) as W0. pose proof (Hw [b0] a1 (a2 :: Q) b1) as W1. pose proof (Hw [b0; b1] a2 Q b2) as W2.
  change (zlen []) with 0 in W0. change (zlen [b0]) with 1 in W1. change (zlen [b0; b1]) with 2 in W2.
  rewrite Z.add_0_r in W0. cbn [app] in *. by rewrite W0, bind_Some, W1, bind_Some, W2 by lia.
Qed.

Lemma flat_app bs cs : flat (bs ++ cs) = flat bs ++ flat cs.
Proof. apply bind_app. Qed.

Lemma each_block_spec f bs : each_block f (flat bs) (zlen bs) = Some (flat (f <$> bs)).
Proof.
  unfold each_block. for_loop (fun i data => data = flat (f <$> take (Z.to_nat i) bs) ++ flat (drop (Z.to_nat i) bs))
    as (data & -> & ->); [apply zlen_nonneg|done| |].
  2: { unfold zlen. by rewrite Nat2Z.id, firstn_all, drop_all, app_nil_r. }
  intros i data Hi ->. destruct (rd_Some bs i Hi) as [[[a0 a1] a2] Ei]. unfold rd in Ei. destruct (Z.ltb_spec i 0); [lia|].
  rewrite (drop_S bs _ _ Ei). replace (Z.to_nat (i + 1)) with (S (Z.to_nat i)) by lia. rewrite (take_S_r _ _ _ Ei), fmap_app, flat_app.
  eexists. split; [apply (one_block f (flat (f <$> take (Z.to_nat i) bs)))|by rewrite <-app_assoc].
  rewrite zlen_flat. unfold zlen in *. rewrite length_fmap, length_take. lia.
Qed.

(** ** The program on its input *)
Lemma block_at_words rest i : Forall (word 8) rest -> words (block_at rest i).
Proof. intros Hr. by apply words_intro; apply word_at_word. Qed.

(** A read of three words. *)
Lemma read_block {T} `{!Stdin T} (s : T) a : stdin_ok s ->
  exists s' buf ret, sys_read 0 (block_bytes a) 12 s = Some (s', buf, ret) /\ stdin_ok s' /\
    pending s' = consumed 12 (pending s) /\ block_at buf 0 = block_at (pending s).1 0.
Proof.
  intros Hs. assert (length (block_bytes a) = 12%nat) as Hl by by destruct a as [[? ?] ?].
  destruct (sys_read_spec 0 (block_bytes a) 12 s Hs) as (s' & buf & ret & E & Hs' & Hi); [unfold word; lia|unfold zlen; lia|].
  rewrite input_read_tab, drop_ge, app_nil_r in Hi by lia. injection Hi as Ep Ek Er.
  exists s', buf, ret. split_and!; [done..|]. rewrite <-Ek. unfold block_at, word_at. by rewrite !get_tab by lia.
Qed.

Lemma three_way_main {T} `{!Stdin T} (s : T) : stdin_ok s ->
  leaves 24 s (main s) (block_bytes
    (encrypt int32_t (twy_key int32_t (block_at (pending s).1 0)) (block_at (pending s).1 12))).
Proof.
  intros Hs. unfold main.
  destruct (read_block s (0xffffffff, 0xffffffff, 0xffffffff) Hs) as (s1 & key & r1 & -> & Hs1 & Ep1 & Ek). rewrite bind_Some. cbv beta iota.
  destruct (read_block s1 (0, 0, 0) Hs1) as (s2 & data & r2 & -> & Hs2 & Ep2 & Ed). rewrite bind_Some. cbv beta iota zeta.
  rewrite Ek, Ed, Ep1. assert (block_at (consumed 12 (pending s)).1 0 = block_at (pending s).1 12) as ->.
  { unfold block_at, word_at, consumed. cbn [fst]. by rewrite !get_drop by lia. }
  apply write_leaves; [done|unfold word; lia|]. by rewrite Ep2, Ep1, consumed_add.
Qed.

(** C39. 3-Way.  With unsigned words [twy_dec] under the key schedule of [twy_key] is the
    inverse of [twy_enc] on every array of blocks, for every key.  With the program's
    signed words, whose right shifts copy the sign, it cannot be: under every key two
    blocks that differ by [lost] have the same encryption, so no function recovers the
    block.  On any standard input [main] reads a key and a block and writes that
    encryption. *)
Theorem three_way (key : block) : words key ->
  (forall bs, Forall words bs -> exists e, twy_enc uint32_t (twy_key uint32_t key) (flat bs) (zlen bs) = Some e /\
    twy_dec uint32_t (twy_key uint32_t key) e (zlen bs) = Some (flat bs)) /\
  (forall a, words a -> encrypt int32_t (twy_key int32_t key) (xor a lost) = encrypt int32_t (twy_key int32_t key) a) /\
  (forall D : block -> block, ~ forall a, words a -> D (encrypt int32_t (twy_key int32_t key) a) = a) /\
  (forall T (H : Stdin T) (s : T) data, stdin_ok s -> block_at (pending s).1 0 = key -> block_at (pending s).1 12 = data ->
    leaves 24 s (main s) (block_bytes (encrypt int32_t (twy_key int32_t key) data))).
Proof.
  intros Hk.
  assert (forall a, words a -> encrypt int32_t (twy_key int32_t key) (xor a lost) = encrypt int32_t (twy_key int32_t key) a) as Hlost.
  { intros a Ha. apply encrypt_lost; [done|]. apply (valid_add blocks); [done|]. apply words_con_block.
    by destruct (round_constants 0). }
  split_and!; [|exact Hlost|..].
  - intros bs Hbs. eexists. split; [apply each_block_spec|]. unfold twy_dec.
    replace (zlen bs) with (zlen (encrypt U (twy_key U key) <$> bs)) by (unfold zlen; by rewrite length_fmap).
    rewrite each_block_spec, <-list_fmap_compose. do 2 f_equal. induction Hbs as [|a bs Ha _ IH]; [done|].
    cbn [fmap list_fmap]. f_equal; [|exact IH]. by apply decrypt_encrypt.
  - intros D HD. assert (words (0, 0, 0)) as H0 by (apply words_intro; word_range).
    assert (words lost) as H1 by (apply words_intro; unfold word; lia).
    pose proof (HD (0, 0, 0) H0) as E0. rewrite <-(Hlost _ H0), (HD (xor (0, 0, 0) lost)) in E0 by by apply (valid_add blocks). done.
  - intros T H s data Hs <- <-. by apply three_way_main.
Qed.

Lemma three_way_witness :
  words (1, 2, 3) /\ encrypt int32_t (twy_key int32_t (1, 2, 3)) (xor (4, 5, 6) lost) = encrypt int32_t (twy_key int32_t (1, 2, 3)) (4, 5, 6).
Proof.
  assert (words (1, 2, 3)) as Hk by (apply words_intro; unfold word; lia). split; [exact Hk|].
  destruct (three_way (1, 2, 3) Hk) as (_ & Hlost & _). apply Hlost, words_intro; unfold word; lia.
Defined.
