(* ===== verification/Loki91.v ===== *)
(** * [benchmarks/appliedCryp/loki91.c]: the block cipher LOKI91.

    Words are modelled by their bits; all of them are [int32_t], so right shifts copy the
    sign bit.  [LITTLE_ENDIAN], which decides whether [bswap] is called, depends on the
    headers included and is an argument; [setlokikey] then swaps the key back, so that the
    key is unchanged. *)
From S2P Require Import Prelude Arrays Bytes RunnerIo Stdin Shifts Ghostrider.
Local Open Scope Z_scope.
Local Open Scope word_scope.

(** ** The program *)
Definition ROUNDS : Z := 16.

Definition P : list Z :=
  [31; 23; 15; 7; 30; 22; 14; 6;
   29; 21; 13; 5; 28; 20; 12; 4;
   27; 19; 11; 3; 26; 18; 10; 2;
   25; 17; 9; 1; 24; 16; 8; 0].

Record sfn_desc := mk_sfn { gen : Z; exp : Z }.

Definition sfn : list sfn_desc :=
  [mk_sfn 375 31; mk_sfn 379 31; mk_sfn 391 31; mk_sfn 395 31; mk_sfn 397 31; mk_sfn 415 31;
   mk_sfn 419 31; mk_sfn 425 31; mk_sfn 433 31; mk_sfn 445 31; mk_sfn 451 31; mk_sfn 463 31;
   mk_sfn 471 31; mk_sfn 477 31; mk_sfn 487 31; mk_sfn 499 31; mk_sfn 0 0].

(** [b >> n] of an [int32_t]. *)
Abbreviation asr := (shr int32_t).

Definition ROL12 (b : Z) : Z := shl b 12 .| asr b 20.
Definition ROL13 (b : Z) : Z := shl b 13 .| asr b 19.

(** The bytes of each half in the opposite order. *)
Definition bswap (cb : list Z) : list Z :=
  let cb := set (set cb 0 (get cb 3)) 3 (get cb 0) in
  let cb := set (set cb 1 (get cb 2)) 2 (get cb 1) in
  let cb := set (set cb 4 (get cb 7)) 7 (get cb 4) in
  set (set cb 5 (get cb 6)) 6 (get cb 5).

(** The product of two elements of GF(2^8), a fixed number of iterations. *)
Definition SIZE : Z := 256.
Definition mult8 (a b gen : Z) : Z :=
  (loop 0 16 (fun _ '(a, b, product) =>
    let product := if negb (b .& 1 =? 0) then product .^ a else product in
    let a := sgn 16 (a ≪ 1) in
    let a := if SIZE <=? a then a .^ gen else a in
    (a, b ≫ 1, product)) (a, b, 0)).2.

Definition exp8 (base exponent gen : Z) : Z :=
  if base =? 0 then 0 else
  (loop 0 16 (fun _ '(accum, exponent, result) =>
    let result := if exponent .& 1 =? 1 then mult8 result accum gen else result in
    (mult8 accum accum gen, exponent ≫ 1, result)) (base, exponent, 1)).2.

Definition s (i : Z) : Z :=
  let r := (asr i 8 .& 0xc) .| (i .& 0x3) in
  let c := asr i 2 .& 0xff in
  let t := (c + ((r * 17) .^ 0xff)) .& 0xff in
  match rd sfn r with Some d => exp8 t (exp d) (gen d) | None => 0 end.

Definition MSB : Z := 0x80000000.

Definition perm32 (in_ : Z) (perm : list Z) : Z :=
  (loop 0 32 (fun o '(out, mask) =>
    let i := get perm o in
    let b := asr in_ i .& 1 in
    let out := if negb (b =? 0) then out .| mask else out in
    (out, asr mask 1)) (0, MSB)).1.

Definition MASK12 : Z := 0x0fff.

Definition f (r k : Z) : Z :=
  let a := r .^ k in
  let b := s (a .& MASK12) .| shl (s (asr a 8 .& MASK12)) 8 .| shl (s (asr a 16 .& MASK12)) 16 .|
    shl (s ((asr a 24 .| shl a 8) .& MASK12)) 24 in
  perm32 b P.

(** [loki_ctx], the subkeys. *)
Definition setlokikey (LITTLE_ENDIAN : bool) (key : list Z) : list Z :=
  let key := if LITTLE_ENDIAN then bswap key else key in
  let KL := word_at key 0 in
  let KR := word_at key 4 in
  (loop 0 (ROUNDS / 4) (fun j '(KL, KR, ks) =>
    let i := 4 * j in
    let ks := set ks i KL in
    let KL := ROL12 KL in
    let ks := set ks (i + 1) KL in
    let KL := ROL13 KL in
    let ks := set ks (i + 2) KR in
    let KR := ROL12 KR in
    let ks := set ks (i + 3) KR in
    (KL, ROL13 KR, ks)) (KL, KR, replicate (Z.to_nat ROUNDS) 0)).2.

Definition enloki (LITTLE_ENDIAN : bool) (c b : list Z) : list Z :=
  let b := if LITTLE_ENDIAN then bswap b else b in
  let '(L, R) := loop 0 (ROUNDS / 2) (fun j '(L, R) =>
    let i := 2 * j in
    let L := L .^ f R (get c i) in
    (L, R .^ f L (get c (i + 1)))) (word_at b 0, word_at b 4) in
  let b := int_bytes R ++ int_bytes L in
  if LITTLE_ENDIAN then bswap b else b.

Definition deloki (LITTLE_ENDIAN : bool) (c b : list Z) : list Z :=
  let b := if LITTLE_ENDIAN then bswap b else b in
  let '(L, R) := loop 0 (ROUNDS / 2) (fun j '(L, R) =>
    let i := ROUNDS - 2 * j in
    let L := L .^ f R (get c (i - 1)) in
    (L, R .^ f L (get c (i - 2)))) (word_at b 0, word_at b 4) in
  int_bytes R ++ int_bytes L.

Definition main {T} `{!Stdin T} (LITTLE_ENDIAN : bool) (s : T) : option (T * list Z) :=
  '(s, in_key, _) ← sys_read 0 ([0x01; 0x23; 0x45; 0x67; 0x89; 0xab; 0xcd; 0xef] ++ replicate 16 0) 24 s;
  '(s, in_, _) ← sys_read 0 [0x01; 0x23; 0x45; 0x67; 0x89; 0xab; 0xcd; 0xe7] 8 s;
  let lc := setlokikey LITTLE_ENDIAN in_key in
  Some ((sys_write 1 8 s).1, enloki LITTLE_ENDIAN lc in_).

Example s_row : s 0 = exp8 255 31 375. Proof. by vm_compute. Qed.

(** ** The permutation [P] *)

(** What the sign-extended mask is at output bit [o], and the values [perm32] can take. *)
Definition ones_from (m : Z) : Z := 2 ^ 32 - 2 ^ m.
Definition smeared (x : Z) : Prop := x = 0 \/ exists m, 0 <= m < 32 /\ x = ones_from m.

Lemma asr_mask o : 0 <= o < 31 -> asr (ones_from (31 - o)) 1 = ones_from (31 - (o + 1)).
Proof.
  intros Ho. apply Z.eqb_eq. revert Ho.
  apply (forallb_seqZ (fun o => asr (ones_from (31 - o)) 1 =? ones_from (31 - (o + 1)))). by vm_compute.
Qed.

Lemma ones_from_bits m i : 0 <= m <= 32 -> 0 <= i -> Z.testbit (ones_from m) i = (m <=? i) && (i <? 32).
Proof.
  intros Hm Hi. assert (ones_from m = Z.ones (32 - m) ≪ m) as ->.
  { unfold ones_from. rewrite Z.ones_equiv, Z.shiftl_mul_pow2, Z.mul_pred_l, <-Z.pow_add_r by lia. do 2 f_equal. lia. }
  rewrite Z.shiftl_spec by done. destruct (Z.leb_spec m i); [|by rewrite Z.testbit_neg_r by lia].
  rewrite Z.testbit_ones by lia. destruct (Z.leb_spec 0 (i - m)), (Z.ltb_spec (i - m) (32 - m)), (Z.ltb_spec i 32); done || lia.
Qed.

(** A lower mask covers the bits set before. *)
Lemma smeared_lor x o : 0 <= o < 32 -> x = 0 \/ (exists m, 31 - o < m < 32 /\ x = ones_from m) ->
  x .| ones_from (31 - o) = ones_from (31 - o).
Proof.
  intros Ho [->|(m & Hm & ->)]; [done|]. apply Z.bits_inj'. intros i Hi. rewrite Z.lor_spec, !ones_from_bits by lia.
  by destruct (Z.leb_spec m i), (Z.leb_spec (31 - o) i), (Z.ltb_spec i 32); try lia.
Qed.

Lemma perm32_smeared x perm : smeared (perm32 x perm).
Proof.
  unfold perm32.
  pose proof (loop_inv (fun o '(out, mask) => (o < 32 -> mask = ones_from (31 - o)) /\
    (out = 0 \/ exists m, 31 - o < m < 32 /\ out = ones_from m)) 0 32
    (fun o '(out, mask) =>
      let i := get perm o in let b := asr x i .& 1 in
      let out := if negb (b =? 0) then out .| mask else out in (out, asr mask 1)) (0, MSB)) as H.
  destruct (loop 0 32 _ _) as [out mask]. destruct H as [_ Hout]; [done|split; [done|by left]| |].
  - intros o [out' mask'] Ho [Hm Hout]. cbv zeta. rewrite Hm by lia. split.
    + intros Ho'. apply asr_mask. lia.
    + destruct (negb _); [|destruct Hout as [|(m & ? & ?)]; [by left|right; exists m; split; [lia|done]]].
      right. exists (31 - o). split; [lia|]. by apply smeared_lor.
  - destruct Hout as [->|(m & Hm & ->)]; [by left|right]. exists m. split; [lia|done].
Qed.

Lemma f_smeared r k : smeared (f r k).
Proof. apply perm32_smeared. Qed.

Lemma smeared_word x : smeared x -> word 32 x.
Proof.
  intros [->|(m & Hm & ->)]; [word_range|]. unfold word, ones_from.
  pose proof (Z.pow_le_mono_r 2 m 32 ltac:(lia) ltac:(lia)). pose proof (Z.pow_pos_nonneg 2 m ltac:(lia) ltac:(lia)). lia.
Qed.

(** ** Encryption and decryption *)
#[local] Opaque f.

Lemma f_word r k : word 32 (f r k).
Proof. apply smeared_word, f_smeared. Qed.

(** The halves after [j] double rounds of encryption. *)
Definition halves (c : list Z) (L R j : Z) : Z * Z :=
  loop 0 j (fun j '(L, R) =>
    let i := 2 * j in
    let L := L .^ f R (get c i) in
    (L, R .^ f L (get c (i + 1)))) (L, R).

Lemma halves_next c L R j : 0 <= j -> halves c L R (j + 1) =
  (let '(L, R) := halves c L R j in
   let L := L .^ f R (get c (2 * j)) in (L, R .^ f L (get c (2 * j + 1)))).
Proof. intros Hj. unfold halves. by rewrite loop_snoc by lia. Qed.

Lemma halves_word c L R j : 0 <= j -> word 32 L -> word 32 R -> word 32 (halves c L R j).1 /\ word 32 (halves c L R j).2.
Proof.
  intros Hj HL HR. revert j Hj. apply natlike_ind; [done|]. unfold Z.succ. intros j Hj [H1 H2]. rewrite halves_next by done.
  destruct (halves c L R j) as [l r]. simpl in *. split; apply word_lxor; by try apply f_word.
Qed.

(** Decryption goes back through them. *)
Lemma halves_back c L R : let '(l, r) := halves c L R (ROUNDS / 2) in
  loop 0 (ROUNDS / 2) (fun j '(L, R) =>
    let i := ROUNDS - 2 * j in
    let L := L .^ f R (get c (i - 1)) in
    (L, R .^ f L (get c (i - 2)))) (r, l) = (R, L).
Proof.
  destruct (halves c L R (ROUNDS / 2)) as [l r] eqn:E.
  pose proof (loop_inv (fun j st => st = ((halves c L R (ROUNDS / 2 - j)).2, (halves c L R (ROUNDS / 2 - j)).1)) 0 (ROUNDS / 2)
    (fun j '(L, R) => let i := ROUNDS - 2 * j in let L := L .^ f R (get c (i - 1)) in (L, R .^ f L (get c (i - 2)))) (r, l)) as H.
  rewrite H; [by rewrite Z.sub_diag|done|by rewrite Z.sub_0_r, E|].
  intros j st Hj ->. change (ROUNDS / 2) with 8 in *. change ROUNDS with 16.
  replace (8 - j) with (8 - (j + 1) + 1) by lia. rewrite halves_next by lia.
  destruct (halves c L R (8 - (j + 1))) as [a b]. cbn [fst snd].
  replace (16 - 2 * j - 1) with (2 * (8 - (j + 1)) + 1) by lia. replace (16 - 2 * j - 2) with (2 * (8 - (j + 1))) by lia.
  by rewrite !lxor_cancel_r.
Qed.

Lemma bswap_bytes b : bytes 8 b -> bytes 8 (bswap b).
Proof.
  intros Hb. destruct (bytes_8 b Hb) as (b0 & b1 & b2 & b3 & b4 & b5 & b6 & b7 & -> & ?).
  change (bswap _) with [b3; b2; b1; b0; b7; b6; b5; b4]. split; [done|]. rewrite !Forall_cons, Forall_nil. tauto.
Qed.

Lemma bswap_bswap b : bytes 8 b -> bswap (bswap b) = b.
Proof. intros Hb. by destruct (bytes_8 b Hb) as (b0 & b1 & b2 & b3 & b4 & b5 & b6 & b7 & -> & _). Qed.

Lemma pair_bytes x y : bytes 8 (int_bytes x ++ int_bytes y).
Proof.
  destruct (int_bytes_ok x) as [H1 H2], (int_bytes_ok y) as [H3 H4]. split; [by rewrite length_app, H1, H3|by apply Forall_app].
Qed.

(** [deloki] undoes [enloki], except that it leaves the bytes of each half in the
    opposite order where [enloki] reverses them. *)
Lemma deloki_enloki le c b : bytes 8 b -> deloki le c (enloki le c b) = if le then bswap b else b.
Proof.
  intros Hb. unfold deloki, enloki. set (b1 := if le then bswap b else b).
  assert (bytes 8 b1) as Hb1 by (subst b1; destruct le; [by apply bswap_bytes|done]).
  pose proof (word_at_word b1 0 (proj2 Hb1)) as H0. pose proof (word_at_word b1 4 (proj2 Hb1)) as H4.
  fold (halves c (word_at b1 0) (word_at b1 4) (ROUNDS / 2)).
  destruct (halves_word c _ _ (ROUNDS / 2) ltac:(done) H0 H4) as [Hl Hr].
  pose proof (halves_back c (word_at b1 0) (word_at b1 4)) as Hback.
  destruct (halves c (word_at b1 0) (word_at b1 4) (ROUNDS / 2)) as [l r]. cbn [fst snd] in *.
  assert ((if le then bswap (if le then bswap (int_bytes r ++ int_bytes l) else int_bytes r ++ int_bytes l)
    else if le then bswap (int_bytes r ++ int_bytes l) else int_bytes r ++ int_bytes l) = int_bytes r ++ int_bytes l) as ->
    by (destruct le; [apply bswap_bswap, pair_bytes|done]).
  destruct (word_at_pair r l Hr Hl) as [-> ->]. rewrite Hback. by apply pair_word_at.
Qed.

(** ** The program on its input *)
Lemma loki91_main {T} `{!Stdin T} le (s : T) : stdin_ok s ->
  leaves 32 s (main le s) (enloki le (setlokikey le (tab 24 (get (pending s).1))) (tab 8 (fun i => get (pending s).1 (24 + i)))).
Proof.
  intros Hs. unfold main.
  destruct (sys_read_spec 0 ([0x01; 0x23; 0x45; 0x67; 0x89; 0xab; 0xcd; 0xef] ++ replicate 16 0) 24 s Hs)
    as (s1 & key & r1 & -> & Hs1 & H1); [unfold word; lia|done|].
  rewrite input_read_tab, drop_ge, app_nil_r in H1 by (simpl; lia). injection H1 as Ep1 <- _. rewrite bind_Some. cbv beta iota.
  destruct (sys_read_spec 0 [0x01; 0x23; 0x45; 0x67; 0x89; 0xab; 0xcd; 0xe7] 8 s1 Hs1)
    as (s2 & data & r2 & -> & Hs2 & H2); [unfold word; lia|done|].
  rewrite input_read_tab, drop_ge, app_nil_r in H2 by (simpl; lia). injection H2 as Ep2 <- _. rewrite bind_Some. cbv beta iota zeta.
  assert (tab 8 (get (pending s1).1) = tab 8 (fun i => get (pending s).1 (24 + i))) as ->.
  { apply tab_ext. intros i Hi. rewrite <-Ep1. unfold consumed. cbn [fst]. by rewrite get_drop by lia. }
  apply write_leaves; [done|unfold word; lia|]. by rewrite <-Ep2, <-Ep1, consumed_add.
Qed.

(** C40. LOKI91.  For every list of subkeys and every block, [deloki] gives back what
    [enloki] encrypted; where the bytes are swapped ([LITTLE_ENDIAN]) it leaves each half
    of the block reversed, because it never swaps back.  The round function takes 33
    values only, 0 and the words of leading ones, since the mask of the permutation [P]
    is shifted right as a signed word.  [main] reads a key and a block from any standard
    input and writes the encryption. *)
Theorem loki91 (le : bool) (c b : list Z) : bytes 8 b ->
  deloki le c (enloki le c b) = (if le then bswap b else b) /\
  (forall r k, f r k = 0 \/ exists m, 0 <= m < 32 /\ f r k = 2 ^ 32 - 2 ^ m) /\
  (forall T (H : Stdin T) (s : T), stdin_ok s -> tab 8 (fun i => get (pending s).1 (24 + i)) = b ->
    setlokikey le (tab 24 (get (pending s).1)) = c -> leaves 32 s (main le s) (enloki le c b)).
Proof.
  intros Hb. split_and!; [by apply deloki_enloki|intros; apply f_smeared|].
  intros T H s Hs <- <-. by apply loki91_main.
Qed.

Lemma loki91_witness :
  bytes 8 [1; 2; 3; 4; 5; 6; 7; 8] /\
  deloki true (setlokikey true (replicate 24 0)) (enloki true (setlokikey true (replicate 24 0)) [1; 2; 3; 4; 5; 6; 7; 8]) =
    [4; 3; 2; 1; 8; 7; 6; 5].
Proof.
  assert (bytes 8 [1; 2; 3; 4; 5; 6; 7; 8]) as Hb.
  { split; [done|]. repeat (apply Forall_cons; split; [unfold word; lia|]); by apply Forall_nil. }
  split; [exact Hb|]. exact (proj1 (loki91 true (setlokikey true (replicate 24 0)) _ Hb)).
Defined.
