(* ===== verification/StreamCiphers.v ===== *)
(** * The stream ciphers of PyCrypto: [benchmarks/pycrypto/src/ARC4.c] and
    [benchmarks/pycrypto/src/XOR.c], with the driver they share,
    [benchmarks/pycrypto/src/stream_template.c].

    Array accesses are checked, so [Some] also means that every access is in
    bounds, and [% 0] is [None]. *)
From S2P Require Import Prelude Arrays Bytes.
Local Open Scope Z_scope.
Local Open Scope word_scope.

(** ** What the driver relies on

    A stream cipher: a key setup, and an encryption that transforms a buffer and
    advances the state. *)
Class StreamCipher := {
  stream_state : Type;
  stream_init : stream_state -> list Z -> Z -> option stream_state;
  stream_encrypt : stream_state -> list Z -> Z -> option (stream_state * list Z) }.

(** [main] of the template: key from the input, [STREAM_SIZE] zero bytes
    encrypted.  A short read leaves the rest of the key zero. *)
Definition read_into (buf input : list Z) : list Z * list Z :=
  let n := Nat.min (length buf) (length input) in
  (take n input ++ drop n buf, drop n input).

Definition stream_main `{StreamCipher} (st0 : stream_state) (KEY_LEN STREAM_SIZE : nat)
    (input : list Z) : option (list Z) :=
  let '(key, _) := read_into (replicate KEY_LEN 0) input in
  st ← stream_init st0 key (Z.of_nat KEY_LEN);
  '(_, out) ← stream_encrypt st (replicate STREAM_SIZE 0) (Z.of_nat STREAM_SIZE);
  Some out.

(** What makes a stream cipher synchronous: its key stream does not depend on
    the data. *)
Class SyncCipher (C : StreamCipher) := {
  sc_ok : stream_state -> Prop;
  sc_advance : stream_state -> Z -> stream_state;
  sc_key_byte : stream_state -> Z -> Z;
  sc_advance_ok : forall s n, sc_ok s -> 0 <= n -> sc_ok (sc_advance s n);
  sc_key_byte_word : forall s i, sc_ok s -> 0 <= i -> word 8 (sc_key_byte s i);
  sc_key_advance : forall s n i, sc_ok s -> 0 <= n -> 0 <= i ->
    sc_key_byte (sc_advance s n) i = sc_key_byte s (n + i);
  sc_advance_add : forall s n m, sc_ok s -> 0 <= n -> 0 <= m ->
    sc_advance (sc_advance s n) m = sc_advance s (n + m);
  sc_encrypt : forall s block n, sc_ok s -> Forall (word 8) block -> 0 <= n <= zlen block ->
    stream_encrypt s block n = Some (sc_advance s n,
      tab (zlen block) (fun i => if i <? n then get block i .^ sc_key_byte s i else get block i)) }.

Section sync.
Context `{HC : SyncCipher}.
Implicit Types (s : stream_state) (block : list Z).

Definition sync_out s block : list Z :=
  tab (zlen block) (fun i => get block i .^ sc_key_byte s i).

Lemma sync_encrypt s block : sc_ok s -> Forall (word 8) block ->
  stream_encrypt s block (zlen block) = Some (sc_advance s (zlen block), sync_out s block).
Proof.
  intros Hs Hb. pose proof (zlen_nonneg block). rewrite sc_encrypt by (done || lia).
  do 2 f_equal. apply tab_ext. intros i Hi. by destruct (Z.ltb_spec i (zlen block)); [|lia].
Qed.

Lemma sync_out_word s block : sc_ok s -> Forall (word 8) block -> Forall (word 8) (sync_out s block).
Proof.
  intros Hs Hb. unfold sync_out, tab. apply Forall_fmap, Forall_forall.
  intros i Hi%elem_of_seqZ. simpl. apply word_lxor; [lia|by apply get_word|].
  apply sc_key_byte_word; [done|lia].
Qed.
Lemma zlen_sync_out s block : zlen (sync_out s block) = zlen block.
Proof. apply zlen_tab, zlen_nonneg. Qed.

(** Encrypting the ciphertext from the same state gives the plaintext back. *)
Lemma sync_involutive s block : sc_ok s -> Forall (word 8) block ->
  sync_out s (sync_out s block) = block.
Proof.
  intros Hs Hb. unfold sync_out at 1. rewrite zlen_sync_out.
  rewrite <-(tab_get (zlen block) block) at 2 by done. apply tab_ext. intros i Hi.
  unfold sync_out. by rewrite get_tab, lxor_cancel_r.
Qed.

(** Encrypting in two calls is encrypting in one. *)
Lemma sync_app s a b : sc_ok s ->
  sync_out s (a ++ b) = sync_out s a ++ sync_out (sc_advance s (zlen a)) b.
Proof.
  intros Hs. pose proof (zlen_nonneg a). pose proof (zlen_nonneg b).
  apply rd_ext; [by rewrite zlen_app, !zlen_sync_out, zlen_app|].
  intros i Hi. rewrite zlen_sync_out, zlen_app in Hi. unfold sync_out at 1.
  rewrite rd_tab by (rewrite zlen_app; lia). destruct (Z.ltb_spec i (zlen a)).
  - rewrite rd_app_l by (by rewrite zlen_sync_out). unfold sync_out.
    by rewrite rd_tab, get_app_l by lia.
  - rewrite rd_app_r by (by rewrite zlen_sync_out). rewrite zlen_sync_out. unfold sync_out.
    rewrite rd_tab, get_app_r, sc_key_advance by (done || lia). do 3 f_equal. lia.
Qed.
End sync.

(** ** ARC4 *)
Module ARC4.
Record state := mk { S : list Z; x : Z; y : Z }.

(** Exchange [state[i]] and [state[j]]. *)
Definition exchange (s : list Z) (i j : Z) : option (list Z) :=
  t ← rd s i;
  u ← rd s j;
  s ← wr s i u;
  wr s j t.

(** One iteration up to the key-stream byte. *)
Definition step (self : state) : option (state * Z) :=
  let x := (x self + 1) mod 256 in
  sx ← rd (S self) x;
  let y := (y self + sx) mod 256 in
  s ← exchange (S self) x y;
  a ← rd s x;
  b ← rd s y;
  k ← rd s ((a + b) mod 256);
  Some (mk s x y, k).

Definition encrypt (self : state) (block : list Z) (len : Z) : option (state * list Z) :=
  for_range 0 len (fun i '(self, block) =>
    '(self, k) ← step self;
    b ← rd block i;
    block ← wr block i (u8 (b .^ k));
    Some (self, block)) (self, block).

Definition init (self : state) (key : list Z) (keylen : Z) : option state :=
  s ← for_range 0 256 (fun i s => wr s i (u8 i)) (S self);
  '(s, _, _) ← for_range 0 256 (fun i '(s, index1, index2) =>
    k ← rd key index1;
    si ← rd s i;
    let index2 := (k + si + index2) mod 256 in
    s ← exchange s i index2;
    if keylen =? 0 then None else Some (s, Z.rem (index1 + 1) keylen, index2)) (s, 0, 0);
  Some (mk s 0 0).

#[export] Instance cipher : StreamCipher := {|
  stream_state := state; stream_init := init; stream_encrypt := encrypt |}.

Example arc4_key :
  (st ← init (mk (replicate 256 0) 0 0) [0x4b; 0x65; 0x79] 3;
   r ← encrypt st [0x50; 0x6c; 0x61; 0x69; 0x6e; 0x74; 0x65; 0x78; 0x74] 9; Some r.2)
  = Some [0xBB; 0xF3; 0x16; 0xE8; 0xD9; 0x40; 0xAF; 0x0A; 0xD3].
Proof. vm_compute. reflexivity. Qed.

(** The state is a permutation of the bytes and two indices. *)
Definition ok (self : state) : Prop :=
  S self ≡ₚ seqZ 0 256 /\ word 8 (x self) /\ word 8 (y self).

Lemma perm_length s : s ≡ₚ seqZ 0 256 -> zlen s = 256.
Proof. intros Hs. unfold zlen. rewrite (Permutation_length Hs). done. Qed.
Lemma perm_byte s i v : s ≡ₚ seqZ 0 256 -> rd s i = Some v -> 0 <= v < 256.
Proof.
  intros Hs E. unfold rd in E. destruct (_ <? _); [done|].
  apply list_elem_of_lookup_2 in E. rewrite Hs, elem_of_seqZ in E. lia.
Qed.

Lemma exchange_perm s i j : 0 <= i < zlen s -> 0 <= j < zlen s ->
  exists s', exchange s i j = Some s' /\ s' ≡ₚ s.
Proof.
  intros Hi Hj. unfold exchange.
  destruct (rd_Some s i Hi) as [t Et], (rd_Some s j Hj) as [u Eu]. rewrite Et, Eu.
  cbn [mbind option_bind]. rewrite wr_Some by done. cbn [mbind option_bind].
  rewrite wr_Some by zlen_lia. eexists. split; [done|].
  unfold rd in Et, Eu. destruct (Z.ltb_spec i 0), (Z.ltb_spec j 0); try lia.
  apply Permutation_inj. split; [by rewrite !length_insert|].
  set (a := Z.to_nat i) in *. set (b := Z.to_nat j) in *.
  exists (fun k => if decide (k = a) then b else if decide (k = b) then a else k). split.
  - intros p q. repeat case_decide; congruence.
  - intros k. unfold zlen in *.
    destruct (decide (k = b)) as [->|Hkb].
    + rewrite list_lookup_insert_eq by (rewrite length_insert; lia).
      destruct (decide (b = a)) as [E|]; [by rewrite <-E in Et |done].
    + rewrite list_lookup_insert_ne by done. destruct (decide (k = a)) as [->|Hka].
      * by rewrite list_lookup_insert_eq by lia.
      * by rewrite list_lookup_insert_ne.
Qed.

Lemma step_ok self : ok self -> exists self' k, step self = Some (self', k) /\ ok self' /\ word 8 k.
Proof.
  intros (Hs & Hx & Hy). pose proof (perm_length _ Hs) as Hz. unfold step.
  pose proof (Z.mod_pos_bound (x self + 1) 256 ltac:(lia)) as Hx'.
  destruct (rd_Some (S self) ((x self + 1) mod 256)) as [sx Ex]; [lia|]. rewrite Ex.
  cbn [mbind option_bind].
  pose proof (Z.mod_pos_bound (y self + sx) 256 ltac:(lia)) as Hy'.
  destruct (exchange_perm (S self) ((x self + 1) mod 256) ((y self + sx) mod 256))
    as (s & -> & Hp); [lia|lia|]. cbn [mbind option_bind].
  rewrite Hs in Hp. pose proof (perm_length _ Hp) as Hzs.
  destruct (rd_Some s ((x self + 1) mod 256)) as [a ->]; [lia|]. cbn [mbind option_bind].
  destruct (rd_Some s ((y self + sx) mod 256)) as [b ->]; [lia|]. cbn [mbind option_bind].
  pose proof (Z.mod_pos_bound (a + b) 256 ltac:(lia)) as Hab.
  destruct (rd_Some s ((a + b) mod 256)) as [k Ek]; [lia|]. rewrite Ek.
  eexists _, _. split; [done|]. split; [done|]. by eapply perm_byte.
Qed.

(** The state after [n] steps, and the key-stream byte of step [i]. *)
Fixpoint after (n : nat) (self : state) : state :=
  match n with
  | O => self
  | Datatypes.S n => match step self with Some (self, _) => after n self | None => self end
  end.
Definition key_byte (self : state) (i : Z) : Z :=
  match step (after (Z.to_nat i) self) with Some (_, k) => k | None => 0 end.

Lemma after_ok n self : ok self -> ok (after n self).
Proof.
  revert self. induction n as [|n IH]; intros self Hs; [done|]. cbn [after].
  destruct (step_ok _ Hs) as (self' & k & -> & Hs' & _). by apply IH.
Qed.
Lemma after_add n m self : ok self -> after m (after n self) = after (n + m) self.
Proof.
  revert self. induction n as [|n IH]; intros self Hs; [done|]. cbn [after Nat.add].
  destruct (step_ok _ Hs) as (self' & k & -> & Hs' & _). by apply IH.
Qed.
Lemma step_after self i : ok self -> 0 <= i ->
  step (after (Z.to_nat i) self) = Some (after (Z.to_nat (i + 1)) self, key_byte self i).
Proof.
  intros Hs Hi. unfold key_byte. destruct (step_ok _ (after_ok (Z.to_nat i) _ Hs)) as (s' & k & E & _).
  replace (Z.to_nat (i + 1)) with (Z.to_nat i + 1)%nat by lia.
  rewrite <-after_add by done. cbn [after]. by rewrite E.
Qed.
Lemma key_byte_word self i : ok self -> word 8 (key_byte self i).
Proof.
  intros Hs. unfold key_byte.
  by destruct (step_ok _ (after_ok (Z.to_nat i) _ Hs)) as (s' & k & -> & _ & Hk).
Qed.

Lemma arc4_encrypt_eq self block n : ok self -> Forall (word 8) block -> 0 <= n <= zlen block ->
  encrypt self block n = Some (after (Z.to_nat n) self,
    tab (zlen block) (fun i => if i <? n then get block i .^ key_byte self i else get block i)).
Proof.
  intros Hs Hb Hn. unfold encrypt.
  edestruct (for_range_inv (fun i st => st = (after (Z.to_nat i) self,
    tab (zlen block) (fun t => if t <? i then get block t .^ key_byte self t else get block t))) 0 n)
    as (st & E & Hst); [| | |rewrite E, Hst].
  - lia.
  - f_equal. rewrite <-(tab_get (zlen block) block) at 1 by done. apply tab_ext.
    intros t Ht. destruct (Z.ltb_spec t 0); [lia|done].
  - intros i st Hi ->. eexists. split; [|reflexivity].
    rewrite step_after by (done || lia). cbn [mbind option_bind].
    rewrite rd_tab by lia. cbn [mbind option_bind]. rewrite Z.ltb_irrefl, wr_tab by lia.
    cbn [mbind option_bind]. do 2 f_equal. apply tab_ext. intros t Ht.
    destruct (Z.eqb_spec t i) as [->|].
    + destruct (Z.ltb_spec i (i + 1)); [|lia]. apply wrap_small.
      apply word_lxor; [lia|by apply get_word|by apply key_byte_word].
    + by destruct (Z.ltb_spec t i), (Z.ltb_spec t (i + 1)); try lia.
  - done.
Qed.

(** The key setup: the identity permutation, then exchanges. *)
Lemma init_perm self key keylen : zlen (S self) = 256 -> 1 <= keylen <= zlen key ->
  exists self', init self key keylen = Some self' /\ ok self' /\ x self' = 0 /\ y self' = 0.
Proof.
  intros Hz Hk. unfold init.
  edestruct (for_range_inv (fun i s => s = tab 256 (fun t => if t <? i then t else get (S self) t))
    0 256 (fun i s => wr s i (u8 i)) (S self)) as (s & E & Hs); [lia| | |rewrite E].
  { rewrite <-(tab_get 256 (S self)) at 1 by done. apply tab_ext.
    intros t Ht. destruct (Z.ltb_spec t 0); [lia|done]. }
  { intros i s Hi ->. rewrite wr_tab by done. eexists. split; [reflexivity|].
    apply tab_ext. intros t Ht. rewrite wrap_small by (unfold word; lia).
    destruct (Z.eqb_spec t i) as [->|]; [by destruct (Z.ltb_spec i (i + 1)); [|lia]|].
    by destruct (Z.ltb_spec t i), (Z.ltb_spec t (i + 1)); try lia. }
  cbn [mbind option_bind].
  assert (s ≡ₚ seqZ 0 256) as Hp.
  { rewrite Hs. unfold tab. rewrite (list_fmap_ext _ (fun t => t)); [by rewrite list_fmap_id|].
    intros k t [-> ?]%lookup_seqZ. by destruct (Z.ltb_spec (0 + Z.of_nat k) 256); [|lia]. }
  clear E Hs.
  edestruct (for_range_inv (fun _ (st : list Z * Z * Z) =>
    st.1.1 ≡ₚ seqZ 0 256 /\ 0 <= st.1.2 < keylen) 0 256) as ([[s' i1] i2] & E & Hs' & _);
    [lia| | |rewrite E].
  - split; [done|simpl; lia].
  - intros i [[s1 index1] index2] Hi [Hp1 Hi1]. cbn [fst snd] in *.
    pose proof (perm_length _ Hp1) as Hz1.
    destruct (rd_Some key index1) as [k ->]; [lia|]. cbn [mbind option_bind].
    destruct (rd_Some s1 i) as [si ->]; [lia|]. cbn [mbind option_bind].
    pose proof (Z.mod_pos_bound (k + si + index2) 256 ltac:(lia)) as Hm.
    destruct (exchange_perm s1 i ((k + si + index2) mod 256)) as (s2 & -> & Hp2); [lia|lia|].
    cbn [mbind option_bind]. destruct (Z.eqb_spec keylen 0); [lia|]. eexists. split; [done|].
    cbn [fst snd]. split; [by rewrite Hp2|].
    rewrite Z.rem_mod_nonneg by lia. apply Z.mod_pos_bound. lia.
  - cbn [mbind option_bind]. eexists. split; [done|]. split_and!; try done; unfold word; simpl; lia.
Qed.

#[export] Program Instance sync : SyncCipher cipher := {|
  sc_ok := ok; sc_advance s n := after (Z.to_nat n) s; sc_key_byte := key_byte |}.
Next Obligation. intros s n Hs _. by apply after_ok. Qed.
Next Obligation. intros s i Hs _. by apply key_byte_word. Qed.
Next Obligation.
  intros s n i Hs Hn Hi. simpl. unfold key_byte. rewrite after_add by done.
  do 2 f_equal. by rewrite <-Z2Nat.inj_add.
Qed.
Next Obligation. intros s n m Hs Hn Hm. simpl. rewrite after_add by done. by rewrite <-Z2Nat.inj_add. Qed.
Next Obligation. intros s block n Hs Hb Hn. by apply arc4_encrypt_eq. Qed.
End ARC4.

(** ** XOR *)
Module XOR.
Definition MAX_KEY_SIZE : Z := 32.

Record state := mk { key : list Z; keylen : Z; last_pos : Z }.

(** [assert(0)] aborts. *)
Definition init (self : state) (k : list Z) (len : Z) : option state :=
  if MAX_KEY_SIZE <? len then None else
  kb ← for_range 0 len (fun i kb => b ← rd k i; wr kb i b) (key self);
  Some (mk kb len 0).

Definition encrypt (self : state) (block : list Z) (len : Z) : option (state * list Z) :=
  '(block, j) ← for_range 0 len (fun i '(block, j) =>
    b ← rd block i;
    k ← rd (key self) j;
    block ← wr block i (u8 (b .^ k));
    if keylen self =? 0 then None else Some (block, Z.rem (j + 1) (keylen self)))
    (block, last_pos self);
  Some (mk (key self) (keylen self) j, block).

#[export] Instance cipher : StreamCipher := {|
  stream_state := state; stream_init := init; stream_encrypt := encrypt |}.

Definition ok (self : state) : Prop :=
  zlen (key self) = 32 /\ Forall (word 8) (key self) /\
  1 <= keylen self <= 32 /\ 0 <= last_pos self < keylen self.

(** The key stream, and the encryption it gives. *)
Definition key_byte (self : state) (i : Z) : Z := get (key self) ((last_pos self + i) mod keylen self).
Definition advance (self : state) (n : Z) : state :=
  mk (key self) (keylen self) ((last_pos self + n) mod keylen self).

Lemma xor_encrypt_eq self block n : ok self -> Forall (word 8) block -> 0 <= n <= zlen block ->
  encrypt self block n = Some (advance self n,
    tab (zlen block) (fun i => if i <? n then get block i .^ key_byte self i else get block i)).
Proof.
  intros (Hz & Hw & Hk & Hp) Hb Hn. unfold encrypt.
  edestruct (for_range_inv (fun i st => st =
    (tab (zlen block) (fun t => if t <? i then get block t .^ key_byte self t else get block t),
     (last_pos self + i) mod keylen self)) 0 n) as (st & E & Hs); [| | |rewrite E, Hs].
  - lia.
  - rewrite Z.add_0_r, Z.mod_small by lia. f_equal.
    rewrite <-(tab_get (zlen block) block) at 1 by done. apply tab_ext.
    intros t Ht. destruct (Z.ltb_spec t 0); [lia|done].
  - intros i st Hi ->. eexists. split; [|reflexivity].
    rewrite rd_tab by lia. cbn [mbind option_bind]. rewrite Z.ltb_irrefl.
    pose proof (Z.mod_pos_bound (last_pos self + i) (keylen self) ltac:(lia)).
    destruct (rd_Some (key self) ((last_pos self + i) mod keylen self)) as [k Ek]; [lia|].
    rewrite Ek. cbn [mbind option_bind]. rewrite wr_tab by lia. cbn [mbind option_bind].
    destruct (Z.eqb_spec (keylen self) 0); [lia|].
    rewrite Z.rem_mod_nonneg, Zplus_mod_idemp_l by lia.
    do 2 f_equal; [|f_equal; lia]. apply tab_ext. intros t Ht.
    destruct (Z.eqb_spec t i) as [->|].
    + destruct (Z.ltb_spec i (i + 1)); [|lia].
      unfold key_byte. rewrite (get_rd (key self) _ k) by (done || lia). apply wrap_small.
      apply word_lxor; [lia| |].
      * by apply get_word.
      * unfold rd in Ek. destruct (_ <? 0); [done|]. exact (Forall_lookup_1 _ _ _ _ Hw Ek).
    + by destruct (Z.ltb_spec t i), (Z.ltb_spec t (i + 1)); try lia.
  - done.
Qed.

Lemma init_ok self k len : zlen (key self) = 32 -> Forall (word 8) (key self) ->
  Forall (word 8) k -> 1 <= len <= 32 -> len <= zlen k ->
  exists self', init self k len = Some self' /\ ok self' /\
    keylen self' = len /\ last_pos self' = 0 /\
    (forall i, 0 <= i < len -> get (key self') i = get k i).
Proof.
  intros Hz Hws Hw Hl Hk. unfold init, MAX_KEY_SIZE. destruct (Z.ltb_spec 32 len); [lia|].
  assert (forall i, 0 <= i < len -> rd k i = Some (get k i)) as Hrd.
  { intros i Hi. destruct (rd_Some k i) as [b Eb]; [lia|]. rewrite Eb. symmetry. f_equal.
    apply get_rd; [lia|done]. }
  rewrite (fill_loop (key self) 0 len (get k)); [|lia|lia|by intros i kb Hi; rewrite Hrd by lia].
  eexists. split; [done|]. cbn [key keylen last_pos]. rewrite Hz. split_and!; try done.
  - split_and!; cbn [key keylen last_pos]; try lia; [by apply zlen_tab|].
    apply Forall_fmap, Forall_true. intros t. simpl.
    destruct (_ && _); by apply get_word.
  - intros i Hi. rewrite get_tab by lia. by destruct (Z.leb_spec 0 i), (Z.ltb_spec i len); try lia.
Qed.

#[export] Program Instance sync : SyncCipher cipher := {|
  sc_ok := ok; sc_advance := advance; sc_key_byte := key_byte |}.
Next Obligation.
  intros s n (? & ? & ? & ?) Hn. split_and!; simpl; try done; try lia; apply Z.mod_pos_bound; lia.
Qed.
Next Obligation. intros s i (? & ? & ? & ?) Hi. simpl. by apply get_word. Qed.
Next Obligation.
  intros s n i (? & ? & ? & ?) Hn Hi. simpl. unfold key_byte, advance; simpl.
  rewrite Zplus_mod_idemp_l. do 2 f_equal. lia.
Qed.
Next Obligation.
  intros s n m (? & ? & ? & ?) Hn Hm. simpl. unfold advance; simpl.
  rewrite Zplus_mod_idemp_l. do 2 f_equal. lia.
Qed.
Next Obligation. intros s block n Hs Hb Hn. by apply xor_encrypt_eq. Qed.
End XOR.

(** ** Properties *)
Section sync_theorem.
Context `{HC : SyncCipher}.
Implicit Types (s : stream_state) (a b : list Z).

Lemma sync_stream s a b : sc_ok s -> Forall (word 8) a -> Forall (word 8) b ->
  exists s1 c1, stream_encrypt s a (zlen a) = Some (s1, c1) /\ sc_ok s1 /\
    (exists s1', stream_encrypt s c1 (zlen c1) = Some (s1', a)) /\
    (exists s2 c2, stream_encrypt s1 b (zlen b) = Some (s2, c2) /\
       stream_encrypt s (a ++ b) (zlen (a ++ b)) = Some (s2, c1 ++ c2)).
Proof.
  intros Hs Ha Hb. pose proof (zlen_nonneg a). pose proof (zlen_nonneg b).
  assert (sc_ok (sc_advance s (zlen a))) as Hs1 by (by apply sc_advance_ok).
  exists (sc_advance s (zlen a)), (sync_out s a). split_and!.
  - by apply sync_encrypt.
  - done.
  - eexists. rewrite sync_encrypt by (done || by apply sync_out_word). by rewrite sync_involutive.
  - eexists _, _. split; [by apply sync_encrypt|].
    rewrite sync_encrypt by (done || by apply Forall_app). rewrite sync_app, zlen_app by done.
    by rewrite sc_advance_add.
Qed.
End sync_theorem.

(** C34. ARC4: any key setup with a non-empty key gives a permutation of the
    bytes; from such a state encryption succeeds with every access in bounds
    and keeps a permutation, encrypting the result from the same state gives
    the data back, and encrypting in two calls is encrypting in one. *)
Theorem arc4_stream self key keylen a b :
  zlen (ARC4.S self) = 256 -> 1 <= keylen <= zlen key -> Forall (word 8) a -> Forall (word 8) b ->
  exists s, ARC4.init self key keylen = Some s /\ ARC4.S s ≡ₚ seqZ 0 256 /\
    exists s1 c1, ARC4.encrypt s a (zlen a) = Some (s1, c1) /\ ARC4.S s1 ≡ₚ seqZ 0 256 /\
      (exists s1', ARC4.encrypt s c1 (zlen c1) = Some (s1', a)) /\
      (exists s2 c2, ARC4.encrypt s1 b (zlen b) = Some (s2, c2) /\
         ARC4.encrypt s (a ++ b) (zlen (a ++ b)) = Some (s2, c1 ++ c2)).
Proof.
  intros Hz Hk Ha Hb. destruct (ARC4.init_perm self key keylen Hz Hk) as (s & E & Hs & _).
  exists s. split; [done|]. split; [apply Hs|].
  destruct (sync_stream (HC := ARC4.sync) s a b Hs Ha Hb) as (s1 & c1 & E1 & Hs1 & H1 & H2).
  exists s1, c1. split; [done|]. split; [apply Hs1|]. by split.
Qed.

Lemma arc4_stream_witness :
  exists s, ARC4.init (ARC4.mk (replicate 256 0) 0 0) [1; 2; 3; 4; 5] 5 = Some s /\
    ARC4.S s ≡ₚ seqZ 0 256.
Proof.
  destruct (arc4_stream (ARC4.mk (replicate 256 0) 0 0) [1; 2; 3; 4; 5] 5 [7] [8])
    as (s & E & Hp & _).
  - reflexivity.
  - vm_compute; intuition discriminate.
  - apply Forall_cons; split; [unfold word; lia|by apply Forall_nil].
  - apply Forall_cons; split; [unfold word; lia|by apply Forall_nil].
  - exists s. by split.
Defined.

(** XOR: a key longer than 32 bytes aborts the setup; a key of 1 to 32
    bytes is copied, byte [i] of the first call is then the data byte xored with
    key byte [i mod len], encryption is an involution from the same state, and
    the position carries over between calls. *)
Lemma xor_stream self k len a b :
  zlen (XOR.key self) = 32 -> Forall (word 8) (XOR.key self) -> Forall (word 8) k ->
  1 <= len <= zlen k -> Forall (word 8) a -> Forall (word 8) b ->
  if 32 <? len then XOR.init self k len = None else
  exists s, XOR.init self k len = Some s /\
    exists s1 c1, XOR.encrypt s a (zlen a) = Some (s1, c1) /\
      c1 = tab (zlen a) (fun i => get a i .^ get k (i mod len)) /\
      XOR.last_pos s1 = zlen a mod len /\
      (exists s1', XOR.encrypt s c1 (zlen c1) = Some (s1', a)) /\
      (exists s2 c2, XOR.encrypt s1 b (zlen b) = Some (s2, c2) /\
         XOR.encrypt s (a ++ b) (zlen (a ++ b)) = Some (s2, c1 ++ c2)).
Proof.
  intros Hz Hw Hk Hl Ha Hb. destruct (Z.ltb_spec 32 len).
  { unfold XOR.init, XOR.MAX_KEY_SIZE. by destruct (Z.ltb_spec 32 len); [|lia]. }
  destruct (XOR.init_ok self k len) as (s & E & Hs & Hkl & Hlp & Hkey); [done|done|done|lia|lia|].
  exists s. split; [done|].
  destruct (sync_stream (HC := XOR.sync) s a b Hs Ha Hb) as (s1 & c1 & E1 & Hs1 & H1 & H2).
  exists s1, c1. split; [done|]. pose proof (sync_encrypt (HC := XOR.sync) s a Hs Ha) as E1'.
  assert (Some (s1, c1) = Some (XOR.advance s (zlen a), sync_out (HC := XOR.sync) s a)) as E2.
  { etransitivity; [symmetry; exact E1|exact E1']. }
  simplify_eq. split_and!; [| |done|done].
  - unfold sync_out. apply tab_ext. intros i Hi. simpl. unfold XOR.key_byte. rewrite Hlp, Z.add_0_l.
    rewrite Hkey by (apply Z.mod_pos_bound; lia). done.
  - simpl. by rewrite Hlp.
Qed.
