(* ===== verification/CbcDriver.v ===== *)
(** * [benchmarks/openssl_almeida/tls_rempad_luk13_wrapper.c].

    The driver of the padding removal of TLS before the patch: the structures built from
    the buffers of the generated header, and what the call decides. *)
From S2P Require Import Prelude Arrays Runner Shifts CbcPadding.
Local Open Scope Z_scope.
Local Open Scope word_scope.

(** [value] is initialised to 0; the memory is [buf] and the four bytes of [value]. *)
Definition load_u32 (buf : list Z) : option Z :=
  mem ← runner_copy_bytes (buf ++ [0; 0; 0; 0]) (zlen buf) 0 4;
  value ← slice mem (zlen buf) 4;
  Some (word_at value 0).

(** The buffers of the header. *)
Record buffers := mk_buffers {
  data_buf : list Z; options_buf : list Z; s3_flags_buf : list Z; flags_buf : list Z; slicing_cheat_buf : list Z;
  mac_size_buf : list Z }.

(** The call of [driver_main], with its result; [data] is an array of [DATA_LEN] zeros. *)
Definition rempad_call (b : buffers) : option (Z * SSL3_RECORD * SSL3_STATE) :=
  options ← load_u32 (options_buf b);
  s3_flags ← load_u32 (s3_flags_buf b);
  flags ← load_u32 (flags_buf b);
  slicing_cheat ← load_u32 (slicing_cheat_buf b);
  let block_size := 16 in
  mac_size ← load_u32 (mac_size_buf b);
  let DATA_LEN := zlen (data_buf b) in
  mem ← runner_copy_bytes (data_buf b ++ replicate (Z.to_nat DATA_LEN) 0) DATA_LEN 0 DATA_LEN;
  data ← slice mem DATA_LEN DATA_LEN;
  let s3_obj := mk_s3 s3_flags (replicate 8 0) in
  let s_obj := mk_ssl true options flags (s32 slicing_cheat) in
  let rec_obj := mk_record (u32 DATA_LEN) data 0 0 0 in
  tls1_cbc_remove_padding_lucky13 s_obj s3_obj rec_obj block_size mac_size.

Definition rempad_driver (b : buffers) : option Z := _ ← rempad_call b; Some 0.

(** ** The decision *)

(** A copy of a whole buffer to what follows it. *)
Lemma copy_buffer (buf rest : list Z) n : n = zlen buf -> zlen rest = n ->
  runner_copy_bytes (buf ++ rest) n 0 n = Some (buf ++ buf) /\ slice (buf ++ buf) n n = Some buf.
Proof.
  intros -> Hr. split.
  - rewrite copy_behind by (lia || by rewrite slice_0, take_ge by (unfold zlen; lia)).
    rewrite drop_ge by (unfold zlen in *; lia). by rewrite app_nil_r.
  - pose proof (slice_app buf buf [] (zlen buf) (zlen buf) eq_refl eq_refl) as E. by rewrite app_nil_r in E.
Qed.

Lemma load_u32_value buf : zlen buf = 4 -> load_u32 buf = Some (word_at buf 0).
Proof.
  intros Hz. unfold load_u32. rewrite Hz. destruct (copy_buffer buf [0; 0; 0; 0] 4) as [-> E]; [done|done|].
  by rewrite bind_Some, E, bind_Some.
Qed.

(** How many bytes the workaround leaves to compare: one less if its flag is set, which
    it does itself for an even length, the sequence number being zero. *)
Definition compared (options s3_flags p : Z) : Z :=
  if negb (options .& SSL_OP_TLS_BLOCK_PADDING_BUG =? 0) && ((p .& 1 =? 0) || negb (s3_flags .& TLS1_FLAGS_TLS_PADDING_BUG =? 0))
  then p else p + 1.

Definition record_of (data : list Z) : SSL3_RECORD := mk_record (zlen data) data 0 0 0.

Lemma record_of_wf data : Forall (word 8) data -> zlen data < 2 ^ 31 -> wf_record (record_of data).
Proof.
  intros Hd Hz. pose proof (zlen_nonneg data). unfold wf_record, record_of, word, sword. simpl. split_and!; lia || done.
Qed.

Lemma lucky13_decision s flags data bs mac_size : Forall (word 8) data -> 1 <= zlen data < 2 ^ 31 -> 0 <= bs < 2 ^ 16 ->
  let p := get data (zlen data - 1) in let n := compared (options s) flags p in
  exists s3', tls1_cbc_remove_padding_lucky13 s (mk_s3 flags (replicate 8 0)) (record_of data) bs mac_size =
    Some (if (n + bs <=? zlen data) && tail_is (record_of data) p n
          then (1, rec_skip bs (rec_shrink n (record_of data)), s3') else (-1, record_of data, s3')).
Proof.
  intros Hd Hz Hbs p n. pose proof (record_of_wf data Hd ltac:(lia)) as Hwf. unfold tls1_cbc_remove_padding_lucky13.
  rewrite s32_length by (done || apply Hz). change (rec_length (record_of data)) with (zlen data).
  assert (rec_byte (record_of data) (zlen data - 1) = Some p) as ->.
  { change (rd data (0 + (zlen data - 1)) = Some p). rewrite Z.add_0_l. destruct (rd_Some data (zlen data - 1)) as [v Ev]; [lia|]. rewrite Ev. f_equal. symmetry. by apply get_rd; [lia|]. }
  assert (word 8 p) as Hp by (by apply get_word). rewrite bind_Some.
  cbv zeta. lazymatch goal with |- context [(if ?c then ?x else ?y) ≫= _] =>
    assert (exists s3', (if c then x else y) = Some (s3', n)) as [s3' ->] end.
  { unfold n, compared. destruct (options s .& SSL_OP_TLS_BLOCK_PADDING_BUG =? 0); [by eexists|]. cbn [negb andb].
    change (slice (read_sequence (mk_s3 flags (replicate 8 0))) 0 8) with (Some (replicate 8 0)). rewrite bind_Some.
    rewrite bool_decide_true by done. cbn [andb]. eexists. do 2 f_equal.
    destruct (p .& 1 =? 0); cbn [s3_flags orb]; [|destruct (flags .& _ =? 0); simpl; lia].
    assert (((flags .| TLS1_FLAGS_TLS_PADDING_BUG) .& TLS1_FLAGS_TLS_PADDING_BUG =? 0) = false) as ->; [|simpl; lia].
    apply Z.eqb_neq. rewrite Z.land_lor_distr_l. intros [_ H]%Z.lor_eq_0_iff. done. }
  rewrite bind_Some. exists s3'. cbv beta iota. change (rec_length (record_of data)) with (zlen data).
  assert (0 <= n <= 2 ^ 8) as Hn by (unfold n, compared; unfold word in Hp; destruct (_ && _); lia).
  rewrite !wrap_small by (unfold word; lia).
  destruct (Z.ltb_spec (zlen data) (n + bs)), (Z.leb_spec (n + bs) (zlen data)); try lia; [done|].
  pose proof (all_equal_from_spec (Z.to_nat n) (record_of data) p Hwf ltac:(simpl; lia)) as E. rewrite Z2Nat.id in E by lia.
  change (rec_length (record_of data)) with (zlen data) in E. rewrite E, bind_Some. by destruct (tail_is _ _ _).
Qed.

(** Whatever the buffers hold, the driver returns 0 after accesses in bounds only; the
    call accepts the record if what is compared and a block fit into it and the compared
    bytes are the last byte. *)
Lemma rempad_decision b : Forall (word 8) (data_buf b) -> 1 <= zlen (data_buf b) < 2 ^ 31 ->
  Forall (fun buf => zlen buf = 4) [options_buf b; s3_flags_buf b; flags_buf b; slicing_cheat_buf b; mac_size_buf b] ->
  let data := data_buf b in let p := get data (zlen data - 1) in
  let n := compared (word_at (options_buf b) 0) (word_at (s3_flags_buf b) 0) p in
  exists s3', rempad_call b = Some (if (n + 16 <=? zlen data) && tail_is (record_of data) p n
    then (1, rec_skip 16 (rec_shrink n (record_of data)), s3') else (-1, record_of data, s3')) /\ rempad_driver b = Some 0.
Proof.
  intros Hd Hz Hbufs data p n. rewrite !Forall_cons in Hbufs. destruct Hbufs as (H1 & H2 & H3 & H4 & H5 & _).
  destruct (lucky13_decision (mk_ssl true (word_at (options_buf b) 0) (word_at (flags_buf b) 0) (s32 (word_at (slicing_cheat_buf b) 0)))
    (word_at (s3_flags_buf b) 0) data 16 (word_at (mac_size_buf b) 0) Hd Hz ltac:(lia)) as [s3' E].
  exists s3'. unfold rempad_driver.
  assert (rempad_call b = Some (if (n + 16 <=? zlen data) && tail_is (record_of data) p n
    then (1, rec_skip 16 (rec_shrink n (record_of data)), s3') else (-1, record_of data, s3'))) as ->; [|by rewrite bind_Some].
  unfold rempad_call. rewrite !load_u32_value by done. rewrite !bind_Some. cbv zeta.
  destruct (copy_buffer data (replicate (Z.to_nat (zlen data)) 0) (zlen data)) as [E1 E2]; [done|rewrite zlen_replicate; apply Z2Nat.id, zlen_nonneg|].
  fold data. rewrite E1, bind_Some, E2, bind_Some. rewrite wrap_small by (unfold word, data; lia). exact E.
Qed.
