(* ===== verification/Drivers.v ===== *)
(** * Drivers: a program, the standard input of the runner, and the runner.

    The wrappers [benchmarks/ghostrider/findmax_wrapper.c], [matmul_wrapper.c] and
    [benchmarks/pycrypto/arc4_wrapper.c]: the program with [read] and [write] replaced
    by those of [original_stdin_runner.h], fed from the buffer of the generated header,
    as the [driver_main] of [include/runner.h]. *)
From stdpp Require Import strings sorting.
From S2P Require Import CbcPadding CbcDriver Prelude Arrays Rows Bytes Runner RunnerIo Stdin Ghostrider RadixSort Dijkstra Shifts BlockCipher DesSpec Des DesCipher LibgDes ThreeWay Loki91 StreamCiphers.
Local Open Scope Z_scope.

(** ** arc4.c: [main] of the stream cipher template on a standard input *)
Definition template_main {T} `{!Stdin T} `{StreamCipher} (st0 : stream_state) (KEY_LEN STREAM_SIZE : Z) (s : T)
    : option (T * list Z) :=
  '(s, key, _) ← sys_read 0 (replicate (Z.to_nat KEY_LEN) 0) KEY_LEN s;
  st ← stream_init st0 key KEY_LEN;
  '(_, out) ← stream_encrypt st (replicate (Z.to_nat STREAM_SIZE) 0) STREAM_SIZE;
  Some ((sys_write 1 STREAM_SIZE s).1, out).

Definition arc4_state : ARC4.state := ARC4.mk (replicate 256 0) 0 0.
Definition arc4_main {T} `{!Stdin T} (s : T) : option (T * list Z) :=
  template_main (H := ARC4.cipher) arc4_state 32 32 s.

(** The key stream under the first 32 bytes. *)
Lemma arc4_main_spec {T} `{!Stdin T} (s : T) : stdin_ok s ->
  exists out, stream_main (H := ARC4.cipher) arc4_state 32 32 (pending s).1 = Some out /\ leaves 32 s (arc4_main s) out.
Proof.
  intros Hs. unfold arc4_main, template_main.
  destruct (sys_read_spec 0 (replicate (Z.to_nat 32) 0) 32 s Hs) as (s' & key & ret & E & Hs' & Hi); [unfold word; lia|done|].
  rewrite input_read_tab in Hi by lia. rewrite drop_ge, app_nil_r in Hi by done. injection Hi as Ep Ek Er.
  destruct (ARC4.init_perm arc4_state (tab 32 (get (pending s).1)) 32) as (st & Ei & Hst & _); [done|rewrite zlen_tab; lia|].
  pose proof (sync_encrypt (HC := ARC4.sync) st (replicate 32 0) Hst ltac:(apply Forall_replicate; unfold word; lia)) as Ee.
  change (zlen (replicate 32 0)) with 32 in Ee. set (out := sync_out (HC := ARC4.sync) st (replicate 32 0)) in Ee.
  change (@stream_init ARC4.cipher arc4_state (tab 32 (get (pending s).1)) 32 = Some st) in Ei.
  exists out. split.
  - unfold stream_main, read_into. rewrite length_replicate, drop_replicate.
    pose proof (take_padded 32 (pending s).1) as Ht. cbv zeta in Ht. rewrite Ht.
    change (Z.of_nat 32) with 32. by rewrite Ei, bind_Some, Ee.
  - rewrite E, bind_Some. cbv beta iota. rewrite <-Ek, Ei, bind_Some.
    change (replicate (Z.to_nat 32) 0) with (replicate 32 0). rewrite Ee, bind_Some. cbv beta iota.
    apply write_leaves; [done|unfold word; lia|done].
Qed.

(** ** Wrappers *)

(** [runner_segments]: the input buffers. *)
Definition runner_segments (bufs : list (list Z)) : list runner_input_segment := (fun buf => mk_segment buf (zlen buf)) <$> bufs.

Definition wrap_main (main : runner_io -> option (runner_io * list Z)) (bufs : list (list Z)) (io : runner_io)
    : option (runner_io * Z * list Z) :=
  '(io, out) ← main (runner_io_reset (runner_segments bufs) (zlen (runner_segments bufs)) io);
  Some (io, runner_io_status io, out).

(** [driver_main] of the wrappers, with what the program writes. *)
Definition findmax_driver (buf : list Z) : runner_io -> option (runner_io * Z * list Z) := wrap_main FindMax.main [buf].
Definition matmul_driver (buf : list Z) : runner_io -> option (runner_io * Z * list Z) := wrap_main MatMul.main [buf].
Definition arc4_driver (buf : list Z) : runner_io -> option (runner_io * Z * list Z) := wrap_main arc4_main [buf].
Definition three_way_driver (key data : list Z) : runner_io -> option (runner_io * Z * list Z) :=
  wrap_main ThreeWay.main [key; data].
Definition loki91_driver (le : bool) (key data : list Z) : runner_io -> option (runner_io * Z * list Z) :=
  wrap_main (Loki91.main le) [key; data].
(** [libg/des_wrapper.c]; [ctx] is on the stack of the program. *)
Definition libg_des_driver (ctx : LibgDes.des_ctx) (key data : list Z) : runner_io -> option (runner_io * Z * list Z) :=
  wrap_main (LibgDes.main ctx) [key; data].

(** [stdin_bytes] of [appliedCryp/des_wrapper.c]: the key and the data twice.  The memory
    is the two buffers and then the array, with what was on the stack. *)
Definition des_stdin_bytes (stack key data : list Z) : option (list Z) :=
  let stdin_bytes := zlen key + zlen data in
  let mem := key ++ data ++ stack in
  mem ← runner_copy_bytes mem stdin_bytes 0 (zlen key);
  mem ← runner_copy_bytes mem (stdin_bytes + zlen key) (zlen key) (zlen data);
  mem ← runner_copy_bytes mem (stdin_bytes + zlen key + zlen data) (zlen key) (zlen data);
  slice mem stdin_bytes (zlen key + zlen data + zlen data).
Definition des_driver (stack key data : list Z) (io : runner_io) : option (runner_io * Z * list Z) :=
  buf ← des_stdin_bytes stack key data; wrap_main Des.main [buf] io.

Lemma des_stdin_bytes_spec stack key data : zlen stack = zlen key + zlen data + zlen data ->
  des_stdin_bytes stack key data = Some (key ++ data ++ data).
Proof.
  intros Hz. unfold des_stdin_bytes. cbv zeta. rewrite app_assoc. pose proof (zlen_nonneg key). pose proof (zlen_nonneg data).
  rewrite <-(zlen_app key data), copy_behind by (lia || by apply (slice_app [])). rewrite bind_Some.
  rewrite (app_assoc (key ++ data)), <-(zlen_app (key ++ data) key).
  rewrite copy_behind by (rewrite ?zlen_drop; unfold zlen in *; (lia || by rewrite <-!app_assoc; apply slice_app)). rewrite bind_Some.
  rewrite (app_assoc (_ ++ key)), <-(zlen_app (_ ++ key) data).
  rewrite copy_behind by (rewrite ?zlen_drop; unfold zlen in *; (lia || by rewrite <-!app_assoc; apply slice_app)). rewrite bind_Some.
  rewrite !drop_drop, drop_ge by (unfold zlen in *; lia). rewrite app_nil_r, <-!app_assoc, (app_assoc key data).
  rewrite <-(app_nil_r (key ++ data ++ data)) at 1. apply slice_app; [done|]. rewrite !zlen_app. lia.
Qed.

(** A buffer of the generated header. *)
Definition buffer (buf : list Z) : Prop := Forall (word 8) buf /\ word 64 (zlen buf).

Lemma buffer_check buf : words_b 8 buf && (zlen buf <? 2 ^ 64) = true -> buffer buf.
Proof.
  intros [Hb Hz]%andb_true_iff. split; [by apply words_b_Forall|]. apply Z.ltb_lt in Hz. by split; [apply zlen_nonneg|].
Qed.

(** 1 if the program asked for more than the buffers hold. *)
Definition short (n : Z) (buf : list Z) : Z := if zlen buf <? n then 1 else 0.

Section wrapped.
Context (bufs : list (list Z)) (io : runner_io).
Hypotheses (Hbufs : Forall buffer bufs) (Hlen : word 64 (zlen bufs)).

Definition reset_io : runner_io := runner_io_reset (runner_segments bufs) (zlen (runner_segments bufs)) io.

Lemma reset_buffers : io_ok reset_io /\ abstract reset_io = (concat bufs, 0).
Proof.
  split.
  - apply reset_ok; [|unfold zlen, runner_segments in *; by rewrite length_fmap]. unfold runner_segments. apply Forall_fmap.
    eapply Forall_impl; [exact Hbufs|]. intros buf [_ Hz]. by split.
  - unfold abstract, stream, runner_segments. simpl. rewrite !drop_0. repeat f_equal.
    generalize bufs. intros l. induction l as [|buf l IH]; [done|]. simpl. by rewrite IH.
Qed.

Lemma reset_pending : stdin_ok (Stdin := runner_stdin) reset_io /\ (pending (Stdin := runner_stdin) reset_io).1 = concat bufs /\
  Forall (word 8) (pending (Stdin := runner_stdin) reset_io).1.
Proof.
  destruct reset_buffers as [Hok Ea]. change (pending reset_io) with (abstract reset_io). rewrite Ea. split_and!; [exact Hok|done|].
  cbn [fst]. apply Forall_concat. eapply Forall_impl; [exact Hbufs|]. by intros buf [Hb _].
Qed.

Lemma wrap_main_leaves main n out : leaves n reset_io (main reset_io) out ->
  exists io', wrap_main main bufs io = Some (io', short n (concat bufs), out).
Proof.
  intros (io' & E & Hok & Ep). exists io'. unfold wrap_main. fold reset_io. rewrite E, bind_Some. cbv beta iota.
  destruct reset_buffers as [_ Ea]. do 2 f_equal. cbn [pending runner_stdin] in Ep. rewrite Ea in Ep.
  unfold abstract, consumed in Ep. simpl in Ep. injection Ep as _ ->. done.
Qed.
End wrapped.

(** ** The whole benchmark *)

(** What the build generates for a benchmark with one input buffer: functions on the
    contents of the buffer, [None] if they do not return. *)
Record header := mk_header {
  apply_preset : list Z -> option (list Z * Z);
  load_replay_inputs : Z -> list string -> list Z -> option (list Z * Z);
  apply_klee_assumptions : list Z -> option (list Z);
  make_klee_secret_inputs : list Z -> option (list Z);
  make_klee_public_inputs : list Z -> option (list Z);
  make_abacus_secret_inputs : list Z -> option (list Z) }.

(** The memory: the buffer, the variables of the standard input, what was written. *)
Record memory := mk_memory { data_buf : list Z; io : runner_io; written : list Z }.

Definition on_buffer (f : list Z -> option (list Z)) (s : memory) : option memory :=
  b ← f (data_buf s); Some (mk_memory b (io s) (written s)).
Definition on_buffer_status (f : list Z -> option (list Z * Z)) (s : memory) : option (memory * Z) :=
  '(b, ok) ← f (data_buf s); Some (mk_memory b (io s) (written s), ok).

(** A wrapper compiled against a header. *)
Definition benchmark (h : header) (driver : list Z -> runner_io -> option (runner_io * Z * list Z)) : Generated memory := {|
  runner_apply_preset := on_buffer_status (apply_preset h);
  runner_load_replay_inputs argc argv := on_buffer_status (load_replay_inputs h argc argv);
  runner_apply_klee_assumptions := on_buffer (apply_klee_assumptions h);
  runner_make_klee_secret_inputs := on_buffer (make_klee_secret_inputs h);
  runner_make_klee_public_inputs := on_buffer (make_klee_public_inputs h);
  runner_make_abacus_secret_inputs := on_buffer (make_abacus_secret_inputs h);
  driver_main s :=
    '(io', status, out) ← driver (data_buf s) (io s);
    Some (mk_memory (data_buf s) io' (written s ++ out), status) |}.

(** A replay: the inputs are loaded, then the driver runs. *)
Lemma replay_run h driver c argc argv s buf io' status out :
  runner_mode c = REPLAY -> CONCRETE_PUBS c = false -> 0 < RUNNER_EXPECTED_REPLAY_ARGC c ->
  argc = RUNNER_EXPECTED_REPLAY_ARGC c -> load_replay_inputs h argc argv (data_buf s) = Some (buf, 1) ->
  driver buf (io s) = Some (io', status, out) ->
  Runner.main (H := benchmark h driver) c argc argv (s, []) =
    ((mk_memory buf io' (written s ++ out), [LoadReplayInputs; DriverMain]), inr (Returned status)).
Proof.
  intros Em Ec Hx -> El Ed. unfold Runner.main, bind, c_assert, invoke, ret, stop. rewrite Em, Ec.
  destruct (Z.ltb_spec 0 (RUNNER_EXPECTED_REPLAY_ARGC c)); [|lia]. rewrite Z.eqb_refl. simpl.
  unfold on_buffer_status. rewrite El. simpl. by rewrite Ed.
Qed.

(** C11. The benchmarks whose wrapper feeds the program from the buffers of the
    generated header, on any buffers of bytes, the variables of the standard input being
    in any state: every access is in bounds; [driver_main] returns 0 if the buffers have
    the bytes the program asks for, and 1 if they are shorter, missing bytes being zero;
    what is written is the largest of the 1000 little-endian 16-bit numbers (findmax),
    the product of the two byte matrices read alternately (matmul), the ARC4 key stream
    under the first 32 bytes (arc4), the encryption of the block behind the key (3way,
    loki91, both des; that of appliedCryp from a copy of its buffers on the stack, that of
    libg with 56 zeros behind it).  The driver of the TLS padding removal returns 0, and its call accepts the record
    if a block and the padding fit into it and the padding bytes are the last byte.  A
    replay of findmax on a vector the header loads exits with that status after writing
    that maximum. *)
Theorem wrapped_benchmarks buf key io : buffer buf -> buffer key ->
  (exists io' m, FindMax.is_max m (short_at buf) 1000 /\
    findmax_driver buf io = Some (io', short 2000 buf, int_bytes m) /\
    forall h c argc argv old, runner_mode c = REPLAY -> CONCRETE_PUBS c = false ->
      0 < RUNNER_EXPECTED_REPLAY_ARGC c -> argc = RUNNER_EXPECTED_REPLAY_ARGC c ->
      load_replay_inputs h argc argv old = Some (buf, 1) ->
      Runner.main (H := benchmark h findmax_driver) c argc argv (mk_memory old io [], []) =
        ((mk_memory buf io' (int_bytes m), [LoadReplayInputs; DriverMain]), inr (Returned (short 2000 buf)))) /\
  (exists io', matmul_driver buf io = Some (io', short 32768 buf,
    MatMul.matrix (MatMul.dot (operand buf 0) (operand buf 1) 128) ≫= int_bytes)) /\
  (exists io' out, arc4_driver buf io = Some (io', short 32 buf, out) /\
    stream_main (H := ARC4.cipher) arc4_state 32 32 buf = Some out) /\
  (exists io', three_way_driver key buf io = Some (io', short 24 (key ++ buf),
    block_bytes (encrypt int32_t (twy_key int32_t (block_at (key ++ buf) 0)) (block_at (key ++ buf) 12)))) /\
  (forall le, exists io', loki91_driver le key buf io = Some (io', short 32 (key ++ buf),
    enloki le (setlokikey le (tab 24 (get (key ++ buf)))) (tab 8 (fun i => get (key ++ buf) (24 + i))))) /\
  (forall ctx, zlen (encrypt_subkeys ctx) = 32 -> exists io', libg_des_driver ctx key buf io = Some (io', short 88 (key ++ buf),
    bytes64 (des_encrypt (block64 (key ++ buf)) (block64 (drop 24 (key ++ buf)))) ++ replicate 56 0)) /\
  (forall b, let data := CbcDriver.data_buf b in Forall (word 8) data -> 1 <= zlen data < 2 ^ 31 ->
    Forall (fun buf => zlen buf = 4) [options_buf b; s3_flags_buf b; flags_buf b; slicing_cheat_buf b; mac_size_buf b] ->
    let p := get data (zlen data - 1) in let n := compared (word_at (options_buf b) 0) (word_at (s3_flags_buf b) 0) p in
    exists s3, rempad_call b = Some (if (n + 16 <=? zlen data) && tail_is (record_of data) p n
      then (1, rec_skip 16 (rec_shrink n (record_of data)), s3) else (-1, record_of data, s3)) /\ rempad_driver b = Some 0) /\
  (forall stack, let stdin_bytes := key ++ buf ++ buf in zlen stack = zlen stdin_bytes -> word 64 (zlen stdin_bytes) ->
    exists io', des_driver stack key buf io = Some (io', short 40 stdin_bytes,
      bytes64 (des_encrypt (block64 stdin_bytes) (block64 (drop 32 stdin_bytes))))).
Proof.
  intros Hb Hk. assert (Forall buffer [buf]) as H1 by by apply Forall_singleton.
  assert (Forall buffer [key; buf]) as H2 by by rewrite !Forall_cons, Forall_nil.
  destruct (reset_pending [buf] io H1 ltac:(done)) as (Hok & Hp & Hr), (reset_pending [key; buf] io H2 ltac:(done)) as (Hok2 & Hp2 & Hr2).
  cbn [concat] in Hp, Hp2. rewrite app_nil_r in Hp, Hp2. rewrite Hp in Hr.
  pose proof (wrap_main_leaves [buf] io H1 ltac:(done)) as Hw.
  pose proof (wrap_main_leaves [key; buf] io H2 ltac:(done)) as Hw2.
  cbn [concat] in Hw, Hw2. rewrite app_nil_r in Hw, Hw2. split_and!.
  - destruct (findmax_main (Stdin0 := runner_stdin) (reset_io [buf] io) Hok) as (m & Hm & Hl); [by rewrite Hp|]. rewrite Hp in Hm.
    destruct (Hw FindMax.main 2000 _ Hl) as (io' & E). exists io', m. split_and!; [exact Hm|exact E|].
    intros h c argc argv old Em Ec Hx Hargc El.
    exact (replay_run h findmax_driver c argc argv (mk_memory old io []) buf io' _ _ Em Ec Hx Hargc El E).
  - pose proof (matmul_main (Stdin0 := runner_stdin) (reset_io [buf] io) Hok) as Hl. rewrite Hp in Hl.
    exact (Hw MatMul.main 32768 _ (Hl Hr)).
  - destruct (arc4_main_spec (Stdin0 := runner_stdin) (reset_io [buf] io) Hok) as (out & Eo & Hl). rewrite Hp in Eo.
    destruct (Hw arc4_main 32 _ Hl) as (io' & E). exists io', out. exact (conj E Eo).
  - pose proof (three_way_main (Stdin0 := runner_stdin) (reset_io [key; buf] io) Hok2) as Hl. rewrite Hp2 in Hl.
    exact (Hw2 ThreeWay.main 24 _ Hl).
  - intros le. pose proof (loki91_main (Stdin0 := runner_stdin) le (reset_io [key; buf] io) Hok2) as Hl. rewrite Hp2 in Hl.
    exact (Hw2 (Loki91.main le) 32 _ Hl).
  - intros ctx Hz. pose proof (libg_main (Stdin0 := runner_stdin) ctx (reset_io [key; buf] io) Hz Hok2 Hr2) as Hl. rewrite Hp2 in Hl.
    exact (Hw2 (LibgDes.main ctx) 88 _ Hl).
  - intros b data Hd Hz Hbufs. exact (rempad_decision b Hd Hz Hbufs).
  - intros stack bs Hz Hw64. assert (Forall buffer [bs]) as Hbs.
    { apply Forall_singleton. split; [|done]. destruct Hb, Hk. unfold bs; rewrite !Forall_app; tauto. }
    destruct (reset_pending [bs] io Hbs ltac:(done)) as (Hok3 & Hp3 & Hr3). cbn [concat] in Hp3. rewrite app_nil_r in Hp3.
    pose proof (des_main (Stdin0 := runner_stdin) (reset_io [bs] io) Hok3 Hr3) as Hl. rewrite Hp3 in Hl.
    unfold des_driver. rewrite des_stdin_bytes_spec, bind_Some by (rewrite Hz; unfold bs; rewrite !zlen_app; lia).
    pose proof (wrap_main_leaves [bs] io Hbs ltac:(done) Des.main 40 _ Hl) as He. cbn [concat] in He. by rewrite app_nil_r in He.
Qed.

(** A header that loads its buffer from the file of its first argument. *)
Definition file_header (fs : filesystem) : header := {|
  apply_preset b := Some (b, 1);
  load_replay_inputs argc argv b :=
    name ← argv !! 1%nat; '(b, _, ok) ← load_bytes fs name b (zlen b); Some (b, ok);
  apply_klee_assumptions := Some; make_klee_secret_inputs := Some;
  make_klee_public_inputs := Some; make_abacus_secret_inputs := Some |}.

Lemma wrapped_benchmarks_witness :
  let vector := [7; 0; 44; 1] in
  exists io' m, FindMax.is_max m (short_at vector) 1000 /\
    Runner.main (H := benchmark (file_header (fun _ => Some vector)) findmax_driver)
      (mk_config REPLAY false false 2 2) 2 ["findmax"%string; "vector.bin"%string]
      (mk_memory [0; 0; 0; 0] runner_io_initial [], []) =
    ((mk_memory vector io' (int_bytes m), [LoadReplayInputs; DriverMain]), inr (Returned 1)).
Proof.
  intros vector.
  destruct (wrapped_benchmarks vector [] runner_io_initial (buffer_check vector eq_refl) (buffer_check [] eq_refl)) as [(io' & m & Hm & _ & Hrun) _].
  exists io', m. split; [exact Hm|].
  apply (Hrun (file_header (fun _ => Some vector)) (mk_config REPLAY false false 2 2)); reflexivity || lia.
Defined.

(** ** The other programs *)

(** C12. On any standard input that delivers [rest] and then zeros, each program makes
    in-bounds accesses only, asks for exactly its bytes and writes: [histogram.c] the
    number of inputs in each of its 1000 buckets; [rsort.c] the 64 numbers read, sorted;
    [binsearch.c] an index where the searched number is, or -1, and then the number is
    nowhere if the array is sorted; [dijkstra.c] the length of some walk from node 0 to
    node 31, no longer than the direct edge - but not the shortest, as the graph
    [detour] shows. *)
Theorem ghostrider_programs {T} `{!Stdin T} (s : T) (rest : list Z) :
  stdin_ok s -> (pending s).1 = rest -> Forall (word 8) rest ->
  leaves 2000 s (Histogram.main s) (tab 1000 (Histogram.hits (short_at rest) 1000) ≫= int_bytes) /\
  leaves 128 s (RadixSort.main s) (merge_sort Z.le (tab 64 (short_at rest)) ≫= int_bytes) /\
  (exists res, BinSearch.search_result (fun i => short_at rest (i + 1)) 0 9999 (short_at rest 0 mod 10000) res /\
    leaves 20002 s (BinSearch.main s) (int_bytes res)) /\
  (exists d, walk (weight rest) 0 31 d /\ 0 <= d <= weight rest 0 31 /\ leaves 2049 s (Dijkstra.main s) (int_bytes d)) /\
  (dijkstra 0 32 0 31 (matrix 32 detour) = Some 1000 /\ walk detour 0 31 11).
Proof.
  intros Hs <- Hr. split_and!.
  - by apply histogram_main.
  - by apply rsort_main.
  - destruct (binsearch_main s Hs Hr) as (res & Hres & Hl). exists res. split; [|exact Hl].
    unfold short_at at 1. assert (forall i, 2 * (i + 1) = 2 + 2 * i) as E by lia.
    destruct Hres as [[Hi Ei]|[-> Hno]]; [left; split; [exact Hi|by rewrite E]|right; split; [done|]].
    intros Hsd i Hi. rewrite E. apply Hno; [|exact Hi]. intros i1 j1 H1 H2. rewrite <-!E. by apply Hsd.
  - by apply dijkstra_main.
  - apply (proj1 dijkstra_detour).
  - apply (proj2 dijkstra_detour).
Qed.

Lemma ghostrider_programs_witness : let s := reset_io [[0; 44; 1]] runner_io_initial in
  exists d, walk (weight [0; 44; 1]) 0 31 d /\ leaves 2049 s (Dijkstra.main s) (int_bytes d).
Proof.
  intros s. assert (Forall buffer [[0; 44; 1]]) as Hb by by apply Forall_singleton, buffer_check.
  destruct (reset_pending [[0; 44; 1]] runner_io_initial Hb ltac:(done)) as (Hok & Hp & Hr).
  destruct (ghostrider_programs (Stdin0 := runner_stdin) s _ Hok Hp) as (_ & _ & _ & (d & Hd & _ & Hl) & _); [by rewrite <-Hp|].
  exists d. split; [exact Hd|exact Hl].
Defined.
