(* ===== verification/Arc2.v ===== *)
(** * ARC2 (RC2): [benchmarks/pycrypto/src/ARC2.c].

    A [U16] is a 16-bit word; the expressions are computed in [int], where [~]
    of a promoted word is [Z.lnot], and truncated when they are stored.  The key
    setup views [xkey] as 128 bytes (little-endian host); accesses beyond them
    and [assert(0)] are [None]. *)
From S2P Require Import Prelude Arrays Bytes BlockCipher.
Local Open Scope Z_scope.
Local Open Scope word_scope.

Record block_state := mk_arc2 { xkey : list Z; effective_keylen : Z }.

(** The working words, in the order [x76, x54, x32, x10]. *)
Definition words4 : Type := (Z * Z * Z * Z)%type.

Definition load16 (inp : list Z) (i : Z) : Z := u16 ((get inp (i + 1) ≪ 8) + get inp i).
Definition store16 (x : Z) : list Z := [u8 x; u8 (x ≫ 8)].

Definition load_block (inp : list Z) : words4 :=
  (load16 inp 6, load16 inp 4, load16 inp 2, load16 inp 0).
Definition store_block (x : words4) : list Z :=
  let '(x76, x54, x32, x10) := x in store16 x10 ++ store16 x32 ++ store16 x54 ++ store16 x76.

(** [x = (x << n) + (x >> (16 - n) & (2^n - 1))] and its inverse. *)
Definition rotate (x n : Z) : Z := u16 ((x ≪ n) + ((x ≫ (16 - n)) .& (2 ^ n - 1))).
Definition unrotate (x n : Z) : Z := let x := x .& 65535 in u16 ((x ≪ (16 - n)) + (x ≫ n)).

Definition mix (K : list Z) (i : Z) (x : words4) : words4 :=
  let '(x76, x54, x32, x10) := x in
  let x10 := u16 (x10 + ((x32 .& Z.lnot x76) + (x54 .& x76) + get K (4 * i + 0))) in
  let x10 := rotate x10 1 in
  let x32 := u16 (x32 + ((x54 .& Z.lnot x10) + (x76 .& x10) + get K (4 * i + 1))) in
  let x32 := rotate x32 2 in
  let x54 := u16 (x54 + ((x76 .& Z.lnot x32) + (x10 .& x32) + get K (4 * i + 2))) in
  let x54 := rotate x54 3 in
  let x76 := u16 (x76 + ((x10 .& Z.lnot x54) + (x32 .& x54) + get K (4 * i + 3))) in
  let x76 := rotate x76 5 in
  (x76, x54, x32, x10).

Definition mash (K : list Z) (x : words4) : words4 :=
  let '(x76, x54, x32, x10) := x in
  let x10 := u16 (x10 + get K (x76 .& 63)) in
  let x32 := u16 (x32 + get K (x10 .& 63)) in
  let x54 := u16 (x54 + get K (x32 .& 63)) in
  let x76 := u16 (x76 + get K (x54 .& 63)) in
  (x76, x54, x32, x10).

Definition unmix (K : list Z) (i : Z) (x : words4) : words4 :=
  let '(x76, x54, x32, x10) := x in
  let x76 := unrotate x76 5 in
  let x76 := u16 (x76 - ((x10 .& Z.lnot x54) + (x32 .& x54) + get K (4 * i + 3))) in
  let x54 := unrotate x54 3 in
  let x54 := u16 (x54 - ((x76 .& Z.lnot x32) + (x10 .& x32) + get K (4 * i + 2))) in
  let x32 := unrotate x32 2 in
  let x32 := u16 (x32 - ((x54 .& Z.lnot x10) + (x76 .& x10) + get K (4 * i + 1))) in
  let x10 := unrotate x10 1 in
  let x10 := u16 (x10 - ((x32 .& Z.lnot x76) + (x54 .& x76) + get K (4 * i + 0))) in
  (x76, x54, x32, x10).

Definition unmash (K : list Z) (x : words4) : words4 :=
  let '(x76, x54, x32, x10) := x in
  let x76 := u16 (x76 - get K (x54 .& 63)) in
  let x54 := u16 (x54 - get K (x32 .& 63)) in
  let x32 := u16 (x32 - get K (x10 .& 63)) in
  let x10 := u16 (x10 - get K (x76 .& 63)) in
  (x76, x54, x32, x10).

(** The bodies of the two loops. *)
Definition encrypt_step (K : list Z) (i : Z) (x : words4) : words4 :=
  let x := mix K i x in if (i =? 4) || (i =? 10) then mash K x else x.
Definition decrypt_step (K : list Z) (i : Z) (x : words4) : words4 :=
  let x := unmix K i x in if (i =? 5) || (i =? 11) then unmash K x else x.

Definition block_encrypt (self : block_state) (inp : list Z) : list Z :=
  store_block (rounds (encrypt_step (xkey self)) (seqZ 0 16) (load_block inp)).
Definition block_decrypt (self : block_state) (inp : list Z) : list Z :=
  store_block (rounds (decrypt_step (xkey self)) (rev (seqZ 0 16)) (load_block inp)).

(** ** Key setup *)
Definition permute : list Z := [
  217; 120; 249; 196; 25; 221; 181; 237; 40; 233; 253; 121; 74; 160; 216; 157;
  198; 126; 55; 131; 43; 118; 83; 142; 98; 76; 100; 136; 68; 139; 251; 162;
  23; 154; 89; 245; 135; 179; 79; 19; 97; 69; 109; 141; 9; 129; 125; 50;
  189; 143; 64; 235; 134; 183; 123; 11; 240; 149; 33; 34; 92; 107; 78; 130;
  84; 214; 101; 147; 206; 96; 178; 28; 115; 86; 192; 20; 167; 140; 241; 220;
  18; 117; 202; 31; 59; 190; 228; 209; 66; 61; 212; 48; 163; 60; 182; 38;
  111; 191; 14; 218; 70; 105; 7; 87; 39; 242; 29; 155; 188; 148; 67; 3;
  248; 17; 199; 246; 144; 239; 62; 231; 6; 195; 213; 47; 200; 102; 30; 215;
  8; 232; 234; 222; 128; 82; 238; 247; 132; 170; 114; 172; 53; 77; 106; 42;
  150; 26; 210; 113; 90; 21; 73; 116; 75; 159; 208; 94; 4; 24; 164; 236;
  194; 224; 65; 110; 15; 81; 203; 204; 36; 145; 175; 80; 161; 244; 112; 57;
  153; 124; 58; 133; 35; 184; 180; 122; 252; 2; 54; 91; 37; 85; 151; 49;
  45; 93; 250; 152; 227; 138; 146; 174; 5; 223; 41; 16; 103; 108; 186; 201;
  211; 0; 230; 207; 225; 158; 168; 44; 99; 22; 1; 63; 88; 226; 137; 169;
  13; 56; 52; 27; 171; 51; 255; 176; 187; 72; 12; 95; 185; 177; 205; 46;
  197; 243; 219; 71; 229; 165; 156; 119; 10; 166; 32; 104; 254; 127; 193; 173 ].

(** Phase 1: [do { ... } while (keylength < 128)], for [keylength < 128]. *)
Definition expand_key (keylength : Z) (b : list Z) : option (list Z) :=
  x ← rd b (keylength - 1);
  '(b, _) ← for_range 0 (128 - keylength) (fun i '(b, x) =>
    bi ← rd b i;
    let x := get permute ((x + bi) .& 255) in
    b ← wr b (keylength + i) x;
    Some (b, x)) (b, x);
  Some b.

(** Phase 2: reduction to the effective key size; [i] counts down.  [None] also when
    [effective_keylen + 7] overflows. *)
Definition reduce_key (ekl : Z) (b : list Z) : option (list Z) :=
  if 2 ^ 31 <=? ekl + 7 then None else
  let keylength := (ekl + 7) ≫ 3 in
  let i := u16 (128 - keylength) in
  let tm := 255 ≫ (7 .& (if negb (Z.rem ekl 8 =? 0) then 8 - Z.rem ekl 8 else 0)) in
  bi ← rd b i;
  let x := get permute (bi .& tm) in
  b ← wr b i x;
  '(b, _) ← for_range 0 i (fun j '(b, x) =>
    let i := i - 1 - j in
    bk ← rd b (i + keylength);
    let x := get permute (x .^ bk) in
    b ← wr b i x;
    Some (b, x)) (b, x);
  Some b.

(** Phase 3 and its inverse, the byte view of [xkey]. *)
Definition words_of_bytes (b : list Z) : list Z :=
  tab 64 (fun i => u16 (get b (2 * i) + (get b (2 * i + 1) ≪ 8))).
Definition bytes_of_words (w : list Z) : list Z := concat (store16 <$> w).

Definition block_init (self : block_state) (key : list Z) (keylength : Z) : option block_state :=
  if 128 <? u32 keylength then None else
  k ← slice key 0 keylength;
  b ← blit (bytes_of_words (xkey self)) 0 k;
  b ← (if keylength <? 128 then expand_key keylength b else Some b);
  b ← reduce_key (effective_keylen self) b;
  Some (mk_arc2 (words_of_bytes b) (effective_keylen self)).

Definition state_with (ekl : Z) : block_state := mk_arc2 (replicate 64 0) ekl.

(** The vectors of RFC 2268. *)
Example arc2_rfc2268 :
  let enc ekl key n p := s ← block_init (state_with ekl) key n; Some (block_encrypt s p) in
  enc 63 (replicate 8 0) 8 (replicate 8 0)
    = Some [0xeb; 0xb7; 0x73; 0xf9; 0x93; 0x27; 0x8e; 0xff] /\
  enc 64 [0x30; 0; 0; 0; 0; 0; 0; 0] 8 [0x10; 0; 0; 0; 0; 0; 0; 1]
    = Some [0x30; 0x64; 0x9e; 0xdf; 0x9b; 0xe7; 0xd2; 0xc2].
Proof. vm_compute. split; reflexivity. Qed.

(** ** Blocks *)
Section blocks.
Context (K : list Z).
Implicit Types (x a b : Z) (s : words4).

Definition words_ok s : Prop :=
  let '(x76, x54, x32, x10) := s in word 16 x76 /\ word 16 x54 /\ word 16 x32 /\ word 16 x10.

Lemma u16_word x : word 16 (u16 x).
Proof. apply wrap_range. lia. Qed.

Lemma pair_bound A B r q : 0 <= r < A -> 0 <= q < B -> 0 <= r * B + q < A * B.
Proof. intros. assert (r * B <= (A - 1) * B) by (apply Z.mul_le_mono_nonneg_r; lia). nia. Qed.

Lemma rotate_div x n : 0 <= n <= 16 -> word 16 x ->
  rotate x n = (x mod 2 ^ (16 - n)) * 2 ^ n + x / 2 ^ (16 - n).
Proof.
  intros Hn Hx. unfold rotate. rewrite land_mask, Z.shiftl_mul_pow2, Z.shiftr_div_pow2 by lia.
  assert (2 ^ 16 = 2 ^ (16 - n) * 2 ^ n) as E by (rewrite <-Z.pow_add_r by lia; f_equal; lia).
  assert (0 < 2 ^ (16 - n)) by (apply Z.pow_pos_nonneg; lia).
  assert (0 < 2 ^ n) by (apply Z.pow_pos_nonneg; lia). unfold word in Hx.
  assert (0 <= x / 2 ^ (16 - n) < 2 ^ n) as Hq.
  { split; [apply Z.div_pos; lia|]. apply Z.div_lt_upper_bound; lia. }
  rewrite (wrap_small n) by done. pose proof (Z.mod_pos_bound x (2 ^ (16 - n)) ltac:(lia)) as Hm.
  rewrite (Z.div_mod x (2 ^ (16 - n))) at 1 by lia. unfold wrap.
  replace ((2 ^ (16 - n) * (x / 2 ^ (16 - n)) + x mod 2 ^ (16 - n)) * 2 ^ n + x / 2 ^ (16 - n))
    with (x mod 2 ^ (16 - n) * 2 ^ n + x / 2 ^ (16 - n) + x / 2 ^ (16 - n) * 2 ^ 16) by (rewrite E; ring).
  rewrite Z_mod_plus_full. apply Z.mod_small. rewrite E. by apply pair_bound.
Qed.

Lemma unrotate_rotate x n : 0 <= n <= 16 -> word 16 x -> unrotate (rotate x n) n = x.
Proof.
  intros Hn Hx. rewrite rotate_div by done. unfold unrotate.
  assert (2 ^ 16 = 2 ^ (16 - n) * 2 ^ n) as E by (rewrite <-Z.pow_add_r by lia; f_equal; lia).
  assert (0 < 2 ^ (16 - n)) by (apply Z.pow_pos_nonneg; lia).
  assert (0 < 2 ^ n) by (apply Z.pow_pos_nonneg; lia). unfold word in Hx.
  pose proof (Z.mod_pos_bound x (2 ^ (16 - n)) ltac:(lia)) as Hm.
  assert (0 <= x / 2 ^ (16 - n) < 2 ^ n) as Hq.
  { split; [apply Z.div_pos; lia|]. apply Z.div_lt_upper_bound; lia. }
  set (q := x / 2 ^ (16 - n)) in *. set (r := x mod 2 ^ (16 - n)) in *.
  change 65535 with (2 ^ 16 - 1). rewrite land_mask by lia.
  rewrite (wrap_small 16 (r * 2 ^ n + q)) by (unfold word; rewrite E; by apply pair_bound).
  rewrite Z.shiftl_mul_pow2, Z.shiftr_div_pow2, Z.div_add_l, (Z.div_small q) by lia.
  rewrite Z.add_0_r. unfold wrap.
  replace ((r * 2 ^ n + q) * 2 ^ (16 - n) + r)
    with (q * 2 ^ (16 - n) + r + r * 2 ^ 16) by (rewrite E; ring).
  rewrite Z_mod_plus_full. rewrite (Z.mul_comm q). unfold q, r. rewrite <-Z.div_mod by lia.
  by apply Z.mod_small.
Qed.

Lemma add_sub_word x e : word 16 x -> u16 (u16 (x + e) - e) = x.
Proof. apply wrap_add_sub. Qed.

Lemma mix_ok i s : words_ok (mix K i s).
Proof. destruct s as [[[x76 x54] x32] x10]. split_and!; apply u16_word. Qed.
Lemma mash_ok s : words_ok (mash K s).
Proof. destruct s as [[[x76 x54] x32] x10]. split_and!; apply u16_word. Qed.

Lemma unmix_mix i s : words_ok s -> unmix K i (mix K i s) = s.
Proof.
  destruct s as [[[x76 x54] x32] x10]. intros (H76 & H54 & H32 & H10). cbv delta [unmix mix].
  cbv beta iota zeta. rewrite !unrotate_rotate by (done || lia || apply u16_word).
  by rewrite !add_sub_word by done.
Qed.
Lemma unmash_mash s : words_ok s -> unmash K (mash K s) = s.
Proof.
  destruct s as [[[x76 x54] x32] x10]. intros (H76 & H54 & H32 & H10). cbv delta [unmash mash].
  cbv beta iota zeta. by rewrite !add_sub_word by done.
Qed.

(** The loops as straight sequences of the four steps. *)
Inductive op := Mix (i : Z) | Mash.
Definition do_op (o : op) (s : words4) : words4 :=
  match o with Mix i => mix K i s | Mash => mash K s end.
Definition undo_op (o : op) (s : words4) : words4 :=
  match o with Mix i => unmix K i s | Mash => unmash K s end.
Definition schedule : list op :=
  (Mix <$> [0; 1; 2; 3; 4]) ++ [Mash] ++ (Mix <$> [5; 6; 7; 8; 9; 10]) ++ [Mash] ++
  (Mix <$> [11; 12; 13; 14; 15]).

Lemma encrypt_schedule s : rounds (encrypt_step K) (seqZ 0 16) s = rounds do_op schedule s.
Proof. reflexivity. Qed.
Lemma decrypt_schedule s : rounds (decrypt_step K) (rev (seqZ 0 16)) s = rounds undo_op (rev schedule) s.
Proof. reflexivity. Qed.

Lemma decrypt_encrypt_words s : words_ok s ->
  rounds (decrypt_step K) (rev (seqZ 0 16)) (rounds (encrypt_step K) (seqZ 0 16) s) = s /\
  words_ok (rounds (encrypt_step K) (seqZ 0 16) s).
Proof.
  intros Hs. rewrite encrypt_schedule, decrypt_schedule. split.
  - apply (rounds_inverse do_op undo_op (fun _ => True) words_ok); [| |apply Forall_trivial|done].
    + intros [i|] t _ _; [apply mix_ok|apply mash_ok].
    + intros [i|] t _ Ht; [by apply unmix_mix|by apply unmash_mash].
  - apply (rounds_ok do_op (fun _ => True) words_ok); [|apply Forall_trivial|done].
    intros [i|] t _ _; [apply mix_ok|apply mash_ok].
Qed.

Lemma load_store s : words_ok s -> load_block (store_block s) = s /\ bytes 8 (store_block s).
Proof.
  destruct s as [[[x76 x54] x32] x10]. intros (H76 & H54 & H32 & H10). split.
  - unfold load_block, store_block.
    assert (forall x, word 16 x -> u16 ((u8 (x ≫ 8) ≪ 8) + u8 x) = x) as E.
    { intros x Hx. rewrite Z.shiftl_mul_pow2, Z.shiftr_div_pow2 by lia.
      unfold word, wrap in *. Z.to_euclidean_division_equations; lia. }
    change (load16 (store16 x10 ++ store16 x32 ++ store16 x54 ++ store16 x76) 6) with (u16 ((u8 (x76 ≫ 8) ≪ 8) + u8 x76)).
    change (load16 (store16 x10 ++ store16 x32 ++ store16 x54 ++ store16 x76) 4) with (u16 ((u8 (x54 ≫ 8) ≪ 8) + u8 x54)).
    change (load16 (store16 x10 ++ store16 x32 ++ store16 x54 ++ store16 x76) 2) with (u16 ((u8 (x32 ≫ 8) ≪ 8) + u8 x32)).
    change (load16 (store16 x10 ++ store16 x32 ++ store16 x54 ++ store16 x76) 0) with (u16 ((u8 (x10 ≫ 8) ≪ 8) + u8 x10)).
    by rewrite !E.
  - split; [done|]. unfold store_block, store16. cbn [app].
    Forall_list (apply wrap_range; lia).
Qed.

Lemma store_load (b : list Z) : bytes 8 b -> store_block (load_block b) = b /\ words_ok (load_block b).
Proof.
  intros (b0 & b1 & b2 & b3 & b4 & b5 & b6 & b7 & -> & ? & ? & ? & ? & ? & ? & ? & ?)%bytes_8.
  assert (forall hi lo, word 8 hi -> word 8 lo ->
    store16 (u16 ((hi ≪ 8) + lo)) = [lo; hi]) as E.
  { intros hi lo Hh Hl. unfold store16. rewrite Z.shiftl_mul_pow2 by lia.
    rewrite (wrap_small 16) by (unfold word in *; lia). rewrite Z.shiftr_div_pow2 by lia.
    unfold word, wrap in *. f_equal; [|f_equal]; Z.to_euclidean_division_equations; lia. }
  split; [|split_and!; apply u16_word].
  change (load_block [b0; b1; b2; b3; b4; b5; b6; b7]) with
    (u16 ((b7 ≪ 8) + b6), u16 ((b5 ≪ 8) + b4), u16 ((b3 ≪ 8) + b2), u16 ((b1 ≪ 8) + b0)).
  unfold store_block. by rewrite !E.
Qed.
End blocks.

Lemma arc2_dec_enc self b : bytes 8 b -> block_decrypt self (block_encrypt self b) = b.
Proof.
  intros Hb. unfold block_decrypt, block_encrypt. destruct (store_load b Hb) as [Hsl Hw].
  destruct (decrypt_encrypt_words (xkey self) _ Hw) as [Hde Hew].
  destruct (load_store _ Hew) as [-> _]. by rewrite Hde.
Qed.
Lemma arc2_encrypt_bytes self b : bytes 8 b -> bytes 8 (block_encrypt self b).
Proof.
  intros Hb. unfold block_encrypt. destruct (store_load b Hb) as [Hsl Hw].
  destruct (decrypt_encrypt_words (xkey self) _ Hw) as [_ Hew]. apply (load_store _ Hew).
Qed.

#[export] Program Instance ARC2 : BlockCipher := {|
  bc_key := block_state; bc_key_ok := fun _ => True; bc_size := 8;
  bc_encrypt := block_encrypt; bc_decrypt := block_decrypt |}.
Next Obligation. intros. by apply arc2_encrypt_bytes. Qed.
Next Obligation. intros. by apply arc2_dec_enc. Qed.

(** ** Key setup *)
Section init.
Implicit Types (b key : list Z) (ekl n : Z).

Definition byte_list b : Prop := zlen b = 128 /\ Forall (word 8) b.

Lemma permute_byte i : word 8 (get permute i).
Proof. by apply words_b_get; [|vm_compute]. Qed.

Lemma byte_list_wr b i v : byte_list b -> 0 <= i < 128 -> word 8 v ->
  exists b', wr b i v = Some b' /\ byte_list b'.
Proof.
  intros [Hz Hw] Hi Hv. rewrite wr_Some by lia. eexists. split; [done|].
  split; [by rewrite zlen_insert|by apply Forall_insert].
Qed.
Lemma byte_list_rd b i : byte_list b -> 0 <= i < 128 -> exists v, rd b i = Some v.
Proof. intros [Hz _] Hi. apply rd_Some. lia. Qed.

Lemma expand_key_ok b n : byte_list b -> 1 <= n < 128 ->
  exists b', expand_key n b = Some b' /\ byte_list b'.
Proof.
  intros Hb Hn. unfold expand_key. destruct (byte_list_rd b (n - 1) Hb) as [x ->]; [lia|].
  cbn [mbind option_bind].
  for_loop (fun _ (st : list Z * Z) => byte_list st.1) as ([b' x'] & -> & Hb'); [lia|done| |by exists b'].
  intros i [b1 x1] Hi Hb1. cbn [fst] in *. destruct (byte_list_rd b1 i Hb1) as [bi ->]; [lia|].
  cbn [mbind option_bind].
  destruct (byte_list_wr b1 (n + i) (get permute ((x1 + bi) .& 255))) as (b2 & -> & Hb2);
    [done|lia|apply permute_byte|]. by eexists.
Qed.

(** The effective lengths the reduction accepts: 1 to 1024 bits, and those whose number
    of bytes is 128 modulo 2^16, since the index [128 - keylength] is a [U16]. *)
Definition effective_ok ekl : Prop := 1 <= ekl <= 1024 \/ 1017 <= ekl mod 2 ^ 19 <= 1024.

(** In terms of the number of bytes and the index. *)
Lemma effective_bytes ekl (n := (ekl + 7) / 8) : sword 32 ekl -> ekl + 7 < 2 ^ 31 ->
  (effective_ok ekl <-> 1 <= n <= 128 \/ u16 (128 - n) = 0) /\ - 2 ^ 28 <= n <= 2 ^ 28.
Proof.
  unfold sword, effective_ok, wrap. intros He Ho. subst n. change (2 ^ 19) with 524288. change (2 ^ 16) with 65536.
  split; Z.to_euclidean_division_equations; lia.
Qed.

Lemma effective_no_overflow ekl : sword 32 ekl -> effective_ok ekl -> ekl + 7 < 2 ^ 31.
Proof.
  unfold sword, effective_ok. change (2 ^ 19) with 524288. intros He Ho. Z.to_euclidean_division_equations; lia.
Qed.

Lemma reduce_key_ok ekl b : byte_list b -> sword 32 ekl -> effective_ok ekl ->
  exists b', reduce_key ekl b = Some b' /\ byte_list b'.
Proof.
  intros Hb He Hok. pose proof (effective_no_overflow ekl He Hok) as Ho.
  destruct (effective_bytes ekl He Ho) as [Hn _]. apply Hn in Hok. clear Hn.
  unfold reduce_key. destruct (Z.leb_spec (2 ^ 31) (ekl + 7)); [lia|].
  rewrite Z.shiftr_div_pow2 by lia. change (2 ^ 3) with 8.
  set (n := (ekl + 7) / 8) in *. clearbody n. set (i := u16 (128 - n)) in *.
  assert (0 <= i < 128 /\ (i = 0 \/ i + n = 128)) as [Hi Hin].
  { destruct Hok as [Hok| ->]; [|lia]. subst i. rewrite wrap_small by (unfold word; lia). lia. }
  clearbody i. destruct (byte_list_rd b i Hb) as [bi ->]; [lia|]. cbn [mbind option_bind].
  set (x := get permute _). assert (word 8 x) as Hx by apply permute_byte. clearbody x.
  destruct (byte_list_wr b i x) as (b1 & -> & Hb1); [done|lia|done|]. cbn [mbind option_bind].
  for_loop (fun _ (st : list Z * Z) => byte_list st.1) as ([b' x'] & -> & Hb'); [lia|done| |by exists b'].
  - intros j [b2 x2] Hj Hb2. cbn [fst] in *.
    destruct (byte_list_rd b2 (i - 1 - j + n) Hb2) as [bk ->]; [lia|]. cbn [mbind option_bind].
    destruct (byte_list_wr b2 (i - 1 - j) (get permute (x2 .^ bk))) as (b3 & -> & Hb3);
      [done|lia|apply permute_byte|]. by eexists.
Qed.

(** Any other effective length makes the second phase miss the array, in its first
    access or in the first round of its loop. *)
Lemma reduce_key_out ekl b : byte_list b -> sword 32 ekl -> ~ effective_ok ekl -> reduce_key ekl b = None.
Proof.
  intros [Hz Hw] He Hno. unfold reduce_key. destruct (Z.leb_spec (2 ^ 31) (ekl + 7)) as [|Ho]; [done|].
  destruct (effective_bytes ekl He Ho) as [Hn Hr]. rewrite Hn in Hno. clear Hn.
  rewrite Z.shiftr_div_pow2 by lia. change (2 ^ 3) with 8.
  set (n := (ekl + 7) / 8) in *. clearbody n. set (i := u16 (128 - n)) in *.
  destruct (rd b i) as [bi|] eqn:E; [|done]. apply rd_range in E. rewrite Hz in E. cbn [mbind option_bind].
  assert (i - 1 - 0 + n < 0 \/ 128 <= i - 1 - 0 + n) as Hout.
  { subst i. unfold wrap in *. change (2 ^ 16) with 65536 in *. Z.to_euclidean_division_equations; lia. }
  assert (0 < i) as Hi by lia. clearbody i. rewrite wr_Some by lia. cbn [mbind option_bind].
  rewrite for_range_first; [done|done|].
  destruct (rd _ (i - 1 - 0 + n)) as [v|] eqn:E'; [|done]. apply rd_range in E'. rewrite zlen_insert in E'. lia.
Qed.

Lemma bytes_of_words_ok w : length w = 64%nat -> byte_list (bytes_of_words w).
Proof.
  intros Hl. unfold bytes_of_words. split.
  - unfold zlen. cut (length (concat (store16 <$> w)) = 2 * length w)%nat; [lia|].
    clear Hl. induction w as [|x w IH]; [done|].
    rewrite fmap_cons. cbn [concat]. rewrite length_app, IH. cbn. lia.
  - apply Forall_concat, Forall_fmap, Forall_true. intros x. simpl. unfold store16.
    Forall_list (apply wrap_range; lia).
Qed.

Lemma block_init_domain self key n : length (xkey self) = 64%nat -> Forall (word 8) key ->
  n <= zlen key -> sword 32 n -> sword 32 (effective_keylen self) ->
  match block_init self key n with
  | Some self' => 1 <= n <= 128 /\ effective_ok (effective_keylen self) /\
      effective_keylen self' = effective_keylen self /\
      length (xkey self') = 64%nat /\ Forall (word 16) (xkey self')
  | None => ~ (1 <= n <= 128 /\ effective_ok (effective_keylen self))
  end.
Proof.
  intros Hl Hk Hn' Hn31 He. unfold block_init. unfold sword in Hn31.
  destruct (Z.ltb_spec 128 (u32 n)) as [|Hn128].
  { intros [? _]. rewrite wrap_small in * by (unfold word; lia). lia. }
  assert (0 <= n <= zlen key) as Hn by (unfold wrap in Hn128; Z.to_euclidean_division_equations; lia).
  rewrite wrap_small in Hn128 by (unfold word; lia).
  rewrite slice_0 by done. cbn [mbind option_bind].
  pose proof (bytes_of_words_ok _ Hl) as [Hz Hw].
  rewrite blit_0 by (rewrite zlen_take; lia). cbn [mbind option_bind].
  set (b0 := take _ key ++ _). assert (byte_list b0) as Hb0.
  { split; [|apply Forall_app; split; [by apply Forall_take|by apply Forall_drop]].
    unfold b0. rewrite zlen_app, zlen_take, zlen_drop. unfold zlen in *. rewrite length_take. lia. }
  clearbody b0.
  destruct (decide (n = 0)) as [->|].
  { unfold expand_key. cbn. intros [? _]; lia. }
  assert (exists b1, (if n <? 128 then expand_key n b0 else Some b0) = Some b1 /\ byte_list b1)
    as (b1 & -> & Hb1).
  { destruct (Z.ltb_spec n 128); [apply expand_key_ok; [done|lia]|by exists b0]. }
  cbn [mbind option_bind].
  assert (effective_ok (effective_keylen self) \/ ~ effective_ok (effective_keylen self)) as [Hok|Hno]
    by (unfold effective_ok; lia).
  - destruct (reduce_key_ok _ _ Hb1 He Hok) as (b2 & -> & Hb2). cbn [mbind option_bind].
    cbn [xkey effective_keylen]. split_and!; try (done || lia).
    apply Forall_fmap, Forall_true. intros i. apply u16_word.
  - rewrite reduce_key_out by done. cbn. by intros [_ ?].
Qed.
End init.

(** ** Properties *)

(** C35. Key setup, for every C [int] as key length (with as many key bytes) and as
    effective length, succeeds with every access within the 128 bytes of the key table
    exactly for keys of 1 to 128 bytes and effective lengths that are 1 to 1024 bits or
    are 1017 to 1024 modulo 2^19: for these the 16-bit index of the second phase wraps to
    0, so that it reduces nothing, although the length is out of range.  It then leaves 64
    16-bit subkeys, with which decryption undoes encryption on every block.  The driver's
    [main] zeroes the state, so the effective key length is 0 and the key setup it calls
    reads past the key table, whatever the key. *)
Theorem arc2_init_and_blocks self key n b :
  length (xkey self) = 64%nat -> Forall (word 8) key -> n <= zlen key -> sword 32 n ->
  sword 32 (effective_keylen self) -> bytes 8 b ->
  match block_init self key n with
  | Some self' => (1 <= n <= 128 /\ effective_ok (effective_keylen self)) /\
      length (xkey self') = 64%nat /\ Forall (word 16) (xkey self') /\
      bytes 8 (block_encrypt self' b) /\ block_decrypt self' (block_encrypt self' b) = b
  | None => ~ (1 <= n <= 128 /\ effective_ok (effective_keylen self))
  end /\
  (1 <= n <= 128 -> block_init (state_with 0) key n = None).
Proof.
  intros Hl Hk Hn Hn31 He Hb. split.
  - pose proof (block_init_domain self key n Hl Hk Hn Hn31 He) as H.
    destruct (block_init self key n) as [self'|]; [|done]. destruct H as (? & ? & ? & ? & ?).
    split_and!; try done; try lia; [by apply arc2_encrypt_bytes|by apply arc2_dec_enc].
  - intros Hn'. pose proof (block_init_domain (state_with 0) key n eq_refl Hk Hn Hn31 ltac:(simpl; unfold sword; lia)) as H.
    destruct (block_init _ _ _); [|done]. destruct H as (_ & H & _).
    change (effective_ok 0) in H. unfold effective_ok in H. rewrite Z.mod_0_l in H by done. lia.
Qed.

Lemma arc2_init_and_blocks_witness :
  match block_init (state_with 1024) (replicate 16 5) 16 with
  | Some self' => block_decrypt self' (block_encrypt self' (replicate 8 1)) = replicate 8 1
  | None => False
  end /\ block_init (state_with 0) (replicate 16 5) 16 = None /\
  block_init (state_with 525312) (replicate 16 5) 16 <> None.
Proof.
  pose proof (fun ekl He => arc2_init_and_blocks (state_with ekl) (replicate 16 5) 16 (replicate 8 1)
    eq_refl ltac:(apply Forall_replicate; unfold word; lia) ltac:(vm_compute; discriminate)
    ltac:(unfold sword; lia) He
    ltac:(split; [reflexivity|apply Forall_replicate; unfold word; lia])) as H.
  simpl effective_keylen in H.
  destruct (H 1024 ltac:(unfold sword; lia)) as [H1 Hmain], (H 525312 ltac:(unfold sword; lia)) as [H2 _].
  revert H1 H2. generalize (block_init (state_with 1024) (replicate 16 5) 16),
    (block_init (state_with 525312) (replicate 16 5) 16). intros [self'|] [self''|] H1 H2.
  - split; [apply H1|]. split; [apply Hmain; lia|discriminate].
  - exfalso. apply H2. split; [lia|right; split; vm_compute; discriminate].
  - exfalso. apply H1. split; [lia|left; simpl; lia].
  - exfalso. apply H1. split; [lia|left; simpl; lia].
Defined.
