(* ===== verification/PyCast.v ===== *)
(** * The second CAST5: [benchmarks/pycrypto/src/CAST.c].

    The same cipher as [Cast5], written from the RFC: the number of rounds
    depends on the key length, the round function takes its type as a number,
    and the key schedule is generated by macros. *)
From S2P Require Import Prelude Arrays Bytes BlockCipher Cast5Tables Cast5 PyCastTables.
Local Open Scope Z_scope.
Local Open Scope word_scope.

Record block_state := mk_cast { Km : list Z; Kr : list Z; nrounds : Z }.

Definition fetch (ptr : list Z) (base : Z) : Z := be32_at ptr base.

(** A shift by 32, which C leaves undefined, gives 0 here; the shift by 0 on the
    other side of the [|] then gives the word itself, as on hardware that takes
    the count modulo 32. *)
Definition castfunc (D Kmi Kri type : Z) : Z :=
  let I := if type =? 0 then u32 (Kmi + D) else if type =? 1 then Kmi .^ D else u32 (Kmi - D) in
  let I := I .& 0xFFFFFFFF in
  let I := u32 (I ≪ Kri) .| (I ≫ (32 - Kri)) in
  let Ia := (I ≫ 24) .& 0xFF in
  let Ib := (I ≫ 16) .& 0xFF in
  let Ic := (I ≫ 8) .& 0xFF in
  let Id := I .& 0xFF in
  if type =? 0 then u32 (u32 ((get S1 Ia .^ get S2 Ib) - get S3 Ic) + get S4 Id)
  else if type =? 1 then u32 (u32 (get S1 Ia - get S2 Ib) + get S3 Ic) .^ get S4 Id
  else u32 ((u32 (get S1 Ia + get S2 Ib) .^ get S3 Ic) - get S4 Id).

Definition store_word (R : Z) : list Z :=
  [(R .& 0xFF000000) ≫ 24; (R .& 0x00FF0000) ≫ 16; (R .& 0x0000FF00) ≫ 8; R .& 0x000000FF].

Definition castcrypt (key : block_state) (block : list Z) (decrypt : bool) : list Z :=
  let '(L, R) := loop 0 (nrounds key) (fun round '(L, R) =>
    let r := if negb decrypt then round else nrounds key - round - 1 in
    let f := castfunc R (get (Km key) r) (get (Kr key) r) (Z.rem r 3) in
    (R, L .^ f)) (fetch block 0, fetch block 4) in
  store_word R ++ store_word L.

(** ** Key schedule *)

Definition b (a : list Z) (n : Z) : Z := (get a (n / 4) ≫ (24 - (n .& 3) * 8)) .& 0xFF.

(** The macros, as the assignments they expand to; an argument that is an
    expression is a function of the two arrays. *)
Definition rhs : Type := list Z -> list Z -> Z.
Definition arr (T : target) (x z : list Z) : list Z :=
  match T with To_x => x | To_z => z | To_k => [] end.

Definition XZRound (T F : target) (ki1 ki2 ki3 ki4 : Z)
    (si11 si12 si13 si14 si15 si25 si35 si45 : rhs) : list assignment := [
  (T, 0, fun x z => get (arr F x z) ki1 .^ get S5 (si11 x z) .^ get S6 (si12 x z) .^ get S7 (si13 x z) .^ get S8 (si14 x z) .^ get S7 (si15 x z));
  (T, 1, fun x z => get (arr F x z) ki2 .^ get S5 (b (arr T x z) 0) .^ get S6 (b (arr T x z) 2) .^ get S7 (b (arr T x z) 1) .^ get S8 (b (arr T x z) 3) .^ get S8 (si25 x z));
  (T, 2, fun x z => get (arr F x z) ki3 .^ get S5 (b (arr T x z) 7) .^ get S6 (b (arr T x z) 6) .^ get S7 (b (arr T x z) 5) .^ get S8 (b (arr T x z) 4) .^ get S5 (si35 x z));
  (T, 3, fun x z => get (arr F x z) ki4 .^ get S5 (b (arr T x z) 10) .^ get S6 (b (arr T x z) 9) .^ get S7 (b (arr T x z) 11) .^ get S8 (b (arr T x z) 8) .^ get S6 (si45 x z)) ].

Definition zxround : list assignment :=
  XZRound To_z To_x 0 2 3 1
    (fun x z => b x 13) (fun x z => b x 15) (fun x z => b x 12) (fun x z => b x 14)
    (fun x z => b x 8) (fun x z => b x 10) (fun x z => b x 9) (fun x z => b x 11).
Definition xzround : list assignment :=
  XZRound To_x To_z 2 0 1 3
    (fun x z => b z 5) (fun x z => b z 7) (fun x z => b z 4) (fun x z => b z 6)
    (fun x z => b z 0) (fun x z => b z 2) (fun x z => b z 1) (fun x z => b z 3).

Definition Kround (base : Z) (F : target)
    (i11 i12 i13 i14 i15 i21 i22 i23 i24 i25 i31 i32 i33 i34 i35 i41 i42 i43 i44 i45 : Z)
    : list assignment := [
  (To_k, base + 0, fun x z => get S5 (b (arr F x z) i11) .^ get S6 (b (arr F x z) i12) .^ get S7 (b (arr F x z) i13) .^ get S8 (b (arr F x z) i14) .^ get S5 (b (arr F x z) i15));
  (To_k, base + 1, fun x z => get S5 (b (arr F x z) i21) .^ get S6 (b (arr F x z) i22) .^ get S7 (b (arr F x z) i23) .^ get S8 (b (arr F x z) i24) .^ get S6 (b (arr F x z) i25));
  (To_k, base + 2, fun x z => get S5 (b (arr F x z) i31) .^ get S6 (b (arr F x z) i32) .^ get S7 (b (arr F x z) i33) .^ get S8 (b (arr F x z) i34) .^ get S7 (b (arr F x z) i35));
  (To_k, base + 3, fun x z => get S5 (b (arr F x z) i41) .^ get S6 (b (arr F x z) i42) .^ get S7 (b (arr F x z) i43) .^ get S8 (b (arr F x z) i44) .^ get S8 (b (arr F x z) i45)) ].

Definition half_assignments : list assignment :=
  zxround ++
  Kround 0 To_z
    8 9 7 6 2
    10 11 5 4 6
    12 13 3 2 9
    14 15 1 0 12 ++
  xzround ++
  Kround 4 To_x
    3 2 12 13 8
    1 0 14 15 13
    7 6 8 9 3
    5 4 10 11 7 ++
  zxround ++
  Kround 8 To_z
    3 2 12 13 9
    1 0 14 15 12
    7 6 8 9 2
    5 4 10 11 6 ++
  xzround ++
  Kround 12 To_x
    8 9 7 6 3
    10 11 5 4 7
    12 13 3 2 8
    14 15 1 0 13.

(** What the uninitialised local arrays of the two functions hold. *)
Record locals := mk_locals {
  paddedkey0 : list Z; Kr_wide0 : list Z; z_first : list Z; z_second : list Z }.

(** Returns the updated [in] and [keys]; [z0] is what the local [z] holds. *)
Definition schedulekeys_half (z0 inw keys : list Z) : list Z * list Z :=
  let '(x, _, k) := foldl assign (inw, z0, keys) half_assignments in (x, k).

Definition castschedulekeys (m : locals) (schedule : block_state) (key : list Z) (keybytes : Z)
    : option block_state :=
  p ← for_range 0 keybytes (fun i p => k ← rd key i; wr p i k) (paddedkey0 m);
  p ← for_range (Z.max 0 keybytes) 16 (fun i p => wr p i 0) p;
  let nr := if keybytes <=? 10 then 12 else 16 in
  let x := [fetch p 0; fetch p 4; fetch p 8; fetch p 12] in
  let '(x, km) := schedulekeys_half (z_first m) x (Km schedule) in
  let '(_, krw) := schedulekeys_half (z_second m) x (Kr_wide0 m) in
  Some (mk_cast km (tab 16 (fun i => u8 (get krw i .& 0x1F))) nr).

(** [assert(0)] aborts. *)
Definition block_init (m : locals) (self : block_state) (key : list Z) (keylength : Z)
    : option block_state :=
  if (keylength <? 5) || (16 <? keylength) then None
  else castschedulekeys m self key keylength.

Definition block_encrypt (self : block_state) (inp : list Z) : list Z :=
  castcrypt self (take 8 inp) false.
Definition block_decrypt (self : block_state) (inp : list Z) : list Z :=
  castcrypt self (take 8 inp) true.

(** The state of [main], and the vectors of RFC 2144 that the file's own test
    program lists. *)
Definition zero_state : block_state := mk_cast (replicate 16 0) (replicate 16 0) 0.
Definition zero_locals : locals :=
  mk_locals (replicate 16 0) (replicate 16 0) (replicate 4 0) (replicate 4 0).

Definition encrypt (keylen : Z) (data : list Z) : option (list Z) :=
  s ← castschedulekeys zero_locals zero_state selftest_key keylen;
  Some (castcrypt s data false).

Example cast_rfc2144 :
  let data := [0x01; 0x23; 0x45; 0x67; 0x89; 0xAB; 0xCD; 0xEF] in
  (encrypt 16 data, encrypt 10 data, encrypt 5 data)
  = (Some [0x23; 0x8B; 0x4F; 0xE5; 0x84; 0x7E; 0x44; 0xB2],
     Some [0xEB; 0x6A; 0x71; 0x1A; 0x2C; 0x02; 0x27; 0x1B],
     Some [0x7A; 0xC8; 0x16; 0xD1; 0x6E; 0x9B; 0x30; 0x2E]).
Proof. vm_compute. reflexivity. Qed.

(** ** The tables and the round function are those of the first CAST5 *)
Lemma S1_eq : S1 = s1. Proof. vm_compute. reflexivity. Qed.
Lemma S2_eq : S2 = s2. Proof. vm_compute. reflexivity. Qed.
Lemma S3_eq : S3 = s3. Proof. vm_compute. reflexivity. Qed.
Lemma S4_eq : S4 = s4. Proof. vm_compute. reflexivity. Qed.
Lemma S5_eq : S5 = s5. Proof. vm_compute. reflexivity. Qed.
Lemma S6_eq : S6 = s6. Proof. vm_compute. reflexivity. Qed.
Lemma S7_eq : S7 = s7. Proof. vm_compute. reflexivity. Qed.
Lemma S8_eq : S8 = s8. Proof. vm_compute. reflexivity. Qed.

Definition type_fn (type : Z) : round_fn := if type =? 0 then F1 else if type =? 1 then F2 else F3.

Lemma rotate_rol I n : word 32 I -> word 5 n ->
  u32 (I ≪ n) .| (I ≫ (32 - n)) = rol I n.
Proof.
  intros HI Hn. unfold rol. change 31 with (2 ^ 5 - 1). rewrite !land_mask by lia.
  rewrite (wrap_small 5 n Hn). destruct (decide (n = 0)) as [->|Hn0].
  - change (wrap 5 (32 - 0)) with 0. change (32 - 0) with 32. rewrite Z.shiftl_0_r, Z.shiftr_0_r.
    rewrite (wrap_small 32 I HI), Z.lor_diag, Z.shiftr_div_pow2 by lia.
    rewrite Z.div_small by exact HI. apply Z.lor_0_r.
  - by rewrite (wrap_small 5 (32 - n)) by (unfold word in *; lia).
Qed.

Lemma castfunc_word D m r t : word 32 (castfunc D m r t).
Proof.
  unfold castfunc. destruct (t =? 0); [apply wrap_range; lia|].
  destruct (t =? 1); [|apply wrap_range; lia].
  apply word_lxor; [lia|apply wrap_range; lia|]. rewrite S4_eq. apply s4_word.
Qed.

Lemma castfunc_F D m r t : word 32 D -> word 32 m -> word 5 r ->
  castfunc D m r t = F (type_fn t) D m r.
Proof.
  intros HD Hm Hr. unfold castfunc, type_fn. rewrite S1_eq, S2_eq, S3_eq, S4_eq.
  change 0xFFFFFFFF with (2 ^ 32 - 1). rewrite land_mask by lia.
  set (J := if t =? 0 then u32 (m + D) else if t =? 1 then m .^ D else u32 (m - D)). assert (word 32 J) as HJ.
  { unfold J. destruct (t =? 0); [apply wrap_range; lia|].
    destruct (t =? 1); [apply word_lxor; [lia|assumption|assumption]|apply wrap_range; lia]. }
  rewrite (wrap_small 32 J HJ), rotate_rol by done.
  assert (((rol J r) ≫ 24) .& 0xFF = (rol J r) ≫ 24) as ->.
  { change 0xFF with (2 ^ 8 - 1). rewrite land_mask by lia. apply wrap_small.
    apply (word_shiftr_sub 32 _ 24); [lia|]. by apply rol_word. }
  unfold J, F. clear HJ J. generalize s1 s2 s3 s4. intros.
  destruct (t =? 0); [reflexivity|]. destruct (t =? 1); reflexivity.
Qed.

(** ** Blocks *)
Definition round_f (key : block_state) (r x : Z) : Z :=
  castfunc x (get (Km key) r) (get (Kr key) r) (Z.rem r 3).

(** The order in which the subkeys are used. *)
Definition order (key : block_state) (decrypt : bool) : list Z :=
  if decrypt then rev (seqZ 0 (nrounds key)) else seqZ 0 (nrounds key).

Lemma castcrypt_rounds key block (decrypt : bool) :
  castcrypt key block decrypt =
  let '(L, R) := rounds (feistel (round_f key)) (order key decrypt) (be32_at block 0, be32_at block 4) in
  store_word R ++ store_word L.
Proof.
  unfold castcrypt. rewrite loop_rounds. unfold order. destruct decrypt; cbn [negb]; [|done].
  rewrite rev_seqZ. unfold rounds. by rewrite foldl_fmap.
Qed.

Lemma store_word_be32 R : word 32 R -> store_word R = be32_bytes R.
Proof.
  intros HR. unfold store_word, be32_bytes.
  assert (forall n, n = 24 \/ n = 16 \/ n = 8 ->
    (R .& (0xff ≪ n)) ≫ n = (R ≫ n) .& 0xff) as H.
  { intros n Hn. rewrite Z.shiftr_land, Z.shiftr_shiftl_l by lia. by rewrite Z.sub_diag, Z.shiftl_0_r. }
  by rewrite <-!H by lia.
Qed.

Lemma castcrypt_inverse key block d : bytes 8 block ->
  bytes 8 (castcrypt key block d) /\ castcrypt key (castcrypt key block d) (negb d) = block.
Proof.
  intros Hb. rewrite !castcrypt_rounds.
  assert (order key (negb d) = rev (order key d)) as ->.
  { unfold order. destruct d; [symmetry; apply rev_involutive|reflexivity]. }
  generalize (order key d). intros ks.
  pose proof (feistel_words (round_f key) ks (be32_at block 0, be32_at block 4)
    (fun _ _ _ => castfunc_word _ _ _ _) (be32_at_word _ _ (proj2 Hb)) (be32_at_word _ _ (proj2 Hb))) as [Hl Hr].
  pose proof (feistel_inverse (round_f key) ks (be32_at block 0, be32_at block 4)) as Hinv.
  destruct (rounds (feistel (round_f key)) ks _) as [l r]. cbn [swap fst snd] in *.
  rewrite !store_word_be32 by done. split; [apply be32_pair_bytes|].
  destruct (be32_at_bytes r l Hr Hl) as [-> ->]. rewrite Hinv.
  rewrite !store_word_be32 by (by apply be32_at_word, Hb). by apply be32_bytes_at.
Qed.

(** ** Key schedule *)
Lemma half_assignments_eq : half_assignments = key_schedule_assignments.
Proof.
  unfold half_assignments, zxround, xzround, XZRound, Kround, key_schedule_assignments.
  cbn [app arr Z.add Pos.add Pos.succ]. rewrite S5_eq, S6_eq, S7_eq, S8_eq.
  generalize s5 s6 s7 s8. reflexivity.
Qed.

(** The schedule does not depend on what [z] and [k] held before: every entry is
    written before it is read. *)
Lemma z_frame x z z' k e0 e1 e2 e3 : length z = 4%nat -> length z' = 4%nat ->
  (forall u v, e0 x u = e0 x v) ->
  (forall a b c d b' c' d', e1 x [a; b; c; d] = e1 x [a; b'; c'; d']) ->
  (forall a b c d c' d', e2 x [a; b; c; d] = e2 x [a; b; c'; d']) ->
  (forall a b c d d', e3 x [a; b; c; d] = e3 x [a; b; c; d']) ->
  let l := [(To_z, 0, e0); (To_z, 1, e1); (To_z, 2, e2); (To_z, 3, e3)] in
  foldl assign (x, z, k) l = foldl assign (x, z', k) l.
Proof.
  intros Hz Hz' E0 E1 E2 E3 l.
  destruct z as [|a [|b [|c [|d []]]]]; try discriminate.
  destruct z' as [|a' [|b' [|c' [|d' []]]]]; try discriminate.
  unfold l. cbn [foldl assign].
  assert (forall p q r t v, set [p; q; r; t] 0 v = [v; q; r; t]) as W0 by done.
  assert (forall p q r t v, set [p; q; r; t] 1 v = [p; v; r; t]) as W1 by done.
  assert (forall p q r t v, set [p; q; r; t] 2 v = [p; q; v; t]) as W2 by done.
  assert (forall p q r t v, set [p; q; r; t] 3 v = [p; q; r; v]) as W3 by done.
  rewrite !W0, !W1, !W2, !W3.
  rewrite (E0 [a; b; c; d] [a'; b'; c'; d']). generalize (e0 x [a'; b'; c'; d']). intros v0.
  rewrite (E1 v0 b c d b' c' d'). generalize (e1 x [v0; b'; c'; d']). intros v1.
  rewrite (E2 v0 v1 c d c' d'). generalize (e2 x [v0; v1; c'; d']). intros v2.
  by rewrite (E3 v0 v1 v2 d d').
Qed.

Definition k_targets (l : list assignment) : list Z :=
  l ≫= fun '(t, i, _) => match t with To_k => [i] | _ => [] end.

Lemma k_frame l x z k k' : Forall (Z.le 0) (k_targets l) -> length k = length k' ->
  let s := foldl assign (x, z, k) l in
  let s' := foldl assign (x, z, k') l in
  s.1 = s'.1 /\ zlen s.2 = zlen k /\ zlen s'.2 = zlen k /\
  forall i, 0 <= i < zlen k -> get k i = get k' i \/ In i (k_targets l) -> get s.2 i = get s'.2 i.
Proof.
  revert x z k k'. induction l as [|[[t j] e] l IH]; intros x z k k' Ht Hl; cbn [foldl].
  { unfold zlen. split_and!; [done..|by rewrite Hl|]. by intros i ? [?|[]]. }
  destruct t; cbn [assign]; try (apply IH; done).
  apply Forall_cons in Ht as [Hj Ht].
  destruct (IH x z (set k j (e x z)) (set k' j (e x z)) Ht) as (E & H1 & H2 & H3).
  { unfold set. by rewrite !length_insert. }
  rewrite zlen_set in H1, H2, H3. split_and!; [exact E|done|done|].
  intros i Hi Hor. apply H3; [done|]. destruct (decide (i = j)) as [->|Hne].
  - left. rewrite !get_set_eq by (unfold zlen in *; lia). done.
  - destruct Hor as [Hg|[?|Hin]]; [|lia|by right].
    left. by rewrite !get_set_ne by lia.
Qed.

Lemma key_schedule_frame x z z' k k' : length z = 4%nat -> length z' = 4%nat ->
  length k = 16%nat -> length k' = 16%nat -> key_schedule (x, z, k) = key_schedule (x, z', k').
Proof.
  intros Hz Hz' Hk Hk'. transitivity (key_schedule (x, z', k)); unfold key_schedule.
  - rewrite <-(take_drop 4 key_schedule_assignments).
    rewrite !foldl_app. f_equal.
    apply z_frame; try done; intros; unfold byte_at; generalize s5 s6 s7 s8; reflexivity.
  - destruct (k_frame key_schedule_assignments x z' k k') as (E & H1 & H2 & H3).
    { change (k_targets key_schedule_assignments) with (seqZ 0 16). apply Forall_seqZ. lia. }
    { congruence. }
    destruct (foldl assign (x, z', k) key_schedule_assignments) as [s K],
      (foldl assign (x, z', k') key_schedule_assignments) as [s' K']. cbn [fst snd] in *.
    f_equal; [done|]. assert (zlen k = 16) as Hz16 by (unfold zlen; lia). rewrite Hz16 in *.
    rewrite <-(tab_get 16 K), <-(tab_get 16 K') by done. apply tab_ext. intros i Hi.
    apply H3; [done|right]. change (k_targets key_schedule_assignments) with (seqZ 0 16).
    apply list_elem_of_In, elem_of_seqZ. lia.
Qed.

(** A key of [n] bytes padded with zeros. *)
Definition padded (key : list Z) (n : Z) : list Z :=
  take (Z.to_nat n) key ++ replicate (Z.to_nat (16 - n)) 0.

Lemma padded_bytes key n : Forall (word 8) key -> 0 <= n <= 16 -> n <= zlen key ->
  bytes 16 (padded key n).
Proof.
  intros Hk Hn Hl. unfold padded, zlen in *. split.
  - rewrite length_app, length_take, length_replicate. lia.
  - apply Forall_app. split; [by apply Forall_take|]. apply Forall_replicate. unfold word; lia.
Qed.

(** What the uninitialised arrays must be for the accesses to be in range. *)
Definition locals_ok (m : locals) : Prop :=
  zlen (paddedkey0 m) = 16 /\ length (Kr_wide0 m) = 16%nat /\
  length (z_first m) = 4%nat /\ length (z_second m) = 4%nat.

Lemma pad_loops m key n : locals_ok m -> 0 <= n <= 16 -> n <= zlen key ->
  (p ← for_range 0 n (fun i p => k ← rd key i; wr p i k) (paddedkey0 m);
   for_range (Z.max 0 n) 16 (fun i p => wr p i 0) p) = Some (padded key n).
Proof.
  intros (Hp & _) Hn Hl.
  assert (forall i, 0 <= i < n -> rd key i = Some (get key i)) as Hrd.
  { intros i Hi. destruct (rd_Some key i) as [v E]; [lia|]. rewrite E. f_equal. symmetry.
    apply get_rd; [lia|done]. }
  rewrite (fill_loop _ 0 n (get key)); [|lia|lia|by intros i p Hi; rewrite Hrd].
  cbn [mbind option_bind]. rewrite Z.max_r, Hp by lia.
  rewrite (fill_loop _ n 16 (fun _ => 0)); [|lia|rewrite zlen_tab; lia|done].
  rewrite zlen_tab by lia. f_equal.
  assert (zlen (padded key n) = 16) as Hz.
  { unfold padded. rewrite zlen_app, zlen_take, zlen_replicate. lia. }
  rewrite <-(tab_get 16 (padded key n)) by done. apply tab_ext. intros i Hi.
  assert (zlen (take (Z.to_nat n) key) = n) as Ht by (rewrite zlen_take; lia).
  unfold padded. destruct (Z.leb_spec n i), (Z.ltb_spec i 16); try lia; cbn [andb].
  - rewrite get_app_r by lia. symmetry. apply get_rd; [lia|]. apply rd_replicate. lia.
  - rewrite get_app_l, get_tab by lia.
    destruct (Z.leb_spec 0 i), (Z.ltb_spec i n); try lia; cbn [andb].
    symmetry. apply get_rd; [lia|]. rewrite <-Hrd by lia.
    apply (rd_slice key 0 n); [by apply slice_0; lia|lia].
Qed.

Lemma key_schedule_fold s : foldl assign s key_schedule_assignments = key_schedule s.
Proof. reflexivity. Qed.

Lemma schedulekeys_half_eq z0 x k : length z0 = 4%nat -> length k = 16%nat -> word_list 4 x ->
  forall z k', length z = 4%nat -> length k' = 16%nat ->
  let '(x', _, ks) := key_schedule (x, z, k') in schedulekeys_half z0 x k = (x', ks).
Proof.
  intros Hz0 Hk Hx z k' Hz Hk'. unfold schedulekeys_half. rewrite half_assignments_eq.
  rewrite key_schedule_fold,  (key_schedule_frame x z0 z k k') by done.
  by destruct (key_schedule (x, z, k')) as [[]].
Qed.

Lemma castschedulekeys_eq m self key n : locals_ok m -> length (Km self) = 16%nat ->
  Forall (word 8) key -> 0 <= n <= 16 -> n <= zlen key ->
  let c := cast_schedule (padded key n) in
  castschedulekeys m self key n = Some (mk_cast (Cast5.Km c) (Cast5.Kr c) (if n <=? 10 then 12 else 16)).
Proof.
  intros Hm HK Hb Hn Hl. cbv zeta. unfold castschedulekeys.
  pose proof (pad_loops m key n Hm Hn Hl) as Hpad.
  destruct (for_range 0 n _ _) as [p0|]; [|done]. cbn [mbind option_bind] in *. rewrite Hpad.
  cbn [mbind option_bind]. unfold fetch, cast_schedule.
  destruct (padded_bytes key n Hb Hn Hl) as [_ Hw]. generalize dependent (padded key n). intros p _ Hw.
  set (x0 := [be32_at p 0; be32_at p 4; be32_at p 8; be32_at p 12]).
  assert (word_list 4 x0) as Hx0 by (split; [done|]; Forall_list (by apply be32_at_word)).
  destruct Hm as (_ & Hkw & Hz1 & Hz2).
  assert (schedule_ok (x0, replicate 4 0, replicate 16 0)) as H0
    by (split_and!; [done|apply word_list_replicate..]).
  pose proof (key_schedule_words _ H0) as H1.
  pose proof (schedulekeys_half_eq (z_first m) x0 (Km self) Hz1 HK Hx0
    (replicate 4 0) (replicate 16 0) eq_refl eq_refl) as E1.
  destruct (key_schedule (x0, _, _)) as [[x1 z1] k1]. rewrite E1.
  pose proof (key_schedule_words _ H1) as H2. destruct H1 as (Hx1 & [Hlz _] & [Hlk _]).
  pose proof (schedulekeys_half_eq (z_second m) x1 (Kr_wide0 m) Hz2 Hkw Hx1 z1 k1 Hlz Hlk) as E2.
  destruct (key_schedule (x1, z1, k1)) as [[x2 z2] k2]. rewrite E2. cbn [Cast5.Km Cast5.Kr].
  destruct H2 as (_ & _ & [Hl2 _]). do 2 f_equal.
  rewrite <-(tab_get 16 k2) at 1 by (unfold zlen; lia). unfold tab.
  rewrite <-list_fmap_compose. apply list_fmap_ext. intros _ i _. cbn [compose].
  apply wrap_small. apply (word_mono 5 8); [|lia]. exact (word_land_r 5 (get k2 i) 0x1F ltac:(lia) ltac:(split; lia)).
Qed.

(** On a schedule of 16 rounds the function is that of [Cast5]. *)
Lemma castcrypt_16 c block : cast5_ok c -> bytes 8 block ->
  let key := mk_cast (Cast5.Km c) (Cast5.Kr c) 16 in
  castcrypt key block false = do_encrypt_block c block /\
  castcrypt key block true = do_decrypt_block c block.
Proof.
  intros (Hm & Hrl & Hr) Hb key. rewrite !castcrypt_rounds.
  assert (forall calls x, word 32 x.1 -> word 32 x.2 ->
    Forall (fun r => 0 <= r < 16) calls ->
    rounds (feistel (round_f key)) calls x =
    rounds (cast_round c) ((fun r => (type_fn (Z.rem r 3), r)) <$> calls) x) as E.
  { intros calls. induction calls as [|r calls IH]; intros [L R] HL HR Hc; [done|].
    apply Forall_cons in Hc as [Hr16 Hc]. unfold rounds in *. rewrite fmap_cons. cbn [foldl].
    assert (feistel (round_f key) r (L, R) = cast_round c (type_fn (Z.rem r 3), r) (L, R)) as ->.
    { unfold feistel, round_f, cast_round. cbn [fst snd key Km Kr]. do 2 f_equal.
      apply castfunc_F; [done|by apply (word_list_get 16)|].
      by apply get_word. }
    apply IH; [done| |done]. cbn [cast_round fst snd]. apply word_lxor; [lia|done|apply F_word]. }
  destruct Hb as [_ Hb].
  assert (forall d, Forall (fun r => 0 <= r < 16) (order key d)) as Hord.
  { intros d. apply List.Forall_forall. intros r Hr'. unfold order in Hr'.
    assert (In r (seqZ 0 16)) as Hin by (destruct d; [by apply in_rev|done]).
    apply list_elem_of_In, elem_of_seqZ in Hin. lia. }
  rewrite !E by (by apply be32_at_word) || apply Hord.
  change (_ <$> order key false) with encrypt_calls.
  change (_ <$> order key true) with decrypt_calls.
  pose proof (fun calls => feistel_words (cast_f c) calls (be32_at block 0, be32_at block 4)
    (fun _ _ _ => F_word _ _ _ _) (be32_at_word _ _ Hb) (be32_at_word _ _ Hb)) as HW.
  change (feistel (cast_f c)) with (cast_round c) in HW.
  unfold do_encrypt_block, do_decrypt_block. split.
  - destruct (HW encrypt_calls) as [Hl Hr']. destruct (rounds (cast_round c) encrypt_calls _).
    by rewrite !store_word_be32.
  - destruct (HW decrypt_calls) as [Hl Hr']. destruct (rounds (cast_round c) decrypt_calls _).
    by rewrite !store_word_be32.
Qed.

(** ** Properties *)

(** The key setup aborts exactly on keys outside 5 to 16 bytes; otherwise it leaves 12
    rounds for at most 10 bytes and 16 for more, and decryption undoes encryption, and
    encryption decryption, on every block. *)
Lemma pycast_init_and_blocks m self key n blk :
  locals_ok m -> length (Km self) = 16%nat -> Forall (word 8) key -> n <= zlen key -> bytes 8 blk ->
  match block_init m self key n with
  | Some self' => 5 <= n <= 16 /\ nrounds self' = (if n <=? 10 then 12 else 16) /\
      bytes 8 (block_encrypt self' blk) /\
      block_decrypt self' (block_encrypt self' blk) = blk /\
      block_encrypt self' (block_decrypt self' blk) = blk
  | None => ~ (5 <= n <= 16)
  end.
Proof.
  intros Hm HK Hb Hl Hblk. unfold block_init.
  destruct (Z.ltb_spec n 5); [cbn; lia|]. destruct (Z.ltb_spec 16 n); [cbn; lia|]. cbn [orb].
  rewrite castschedulekeys_eq by (done || lia). cbn [nrounds]. split; [lia|]. split; [done|].
  set (key' := mk_cast _ _ _). clearbody key'.
  assert (forall l, bytes 8 l -> take 8 l = l) as Ht.
  { intros l [Hl8 _]. apply take_ge. lia. }
  unfold block_encrypt, block_decrypt. rewrite (Ht blk Hblk).
  destruct (castcrypt_inverse key' blk false Hblk) as [He Hd].
  destruct (castcrypt_inverse key' blk true Hblk) as [He' Hd']. cbn [negb] in *.
  by rewrite (Ht _ He), (Ht _ He').
Qed.

(** For keys of 11 to 16 bytes the two CAST5 implementations agree. *)
Lemma pycast_refines_cast5 m self key n blk :
  locals_ok m -> length (Km self) = 16%nat -> Forall (word 8) key -> 11 <= n <= 16 -> n <= zlen key ->
  bytes 8 blk ->
  exists self', block_init m self key n = Some self' /\
    let c := cast_schedule (padded key n) in
    block_encrypt self' blk = do_encrypt_block c blk /\
    block_decrypt self' blk = do_decrypt_block c blk.
Proof.
  intros Hm HK Hb Hn Hl Hblk. unfold block_init.
  destruct (Z.ltb_spec n 5); [lia|]. destruct (Z.ltb_spec 16 n); [lia|]. cbn [orb].
  rewrite castschedulekeys_eq by (done || lia). eexists. split; [reflexivity|].
  destruct (Z.leb_spec n 10); [lia|]. cbv zeta.
  unfold block_encrypt, block_decrypt. destruct Hblk as [Hl8 Hw].
  rewrite (take_ge blk 8) by lia. apply castcrypt_16; [|done].
  apply cast_schedule_ok. apply padded_bytes; [done|lia|done].
Qed.

(** C38. The key setup aborts exactly on keys outside 5 to 16 bytes.  Otherwise it leaves
    12 rounds for at most 10 bytes and 16 for more, decryption undoes encryption, and
    encryption decryption, on every block; and with 16 rounds both functions compute what
    the CAST5 of libgcrypt computes with the key padded with zeros. *)
Theorem pycast_correct m self key n blk :
  locals_ok m -> length (Km self) = 16%nat -> Forall (word 8) key -> n <= zlen key -> bytes 8 blk ->
  match block_init m self key n with
  | Some self' => 5 <= n <= 16 /\ nrounds self' = (if n <=? 10 then 12 else 16) /\
      bytes 8 (block_encrypt self' blk) /\
      block_decrypt self' (block_encrypt self' blk) = blk /\
      block_encrypt self' (block_decrypt self' blk) = blk /\
      (11 <= n -> let c := cast_schedule (padded key n) in
        block_encrypt self' blk = do_encrypt_block c blk /\ block_decrypt self' blk = do_decrypt_block c blk)
  | None => ~ (5 <= n <= 16)
  end.
Proof.
  intros Hm HK Hb Hl Hblk. pose proof (pycast_init_and_blocks m self key n blk Hm HK Hb Hl Hblk) as H.
  destruct (block_init m self key n) as [self'|] eqn:E; [|exact H]. destruct H as (Hn & Hr & H1 & H2 & H3).
  split_and!; [lia..|exact Hr|exact H1|exact H2|exact H3|].
  intros Hge. destruct (pycast_refines_cast5 m self key n blk Hm HK Hb ltac:(lia) Hl Hblk) as (self1 & E1 & H).
  rewrite E in E1. injection E1 as <-. exact H.
Qed.

Lemma pycast_correct_witness :
  match block_init zero_locals zero_state selftest_key 16 with
  | Some self' => block_decrypt self' (block_encrypt self' [1; 2; 3; 4; 5; 6; 7; 8]) = [1; 2; 3; 4; 5; 6; 7; 8] /\
      block_encrypt self' [1; 2; 3; 4; 5; 6; 7; 8] =
        do_encrypt_block (cast_schedule (padded selftest_key 16)) [1; 2; 3; 4; 5; 6; 7; 8]
  | None => False
  end.
Proof.
  pose proof (pycast_correct zero_locals zero_state selftest_key 16 [1; 2; 3; 4; 5; 6; 7; 8]
    ltac:(split_and!; reflexivity) eq_refl (words_b_Forall 8 selftest_key eq_refl)
    ltac:(vm_compute; discriminate) (conj eq_refl (words_b_Forall 8 [1; 2; 3; 4; 5; 6; 7; 8] eq_refl))) as H.
  destruct (block_init _ _ _ _); [|apply H; lia]. destruct H as (_ & _ & _ & H & _ & H'). exact (conj H (proj1 (H' ltac:(lia)))).
Defined.
